(** * The ship model of the shipyard: slots, priority bands and aggregates

    A shallow embedding of [app/js/shipyard/factory-ship.js].  The [Ship]
    prototype keeps a set of equipment slots and a number of aggregates
    (cost, mass, capacities, power per priority band, jump ranges, shield
    strength, damage per second) that every mutating method adjusts by the
    difference between the component leaving a slot and the one entering
    it.  [buildWith] recomputes all of them from the slot contents.

    Conventions of the embedding.

    - Numbers.  The source computes with JavaScript numbers, that is in
      binary64.  The model takes them as exact integers ([Z]); on
      integral data below 2^53 the operations [+], [-] and [*] of the
      source are exactly these.  What is proved of sums that the
      methods add to and subtract from is therefore proved of the
      source on integral data (costs, masses, capacities, power draws
      and cost multipliers that are integers); on fractional data the
      source rounds, and [x + d - d] need not be [x]: [Module Binary64]
      evaluates the assignments concerned in the arithmetic of the
      source.  A numeric property that a catalogue record does not
      carry reads as [0]: the source guards such reads by truthiness
      ([n.cost], [n.power], [n.dps], [n.mass || 0]), and the guards do
      not tell the absent field from zero.
    - Objects and aliasing.  A slot object lives in exactly one place of
      the ship (the bulkheads, the cargo hatch, the ship entry, or a
      position of [standard], [hardpoints] or [internal]); the methods
      receive a reference to it.  The model passes a [SlotRef] and reads
      and writes the slot through the ship, so that every view of the
      slot ([costList], [powerList], the slot groups) sees the update.
    - Exceptions.  A method that reads a property of [null] or
      [undefined] throws a [TypeError].  Methods therefore return
      [option]: [None] is the throw, and the caller sees no result.
    - Collaborators.  The component catalogue ([Components]), the table
      [ArmourMultiplier] and the formulas ([calcShieldStrength],
      [calcJumpRange], [calcTotalRange], [calcSpeed]) are injected into
      the factory; they are the variables of [Section ShipFactory]. *)

From stdpp Require Import base tactics option list sets numbers strings pretty.
From Stdlib Require Import Floats.

Open Scope Z_scope.

(** ** Data *)

(** A record of the component catalogue.  [grp] is the group tag, the
    string the source switches on. *)
Record Component : Type := Build_Component {
  grp : string;
  cost : Z;
  mass : Z;
  power : Z;
  capacity : Z;
  armouradd : Z;
  shieldmul : Z;
  dps : Z;
  passive : bool;
  pGen : Z;
  maxfuel : Z
}.

(** The [type] property of a slot. *)
Inductive SlotType : Type := SYS | ENG | WEP | SHIP | NoType.

(** A slot object.  [cat], [enabled], [priority] and [type] are assigned
    by [buildWith]; [cat] is [None] while the property is undefined, and
    an undefined [enabled] is the falsy [false]. *)
Record Slot : Type := Build_Slot {
  id : option string;
  c : option Component;
  incCost : bool;
  maxClass : Z;
  cat : option Z;
  enabled : bool;
  priority : Z;
  type : SlotType;
  discountedCost : Z
}.

Definition set_id (v : option string) (sl : Slot) : Slot :=
  Build_Slot v (c sl) (incCost sl) (maxClass sl) (cat sl) (enabled sl) (priority sl)
    (type sl) (discountedCost sl).

Definition set_c (v : option Component) (sl : Slot) : Slot :=
  Build_Slot (id sl) v (incCost sl) (maxClass sl) (cat sl) (enabled sl) (priority sl)
    (type sl) (discountedCost sl).

Definition set_incCost (v : bool) (sl : Slot) : Slot :=
  Build_Slot (id sl) (c sl) v (maxClass sl) (cat sl) (enabled sl) (priority sl) (type sl)
    (discountedCost sl).

Definition set_cat (v : option Z) (sl : Slot) : Slot :=
  Build_Slot (id sl) (c sl) (incCost sl) (maxClass sl) v (enabled sl) (priority sl)
    (type sl) (discountedCost sl).

Definition set_enabled (v : bool) (sl : Slot) : Slot :=
  Build_Slot (id sl) (c sl) (incCost sl) (maxClass sl) (cat sl) v (priority sl) (type sl)
    (discountedCost sl).

Definition set_priority (v : Z) (sl : Slot) : Slot :=
  Build_Slot (id sl) (c sl) (incCost sl) (maxClass sl) (cat sl) (enabled sl) v (type sl)
    (discountedCost sl).

Definition set_type (v : SlotType) (sl : Slot) : Slot :=
  Build_Slot (id sl) (c sl) (incCost sl) (maxClass sl) (cat sl) (enabled sl) (priority sl) v
    (discountedCost sl).

Definition set_discountedCost (v : Z) (sl : Slot) : Slot :=
  Build_Slot (id sl) (c sl) (incCost sl) (maxClass sl) (cat sl) (enabled sl) (priority sl)
    (type sl) v.

(** One entry of [priorityBands]: the raw sums of the tier and the
    cumulative sums that [updatePower] writes. *)
Record Band : Type := Build_Band {
  deployed : Z;
  retracted : Z;
  retOnly : Z;
  retractedSum : Z;
  deployedSum : Z
}.

Definition set_deployed (v : Z) (b : Band) : Band :=
  Build_Band v (retracted b) (retOnly b) (retractedSum b) (deployedSum b).

Definition set_retracted (v : Z) (b : Band) : Band :=
  Build_Band (deployed b) v (retOnly b) (retractedSum b) (deployedSum b).

Definition set_retOnly (v : Z) (b : Band) : Band :=
  Build_Band (deployed b) (retracted b) v (retractedSum b) (deployedSum b).

Definition set_retractedSum (v : Z) (b : Band) : Band :=
  Build_Band (deployed b) (retracted b) (retOnly b) v (deployedSum b).

Definition set_deployedSum (v : Z) (b : Band) : Band :=
  Build_Band (deployed b) (retracted b) (retOnly b) (retractedSum b) v.

(** The key of a band that [powerUsageType] returns. *)
Inductive PowerUsage : Type := Deployed | Retracted.

(** The base properties that the constructor copies from the ship data. *)
Record Properties : Type := Build_Properties {
  hullMass : Z;
  hullCost : Z;
  baseArmour : Z;
  baseShieldStrength : Z;
  speed : Z;
  boost : Z;
  pipSpeed : Z
}.

(** The ship object.  [shipId] is [this.id] and [shipC] is [this.c], the
    entry that stands for the hull in the cost list.  The bulkheads slot
    carries a number in its [id], the index of the armour; it is kept in
    [bulkheadsId], the ids of all other slots being strings. *)
Record Ship : Type := Build_Ship {
  shipId : string;
  props : Properties;
  cargoHatch : Slot;
  bulkheads : Slot;
  bulkheadsId : Z;
  shipC : Slot;
  standard : list Slot;
  hardpoints : list Slot;
  internal : list Slot;
  shipCostMultiplier : Z;
  componentCostMultiplier : Z;
  priorityBands : list Band;
  fuelCapacity : Z;
  cargoCapacity : Z;
  ladenMass : Z;
  armourAdded : Z;
  armourMultiplier : Z;
  shieldMultiplier : Z;
  totalCost : Z;
  unladenMass : Z;
  totalDps : Z;
  armour : Z;
  powerAvailable : Z;
  powerRetracted : Z;
  powerDeployed : Z;
  topSpeed : Z;
  topBoost : Z;
  shieldStrength : Z;
  unladenRange : Z;
  fullTankRange : Z;
  ladenRange : Z;
  unladenTotalRange : Z;
  ladenTotalRange : Z;
  maxJumpCount : Z
}.

Definition set_cargoHatch (v : Slot) (s : Ship) : Ship :=
  Build_Ship (shipId s) (props s) v (bulkheads s) (bulkheadsId s) (shipC s) (standard s)
    (hardpoints s) (internal s) (shipCostMultiplier s) (componentCostMultiplier s)
    (priorityBands s) (fuelCapacity s) (cargoCapacity s) (ladenMass s) (armourAdded s)
    (armourMultiplier s) (shieldMultiplier s) (totalCost s) (unladenMass s) (totalDps s)
    (armour s) (powerAvailable s) (powerRetracted s) (powerDeployed s) (topSpeed s)
    (topBoost s) (shieldStrength s) (unladenRange s) (fullTankRange s) (ladenRange s)
    (unladenTotalRange s) (ladenTotalRange s) (maxJumpCount s).

Definition set_bulkheads (v : Slot) (s : Ship) : Ship :=
  Build_Ship (shipId s) (props s) (cargoHatch s) v (bulkheadsId s) (shipC s) (standard s)
    (hardpoints s) (internal s) (shipCostMultiplier s) (componentCostMultiplier s)
    (priorityBands s) (fuelCapacity s) (cargoCapacity s) (ladenMass s) (armourAdded s)
    (armourMultiplier s) (shieldMultiplier s) (totalCost s) (unladenMass s) (totalDps s)
    (armour s) (powerAvailable s) (powerRetracted s) (powerDeployed s) (topSpeed s)
    (topBoost s) (shieldStrength s) (unladenRange s) (fullTankRange s) (ladenRange s)
    (unladenTotalRange s) (ladenTotalRange s) (maxJumpCount s).

Definition set_bulkheadsId (v : Z) (s : Ship) : Ship :=
  Build_Ship (shipId s) (props s) (cargoHatch s) (bulkheads s) v (shipC s) (standard s)
    (hardpoints s) (internal s) (shipCostMultiplier s) (componentCostMultiplier s)
    (priorityBands s) (fuelCapacity s) (cargoCapacity s) (ladenMass s) (armourAdded s)
    (armourMultiplier s) (shieldMultiplier s) (totalCost s) (unladenMass s) (totalDps s)
    (armour s) (powerAvailable s) (powerRetracted s) (powerDeployed s) (topSpeed s)
    (topBoost s) (shieldStrength s) (unladenRange s) (fullTankRange s) (ladenRange s)
    (unladenTotalRange s) (ladenTotalRange s) (maxJumpCount s).

Definition set_shipC (v : Slot) (s : Ship) : Ship :=
  Build_Ship (shipId s) (props s) (cargoHatch s) (bulkheads s) (bulkheadsId s) v
    (standard s) (hardpoints s) (internal s) (shipCostMultiplier s)
    (componentCostMultiplier s) (priorityBands s) (fuelCapacity s) (cargoCapacity s)
    (ladenMass s) (armourAdded s) (armourMultiplier s) (shieldMultiplier s) (totalCost s)
    (unladenMass s) (totalDps s) (armour s) (powerAvailable s) (powerRetracted s)
    (powerDeployed s) (topSpeed s) (topBoost s) (shieldStrength s) (unladenRange s)
    (fullTankRange s) (ladenRange s) (unladenTotalRange s) (ladenTotalRange s)
    (maxJumpCount s).

Definition set_standard (v : list Slot) (s : Ship) : Ship :=
  Build_Ship (shipId s) (props s) (cargoHatch s) (bulkheads s) (bulkheadsId s) (shipC s) v
    (hardpoints s) (internal s) (shipCostMultiplier s) (componentCostMultiplier s)
    (priorityBands s) (fuelCapacity s) (cargoCapacity s) (ladenMass s) (armourAdded s)
    (armourMultiplier s) (shieldMultiplier s) (totalCost s) (unladenMass s) (totalDps s)
    (armour s) (powerAvailable s) (powerRetracted s) (powerDeployed s) (topSpeed s)
    (topBoost s) (shieldStrength s) (unladenRange s) (fullTankRange s) (ladenRange s)
    (unladenTotalRange s) (ladenTotalRange s) (maxJumpCount s).

Definition set_hardpoints (v : list Slot) (s : Ship) : Ship :=
  Build_Ship (shipId s) (props s) (cargoHatch s) (bulkheads s) (bulkheadsId s) (shipC s)
    (standard s) v (internal s) (shipCostMultiplier s) (componentCostMultiplier s)
    (priorityBands s) (fuelCapacity s) (cargoCapacity s) (ladenMass s) (armourAdded s)
    (armourMultiplier s) (shieldMultiplier s) (totalCost s) (unladenMass s) (totalDps s)
    (armour s) (powerAvailable s) (powerRetracted s) (powerDeployed s) (topSpeed s)
    (topBoost s) (shieldStrength s) (unladenRange s) (fullTankRange s) (ladenRange s)
    (unladenTotalRange s) (ladenTotalRange s) (maxJumpCount s).

Definition set_internal (v : list Slot) (s : Ship) : Ship :=
  Build_Ship (shipId s) (props s) (cargoHatch s) (bulkheads s) (bulkheadsId s) (shipC s)
    (standard s) (hardpoints s) v (shipCostMultiplier s) (componentCostMultiplier s)
    (priorityBands s) (fuelCapacity s) (cargoCapacity s) (ladenMass s) (armourAdded s)
    (armourMultiplier s) (shieldMultiplier s) (totalCost s) (unladenMass s) (totalDps s)
    (armour s) (powerAvailable s) (powerRetracted s) (powerDeployed s) (topSpeed s)
    (topBoost s) (shieldStrength s) (unladenRange s) (fullTankRange s) (ladenRange s)
    (unladenTotalRange s) (ladenTotalRange s) (maxJumpCount s).

Definition set_shipCostMultiplier (v : Z) (s : Ship) : Ship :=
  Build_Ship (shipId s) (props s) (cargoHatch s) (bulkheads s) (bulkheadsId s) (shipC s)
    (standard s) (hardpoints s) (internal s) v (componentCostMultiplier s) (priorityBands s)
    (fuelCapacity s) (cargoCapacity s) (ladenMass s) (armourAdded s) (armourMultiplier s)
    (shieldMultiplier s) (totalCost s) (unladenMass s) (totalDps s) (armour s)
    (powerAvailable s) (powerRetracted s) (powerDeployed s) (topSpeed s) (topBoost s)
    (shieldStrength s) (unladenRange s) (fullTankRange s) (ladenRange s)
    (unladenTotalRange s) (ladenTotalRange s) (maxJumpCount s).

Definition set_componentCostMultiplier (v : Z) (s : Ship) : Ship :=
  Build_Ship (shipId s) (props s) (cargoHatch s) (bulkheads s) (bulkheadsId s) (shipC s)
    (standard s) (hardpoints s) (internal s) (shipCostMultiplier s) v (priorityBands s)
    (fuelCapacity s) (cargoCapacity s) (ladenMass s) (armourAdded s) (armourMultiplier s)
    (shieldMultiplier s) (totalCost s) (unladenMass s) (totalDps s) (armour s)
    (powerAvailable s) (powerRetracted s) (powerDeployed s) (topSpeed s) (topBoost s)
    (shieldStrength s) (unladenRange s) (fullTankRange s) (ladenRange s)
    (unladenTotalRange s) (ladenTotalRange s) (maxJumpCount s).

Definition set_priorityBands (v : list Band) (s : Ship) : Ship :=
  Build_Ship (shipId s) (props s) (cargoHatch s) (bulkheads s) (bulkheadsId s) (shipC s)
    (standard s) (hardpoints s) (internal s) (shipCostMultiplier s)
    (componentCostMultiplier s) v (fuelCapacity s) (cargoCapacity s) (ladenMass s)
    (armourAdded s) (armourMultiplier s) (shieldMultiplier s) (totalCost s) (unladenMass s)
    (totalDps s) (armour s) (powerAvailable s) (powerRetracted s) (powerDeployed s)
    (topSpeed s) (topBoost s) (shieldStrength s) (unladenRange s) (fullTankRange s)
    (ladenRange s) (unladenTotalRange s) (ladenTotalRange s) (maxJumpCount s).

Definition set_fuelCapacity (v : Z) (s : Ship) : Ship :=
  Build_Ship (shipId s) (props s) (cargoHatch s) (bulkheads s) (bulkheadsId s) (shipC s)
    (standard s) (hardpoints s) (internal s) (shipCostMultiplier s)
    (componentCostMultiplier s) (priorityBands s) v (cargoCapacity s) (ladenMass s)
    (armourAdded s) (armourMultiplier s) (shieldMultiplier s) (totalCost s) (unladenMass s)
    (totalDps s) (armour s) (powerAvailable s) (powerRetracted s) (powerDeployed s)
    (topSpeed s) (topBoost s) (shieldStrength s) (unladenRange s) (fullTankRange s)
    (ladenRange s) (unladenTotalRange s) (ladenTotalRange s) (maxJumpCount s).

Definition set_cargoCapacity (v : Z) (s : Ship) : Ship :=
  Build_Ship (shipId s) (props s) (cargoHatch s) (bulkheads s) (bulkheadsId s) (shipC s)
    (standard s) (hardpoints s) (internal s) (shipCostMultiplier s)
    (componentCostMultiplier s) (priorityBands s) (fuelCapacity s) v (ladenMass s)
    (armourAdded s) (armourMultiplier s) (shieldMultiplier s) (totalCost s) (unladenMass s)
    (totalDps s) (armour s) (powerAvailable s) (powerRetracted s) (powerDeployed s)
    (topSpeed s) (topBoost s) (shieldStrength s) (unladenRange s) (fullTankRange s)
    (ladenRange s) (unladenTotalRange s) (ladenTotalRange s) (maxJumpCount s).

Definition set_ladenMass (v : Z) (s : Ship) : Ship :=
  Build_Ship (shipId s) (props s) (cargoHatch s) (bulkheads s) (bulkheadsId s) (shipC s)
    (standard s) (hardpoints s) (internal s) (shipCostMultiplier s)
    (componentCostMultiplier s) (priorityBands s) (fuelCapacity s) (cargoCapacity s) v
    (armourAdded s) (armourMultiplier s) (shieldMultiplier s) (totalCost s) (unladenMass s)
    (totalDps s) (armour s) (powerAvailable s) (powerRetracted s) (powerDeployed s)
    (topSpeed s) (topBoost s) (shieldStrength s) (unladenRange s) (fullTankRange s)
    (ladenRange s) (unladenTotalRange s) (ladenTotalRange s) (maxJumpCount s).

Definition set_armourAdded (v : Z) (s : Ship) : Ship :=
  Build_Ship (shipId s) (props s) (cargoHatch s) (bulkheads s) (bulkheadsId s) (shipC s)
    (standard s) (hardpoints s) (internal s) (shipCostMultiplier s)
    (componentCostMultiplier s) (priorityBands s) (fuelCapacity s) (cargoCapacity s)
    (ladenMass s) v (armourMultiplier s) (shieldMultiplier s) (totalCost s) (unladenMass s)
    (totalDps s) (armour s) (powerAvailable s) (powerRetracted s) (powerDeployed s)
    (topSpeed s) (topBoost s) (shieldStrength s) (unladenRange s) (fullTankRange s)
    (ladenRange s) (unladenTotalRange s) (ladenTotalRange s) (maxJumpCount s).

Definition set_armourMultiplier (v : Z) (s : Ship) : Ship :=
  Build_Ship (shipId s) (props s) (cargoHatch s) (bulkheads s) (bulkheadsId s) (shipC s)
    (standard s) (hardpoints s) (internal s) (shipCostMultiplier s)
    (componentCostMultiplier s) (priorityBands s) (fuelCapacity s) (cargoCapacity s)
    (ladenMass s) (armourAdded s) v (shieldMultiplier s) (totalCost s) (unladenMass s)
    (totalDps s) (armour s) (powerAvailable s) (powerRetracted s) (powerDeployed s)
    (topSpeed s) (topBoost s) (shieldStrength s) (unladenRange s) (fullTankRange s)
    (ladenRange s) (unladenTotalRange s) (ladenTotalRange s) (maxJumpCount s).

Definition set_shieldMultiplier (v : Z) (s : Ship) : Ship :=
  Build_Ship (shipId s) (props s) (cargoHatch s) (bulkheads s) (bulkheadsId s) (shipC s)
    (standard s) (hardpoints s) (internal s) (shipCostMultiplier s)
    (componentCostMultiplier s) (priorityBands s) (fuelCapacity s) (cargoCapacity s)
    (ladenMass s) (armourAdded s) (armourMultiplier s) v (totalCost s) (unladenMass s)
    (totalDps s) (armour s) (powerAvailable s) (powerRetracted s) (powerDeployed s)
    (topSpeed s) (topBoost s) (shieldStrength s) (unladenRange s) (fullTankRange s)
    (ladenRange s) (unladenTotalRange s) (ladenTotalRange s) (maxJumpCount s).

Definition set_totalCost (v : Z) (s : Ship) : Ship :=
  Build_Ship (shipId s) (props s) (cargoHatch s) (bulkheads s) (bulkheadsId s) (shipC s)
    (standard s) (hardpoints s) (internal s) (shipCostMultiplier s)
    (componentCostMultiplier s) (priorityBands s) (fuelCapacity s) (cargoCapacity s)
    (ladenMass s) (armourAdded s) (armourMultiplier s) (shieldMultiplier s) v
    (unladenMass s) (totalDps s) (armour s) (powerAvailable s) (powerRetracted s)
    (powerDeployed s) (topSpeed s) (topBoost s) (shieldStrength s) (unladenRange s)
    (fullTankRange s) (ladenRange s) (unladenTotalRange s) (ladenTotalRange s)
    (maxJumpCount s).

Definition set_unladenMass (v : Z) (s : Ship) : Ship :=
  Build_Ship (shipId s) (props s) (cargoHatch s) (bulkheads s) (bulkheadsId s) (shipC s)
    (standard s) (hardpoints s) (internal s) (shipCostMultiplier s)
    (componentCostMultiplier s) (priorityBands s) (fuelCapacity s) (cargoCapacity s)
    (ladenMass s) (armourAdded s) (armourMultiplier s) (shieldMultiplier s) (totalCost s) v
    (totalDps s) (armour s) (powerAvailable s) (powerRetracted s) (powerDeployed s)
    (topSpeed s) (topBoost s) (shieldStrength s) (unladenRange s) (fullTankRange s)
    (ladenRange s) (unladenTotalRange s) (ladenTotalRange s) (maxJumpCount s).

Definition set_totalDps (v : Z) (s : Ship) : Ship :=
  Build_Ship (shipId s) (props s) (cargoHatch s) (bulkheads s) (bulkheadsId s) (shipC s)
    (standard s) (hardpoints s) (internal s) (shipCostMultiplier s)
    (componentCostMultiplier s) (priorityBands s) (fuelCapacity s) (cargoCapacity s)
    (ladenMass s) (armourAdded s) (armourMultiplier s) (shieldMultiplier s) (totalCost s)
    (unladenMass s) v (armour s) (powerAvailable s) (powerRetracted s) (powerDeployed s)
    (topSpeed s) (topBoost s) (shieldStrength s) (unladenRange s) (fullTankRange s)
    (ladenRange s) (unladenTotalRange s) (ladenTotalRange s) (maxJumpCount s).

Definition set_armour (v : Z) (s : Ship) : Ship :=
  Build_Ship (shipId s) (props s) (cargoHatch s) (bulkheads s) (bulkheadsId s) (shipC s)
    (standard s) (hardpoints s) (internal s) (shipCostMultiplier s)
    (componentCostMultiplier s) (priorityBands s) (fuelCapacity s) (cargoCapacity s)
    (ladenMass s) (armourAdded s) (armourMultiplier s) (shieldMultiplier s) (totalCost s)
    (unladenMass s) (totalDps s) v (powerAvailable s) (powerRetracted s) (powerDeployed s)
    (topSpeed s) (topBoost s) (shieldStrength s) (unladenRange s) (fullTankRange s)
    (ladenRange s) (unladenTotalRange s) (ladenTotalRange s) (maxJumpCount s).

Definition set_powerAvailable (v : Z) (s : Ship) : Ship :=
  Build_Ship (shipId s) (props s) (cargoHatch s) (bulkheads s) (bulkheadsId s) (shipC s)
    (standard s) (hardpoints s) (internal s) (shipCostMultiplier s)
    (componentCostMultiplier s) (priorityBands s) (fuelCapacity s) (cargoCapacity s)
    (ladenMass s) (armourAdded s) (armourMultiplier s) (shieldMultiplier s) (totalCost s)
    (unladenMass s) (totalDps s) (armour s) v (powerRetracted s) (powerDeployed s)
    (topSpeed s) (topBoost s) (shieldStrength s) (unladenRange s) (fullTankRange s)
    (ladenRange s) (unladenTotalRange s) (ladenTotalRange s) (maxJumpCount s).

Definition set_powerRetracted (v : Z) (s : Ship) : Ship :=
  Build_Ship (shipId s) (props s) (cargoHatch s) (bulkheads s) (bulkheadsId s) (shipC s)
    (standard s) (hardpoints s) (internal s) (shipCostMultiplier s)
    (componentCostMultiplier s) (priorityBands s) (fuelCapacity s) (cargoCapacity s)
    (ladenMass s) (armourAdded s) (armourMultiplier s) (shieldMultiplier s) (totalCost s)
    (unladenMass s) (totalDps s) (armour s) (powerAvailable s) v (powerDeployed s)
    (topSpeed s) (topBoost s) (shieldStrength s) (unladenRange s) (fullTankRange s)
    (ladenRange s) (unladenTotalRange s) (ladenTotalRange s) (maxJumpCount s).

Definition set_powerDeployed (v : Z) (s : Ship) : Ship :=
  Build_Ship (shipId s) (props s) (cargoHatch s) (bulkheads s) (bulkheadsId s) (shipC s)
    (standard s) (hardpoints s) (internal s) (shipCostMultiplier s)
    (componentCostMultiplier s) (priorityBands s) (fuelCapacity s) (cargoCapacity s)
    (ladenMass s) (armourAdded s) (armourMultiplier s) (shieldMultiplier s) (totalCost s)
    (unladenMass s) (totalDps s) (armour s) (powerAvailable s) (powerRetracted s) v
    (topSpeed s) (topBoost s) (shieldStrength s) (unladenRange s) (fullTankRange s)
    (ladenRange s) (unladenTotalRange s) (ladenTotalRange s) (maxJumpCount s).

Definition set_topSpeed (v : Z) (s : Ship) : Ship :=
  Build_Ship (shipId s) (props s) (cargoHatch s) (bulkheads s) (bulkheadsId s) (shipC s)
    (standard s) (hardpoints s) (internal s) (shipCostMultiplier s)
    (componentCostMultiplier s) (priorityBands s) (fuelCapacity s) (cargoCapacity s)
    (ladenMass s) (armourAdded s) (armourMultiplier s) (shieldMultiplier s) (totalCost s)
    (unladenMass s) (totalDps s) (armour s) (powerAvailable s) (powerRetracted s)
    (powerDeployed s) v (topBoost s) (shieldStrength s) (unladenRange s) (fullTankRange s)
    (ladenRange s) (unladenTotalRange s) (ladenTotalRange s) (maxJumpCount s).

Definition set_topBoost (v : Z) (s : Ship) : Ship :=
  Build_Ship (shipId s) (props s) (cargoHatch s) (bulkheads s) (bulkheadsId s) (shipC s)
    (standard s) (hardpoints s) (internal s) (shipCostMultiplier s)
    (componentCostMultiplier s) (priorityBands s) (fuelCapacity s) (cargoCapacity s)
    (ladenMass s) (armourAdded s) (armourMultiplier s) (shieldMultiplier s) (totalCost s)
    (unladenMass s) (totalDps s) (armour s) (powerAvailable s) (powerRetracted s)
    (powerDeployed s) (topSpeed s) v (shieldStrength s) (unladenRange s) (fullTankRange s)
    (ladenRange s) (unladenTotalRange s) (ladenTotalRange s) (maxJumpCount s).

Definition set_shieldStrength (v : Z) (s : Ship) : Ship :=
  Build_Ship (shipId s) (props s) (cargoHatch s) (bulkheads s) (bulkheadsId s) (shipC s)
    (standard s) (hardpoints s) (internal s) (shipCostMultiplier s)
    (componentCostMultiplier s) (priorityBands s) (fuelCapacity s) (cargoCapacity s)
    (ladenMass s) (armourAdded s) (armourMultiplier s) (shieldMultiplier s) (totalCost s)
    (unladenMass s) (totalDps s) (armour s) (powerAvailable s) (powerRetracted s)
    (powerDeployed s) (topSpeed s) (topBoost s) v (unladenRange s) (fullTankRange s)
    (ladenRange s) (unladenTotalRange s) (ladenTotalRange s) (maxJumpCount s).

Definition set_unladenRange (v : Z) (s : Ship) : Ship :=
  Build_Ship (shipId s) (props s) (cargoHatch s) (bulkheads s) (bulkheadsId s) (shipC s)
    (standard s) (hardpoints s) (internal s) (shipCostMultiplier s)
    (componentCostMultiplier s) (priorityBands s) (fuelCapacity s) (cargoCapacity s)
    (ladenMass s) (armourAdded s) (armourMultiplier s) (shieldMultiplier s) (totalCost s)
    (unladenMass s) (totalDps s) (armour s) (powerAvailable s) (powerRetracted s)
    (powerDeployed s) (topSpeed s) (topBoost s) (shieldStrength s) v (fullTankRange s)
    (ladenRange s) (unladenTotalRange s) (ladenTotalRange s) (maxJumpCount s).

Definition set_fullTankRange (v : Z) (s : Ship) : Ship :=
  Build_Ship (shipId s) (props s) (cargoHatch s) (bulkheads s) (bulkheadsId s) (shipC s)
    (standard s) (hardpoints s) (internal s) (shipCostMultiplier s)
    (componentCostMultiplier s) (priorityBands s) (fuelCapacity s) (cargoCapacity s)
    (ladenMass s) (armourAdded s) (armourMultiplier s) (shieldMultiplier s) (totalCost s)
    (unladenMass s) (totalDps s) (armour s) (powerAvailable s) (powerRetracted s)
    (powerDeployed s) (topSpeed s) (topBoost s) (shieldStrength s) (unladenRange s) v
    (ladenRange s) (unladenTotalRange s) (ladenTotalRange s) (maxJumpCount s).

Definition set_ladenRange (v : Z) (s : Ship) : Ship :=
  Build_Ship (shipId s) (props s) (cargoHatch s) (bulkheads s) (bulkheadsId s) (shipC s)
    (standard s) (hardpoints s) (internal s) (shipCostMultiplier s)
    (componentCostMultiplier s) (priorityBands s) (fuelCapacity s) (cargoCapacity s)
    (ladenMass s) (armourAdded s) (armourMultiplier s) (shieldMultiplier s) (totalCost s)
    (unladenMass s) (totalDps s) (armour s) (powerAvailable s) (powerRetracted s)
    (powerDeployed s) (topSpeed s) (topBoost s) (shieldStrength s) (unladenRange s)
    (fullTankRange s) v (unladenTotalRange s) (ladenTotalRange s) (maxJumpCount s).

Definition set_unladenTotalRange (v : Z) (s : Ship) : Ship :=
  Build_Ship (shipId s) (props s) (cargoHatch s) (bulkheads s) (bulkheadsId s) (shipC s)
    (standard s) (hardpoints s) (internal s) (shipCostMultiplier s)
    (componentCostMultiplier s) (priorityBands s) (fuelCapacity s) (cargoCapacity s)
    (ladenMass s) (armourAdded s) (armourMultiplier s) (shieldMultiplier s) (totalCost s)
    (unladenMass s) (totalDps s) (armour s) (powerAvailable s) (powerRetracted s)
    (powerDeployed s) (topSpeed s) (topBoost s) (shieldStrength s) (unladenRange s)
    (fullTankRange s) (ladenRange s) v (ladenTotalRange s) (maxJumpCount s).

Definition set_ladenTotalRange (v : Z) (s : Ship) : Ship :=
  Build_Ship (shipId s) (props s) (cargoHatch s) (bulkheads s) (bulkheadsId s) (shipC s)
    (standard s) (hardpoints s) (internal s) (shipCostMultiplier s)
    (componentCostMultiplier s) (priorityBands s) (fuelCapacity s) (cargoCapacity s)
    (ladenMass s) (armourAdded s) (armourMultiplier s) (shieldMultiplier s) (totalCost s)
    (unladenMass s) (totalDps s) (armour s) (powerAvailable s) (powerRetracted s)
    (powerDeployed s) (topSpeed s) (topBoost s) (shieldStrength s) (unladenRange s)
    (fullTankRange s) (ladenRange s) (unladenTotalRange s) v (maxJumpCount s).

Definition set_maxJumpCount (v : Z) (s : Ship) : Ship :=
  Build_Ship (shipId s) (props s) (cargoHatch s) (bulkheads s) (bulkheadsId s) (shipC s)
    (standard s) (hardpoints s) (internal s) (shipCostMultiplier s)
    (componentCostMultiplier s) (priorityBands s) (fuelCapacity s) (cargoCapacity s)
    (ladenMass s) (armourAdded s) (armourMultiplier s) (shieldMultiplier s) (totalCost s)
    (unladenMass s) (totalDps s) (armour s) (powerAvailable s) (powerRetracted s)
    (powerDeployed s) (topSpeed s) (topBoost s) (shieldStrength s) (unladenRange s)
    (fullTankRange s) (ladenRange s) (unladenTotalRange s) (ladenTotalRange s) v.

(** Reduction of setters under projections, innermost first. *)
Ltac reduce_records :=
  cbv beta iota delta [set_id set_c set_incCost set_cat set_enabled set_priority
    set_type set_discountedCost set_deployed set_retracted set_retOnly set_retractedSum
    set_deployedSum set_cargoHatch set_bulkheads set_bulkheadsId set_shipC set_standard
    set_hardpoints set_internal set_shipCostMultiplier set_componentCostMultiplier
    set_priorityBands set_fuelCapacity set_cargoCapacity set_ladenMass set_armourAdded
    set_armourMultiplier set_shieldMultiplier set_totalCost set_unladenMass set_totalDps
    set_armour set_powerAvailable set_powerRetracted set_powerDeployed set_topSpeed
    set_topBoost set_shieldStrength set_unladenRange set_fullTankRange set_ladenRange
    set_unladenTotalRange set_ladenTotalRange set_maxJumpCount id c incCost maxClass cat
    enabled priority type discountedCost deployed retracted retOnly retractedSum
    deployedSum shipId props cargoHatch bulkheads bulkheadsId shipC standard hardpoints
    internal shipCostMultiplier componentCostMultiplier priorityBands fuelCapacity
    cargoCapacity ladenMass armourAdded armourMultiplier shieldMultiplier totalCost
    unladenMass totalDps armour powerAvailable powerRetracted powerDeployed topSpeed
    topBoost shieldStrength unladenRange fullTankRange ladenRange unladenTotalRange
    ladenTotalRange maxJumpCount].

Ltac reduce_records_in H :=
  cbv beta iota delta [set_id set_c set_incCost set_cat set_enabled set_priority
    set_type set_discountedCost set_deployed set_retracted set_retOnly set_retractedSum
    set_deployedSum set_cargoHatch set_bulkheads set_bulkheadsId set_shipC set_standard
    set_hardpoints set_internal set_shipCostMultiplier set_componentCostMultiplier
    set_priorityBands set_fuelCapacity set_cargoCapacity set_ladenMass set_armourAdded
    set_armourMultiplier set_shieldMultiplier set_totalCost set_unladenMass set_totalDps
    set_armour set_powerAvailable set_powerRetracted set_powerDeployed set_topSpeed
    set_topBoost set_shieldStrength set_unladenRange set_fullTankRange set_ladenRange
    set_unladenTotalRange set_ladenTotalRange set_maxJumpCount id c incCost maxClass cat
    enabled priority type discountedCost deployed retracted retOnly retractedSum
    deployedSum shipId props cargoHatch bulkheads bulkheadsId shipC standard hardpoints
    internal shipCostMultiplier componentCostMultiplier priorityBands fuelCapacity
    cargoCapacity ladenMass armourAdded armourMultiplier shieldMultiplier totalCost
    unladenMass totalDps armour powerAvailable powerRetracted powerDeployed topSpeed
    topBoost shieldStrength unladenRange fullTankRange ladenRange unladenTotalRange
    ladenTotalRange maxJumpCount] in H.

(** ** Slot references *)

(** A reference to a slot object of the ship: the ship entry [this.c],
    the cargo hatch, the bulkheads, or a position of one of the three
    slot groups. *)
Inductive SlotRef : Type :=
  | RShip
  | RCargoHatch
  | RBulkheads
  | RStandard (i : nat)
  | RHardpoint (i : nat)
  | RInternal (i : nat).

#[global] Instance SlotRef_eq_dec : EqDecision SlotRef.
Proof. solve_decision. Defined.

Definition getSlot (s : Ship) (r : SlotRef) : option Slot :=
  match r with
  | RShip => Some (shipC s)
  | RCargoHatch => Some (cargoHatch s)
  | RBulkheads => Some (bulkheads s)
  | RStandard i => standard s !! i
  | RHardpoint i => hardpoints s !! i
  | RInternal i => internal s !! i
  end.

Definition setSlot (r : SlotRef) (sl : Slot) (s : Ship) : Ship :=
  match r with
  | RShip => set_shipC sl s
  | RCargoHatch => set_cargoHatch sl s
  | RBulkheads => set_bulkheads sl s
  | RStandard i => set_standard (<[i:=sl]> (standard s)) s
  | RHardpoint i => set_hardpoints (<[i:=sl]> (hardpoints s)) s
  | RInternal i => set_internal (<[i:=sl]> (internal s)) s
  end.

(** ** JavaScript idioms *)

(** Truthiness of a number. *)
Definition truthy (x : Z) : bool := negb (x =? 0).

(** [slot.cat == k], false while [cat] is undefined. *)
Definition catIs (sl : Slot) (k : Z) : bool := bool_decide (cat sl = Some k).

(** [component.grp == g]. *)
Definition grpIs (n : Component) (g : string) : bool := String.eqb (grp n) g.

(** [Math.round] on a number that is an integer already. *)
Definition Math_round (x : Z) : Z := x.

(** [Math.ceil(a / b)] for a divisor other than zero.  For a zero
    divisor the source has [Infinity] or [NaN], which the integers do
    not have, and the model has 0; the catalogues below give every
    frame shift drive a maximal fuel per jump other than zero. *)
Definition Math_ceil_div (a b : Z) : Z := - ((- a) / b).

(** A loop that applies a fallible body to the elements of a list in
    order, threading the ship. *)
Fixpoint forEach {A : Type} (body : Ship → A → option Ship) (s : Ship) (l : list A)
  : option Ship :=
  match l with
  | [] => Some s
  | x :: l' => s' ← body s x; forEach body s' l'
  end.

(** [_.findIndex]. *)
Fixpoint findIndex {A : Type} (p : A → bool) (l : list A) : option nat :=
  match l with
  | [] => None
  | x :: l' => if p x then Some O else S <$> findIndex p l'
  end.

(** ** Priority bands *)

(** [bands[p]]: undefined when [p] indexes no band. *)
Definition bandAt (bands : list Band) (p : Z) : option Band :=
  if decide (0 ≤ p) then bands !! Z.to_nat p else None.

Definition addUsage (u : PowerUsage) (d : Z) (b : Band) : Band :=
  match u with
  | Deployed => set_deployed (deployed b + d) b
  | Retracted => set_retracted (retracted b + d) b
  end.

Definition usageOf (u : PowerUsage) (b : Band) : Z :=
  match u with
  | Deployed => deployed b
  | Retracted => retracted b
  end.

(** [this.priorityBands[p][u] += d]; a [TypeError] when there is no
    band [p]. *)
Definition adjustBand (p : Z) (u : PowerUsage) (d : Z) (s : Ship) : option Ship :=
  b ← bandAt (priorityBands s) p;
  Some (set_priorityBands (<[Z.to_nat p := addUsage u d b]> (priorityBands s)) s).

(** The loop of [updatePower]: the running sums [prevRetracted] and
    [prevDeployed] are written into each band in turn. *)
Fixpoint sumBands (prevRetracted prevDeployed : Z) (bands : list Band)
  : list Band * (Z * Z) :=
  match bands with
  | [] => ([], (prevRetracted, prevDeployed))
  | band :: rest =>
      let r := prevRetracted + retracted band + retOnly band in
      let d := prevDeployed + deployed band + retracted band in
      let '(rest', totals) := sumBands r d rest in
      (set_deployedSum d (set_retractedSum r band) :: rest', totals)
  end.

(** ** The injected collaborators *)

(** The dependencies that the factory function receives: the component
    catalogue, the armour table and the formulas.  A lookup that finds
    nothing, or an index outside a table, is [None]. *)
Class Collaborators : Type := Build_Collaborators {
  Components_cargoHatch : Component;
  Components_standard : nat → string → option Component;
  Components_hardpoints : string → option Component;
  Components_internal : string → option Component;
  Components_bulkheads : string → Z → option Component;
  ArmourMultiplier : Z → Z;
  calcShieldStrength : Z → Z → Component → Z → Z;
  calcJumpRange : Z → Component → Z → Z;
  calcTotalRange : Z → Component → Z → Z;
  calcSpeed : Z → Z → Z → option Component → Z → Z * Z
}.

(** The layout of the slot groups handed to the constructor: the maximum
    class of each slot. *)
Record SlotLayout : Type := Build_SlotLayout {
  layout_standard : list Z;
  layout_hardpoints : list Z;
  layout_internal : list Z
}.

(** The [comps] argument of [buildWith].  An entry [None] is the [0] (or
    [null]) that marks an empty slot. *)
Record Comps : Type := Build_Comps {
  comps_bulkheads : Z;
  comps_standard : list (option string);
  comps_hardpoints : list (option string);
  comps_internal : list (option string)
}.

Section ShipFactory.
Context `{Collaborators}.

(** [powerUsageType(slot, component)]. *)
Definition powerUsageType (slot : Slot) (component : option Component) : PowerUsage :=
  match component with
  | Some n => if passive n then Retracted
              else if catIs slot 1 then Deployed else Retracted
  | None => if catIs slot 1 then Deployed else Retracted
  end.

Definition emptySlot (maxC : Z) : Slot :=
  {| id := None; c := None; incCost := true; maxClass := maxC; cat := None;
     enabled := false; priority := 0; type := NoType; discountedCost := 0 |}.

(** The constructor [Ship(id, properties, slots)].  Aggregates and
    cumulative sums that the constructor leaves undefined are [0] here;
    [buildWith] assigns them.  The cargo hatch is constructed with its
    component and its type only: its other properties are undefined in
    the source, [false] and [0] here.  The cost list does not hold the
    hatch, and nothing below is stated of [setCostIncluded] on it. *)
Definition newShip (i : string) (properties : Properties) (slots : SlotLayout) : Ship :=
  {| shipId := i;
     props := properties;
     cargoHatch := set_type SYS (set_incCost false
                     (set_c (Some Components_cargoHatch) (emptySlot 0)));
     bulkheads := emptySlot 8;
     bulkheadsId := 0;
     shipC := set_discountedCost (hullCost properties) (set_type SHIP
                (set_c (Some {| grp := ""; cost := hullCost properties; mass := 0;
                                power := 0; capacity := 0; armouradd := 0;
                                shieldmul := 0; dps := 0; passive := false;
                                pGen := 0; maxfuel := 0 |}) (emptySlot 0)));
     standard := emptySlot <$> layout_standard slots;
     hardpoints := emptySlot <$> layout_hardpoints slots;
     internal := emptySlot <$> layout_internal slots;
     shipCostMultiplier := 1;
     componentCostMultiplier := 1;
     priorityBands := replicate 5 (Build_Band 0 0 0 0 0);
     fuelCapacity := 0; cargoCapacity := 0; ladenMass := 0; armourAdded := 0;
     armourMultiplier := 0; shieldMultiplier := 0; totalCost := 0;
     unladenMass := 0; totalDps := 0; armour := 0;
     powerAvailable := 0; powerRetracted := 0; powerDeployed := 0;
     topSpeed := 0; topBoost := 0; shieldStrength := 0;
     unladenRange := 0; fullTankRange := 0; ladenRange := 0;
     unladenTotalRange := 0; ladenTotalRange := 0; maxJumpCount := 0 |}.

(** [this.costList]: the ship entry, then the internal, standard and
    hardpoint slots, then the bulkheads. *)
Definition costList (s : Ship) : list SlotRef :=
  RShip :: (RInternal <$> seq 0 (length (internal s)))
        ++ (RStandard <$> seq 0 (length (standard s)))
        ++ (RHardpoint <$> seq 0 (length (hardpoints s)))
        ++ [RBulkheads].

(** [getSlotStatus(slot, deployed)]: 0 no status, 1 disabled, 2 offline,
    3 online. *)
Definition getSlotStatus (s : Ship) (slot : Slot) (isDeployed : bool) : option Z :=
  match c slot with
  | None => Some 0
  | Some n =>
      if negb (enabled slot) then Some 1
      else if isDeployed then
        band ← bandAt (priorityBands s) (priority slot);
        Some (if powerAvailable s <=? deployedSum band then 2 else 3)
      else if catIs slot 1 && negb (passive n) then Some 0
      else
        band ← bandAt (priorityBands s) (priority slot);
        Some (if powerAvailable s <=? retractedSum band then 2 else 3)
  end.

(** The predicate of [findInternalByGroup]: the shield generators
    ("sg" and "psg") count as one group. *)
Definition holdsGroup (group : string) (slot : Slot) : bool :=
  match c slot with
  | Some n =>
      if String.eqb group "sg" || String.eqb group "psg"
      then grpIs n "sg" || grpIs n "psg"
      else String.eqb (grp n) group
  | None => false
  end.

(** [findInternalByGroup(group)]: the position of the first internal
    slot holding a component of the group. *)
Definition findInternalByGroup (s : Ship) (group : string) : option nat :=
  findIndex (holdsGroup group) (internal s).

(** [updatePower()]. *)
Definition updatePower (s : Ship) : option Ship :=
  let '(bands, (prevRetracted, prevDeployed)) := sumBands 0 0 (priorityBands s) in
  let s1 := set_priorityBands bands s in
  pp ← standard s1 !! 0%nat;
  plant ← c pp;
  Some (set_powerDeployed prevDeployed
         (set_powerRetracted prevRetracted
           (set_powerAvailable (pGen plant) s1))).

(** [updateTopSpeed()]. *)
Definition updateTopSpeed (s : Ship) : option Ship :=
  th ← standard s !! 1%nat;
  let speeds := calcSpeed (unladenMass s + fuelCapacity s) (speed (props s))
                          (boost (props s)) (c th) (pipSpeed (props s)) in
  Some (set_topBoost (snd speeds) (set_topSpeed (fst speeds) s)).

(** [updateShieldStrength()]. *)
Definition updateShieldStrength (s : Ship) : Ship :=
  let strength :=
    match findInternalByGroup s "sg" with
    | Some i =>
        match internal s !! i with
        | Some sgSlot =>
            match c sgSlot with
            | Some gen =>
                if enabled sgSlot
                then calcShieldStrength (hullMass (props s))
                       (baseShieldStrength (props s)) gen (shieldMultiplier s)
                else 0
            | None => 0
            end
        | None => 0
        end
    | None => 0
    end in
  set_shieldStrength strength s.

(** [updateJumpStats()]. *)
Definition updateJumpStats (s : Ship) : option Ship :=
  fsdSlot ← standard s !! 2%nat;
  fsd ← c fsdSlot;
  Some (set_maxJumpCount (Math_ceil_div (fuelCapacity s) (maxfuel fsd))
       (set_ladenTotalRange
          (calcTotalRange (unladenMass s + cargoCapacity s) fsd (fuelCapacity s))
       (set_unladenTotalRange (calcTotalRange (unladenMass s) fsd (fuelCapacity s))
       (set_ladenRange (calcJumpRange (ladenMass s) fsd (fuelCapacity s))
       (set_fullTankRange
          (calcJumpRange (unladenMass s + fuelCapacity s) fsd (fuelCapacity s))
       (set_unladenRange
          (calcJumpRange (unladenMass s + maxfuel fsd) fsd (fuelCapacity s)) s)))))).

(** The first half of [updateStats]: the component [old] leaves the
    slot.  The result carries the flag [powerChange]. *)
Definition removeStats (slot : Slot) (old : Component) (s : Ship) (powerChange : bool)
  : option (Ship * bool) :=
  let s1 :=
    if grpIs old "ft" then set_fuelCapacity (fuelCapacity s - capacity old) s
    else if grpIs old "cr" then set_cargoCapacity (cargoCapacity s - capacity old) s
    else if grpIs old "hr" then set_armourAdded (armourAdded s - armouradd old) s
    else if grpIs old "sb" then
      set_shieldMultiplier
        (shieldMultiplier s - (if enabled slot then shieldmul old else 0)) s
    else s in
  let s2 :=
    if incCost slot && truthy (cost old)
    then set_totalCost (totalCost s1 - cost old * componentCostMultiplier s1) s1
    else s1 in
  '(s3, pc) ←
    (if truthy (power old) && enabled slot then
       s' ← adjustBand (priority slot) (powerUsageType slot (Some old)) (- power old) s2;
       Some (if truthy (dps old) then set_totalDps (totalDps s' - dps old) s' else s',
             true)
     else Some (s2, powerChange));
  Some (set_unladenMass (unladenMass s3 - mass old) s3, pc).

(** The second half: the component [n] enters the slot. *)
Definition addStats (slot : Slot) (n : Component) (s : Ship) (powerChange : bool)
  : option (Ship * bool) :=
  let s1 :=
    if grpIs n "ft" then set_fuelCapacity (fuelCapacity s + capacity n) s
    else if grpIs n "cr" then set_cargoCapacity (cargoCapacity s + capacity n) s
    else if grpIs n "hr" then set_armourAdded (armourAdded s + armouradd n) s
    else if grpIs n "sb" then
      set_shieldMultiplier
        (shieldMultiplier s + (if enabled slot then shieldmul n else 0)) s
    else s in
  let s2 :=
    if incCost slot && truthy (cost n)
    then set_totalCost (totalCost s1 + cost n * componentCostMultiplier s1) s1
    else s1 in
  '(s3, pc) ←
    (if truthy (power n) && enabled slot then
       s' ← adjustBand (priority slot) (powerUsageType slot (Some n)) (power n) s2;
       Some (if truthy (dps n) then set_totalDps (totalDps s' + dps n) s' else s',
             true)
     else Some (s2, powerChange));
  Some (set_unladenMass (unladenMass s3 + mass n) s3, pc).

(** [updateStats(slot, n, old, preventUpdate)]. *)
Definition updateStats (s : Ship) (slot : SlotRef) (n old : option Component)
    (preventUpdate : bool) : option Ship :=
  sl ← getSlot s slot;
  let powerChange := bool_decide (slot = RStandard 0) in
  '(s1, pc1) ← match old return option (Ship * bool) with
               | Some o => removeStats sl o s powerChange
               | None => Some (s, powerChange)
               end;
  '(s2, pc2) ← match n return option (Ship * bool) with
               | Some m => addStats sl m s1 pc1
               | None => Some (s1, pc1)
               end;
  let s3 := set_ladenMass (unladenMass s2 + cargoCapacity s2 + fuelCapacity s2) s2 in
  let s4 := set_armour (armourAdded s3
                        + Math_round (baseArmour (props s3) * armourMultiplier s3)) s3 in
  if preventUpdate then Some s4
  else
    s5 ← (if pc2 : bool then updatePower s4 else Some s4);
    s6 ← updateTopSpeed s5;
    s7 ← updateJumpStats s6;
    Some (updateShieldStrength s7).

(** The groups of which a ship holds one component only. *)
Definition uniqueGroup (g : string) : bool :=
  String.eqb g "psg" || String.eqb g "sg" || String.eqb g "rf" || String.eqb g "fs".

(** The block of [use] that empties the other internal slot holding the
    group of the component to install. *)
Definition vacateSimilar (s : Ship) (slot : SlotRef) (component : option Component)
    (preventUpdate : bool) : option Ship :=
  sl ← getSlot s slot;
  match component with
  | Some n =>
      if catIs sl 2 && uniqueGroup (grp n) then
        match findInternalByGroup s (grp n) with
        | Some j =>
            if negb preventUpdate && negb (bool_decide (RInternal j = slot)) then
              similarSlot ← internal s !! j;
              s1 ← updateStats s (RInternal j) None (c similarSlot) false;
              similarSlot1 ← internal s1 !! j;
              Some (setSlot (RInternal j)
                      (set_discountedCost 0 (set_c None (set_id None similarSlot1))) s1)
            else Some s
        | None => Some s
        end
      else Some s
  | None => Some s
  end.

(** [use(slot, id, component, preventUpdate)]. *)
Definition use (s : Ship) (slot : SlotRef) (i : option string)
    (component : option Component) (preventUpdate : bool) : option Ship :=
  sl ← getSlot s slot;
  if bool_decide (id sl = i) then Some s
  else
    s1 ← vacateSimilar s slot component preventUpdate;
    sl1 ← getSlot s1 slot;
    let oldComponent := c sl1 in
    let cost' := match component with
                 | Some n => if truthy (cost n)
                             then cost n * componentCostMultiplier s1 else 0
                 | None => 0
                 end in
    let s2 := setSlot slot (set_discountedCost cost' (set_c component (set_id i sl1))) s1 in
    updateStats s2 slot component oldComponent preventUpdate.

(** [useBulkhead(index, preventUpdate)]. *)
Definition useBulkhead (s : Ship) (index : Z) (preventUpdate : bool) : option Ship :=
  let oldBulkhead := c (bulkheads s) in
  bh ← Components_bulkheads (shipId s) index;
  let s1 := set_bulkheadsId index s in
  let s2 := set_bulkheads
              (set_discountedCost (cost bh * componentCostMultiplier s1)
                 (set_c (Some bh) (bulkheads s1))) s1 in
  let s3 := set_armourMultiplier (ArmourMultiplier index) s2 in
  updateStats s3 RBulkheads (Some bh) oldBulkhead preventUpdate.

(** [setCostIncluded(item, included)]. *)
Definition setCostIncluded (s : Ship) (item : SlotRef) (included : bool) : option Ship :=
  it ← getSlot s item;
  let s1 :=
    if negb (bool_decide (incCost it = included)) && bool_decide (is_Some (c it))
    then set_totalCost (totalCost s + (if included then discountedCost it
                                       else - discountedCost it)) s
    else s in
  Some (setSlot item (set_incCost included it) s1).

(** [setSlotEnabled(slot, enabled)]. *)
Definition setSlotEnabled (s : Ship) (slot : SlotRef) (en : bool) : option Ship :=
  sl ← getSlot s slot;
  if bool_decide (enabled sl = en) then Some s
  else
    let sl1 := set_enabled en sl in
    let s1 := setSlot slot sl1 s in
    match c sl1 with
    | Some n =>
        s2 ← adjustBand (priority sl1) (powerUsageType sl1 (Some n))
               (if en then power n else - power n) s1;
        let s3 :=
          if grpIs n "sg" || grpIs n "psg" then updateShieldStrength s2
          else if grpIs n "sb" then
            updateShieldStrength
              (set_shieldMultiplier
                 (shieldMultiplier s2 + shieldmul n * (if en then 1 else -1)) s2)
          else if truthy (dps n) then
            set_totalDps (totalDps s2 + dps n * (if en then 1 else -1)) s2
          else s2 in
        updatePower s3
    | None => Some s1
    end.

(** [changePriority(slot, newPriority)]: the ship and the boolean the
    method returns. *)
Definition changePriority (s : Ship) (slot : SlotRef) (newPriority : Z)
  : option (Ship * bool) :=
  sl ← getSlot s slot;
  if bool_decide (0 ≤ newPriority) && bool_decide (newPriority < Z.of_nat (length (priorityBands s)))
  then
    let oldPriority := priority sl in
    let sl1 := set_priority newPriority sl in
    let s1 := setSlot slot sl1 s in
    if enabled sl1 then
      let usage := powerUsageType sl1 (c sl1) in
      n ← c sl1;
      s2 ← adjustBand oldPriority usage (- power n) s1;
      s3 ← adjustBand newPriority usage (power n) s2;
      s4 ← updatePower s3;
      Some (s4, true)
    else Some (s1, true)
  else Some (s, false).

(** The body of the loop of [applyDiscounts]; the accumulator is the
    ship and the running [total]. *)
Definition applyDiscountsItem (shipCostMultiplier' componentCostMultiplier' : Z)
    (acc : Ship * Z) (r : SlotRef) : Ship * Z :=
  match getSlot acc.1 r with
  | Some item =>
      match c item with
      | Some n =>
          if truthy (cost n) then
            let d := cost n * (match type item with
                               | SHIP => shipCostMultiplier'
                               | _ => componentCostMultiplier'
                               end) in
            (setSlot r (set_discountedCost d item) acc.1,
             if incCost item then acc.2 + d else acc.2)
          else acc
      | None => acc
      end
  | None => acc
  end.

(** [applyDiscounts(shipCostMultiplier, componentCostMultiplier)]. *)
Definition applyDiscounts (s : Ship) (shipCostMultiplier' componentCostMultiplier' : Z)
  : Ship :=
  let '(s1, total) :=
    foldl (applyDiscountsItem shipCostMultiplier' componentCostMultiplier')
          (s, 0) (costList s) in
  set_totalCost total
    (set_componentCostMultiplier componentCostMultiplier'
       (set_shipCostMultiplier shipCostMultiplier' s1)).

(** Reading the arrays [enabled] and [priorities] of [buildWith].  An
    absent array gives the default; an index past the end of a present
    array reads [undefined], which is tier 0 for the [priorities] of
    the slot groups.  For [enabled] the source stores
    [undefined * 1], the number [NaN].  [NaN] is falsy, and every test
    of the flag but one is a test of truthiness, for which the model
    stores [false]; the exception is [slot.enabled != enabled] in
    [setSlotEnabled], which holds of [NaN] and [false].  The model is
    the source on the calls whose array has a flag for every slot
    ([flagsCover] below); what depends on the test is stated of the
    ships built by such calls ([wellFlagged]). *)
Definition enabledAt (en : option (list bool)) (k : nat) : bool :=
  match en with
  | Some l => default false (l !! k)
  | None => true
  end.

Definition priorityAt (pr : option (list Z)) (k : nat) : Z :=
  match pr with
  | Some l => default 0 (l !! k)
  | None => 0
  end.

(** [priorities ? priorities[0] * 1 : 0] for the cargo hatch.  Past the
    end of the array the product is [NaN], which indexes no band; [-1]
    stands for it. *)
Definition hatchPriority (pr : option (list Z)) : Z :=
  match pr with
  | Some l => default (-1) (l !! 0%nat)
  | None => 0
  end.

(** The id of [comps] for position [k] of a slot group. *)
Definition compAt (ids : list (option string)) (k : nat) : option string :=
  mjoin (ids !! k).

(** The slot fields that the three loops of [buildWith] assign before
    they install the component. *)
Definition resetSlot (category : Z) (en : bool) (pr : Z) (ty : SlotType) (sl : Slot) : Slot :=
  set_discountedCost 0 (set_id None (set_c None
    (set_type ty (set_priority pr (set_enabled en (set_cat (Some category) sl)))))).

Definition buildStandard (comps : option Comps) (priorities : option (list Z))
    (enabled' : option (list bool)) (s : Ship) (i : nat) : option Ship :=
  sl ← standard s !! i;
  let s1 := setSlot (RStandard i)
              (resetSlot 0 (enabledAt enabled' (i + 1))
                 (priorityAt priorities (i + 1)) SYS sl) s in
  match comps with
  | Some cs =>
      let ci := compAt (comps_standard cs) i in
      use s1 (RStandard i) ci (ci ≫= Components_standard i) true
  | None => Some s1
  end.

Definition buildHardpoint (comps : option Comps) (priorities : option (list Z))
    (enabled' : option (list bool)) (cl : nat) (s : Ship) (i : nat) : option Ship :=
  sl ← hardpoints s !! i;
  let s1 := setSlot (RHardpoint i)
              (resetSlot 1 (enabledAt enabled' (cl + i))
                 (priorityAt priorities (cl + i))
                 (if truthy (maxClass sl) then WEP else SYS) sl) s in
  match comps with
  | Some cs =>
      match compAt (comps_hardpoints cs) i with
      | Some ci => use s1 (RHardpoint i) (Some ci) (Components_hardpoints ci) true
      | None => Some s1
      end
  | None => Some s1
  end.

Definition buildInternal (comps : option Comps) (priorities : option (list Z))
    (enabled' : option (list bool)) (cl : nat) (s : Ship) (i : nat) : option Ship :=
  sl ← internal s !! i;
  let s1 := setSlot (RInternal i)
              (resetSlot 2 (enabledAt enabled' (cl + i))
                 (priorityAt priorities (cl + i)) SYS sl) s in
  match comps with
  | Some cs =>
      match compAt (comps_internal cs) i with
      | Some ci => use s1 (RInternal i) (Some ci) (Components_internal ci) true
      | None => Some s1
      end
  | None => Some s1
  end.

(** [standard[i].type = 'ENG']. *)
Definition markEngine (i : nat) (s : Ship) : option Ship :=
  sl ← standard s !! i;
  Some (setSlot (RStandard i) (set_type ENG sl) s).

Definition resetBand (b : Band) : Band :=
  set_retOnly 0 (set_retracted 0 (set_deployed 0 b)).

(** [buildWith(comps, priorities, enabled)]. *)
Definition buildWith (s : Ship) (comps : option Comps) (priorities : option (list Z))
    (enabled' : option (list bool)) : option Ship :=
  let cl := length (standard s) in
  let s1 :=
    set_totalDps 0
      (set_unladenMass (hullMass (props s))
      (set_totalCost (if incCost (shipC s) then discountedCost (shipC s) else 0)
      (set_shieldMultiplier 1
      (set_armourMultiplier 1
      (set_armourAdded 0
      (set_ladenMass 0
      (set_cargoCapacity 0
      (set_fuelCapacity 0 s)))))))) in
  let s2 := set_bulkheads (set_c None (bulkheads s1)) s1 in
  s3 ← useBulkhead s2 (match comps with Some cs => comps_bulkheads cs | None => 0 end) true;
  let s4 := set_cargoHatch
              (set_enabled (enabledAt enabled' 0)
                 (set_priority (hatchPriority priorities) (cargoHatch s3))) s3 in
  let s5 := set_priorityBands (resetBand <$> priorityBands s4) s4 in
  s6 ← (if enabled (cargoHatch s5) then
          hatch ← c (cargoHatch s5);
          adjustBand (priority (cargoHatch s5)) Retracted (power hatch) s5
        else Some s5);
  s7 ← forEach (buildStandard comps priorities enabled') s6 (seq 0 cl);
  s8 ← markEngine 1 s7;
  s9 ← markEngine 2 s8;
  s10 ← forEach (buildHardpoint comps priorities enabled' (cl + 1)) s9
          (seq 0 (length (hardpoints s9)));
  s11 ← forEach (buildInternal comps priorities enabled'
                   (cl + 1 + length (hardpoints s9))) s10
          (seq 0 (length (internal s10)));
  match comps with
  | Some _ =>
      s12 ← updatePower s11;
      s13 ← updateJumpStats s12;
      updateTopSpeed (updateShieldStrength s13)
  | None => Some s11
  end.

(** [getJumpRangeForMass(mass, fuel)].  [calcJumpRange] reads the drive
    it is given: without a frame shift drive the call throws. *)
Definition getJumpRangeForMass (s : Ship) (m fuel : Z) : option Z :=
  fsdSlot ← standard s !! 2%nat;
  fsd ← c fsdSlot;
  Some (calcJumpRange m fsd fuel).

(** The indices [n - 1, ..., 0] that a loop [for (var i = n; i--; )]
    visits. *)
Definition downFrom (n : nat) : list nat := reverse (seq 0 n).

(** [emptyHardpoints()]. *)
Definition emptyHardpoints (s : Ship) : option Ship :=
  forEach (λ s' i, use s' (RHardpoint i) None None false) s
          (downFrom (length (hardpoints s))).

(** [emptyInternal()]. *)
Definition emptyInternal (s : Ship) : option Ship :=
  forEach (λ s' i, use s' (RInternal i) None None false) s
          (downFrom (length (internal s))).

(** [emptyUtility()]: the hardpoints without a class are the utility
    mounts. *)
Definition emptyUtility (s : Ship) : option Ship :=
  forEach (λ s' i, sl ← hardpoints s' !! i;
                   if truthy (maxClass sl) then Some s'
                   else use s' (RHardpoint i) None None false) s
          (downFrom (length (hardpoints s))).

(** [emptyWeapons()]. *)
Definition emptyWeapons (s : Ship) : option Ship :=
  forEach (λ s' i, sl ← hardpoints s' !! i;
                   if truthy (maxClass sl) then use s' (RHardpoint i) None None false
                   else Some s') s
          (downFrom (length (hardpoints s))).

(** [useStandard(rating)]: every standard slot but the last, the fuel
    tank, takes the component of its class and the rating; the id is the
    class followed by the rating.  The loop
    [for (var i = this.standard.length - 1; i--; )] visits
    [length - 2, ..., 0], and without any standard slot it starts below
    zero and reads a slot that does not exist. *)
Definition useStandard (s : Ship) (rating : string) : option Ship :=
  match length (standard s) with
  | O => None
  | S k =>
      forEach (λ s' i, sl ← standard s' !! i;
                       let i' := pretty (maxClass sl) +:+ rating in
                       use s' (RStandard i) (Some i') (Components_standard i i') false) s
              (downFrom k)
  end.

End ShipFactory.

(** The methods unfold on demand only. *)
Arguments adjustBand : simpl never.
Arguments updatePower : simpl never.
Arguments updateTopSpeed : simpl never.
Arguments updateShieldStrength : simpl never.
Arguments updateJumpStats : simpl never.
Arguments removeStats : simpl never.
Arguments addStats : simpl never.
Arguments updateStats : simpl never.
Arguments vacateSimilar : simpl never.
Arguments use : simpl never.
Arguments useBulkhead : simpl never.
Arguments setCostIncluded : simpl never.
Arguments setSlotEnabled : simpl never.
Arguments changePriority : simpl never.
Arguments getJumpRangeForMass : simpl never.
Arguments emptyHardpoints : simpl never.
Arguments emptyInternal : simpl never.
Arguments emptyUtility : simpl never.
Arguments emptyWeapons : simpl never.
Arguments useStandard : simpl never.
Arguments applyDiscounts : simpl never.
Arguments buildWith : simpl never.
Arguments powerUsageType : simpl never.

(** ** A small catalogue and ship for evaluation *)

Module Demo.

Definition component (g : string) (price m p : Z) : Component :=
  {| grp := g; cost := price; mass := m; power := p; capacity := 0; armouradd := 0;
     shieldmul := 0; dps := 0; passive := false; pGen := 0; maxfuel := 0 |}.

Definition powerPlant : Component :=
  {| grp := "pp"; cost := 1000; mass := 5; power := 0; capacity := 0; armouradd := 0;
     shieldmul := 0; dps := 0; passive := false; pGen := 10; maxfuel := 0 |}.

Definition thrusters : Component := component "t" 2000 4 3.

Definition frameShiftDrive : Component :=
  {| grp := "fsd"; cost := 3000; mass := 3; power := 1; capacity := 0; armouradd := 0;
     shieldmul := 0; dps := 0; passive := false; pGen := 0; maxfuel := 2 |}.

Definition fuelTank : Component :=
  {| grp := "ft"; cost := 500; mass := 0; power := 0; capacity := 4; armouradd := 0;
     shieldmul := 0; dps := 0; passive := false; pGen := 0; maxfuel := 0 |}.

Definition laser : Component :=
  {| grp := "pl"; cost := 700; mass := 2; power := 6; capacity := 0; armouradd := 0;
     shieldmul := 0; dps := 3; passive := false; pGen := 0; maxfuel := 0 |}.

Definition shieldGenerator : Component := component "sg" 900 2 2.

Definition biweaveShield : Component := component "sg" 1500 3 2.

Definition cargoRack : Component :=
  {| grp := "cr"; cost := 100; mass := 0; power := 0; capacity := 2; armouradd := 0;
     shieldmul := 0; dps := 0; passive := false; pGen := 0; maxfuel := 0 |}.

Definition hatch : Component := component "" 0 0 0.

Definition lightweightAlloy : Component := component "bh" 0 0 0.

Definition reinforcedAlloy : Component := component "bh" 400 7 0.

Definition catalogue : Collaborators :=
  {| Components_cargoHatch := hatch;
     Components_standard := λ i k,
       if String.eqb k "2A" then
         match i with
         | 0%nat => Some powerPlant
         | 1%nat => Some thrusters
         | 2%nat => Some frameShiftDrive
         | _ => None
         end
       else if String.eqb k "2C" then
         match i with
         | 6%nat => Some fuelTank
         | _ => None
         end
       else None;
     Components_hardpoints := λ k, if String.eqb k "17" then Some laser else None;
     Components_internal := λ k,
       if String.eqb k "40" then Some shieldGenerator
       else if String.eqb k "4j" then Some biweaveShield
       else if String.eqb k "00" then Some cargoRack
       else None;
     Components_bulkheads := λ _ k,
       if k =? 0 then Some lightweightAlloy
       else if k =? 1 then Some reinforcedAlloy
       else None;
     ArmourMultiplier := λ k, 1 + k;
     calcShieldStrength := λ hull base gen mul, base * mul + cost gen;
     calcJumpRange := λ m fsd fuel, 1000 - m + maxfuel fsd + fuel;
     calcTotalRange := λ m fsd fuel, 2000 - m + fuel;
     calcSpeed := λ m sp bo th pips, (sp + pips - m, bo - m) |}.

Definition properties : Properties :=
  {| hullMass := 50; hullCost := 10000; baseArmour := 20; baseShieldStrength := 30;
     speed := 200; boost := 300; pipSpeed := 4 |}.

Definition layout : SlotLayout :=
  {| layout_standard := [2; 2; 2; 1; 1; 1; 1];
     layout_hardpoints := [1; 1; 0];
     layout_internal := [2; 2; 1] |}.

Definition blank : Ship := newShip (H := catalogue) "sidewinder" properties layout.

(** The standard equipment and nothing else. *)
Definition stock : Comps :=
  {| comps_bulkheads := 0;
     comps_standard := [Some "2A"; Some "2A"; Some "2A"; None; None; None; Some "2C"];
     comps_hardpoints := [None; None; None];
     comps_internal := [None; None; None] |}.

(** Two lasers, a shield generator and a cargo rack besides. *)
Definition armed : Comps :=
  {| comps_bulkheads := 1;
     comps_standard := [Some "2A"; Some "2A"; Some "2A"; None; None; None; Some "2C"];
     comps_hardpoints := [Some "17"; Some "17"; None];
     comps_internal := [Some "40"; None; Some "00"] |}.

(** Two shield generators. *)
Definition twinShields : Comps :=
  {| comps_bulkheads := 0;
     comps_standard := [Some "2A"; Some "2A"; Some "2A"; None; None; None; Some "2C"];
     comps_hardpoints := [None; None; None];
     comps_internal := [Some "40"; Some "4j"; None] |}.

(** The tiers of the cargo hatch, the seven standard slots, the three
    hardpoints and the three internal slots: the first laser sits alone
    in tier 0, the second alone in tier 1, and the thrusters, the frame
    shift drive and the shield generator share tier 2. *)
Definition tiers : list Z := [0; 0; 2; 2; 0; 0; 0; 0; 0; 1; 0; 2; 0; 0].

Definition stockShip : Ship :=
  Eval vm_compute in
    default blank (buildWith (H := catalogue) blank (Some stock) None None).

Definition armedShip : Ship :=
  Eval vm_compute in
    default blank (buildWith (H := catalogue) blank (Some armed) (Some tiers) None).

Definition twinShip : Ship :=
  Eval vm_compute in
    default blank (buildWith (H := catalogue) blank (Some twinShields) None None).

(** Slots of the armed ship: the two lasers, the shield generator and
    the empty internal slot. *)
Definition firstLaser : Slot :=
  Eval vm_compute in default (emptySlot 0) (hardpoints armedShip !! 0%nat).

Definition secondLaser : Slot :=
  Eval vm_compute in default (emptySlot 0) (hardpoints armedShip !! 1%nat).

Definition shieldSlot : Slot :=
  Eval vm_compute in default (emptySlot 0) (internal armedShip !! 0%nat).

Definition spareSlot : Slot :=
  Eval vm_compute in default (emptySlot 0) (internal armedShip !! 1%nat).

Definition plantSlot : Slot :=
  Eval vm_compute in default (emptySlot 0) (standard armedShip !! 0%nat).

(** A session on the armed ship: the other shield generator goes into
    the spare internal slot, the second laser is switched off, the first
    laser moves to tier 1, discounts apply, the cargo rack leaves the
    bill, and the bulkheads change. *)
Definition refitted : Ship :=
  Eval vm_compute in
    default blank (use (H := catalogue) armedShip (RInternal 1) (Some "4j")
                     (Some biweaveShield) false).

Definition silenced : Ship :=
  Eval vm_compute in
    default blank (setSlotEnabled (H := catalogue) refitted (RHardpoint 1) false).

Definition shifted : Ship :=
  Eval vm_compute in
    default blank (fst <$> changePriority silenced (RHardpoint 0) 1).

Definition discounted : Ship :=
  Eval vm_compute in applyDiscounts shifted 90 75.

Definition unbilled : Ship :=
  Eval vm_compute in
    default blank (setCostIncluded discounted (RInternal 2) false).

Definition tuned : Ship :=
  Eval vm_compute in default blank (useBulkhead (H := catalogue) unbilled 0 false).

(** The stock ship after an id that the catalogue does not know has
    been passed for its first internal slot. *)
Definition strayShip : Ship :=
  Eval vm_compute in
    default blank (use (H := catalogue) stockShip (RInternal 0) (Some "zz") None false).

Definition straySlot : Slot :=
  Eval vm_compute in default (emptySlot 0) (internal strayShip !! 0%nat).

(** The armed ship with a third laser, and with the third laser removed
    again. *)
Definition lit : Ship :=
  Eval vm_compute in
    default blank (use (H := catalogue) armedShip (RHardpoint 2) (Some "17")
                     (Some laser) false).

Definition unlit : Ship :=
  Eval vm_compute in
    default blank (use (H := catalogue) lit (RHardpoint 2) None None false).

(** The flags of the cargo hatch and the thirteen slots, the second
    laser switched off, and the armed ship built with them. *)
Definition flags : list bool :=
  [true; true; true; true; true; true; true; true; true; false; true; true; true; true].

Definition dimmedShip : Ship :=
  Eval vm_compute in
    default blank (buildWith (H := catalogue) blank (Some armed) (Some tiers) (Some flags)).

(** The armed ship after a third laser has been installed with updates
    prevented. *)
Definition hushed : Ship :=
  Eval vm_compute in
    default blank (use (H := catalogue) armedShip (RHardpoint 2) (Some "17")
                     (Some laser) true).

End Demo.

(** ** A catalogue with two odd components

    The catalogue above with a mine launcher that does damage and draws
    no power, and an auxiliary cell whose power draw is negative. *)

Module Odd.

Definition mine : Component :=
  {| grp := "mr"; cost := 250; mass := 1; power := 0; capacity := 0; armouradd := 0;
     shieldmul := 0; dps := 5; passive := false; pGen := 0; maxfuel := 0 |}.

Definition cell : Component := Demo.component "ax" 300 1 (-3).

Definition catalogue : Collaborators :=
  {| Components_cargoHatch := Demo.hatch;
     Components_standard := Components_standard (Collaborators := Demo.catalogue);
     Components_hardpoints := λ k,
       if String.eqb k "0m" then Some mine
       else Components_hardpoints (Collaborators := Demo.catalogue) k;
     Components_internal := λ k,
       if String.eqb k "ax" then Some cell
       else Components_internal (Collaborators := Demo.catalogue) k;
     Components_bulkheads := Components_bulkheads (Collaborators := Demo.catalogue);
     ArmourMultiplier := ArmourMultiplier (Collaborators := Demo.catalogue);
     calcShieldStrength := calcShieldStrength (Collaborators := Demo.catalogue);
     calcJumpRange := calcJumpRange (Collaborators := Demo.catalogue);
     calcTotalRange := calcTotalRange (Collaborators := Demo.catalogue);
     calcSpeed := calcSpeed (Collaborators := Demo.catalogue) |}.

Definition blank : Ship :=
  newShip (H := catalogue) "sidewinder" Demo.properties Demo.layout.

(** The ship with the standard equipment. *)
Definition stockShip : Ship :=
  Eval vm_compute in
    default blank (buildWith (H := catalogue) blank (Some Demo.stock) None None).

(** The mine launcher installed, and then switched off. *)
Definition minerShip : Ship :=
  Eval vm_compute in
    default blank (use (H := catalogue) stockShip (RHardpoint 0) (Some "0m") (Some mine)
                     false).

Definition minerOff : Ship :=
  Eval vm_compute in
    default blank (setSlotEnabled (H := catalogue) minerShip (RHardpoint 0) false).

(** The auxiliary cell installed, and then moved to tier 1. *)
Definition fedShip : Ship :=
  Eval vm_compute in
    default blank (use (H := catalogue) stockShip (RInternal 0) (Some "ax") (Some cell)
                     false).

Definition deferred : Ship :=
  Eval vm_compute in
    default blank (fst <$> changePriority fedShip (RInternal 0) 1).

End Odd.

(** ** The arithmetic of the source

    The assignments by which the methods add a contribution to a sum
    and subtract it again, in binary64. *)

Module Binary64.

(** [this.totalCost += n.cost * this.componentCostMultiplier] in
    [updateStats]. *)
Definition costAdded (totalCost cost multiplier : float) : float :=
  (totalCost + cost * multiplier)%float.

(** [this.totalCost -= old.cost * this.componentCostMultiplier] in
    [updateStats]. *)
Definition costRemoved (totalCost cost multiplier : float) : float :=
  (totalCost - cost * multiplier)%float.

(** [this.priorityBands[slot.priority][usage] += n.power] in
    [updateStats], and the like in [setSlotEnabled] and
    [changePriority]. *)
Definition drawAdded (sum draw : float) : float := (sum + draw)%float.

(** [this.priorityBands[slot.priority][usage] -= old.power]. *)
Definition drawRemoved (sum draw : float) : float := (sum - draw)%float.

(** [prevDeployed = band.deployedSum
       = prevDeployed + band.deployed + band.retracted] in
    [updatePower]. *)
Definition deployedSumAfter (prevDeployed deployed' retracted' : float) : float :=
  (prevDeployed + deployed' + retracted')%float.

End Binary64.


(** ** Auxiliary notions for the statements *)

(** The cumulative sum of the tier before tier [i]; the sum before tier 0
    is zero. *)
Definition sumBefore (f : Band → Z) (bands : list Band) (i : nat) : Z :=
  match i with
  | O => 0
  | S j => default 0 (f <$> bands !! j)
  end.

(** The slots that the power list offers for enabling and for a change of
    priority: the cargo hatch and the slots of the three groups. *)
Definition powered (r : SlotRef) : Prop :=
  match r with
  | RCargoHatch | RStandard _ | RHardpoint _ | RInternal _ => True
  | RShip | RBulkheads => False
  end.

(** The slots that take a component by [use]. *)
Definition installable (r : SlotRef) : Prop :=
  match r with
  | RStandard _ | RHardpoint _ | RInternal _ => True
  | RShip | RCargoHatch | RBulkheads => False
  end.

(** ** What a slot contributes to the aggregates *)

(** The sum of a contribution over a slot group. *)
Definition total (f : Slot → Z) (l : list Slot) : Z :=
  foldr (λ sl acc, f sl + acc) 0 l.

(** The slots whose components [updateStats] accounts for: the bulkheads
    and the three groups. *)
Definition overSlots (f : Slot → Z) (s : Ship) : Z :=
  f (bulkheads s) + total f (standard s) + total f (hardpoints s) + total f (internal s).

(** The same with the cargo hatch, which draws power. *)
Definition overPowered (f : Slot → Z) (s : Ship) : Z :=
  f (cargoHatch s) + overSlots f s.

Definition fuelOfC (n : option Component) : Z :=
  match n with
  | Some m => if grpIs m "ft" then capacity m else 0
  | None => 0
  end.

Definition cargoOfC (n : option Component) : Z :=
  match n with
  | Some m => if grpIs m "ft" then 0 else if grpIs m "cr" then capacity m else 0
  | None => 0
  end.

Definition armourOfC (n : option Component) : Z :=
  match n with
  | Some m => if grpIs m "ft" then 0 else if grpIs m "cr" then 0
              else if grpIs m "hr" then armouradd m else 0
  | None => 0
  end.

Definition shieldOfC (sl : Slot) (n : option Component) : Z :=
  match n with
  | Some m => if grpIs m "ft" then 0 else if grpIs m "cr" then 0
              else if grpIs m "hr" then 0
              else if grpIs m "sb" then (if enabled sl then shieldmul m else 0) else 0
  | None => 0
  end.

Definition costOfC (multiplier : Z) (sl : Slot) (n : option Component) : Z :=
  match n with
  | Some m => if incCost sl then cost m * multiplier else 0
  | None => 0
  end.

Definition massOfC (n : option Component) : Z :=
  match n with
  | Some m => mass m
  | None => 0
  end.

Definition dpsOfC (sl : Slot) (n : option Component) : Z :=
  match n with
  | Some m => if truthy (power m) && enabled sl then dps m else 0
  | None => 0
  end.

Definition usageIs (u v : PowerUsage) : bool :=
  match u, v with
  | Deployed, Deployed | Retracted, Retracted => true
  | _, _ => false
  end.

(** The power that the component [n] in slot [sl] draws in tier [k]
    under the key [u]. *)
Definition drawOfC (k : nat) (u : PowerUsage) (sl : Slot) (n : option Component) : Z :=
  match n with
  | Some m =>
      if enabled sl && (priority sl =? Z.of_nat k) && usageIs (powerUsageType sl (Some m)) u
      then power m else 0
  | None => 0
  end.

Definition fuelOf (sl : Slot) : Z := fuelOfC (c sl).
Definition cargoOf (sl : Slot) : Z := cargoOfC (c sl).
Definition armourOf (sl : Slot) : Z := armourOfC (c sl).
Definition shieldOf (sl : Slot) : Z := shieldOfC sl (c sl).
Definition costOf (multiplier : Z) (sl : Slot) : Z := costOfC multiplier sl (c sl).
Definition massOf (sl : Slot) : Z := massOfC (c sl).
Definition dpsOf (sl : Slot) : Z := dpsOfC sl (c sl).
Definition drawOf (k : nat) (u : PowerUsage) (sl : Slot) : Z := drawOfC k u sl (c sl).

(** [bands'] is [bands] with the draw of [n] in [sl] added [k] times to
    the raw sums; the cumulative sums are kept. *)
Definition bandsDelta (k : Z) (sl : Slot) (n : option Component)
    (bands bands' : list Band) : Prop :=
  length bands' = length bands
  ∧ ∀ i b, bands !! i = Some b →
      ∃ b', bands' !! i = Some b'
        ∧ deployed b' = deployed b + k * drawOfC i Deployed sl n
        ∧ retracted b' = retracted b + k * drawOfC i Retracted sl n
        ∧ retOnly b' = retOnly b
        ∧ retractedSum b' = retractedSum b
        ∧ deployedSum b' = deployedSum b.

(** The cumulative statistics after the component [n] of slot [sl] has
    been counted [k] times more, with [bands'] for the priority bands. *)
Definition shiftStats (k : Z) (sl : Slot) (n : option Component) (bands' : list Band)
    (s : Ship) : Ship :=
  set_unladenMass (unladenMass s + k * massOfC n)
    (set_totalDps (totalDps s + k * dpsOfC sl n)
    (set_priorityBands bands'
    (set_totalCost (totalCost s + k * costOfC (componentCostMultiplier s) sl n)
    (set_shieldMultiplier (shieldMultiplier s + k * shieldOfC sl n)
    (set_armourAdded (armourAdded s + k * armourOfC n)
    (set_cargoCapacity (cargoCapacity s + k * cargoOfC n)
    (set_fuelCapacity (fuelCapacity s + k * fuelOfC n) s))))))).

(** The part of [updateStats] that follows the two halves: laden mass
    and armour. *)
Definition settleStats (s : Ship) : Ship :=
  let s3 := set_ladenMass (unladenMass s + cargoCapacity s + fuelCapacity s) s in
  set_armour (armourAdded s3 + Math_round (baseArmour (props s3) * armourMultiplier s3)) s3.

(** Whether the component [n] in slot [sl] draws power. *)
Definition activeC (sl : Slot) (n : option Component) : bool :=
  match n with
  | Some m => truthy (power m) && enabled sl
  | None => false
  end.

Arguments shiftStats : simpl never.
Arguments settleStats : simpl never.

Section Tail.
Context `{Collaborators}.

(** The tail of [updateStats] when updates are not prevented. *)
Definition refresh (powerChange : bool) (s : Ship) : option Ship :=
  s5 ← (if powerChange then updatePower s else Some s);
  s6 ← updateTopSpeed s5;
  s7 ← updateJumpStats s6;
  Some (updateShieldStrength s7).

End Tail.

Arguments refresh : simpl never.

(** ** Reachable ships and what holds of them *)

Section Reachable.
Context `{Collaborators}.

(** The catalogue lookup that goes with a slot group. *)
Definition catalogueAt (r : SlotRef) (i : string) : option Component :=
  match r with
  | RStandard k => Components_standard k i
  | RHardpoint _ => Components_hardpoints i
  | RInternal _ => Components_internal i
  | RShip | RCargoHatch | RBulkheads => None
  end.

(** The [cat] and [type] that [buildWith] gives the slots of a group. *)
Definition categoryOf (r : SlotRef) : option Z :=
  match r with
  | RStandard _ => Some 0
  | RHardpoint _ => Some 1
  | RInternal _ => Some 2
  | RShip | RCargoHatch | RBulkheads => None
  end.

Definition typeOf (r : SlotRef) (sl : Slot) : SlotType :=
  match r with
  | RStandard 1 | RStandard 2 => ENG
  | RStandard _ | RInternal _ => SYS
  | RHardpoint _ => if truthy (maxClass sl) then WEP else SYS
  | RShip => SHIP
  | RCargoHatch => SYS
  | RBulkheads => NoType
  end.

Definition priceOf (n : option Component) : Z :=
  match n with
  | Some m => cost m
  | None => 0
  end.

(** The current contents of the ship as arguments of [buildWith]. *)
Definition compsOf (s : Ship) : Comps :=
  {| comps_bulkheads := bulkheadsId s;
     comps_standard := id <$> standard s;
     comps_hardpoints := id <$> hardpoints s;
     comps_internal := id <$> internal s |}.

Definition prioritiesOf (s : Ship) : list Z :=
  priority (cargoHatch s)
  :: (priority <$> standard s) ++ (priority <$> hardpoints s) ++ (priority <$> internal s).

Definition enabledOf (s : Ship) : list bool :=
  enabled (cargoHatch s)
  :: (enabled <$> standard s) ++ (enabled <$> hardpoints s) ++ (enabled <$> internal s).

(** [rebuild]: [buildWith] on the current contents, priorities and
    enabled flags. *)
Definition rebuild (s : Ship) : option Ship :=
  buildWith s (Some (compsOf s)) (Some (prioritiesOf s)) (Some (enabledOf s)).

(** One mutation of a built ship.  A component is installed under the
    id the catalogue knows it by ([None] empties the slot); the cost
    list offers every slot but the cargo hatch, the power list the cargo
    hatch and the slots of the groups. *)
Inductive step : Ship → Ship → Prop :=
  | step_use s r i s' :
      installable r → use s r i (i ≫= catalogueAt r) false = Some s' → step s s'
  | step_useBulkhead s index s' :
      useBulkhead s index false = Some s' → step s s'
  | step_setCostIncluded s r included s' :
      r ≠ RCargoHatch → setCostIncluded s r included = Some s' → step s s'
  | step_setSlotEnabled s r en s' :
      powered r → setSlotEnabled s r en = Some s' → step s s'
  | step_changePriority s r newPriority s' result :
      powered r → changePriority s r newPriority = Some (s', result) → step s s'
  | step_applyDiscounts s shipMultiplier componentMultiplier :
      step s (applyDiscounts s shipMultiplier componentMultiplier)
  | step_buildWith s comps priorities enabled' s' :
      buildWith s (Some comps) priorities enabled' = Some s' → step s s'.

(** The ships that a session reaches: a new ship built with a selection
    of components, then any sequence of mutations. *)
Inductive reachable : Ship → Prop :=
  | reachable_new i properties slots comps priorities enabled' s :
      buildWith (newShip i properties slots) (Some comps) priorities enabled' = Some s →
      reachable s
  | reachable_step s s' : reachable s → step s s' → reachable s'.

(** Whether the array [enabled] of a call of [buildWith], when there is
    one, has a flag for the cargo hatch and for every slot of the
    ship. *)
Definition flagsCover (enabled' : option (list bool)) (s : Ship) : Prop :=
  match enabled' with
  | Some l =>
      (1 + length (standard s) + length (hardpoints s) + length (internal s)
       ≤ length l)%nat
  | None => True
  end.

(** One mutation of a built ship other than a build. *)
Inductive mutation : Ship → Ship → Prop :=
  | mutation_use s r i s' :
      installable r → use s r i (i ≫= catalogueAt r) false = Some s' → mutation s s'
  | mutation_useBulkhead s index s' :
      useBulkhead s index false = Some s' → mutation s s'
  | mutation_setCostIncluded s r included s' :
      r ≠ RCargoHatch → setCostIncluded s r included = Some s' → mutation s s'
  | mutation_setSlotEnabled s r en s' :
      powered r → setSlotEnabled s r en = Some s' → mutation s s'
  | mutation_changePriority s r newPriority s' result :
      powered r → changePriority s r newPriority = Some (s', result) → mutation s s'
  | mutation_applyDiscounts s shipMultiplier componentMultiplier :
      mutation s (applyDiscounts s shipMultiplier componentMultiplier).

(** The ships that a session reaches whose builds pass, when they pass
    an array [enabled], a flag for every slot: on these no slot holds
    the flag [NaN]. *)
Inductive wellFlagged : Ship → Prop :=
  | wellFlagged_new i properties slots comps priorities enabled' s :
      flagsCover enabled' (newShip i properties slots) →
      buildWith (newShip i properties slots) (Some comps) priorities enabled' = Some s →
      wellFlagged s
  | wellFlagged_build s comps priorities enabled' s' :
      wellFlagged s → flagsCover enabled' s →
      buildWith s (Some comps) priorities enabled' = Some s' → wellFlagged s'
  | wellFlagged_mutation s s' : wellFlagged s → mutation s s' → wellFlagged s'.

(** A slot of a group as [buildWith] and [use] leave it. *)
Record slotOk (multiplier : Z) (r : SlotRef) (sl : Slot) : Prop := {
  slot_cat : cat sl = categoryOf r;
  slot_component : c sl = id sl ≫= catalogueAt r;
  slot_price : discountedCost sl = priceOf (c sl) * multiplier;
  slot_type : type sl = typeOf r sl
}.

(** The slots of the ship are well formed. *)
Record Shaped (s : Ship) : Prop := {
  shaped_slots : ∀ r sl, installable r → getSlot s r = Some sl →
                 slotOk (componentCostMultiplier s) r sl;
  shaped_hatch : c (cargoHatch s) = Some Components_cargoHatch
                 ∧ cat (cargoHatch s) = None;
  shaped_bulkheads : c (bulkheads s) = Components_bulkheads (shipId s) (bulkheadsId s)
                     ∧ is_Some (c (bulkheads s))
                     ∧ enabled (bulkheads s) = false
                     ∧ cat (bulkheads s) = None
                     ∧ type (bulkheads s) ≠ SHIP
                     ∧ discountedCost (bulkheads s)
                       = priceOf (c (bulkheads s)) * componentCostMultiplier s;
  shaped_hull : type (shipC s) = SHIP
                ∧ is_Some (c (shipC s))
                ∧ discountedCost (shipC s)
                  = priceOf (c (shipC s)) * shipCostMultiplier s;
  shaped_plant : ∃ sl n, standard s !! 0%nat = Some sl ∧ c sl = Some n;
  shaped_fsd : ∃ sl n, standard s !! 2%nat = Some sl ∧ c sl = Some n
}.

(** The raw sums of the priority bands agree with the slots. *)
Definition Metered (s : Ship) : Prop :=
  ∀ i b, priorityBands s !! i = Some b →
    deployed b = overPowered (drawOf i Deployed) s
    ∧ retracted b = overPowered (drawOf i Retracted) s
    ∧ retOnly b = 0.

(** An enabled slot that draws power sits in a tier that exists. *)
Definition tierKnown (s : Ship) (r : SlotRef) (sl : Slot) : Prop :=
  enabled sl = true → ∀ n, c sl = Some n → (power n ≠ 0 ∨ r = RCargoHatch) →
  is_Some (bandAt (priorityBands s) (priority sl)).

Definition Tiered (s : Ship) : Prop :=
  ∀ r sl, powered r → getSlot s r = Some sl → tierKnown s r sl.

(** The cumulative sums and the power figures are those that
    [updatePower] computes. *)
Definition Summed (s : Ship) : Prop :=
  sumBands 0 0 (priorityBands s) = (priorityBands s, (powerRetracted s, powerDeployed s))
  ∧ ∃ sl n, standard s !! 0%nat = Some sl ∧ c sl = Some n ∧ powerAvailable s = pGen n.

(** The priority bands agree with the slots. *)
Record Supplied (s : Ship) : Prop := {
  supplied_raw : Metered s;
  supplied_sums : Summed s;
  supplied_tiers : Tiered s
}.

(** A weapon draws power and is no shield component: the two places
    that count damage per second, [updateStats] and [setSlotEnabled],
    agree on such a component. *)
Definition sane (n : Component) : Prop :=
  dps n ≠ 0 →
  power n ≠ 0 ∧ grpIs n "sg" = false ∧ grpIs n "psg" = false ∧ grpIs n "sb" = false.

Record SaneCatalogue : Prop := {
  sane_standard : ∀ i k n, Components_standard i k = Some n → sane n;
  sane_hardpoints : ∀ k n, Components_hardpoints k = Some n → sane n;
  sane_internal : ∀ k n, Components_internal k = Some n → sane n;
  sane_hatch : grpIs Components_cargoHatch "sb" = false
               ∧ dps Components_cargoHatch = 0
}.

(** No component of the catalogue feeds power back. *)
Record DrawingCatalogue : Prop := {
  drawing_standard : ∀ i k n, Components_standard i k = Some n → 0 ≤ power n;
  drawing_hardpoints : ∀ k n, Components_hardpoints k = Some n → 0 ≤ power n;
  drawing_internal : ∀ k n, Components_internal k = Some n → 0 ≤ power n;
  drawing_hatch : 0 ≤ power Components_cargoHatch
}.

(** The statistics that [updateStats] adds to and subtracts from agree
    with the slots.  [setSlotEnabled] adjusts the shield multiplier and
    the damage per second by rules of its own, which agree with those
    of [updateStats] on the components of a sane catalogue: these two
    statistics are counted under that condition. *)
Record Counted (s : Ship) : Prop := {
  counted_fuel : fuelCapacity s = overSlots fuelOf s;
  counted_cargo : cargoCapacity s = overSlots cargoOf s;
  counted_armourAdded : armourAdded s = overSlots armourOf s;
  counted_shield : SaneCatalogue → shieldMultiplier s = 1 + overSlots shieldOf s;
  counted_cost : totalCost s
                 = (if incCost (shipC s) then discountedCost (shipC s) else 0)
                   + overSlots (costOf (componentCostMultiplier s)) s;
  counted_mass : unladenMass s = hullMass (props s) + overSlots massOf s;
  counted_dps : SaneCatalogue → totalDps s = overSlots dpsOf s
}.

(** The cumulative statistics agree with the slots. *)
Record Tallied (s : Ship) : Prop := {
  tallied_counted : Counted s;
  tallied_laden : ladenMass s = unladenMass s + cargoCapacity s + fuelCapacity s;
  tallied_multiplier : armourMultiplier s = ArmourMultiplier (bulkheadsId s);
  tallied_armour : armour s = armourAdded s
                   + Math_round (baseArmour (props s) * armourMultiplier s)
}.

(** Two slot objects that differ in the component at most. *)
Record sameMount (sl sl' : Slot) : Prop := {
  mount_incCost : incCost sl' = incCost sl;
  mount_enabled : enabled sl' = enabled sl;
  mount_priority : priority sl' = priority sl;
  mount_cat : cat sl' = cat sl
}.

(** The statistics that the formulas give are up to date. *)
Record Derived (s : Ship) : Prop := {
  derived_speed : ∀ th, standard s !! 1%nat = Some th →
      (topSpeed s, topBoost s)
      = calcSpeed (unladenMass s + fuelCapacity s) (speed (props s))
          (boost (props s)) (c th) (pipSpeed (props s));
  derived_jump : ∀ sl fsd, standard s !! 2%nat = Some sl → c sl = Some fsd →
      unladenRange s
      = calcJumpRange (unladenMass s + maxfuel fsd) fsd (fuelCapacity s)
      ∧ fullTankRange s
        = calcJumpRange (unladenMass s + fuelCapacity s) fsd (fuelCapacity s)
      ∧ ladenRange s = calcJumpRange (ladenMass s) fsd (fuelCapacity s)
      ∧ unladenTotalRange s = calcTotalRange (unladenMass s) fsd (fuelCapacity s)
      ∧ ladenTotalRange s
        = calcTotalRange (unladenMass s + cargoCapacity s) fsd (fuelCapacity s)
      ∧ maxJumpCount s = Math_ceil_div (fuelCapacity s) (maxfuel fsd);
  derived_shield : shieldStrength s = shieldStrength (updateShieldStrength s)
}.

End Reachable.

(** ** The slots that [use] leaves *)

(** The slot that [use] leaves in the place of [sl]. *)
Definition fitted (i : option string) (component : option Component) (m : Z) (sl : Slot)
  : Slot :=
  set_discountedCost (priceOf component * m) (set_c component (set_id i sl)).

(** The slot that [use] leaves in the place of the other slot of a
    unique group. *)
Definition vacated (sl : Slot) : Slot :=
  set_discountedCost 0 (set_c None (set_id None sl)).

(** The slot that a loop over a slot group leaves which empties the
    slots that it does not keep. *)
Definition unlessKept (keep : Slot → bool) (sl : Slot) : Slot :=
  if keep sl then sl else vacated sl.

(** ** Relations between the states of a ship *)

Section Relations.
Context `{Collaborators}.

Definition rawEq (b b' : Band) : Prop :=
  deployed b = deployed b' ∧ retracted b = retracted b' ∧ retOnly b = retOnly b'.

(** The slots, the identity and the multipliers. *)
Record sameBase (s s' : Ship) : Prop := {
  same_shipId : shipId s' = shipId s;
  same_props : props s' = props s;
  same_cargoHatch : cargoHatch s' = cargoHatch s;
  same_bulkheads : bulkheads s' = bulkheads s;
  same_bulkheadsId : bulkheadsId s' = bulkheadsId s;
  same_shipC : shipC s' = shipC s;
  same_standard : standard s' = standard s;
  same_hardpoints : hardpoints s' = hardpoints s;
  same_internal : internal s' = internal s;
  same_shipCostMultiplier : shipCostMultiplier s' = shipCostMultiplier s;
  same_componentCostMultiplier : componentCostMultiplier s' = componentCostMultiplier s
}.

(** The cumulative statistics. *)
Record sameTally (s s' : Ship) : Prop := {
  same_fuelCapacity : fuelCapacity s' = fuelCapacity s;
  same_cargoCapacity : cargoCapacity s' = cargoCapacity s;
  same_ladenMass : ladenMass s' = ladenMass s;
  same_armourAdded : armourAdded s' = armourAdded s;
  same_armourMultiplier : armourMultiplier s' = armourMultiplier s;
  same_shieldMultiplier : shieldMultiplier s' = shieldMultiplier s;
  same_totalCost : totalCost s' = totalCost s;
  same_unladenMass : unladenMass s' = unladenMass s;
  same_totalDps : totalDps s' = totalDps s;
  same_armour : armour s' = armour s
}.

(** The priority bands and the power figures. *)
Record samePower (s s' : Ship) : Prop := {
  same_priorityBands : priorityBands s' = priorityBands s;
  same_powerAvailable : powerAvailable s' = powerAvailable s;
  same_powerRetracted : powerRetracted s' = powerRetracted s;
  same_powerDeployed : powerDeployed s' = powerDeployed s
}.

(** [s'] has the statistics and the raw sums of [s0] with the
    component [old] of a slot mounted like [sl] counted once less and
    [n] once more. *)
Record traded (s0 s' : Ship) (sl : Slot) (old n : option Component) : Prop := {
  traded_fuel : fuelCapacity s' = fuelCapacity s0 - fuelOfC old + fuelOfC n;
  traded_cargo : cargoCapacity s' = cargoCapacity s0 - cargoOfC old + cargoOfC n;
  traded_armourAdded : armourAdded s' = armourAdded s0 - armourOfC old + armourOfC n;
  traded_shield : shieldMultiplier s'
                  = shieldMultiplier s0 - shieldOfC sl old + shieldOfC sl n;
  traded_cost : totalCost s'
                = totalCost s0 - costOfC (componentCostMultiplier s0) sl old
                  + costOfC (componentCostMultiplier s0) sl n;
  traded_mass : unladenMass s' = unladenMass s0 - massOfC old + massOfC n;
  traded_dps : totalDps s' = totalDps s0 - dpsOfC sl old + dpsOfC sl n;
  traded_length : length (priorityBands s') = length (priorityBands s0);
  traded_bands : ∀ i b', priorityBands s' !! i = Some b' →
      ∃ b, priorityBands s0 !! i = Some b
        ∧ deployed b' = deployed b - drawOfC i Deployed sl old + drawOfC i Deployed sl n
        ∧ retracted b'
          = retracted b - drawOfC i Retracted sl old + drawOfC i Retracted sl n
        ∧ retOnly b' = retOnly b
}.

(** The derived statistics. *)
Record sameDerived (s s' : Ship) : Prop := {
  same_topSpeed : topSpeed s' = topSpeed s;
  same_topBoost : topBoost s' = topBoost s;
  same_shieldStrength : shieldStrength s' = shieldStrength s;
  same_unladenRange : unladenRange s' = unladenRange s;
  same_fullTankRange : fullTankRange s' = fullTankRange s;
  same_ladenRange : ladenRange s' = ladenRange s;
  same_unladenTotalRange : unladenTotalRange s' = unladenTotalRange s;
  same_ladenTotalRange : ladenTotalRange s' = ladenTotalRange s;
  same_maxJumpCount : maxJumpCount s' = maxJumpCount s
}.

(** Two slots that [updateShieldStrength] cannot tell apart. *)
Definition shieldAlike (a b : Slot) : Prop :=
  c a = c b ∧ (holdsGroup "sg" a = true → enabled a = enabled b).

(** Two slots with the same identity, component and price. *)
Record sameFittings (sl x : Slot) : Prop := {
  fit_id : id x = id sl;
  fit_c : c x = c sl;
  fit_cat : cat x = cat sl;
  fit_type : type x = type sl;
  fit_maxClass : maxClass x = maxClass sl;
  fit_discountedCost : discountedCost x = discountedCost sl
}.

(** The figures that the formulas read. *)
Record sameLoad (s s' : Ship) : Prop := {
  load_fuelCapacity : fuelCapacity s' = fuelCapacity s;
  load_cargoCapacity : cargoCapacity s' = cargoCapacity s;
  load_ladenMass : ladenMass s' = ladenMass s;
  load_unladenMass : unladenMass s' = unladenMass s;
  load_shieldMultiplier : shieldMultiplier s' = shieldMultiplier s
}.

(** The derived statistics but the shield strength, and the masses they
    are computed from. *)
Record sameRanges (s s' : Ship) : Prop := {
  ranges_topSpeed : topSpeed s' = topSpeed s;
  ranges_topBoost : topBoost s' = topBoost s;
  ranges_unladenRange : unladenRange s' = unladenRange s;
  ranges_fullTankRange : fullTankRange s' = fullTankRange s;
  ranges_ladenRange : ladenRange s' = ladenRange s;
  ranges_unladenTotalRange : unladenTotalRange s' = unladenTotalRange s;
  ranges_ladenTotalRange : ladenTotalRange s' = ladenTotalRange s;
  ranges_maxJumpCount : maxJumpCount s' = maxJumpCount s;
  ranges_fuelCapacity : fuelCapacity s' = fuelCapacity s;
  ranges_cargoCapacity : cargoCapacity s' = cargoCapacity s;
  ranges_ladenMass : ladenMass s' = ladenMass s;
  ranges_unladenMass : unladenMass s' = unladenMass s;
  ranges_props : props s' = props s
}.

(** [bands'] is [bands] with the draw of the slot [sl] replaced by the
    draw of [x]. *)
Definition remounted (bands bands' : list Band) (sl x : Slot) : Prop :=
  length bands' = length bands
  ∧ ∀ i b', bands' !! i = Some b' →
      ∃ b, bands !! i = Some b
        ∧ deployed b' = deployed b - drawOf i Deployed sl + drawOf i Deployed x
        ∧ retracted b' = retracted b - drawOf i Retracted sl + drawOf i Retracted x
        ∧ retOnly b' = retOnly b.

(** The middle of [setSlotEnabled]: what enabling ([sign] 1) or disabling
    ([sign] -1) the component [n] does to the shield multiplier, the
    shield strength and the damage per second. *)
Definition toggleStats (n : Component) (sign : Z) (s2 : Ship) : Ship :=
  if grpIs n "sg" || grpIs n "psg" then updateShieldStrength s2
  else if grpIs n "sb" then
    updateShieldStrength
      (set_shieldMultiplier (shieldMultiplier s2 + shieldmul n * sign) s2)
  else if truthy (dps n) then set_totalDps (totalDps s2 + dps n * sign) s2
  else s2.

End Relations.

(** ** Repricing *)

(** The slot that [applyDiscounts] leaves for [item]. *)
Definition reprice (shipMultiplier componentMultiplier : Z) (item : Slot) : Slot :=
  match c item with
  | Some n =>
      if truthy (cost n)
      then set_discountedCost
             (cost n * (match type item with
                        | SHIP => shipMultiplier
                        | _ => componentMultiplier
                        end)) item
      else item
  | None => item
  end.

(** What the loop of [applyDiscounts] adds to [total] for [item]. *)
Definition billed (shipMultiplier componentMultiplier : Z) (item : Slot) : Z :=
  match c item with
  | Some n =>
      if truthy (cost n) && incCost item
      then cost n * (match type item with
                     | SHIP => shipMultiplier
                     | _ => componentMultiplier
                     end)
      else 0
  | None => 0
  end.

(** The sum of [f] over the slots that the references name. *)
Definition sumOver (f : Slot → Z) (s : Ship) (refs : list SlotRef) : Z :=
  foldr (λ r acc, default 0 (f <$> getSlot s r) + acc) 0 refs.

(** The fields that no slot edit touches. *)
Record sameRest (s s' : Ship) : Prop := {
  rest_shipId : shipId s' = shipId s;
  rest_props : props s' = props s;
  rest_bulkheadsId : bulkheadsId s' = bulkheadsId s;
  rest_shipCostMultiplier : shipCostMultiplier s' = shipCostMultiplier s;
  rest_componentCostMultiplier : componentCostMultiplier s' = componentCostMultiplier s;
  rest_tally : sameTally s s';
  rest_power : samePower s s';
  rest_derived : sameDerived s s'
}.

(** ** The stages of [buildWith] *)

(** How far the three loops of [buildWith] have come: the number of
    slots of each group that have been built. *)
Record Progress : Type := Build_Progress {
  doneStandard : nat;
  doneHardpoints : nat;
  doneInternal : nat
}.

(** The slot has been built (the slots outside the groups count as
    built). *)
Definition visited (p : Progress) (r : SlotRef) : bool :=
  match r with
  | RStandard i => bool_decide (i < doneStandard p)%nat
  | RHardpoint i => bool_decide (i < doneHardpoints p)%nat
  | RInternal i => bool_decide (i < doneInternal p)%nat
  | RShip | RCargoHatch | RBulkheads => true
  end.

(** The slot is the next one to build. *)
Definition front (p : Progress) (r : SlotRef) : Prop :=
  match r with
  | RStandard i => i = doneStandard p
  | RHardpoint i => i = doneHardpoints p
  | RInternal i => i = doneInternal p
  | RShip | RCargoHatch | RBulkheads => False
  end.

(** The progress after the slot has been built. *)
Definition after (r : SlotRef) (p : Progress) : Progress :=
  match r with
  | RStandard i => Build_Progress (S i) (doneHardpoints p) (doneInternal p)
  | RHardpoint i => Build_Progress (doneStandard p) (S i) (doneInternal p)
  | RInternal i => Build_Progress (doneStandard p) (doneHardpoints p) (S i)
  | RShip | RCargoHatch | RBulkheads => p
  end.

(** A slot group in which the slots from position [k] on count as
    empty: [buildWith] has reset the statistics, and the components that
    those slots still hold from before are not part of them yet. *)
Definition veilFrom (k : nat) (l : list Slot) : list Slot :=
  imap (λ i sl, if bool_decide (i < k)%nat then sl else set_c None sl) l.

Definition veil (p : Progress) (t : Ship) : Ship :=
  set_internal (veilFrom (doneInternal p) (internal t))
    (set_hardpoints (veilFrom (doneHardpoints p) (hardpoints t))
      (set_standard (veilFrom (doneStandard p) (standard t)) t)).

(** The [type] of a slot while [buildWith] runs: the loop over the
    standard slots gives every slot the type of a system, and the
    engines are marked afterwards; [eng k] tells whether slot [k] has
    had its turn. *)
Definition typeLaid (eng : nat → bool) (r : SlotRef) (sl : Slot) : SlotType :=
  match r with
  | RStandard k => if eng k then typeOf r sl else SYS
  | _ => typeOf r sl
  end.

(** A slot that a loop of [buildWith] has built. *)
Record slotLaid `{Collaborators} (eng : nat → bool) (multiplier : Z) (r : SlotRef) (sl : Slot)
  : Prop := {
  laid_cat : cat sl = categoryOf r;
  laid_component : c sl = id sl ≫= catalogueAt r;
  laid_price : discountedCost sl = priceOf (c sl) * multiplier;
  laid_type : type sl = typeLaid eng r sl
}.

(** What [buildWith] relies on and the constructor provides: the cargo
    hatch holds its component, the bulkheads draw no power, and the ship
    entry carries the hull price. *)
Record Framed `{Collaborators} (s : Ship) : Prop := {
  framed_hatch : c (cargoHatch s) = Some Components_cargoHatch
                 ∧ cat (cargoHatch s) = None;
  framed_bulkheads : enabled (bulkheads s) = false ∧ cat (bulkheads s) = None
                     ∧ type (bulkheads s) ≠ SHIP;
  framed_hull : type (shipC s) = SHIP ∧ is_Some (c (shipC s))
                ∧ discountedCost (shipC s) = priceOf (c (shipC s)) * shipCostMultiplier s
}.

(** The ship in the middle of [buildWith]: the statistics and the bands
    account for the bulkheads, the cargo hatch and the slots built so
    far. *)
Record Building `{Collaborators} (eng : nat → bool) (p : Progress) (t : Ship) : Prop := {
  building_counted : Counted (veil p t);
  building_metered : Metered (veil p t);
  building_tiered : Tiered (veil p t);
  building_laden : ladenMass t = unladenMass t + cargoCapacity t + fuelCapacity t;
  building_multiplier : armourMultiplier t = ArmourMultiplier (bulkheadsId t);
  building_armour : armour t = armourAdded t
                    + Math_round (baseArmour (props t) * armourMultiplier t);
  building_slots : ∀ r sl, installable r → visited p r = true → getSlot t r = Some sl →
                   slotLaid eng (componentCostMultiplier t) r sl;
  building_framed : Framed t;
  building_bulkheads : c (bulkheads t) = Components_bulkheads (shipId t) (bulkheadsId t)
                       ∧ is_Some (c (bulkheads t))
                       ∧ discountedCost (bulkheads t)
                         = priceOf (c (bulkheads t)) * componentCostMultiplier t
}.

(** The slot that [use] leaves when it installs [comp] under the id [i]. *)
Definition filled (i : option string) (comp : option Component) (multiplier : Z)
    (sl : Slot) : Slot :=
  set_discountedCost (priceOf comp * multiplier) (set_c comp (set_id i sl)).

(** The body that the three loops of [buildWith] share: the slot is
    reset and takes the component that the catalogue of its group has
    under the id [i]. *)
Definition buildSlot `{Collaborators} (r : SlotRef) (category : Z) (en : bool) (pr : Z)
    (ty : Slot → SlotType) (i : option string) (t : Ship) : option Ship :=
  sl ← getSlot t r;
  use (setSlot r (resetSlot category en pr (ty sl) sl) t) r i (i ≫= catalogueAt r) true.

(** The slot groups and the bands have the same sizes. *)
Record sameSize (t t' : Ship) : Prop := {
  size_standard : length (standard t') = length (standard t);
  size_hardpoints : length (hardpoints t') = length (hardpoints t);
  size_internal : length (internal t') = length (internal t);
  size_priorityBands : length (priorityBands t') = length (priorityBands t)
}.

(** [buildWith] up to its loops: the statistics are reset, the bulkheads
    installed, the cargo hatch set up and the bands cleared. *)
Definition buildPrefix `{Collaborators} (s : Ship) (index : Z) (priorities : option (list Z))
    (enabled' : option (list bool)) : option Ship :=
  let s1 :=
    set_totalDps 0
      (set_unladenMass (hullMass (props s))
      (set_totalCost (if incCost (shipC s) then discountedCost (shipC s) else 0)
      (set_shieldMultiplier 1
      (set_armourMultiplier 1
      (set_armourAdded 0
      (set_ladenMass 0
      (set_cargoCapacity 0
      (set_fuelCapacity 0 s)))))))) in
  let s2 := set_bulkheads (set_c None (bulkheads s1)) s1 in
  s3 ← useBulkhead s2 index true;
  let s4 := set_cargoHatch
              (set_enabled (enabledAt enabled' 0)
                 (set_priority (hatchPriority priorities) (cargoHatch s3))) s3 in
  let s5 := set_priorityBands (resetBand <$> priorityBands s4) s4 in
  if enabled (cargoHatch s5) then
    hatch ← c (cargoHatch s5);
    adjustBand (priority (cargoHatch s5)) Retracted (power hatch) s5
  else Some s5.

(** The end of [buildWith]. *)
Definition buildSuffix `{Collaborators} (s11 : Ship) : option Ship :=
  s12 ← updatePower s11;
  s13 ← updateJumpStats s12;
  updateTopSpeed (updateShieldStrength s13).

(** The slot of a group as a rebuild has it while it runs: built slots
    carry the type that the loops have assigned so far. *)
Definition laidSlot (eng : nat → bool) (p : Progress) (r : SlotRef) (sl : Slot) : Slot :=
  match r with
  | RStandard _ | RHardpoint _ | RInternal _ =>
      if visited p r then set_type (typeLaid eng r sl) sl else sl
  | RShip | RCargoHatch | RBulkheads => sl
  end.

(** The ship [t] in the middle of a rebuild of [s]. *)
Record Restoring (eng : nat → bool) (p : Progress) (s t : Ship) : Prop := {
  restoring_slots : ∀ r, getSlot t r = laidSlot eng p r <$> getSlot s r;
  restoring_shipId : shipId t = shipId s;
  restoring_props : props t = props s;
  restoring_bulkheadsId : bulkheadsId t = bulkheadsId s;
  restoring_shipCostMultiplier : shipCostMultiplier t = shipCostMultiplier s;
  restoring_componentCostMultiplier : componentCostMultiplier t = componentCostMultiplier s
}.

(** ** Properties *)

Section PowerBands.
Context `{Collaborators}.

(** *** The loop of [updatePower] *)

Lemma sumBands_length bands : ∀ r d, length (sumBands r d bands).1 = length bands.
Proof.
  induction bands as [|b bands IH]; intros r d; simpl; [done|].
  specialize (IH (r + retracted b + retOnly b) (d + deployed b + retracted b)).
  destruct (sumBands _ _ bands) as [rest totals]. simpl in *. by rewrite IH.
Qed.

(** The raw sums of every band survive the loop. *)
Lemma sumBands_raw bands : ∀ r d i b',
  (sumBands r d bands).1 !! i = Some b' →
  ∃ b, bands !! i = Some b ∧ deployed b' = deployed b
       ∧ retracted b' = retracted b ∧ retOnly b' = retOnly b.
Proof.
  induction bands as [|b bands IH]; intros r d i b'; simpl; [done|].
  specialize (IH (r + retracted b + retOnly b) (d + deployed b + retracted b)).
  destruct (sumBands _ _ bands) as [rest totals]. simpl in *.
  destruct i as [|i]; simpl.
  - intros [= <-]. by exists b.
  - apply IH.
Qed.

(** Each cumulative sum is the one of the band before plus the raw sums
    of the band; the accumulators stand for the band before the first. *)
Lemma sumBands_step bands : ∀ r d i b',
  (sumBands r d bands).1 !! i = Some b' →
  retractedSum b'
  = match i with
    | O => r
    | S j => default 0 (retractedSum <$> (sumBands r d bands).1 !! j)
    end + retracted b' + retOnly b'
  ∧ deployedSum b'
    = match i with
      | O => d
      | S j => default 0 (deployedSum <$> (sumBands r d bands).1 !! j)
      end + deployed b' + retracted b'.
Proof.
  induction bands as [|b bands IH]; intros r d i b'; simpl; [done|].
  specialize (IH (r + retracted b + retOnly b) (d + deployed b + retracted b)).
  destruct (sumBands _ _ bands) as [rest totals]. simpl in *.
  destruct i as [|i]; simpl.
  - intros [= <-]. done.
  - intros Hi. destruct (IH i b' Hi) as [Hr Hd].
    destruct i as [|i]; simpl in *; [done|]. done.
Qed.

Lemma updatePower_bands s s' :
  updatePower s = Some s' → priorityBands s' = (sumBands 0 0 (priorityBands s)).1.
Proof.
  unfold updatePower. destruct (sumBands 0 0 (priorityBands s)) as [bands [r d]].
  simpl. destruct (standard s !! 0%nat) as [pp|]; simpl; [|done].
  destruct (c pp); simpl; [|done]. by intros [= <-].
Qed.

Lemma updatePower_is_Some s pp plant :
  standard s !! 0%nat = Some pp → c pp = Some plant → is_Some (updatePower s).
Proof.
  intros Hpp Hplant. unfold updatePower.
  destruct (sumBands 0 0 (priorityBands s)) as [bands [r d]].
  simpl. rewrite Hpp. simpl. rewrite Hplant. simpl. by eexists.
Qed.

(** C4.  With a power plant installed, [updatePower] returns, keeps the
    raw sums of every tier, and leaves in every tier [i] the cumulative
    sums [retractedSum[i] = retractedSum[i-1] + retracted[i] + retOnly[i]]
    and [deployedSum[i] = deployedSum[i-1] + deployed[i] + retracted[i]],
    the sums before tier 0 being zero. *)
Theorem updatePower_recurrence s pp plant :
  standard s !! 0%nat = Some pp → c pp = Some plant →
  ∃ s', updatePower s = Some s'
    ∧ length (priorityBands s') = length (priorityBands s)
    ∧ ∀ i b', priorityBands s' !! i = Some b' →
        (∃ b, priorityBands s !! i = Some b ∧ deployed b' = deployed b
              ∧ retracted b' = retracted b ∧ retOnly b' = retOnly b)
        ∧ retractedSum b'
          = sumBefore retractedSum (priorityBands s') i + retracted b' + retOnly b'
        ∧ deployedSum b'
          = sumBefore deployedSum (priorityBands s') i + deployed b' + retracted b'.
Proof.
  intros Hpp Hplant.
  destruct (updatePower_is_Some s pp plant Hpp Hplant) as [s' Hs'].
  exists s'. split; [done|].
  pose proof (updatePower_bands s s' Hs') as Hb. rewrite Hb.
  split; [apply sumBands_length|].
  intros i b' Hi. split; [by eapply sumBands_raw|].
  destruct (sumBands_step _ _ _ _ _ Hi) as [Hr Hd].
  destruct i; simpl in *; done.
Qed.

(** *** The status of a slot *)

(** C2, as amended.  For an installed, enabled slot whose priority names
    a band, and that is not an active (non-passive) hardpoint queried
    while retracted, [getSlotStatus] answers offline (2) exactly when the
    cumulative sum of the tier ([deployedSum] when deployed,
    [retractedSum] otherwise) is greater than or equal to the available
    power, and online (3) exactly when it is strictly less. *)
Theorem getSlotStatus_power s slot n isDeployed band :
  c slot = Some n → enabled slot = true →
  bandAt (priorityBands s) (priority slot) = Some band →
  (isDeployed = true ∨ ¬ (cat slot = Some 1 ∧ passive n = false)) →
  let sum := if isDeployed then deployedSum band else retractedSum band in
  (getSlotStatus s slot isDeployed = Some 2 ↔ powerAvailable s ≤ sum)
  ∧ (getSlotStatus s slot isDeployed = Some 3 ↔ sum < powerAvailable s).
Proof.
  intros Hc Hen Hband Hcase. unfold getSlotStatus. rewrite Hc, Hen, Hband. simpl.
  destruct isDeployed; simpl.
  - destruct (Z.leb_spec (powerAvailable s) (deployedSum band));
      split; split; intros; try done; try lia; simplify_eq.
  - assert (catIs slot 1 && negb (passive n) = false) as ->.
    { destruct Hcase as [|Hcase]; [done|]. unfold catIs.
      case_bool_decide; simpl; [|done]. destruct (passive n); [done|]. tauto. }
    destruct (Z.leb_spec (powerAvailable s) (retractedSum band));
      split; split; intros; try done; try lia; simplify_eq.
Qed.

(** C10.  An enabled hardpoint slot (category 1) holding a component
    that is not passive has no status (0) while the hardpoints are
    retracted. *)
Theorem getSlotStatus_retracted_hardpoint s slot n :
  cat slot = Some 1 → c slot = Some n → passive n = false → enabled slot = true →
  getSlotStatus s slot false = Some 0.
Proof.
  intros Hcat Hc Hp Hen. unfold getSlotStatus, catIs.
  rewrite Hc, Hen, Hp. simpl. by rewrite bool_decide_eq_true_2.
Qed.

(** *** Changing the priority *)

(** X23.  A priority outside the tiers is refused: [changePriority]
    answers [false] and leaves the whole ship, slots and priority bands,
    as it was. *)
Lemma changePriority_out_of_range s slot sl newPriority :
  getSlot s slot = Some sl →
  (newPriority < 0 ∨ Z.of_nat (length (priorityBands s)) ≤ newPriority) →
  changePriority s slot newPriority = Some (s, false).
Proof.
  intros Hsl Hout. unfold changePriority. rewrite Hsl. simpl.
  destruct Hout.
  - rewrite (bool_decide_eq_false_2 (0 ≤ newPriority)); [done|lia].
  - rewrite (bool_decide_eq_false_2 (newPriority < _)); [|lia].
    by rewrite andb_false_r.
Qed.

(** X24.  For a priority that names a tier, [changePriority] answers
    [true] whenever it returns. *)
Lemma changePriority_in_range s slot newPriority s' b :
  0 ≤ newPriority < Z.of_nat (length (priorityBands s)) →
  changePriority s slot newPriority = Some (s', b) → b = true.
Proof.
  intros [Hlo Hhi]. unfold changePriority.
  destruct (getSlot s slot) as [sl|]; simpl; [|done].
  rewrite (bool_decide_eq_true_2 (0 ≤ newPriority)) by done.
  rewrite (bool_decide_eq_true_2 (newPriority < _)) by done. simpl.
  destruct (enabled sl); simpl.
  - destruct (c sl) as [n|]; simpl; [|done].
    destruct (adjustBand _ _ _ _) as [s2|]; simpl; [|done].
    destruct (adjustBand _ _ _ _) as [s3|]; simpl; [|done].
    destruct (updatePower s3) as [s4|]; simpl; [|done]. by intros [= _ <-].
  - by intros [= _ <-].
Qed.

End PowerBands.

Section Deltas.
Context `{Collaborators}.

Lemma total_app f l1 l2 : total f (l1 ++ l2) = total f l1 + total f l2.
Proof. induction l1 as [|x l1 IH]; simpl; lia. Qed.

Lemma total_insert f l i old x :
  l !! i = Some old → total f (<[i:=x]> l) = total f l - f old + f x.
Proof.
  revert i. induction l as [|y l IH]; intros [|i]; simpl; try done.
  - intros [= ->]. lia.
  - intros Hi. rewrite (IH i Hi). lia.
Qed.

Lemma total_ext f g l : (∀ sl, sl ∈ l → f sl = g sl) → total f l = total g l.
Proof.
  induction l as [|x l IH]; simpl; [done|]. intros Hfg.
  rewrite (Hfg x) by set_solver. rewrite IH; [done|]. intros; apply Hfg; set_solver.
Qed.

Lemma total_nonneg f l : (∀ sl, sl ∈ l → 0 ≤ f sl) → 0 ≤ total f l.
Proof.
  induction l as [|x l IH]; simpl; [done|]. intros Hf.
  assert (0 ≤ f x) by (apply Hf; set_solver).
  assert (0 ≤ total f l) by (apply IH; intros; apply Hf; set_solver). lia.
Qed.

Lemma truthy_false x : truthy x = false → x = 0.
Proof. unfold truthy. destruct (Z.eqb_spec x 0); [done|]. done. Qed.

Lemma truthy_true x : truthy x = true → x ≠ 0.
Proof. unfold truthy. destruct (Z.eqb_spec x 0); [done|]. done. Qed.

Lemma bandAt_Some bands p b :
  bandAt bands p = Some b → 0 ≤ p ∧ bands !! Z.to_nat p = Some b.
Proof. unfold bandAt. case_decide; [done|]. done. Qed.

Lemma bandAt_nat bands (k : nat) : bandAt bands (Z.of_nat k) = bands !! k.
Proof.
  unfold bandAt. case_decide; [|lia]. by rewrite Nat2Z.id.
Qed.

Lemma bandsDelta_refl k sl bands : bandsDelta k sl None bands bands.
Proof.
  split; [done|]. intros i b Hi. exists b. simpl. repeat split; try done; lia.
Qed.

(** No draw, no change. *)
Lemma bandsDelta_idle k sl n bands :
  truthy (power n) && enabled sl = false → bandsDelta k sl (Some n) bands bands.
Proof.
  intros Hidle. split; [done|]. intros i b Hi. exists b.
  assert (∀ u, drawOfC i u sl (Some n) = 0) as Hz.
  { intros u. unfold drawOfC. destruct (enabled sl); simpl; [|done].
    rewrite andb_true_r in Hidle. apply truthy_false in Hidle. rewrite Hidle.
    by repeat case_match. }
  rewrite !Hz. repeat split; try done; lia.
Qed.

Lemma adjustBand_delta k d sl n s s' :
  enabled sl = true → d = k * power n →
  adjustBand (priority sl) (powerUsageType sl (Some n)) d s = Some s' →
  s' = set_priorityBands (priorityBands s') s
  ∧ is_Some (bandAt (priorityBands s) (priority sl))
  ∧ bandsDelta k sl (Some n) (priorityBands s) (priorityBands s').
Proof.
  intros Hen ->.
  unfold adjustBand, bandsDelta, drawOfC. generalize (powerUsageType sl (Some n)). intros u.
  destruct (bandAt _ _) as [b0|] eqn:Hb0; simpl; [|done].
  intros [= <-]. simpl. split; [done|]. split; [by eexists|].
  apply bandAt_Some in Hb0 as [Hp Hb0].
  split; [by rewrite length_insert|].
  intros i b Hi. rewrite Hen. simpl.
  destruct (decide (i = Z.to_nat (priority sl))) as [->|Hne].
  - rewrite list_lookup_insert_eq; [|eapply lookup_lt_Some; done].
    eexists; split; [done|]. rewrite Z2Nat.id by done. rewrite Z.eqb_refl.
    rewrite Hb0 in Hi. injection Hi as ->.
    destruct u; simpl; repeat split; lia.
  - rewrite list_lookup_insert_ne by done. exists b. split; [done|].
    assert ((priority sl =? Z.of_nat i) = false) as ->.
    { apply Z.eqb_neq. lia. }
    simpl. repeat split; lia.
Qed.

Lemma shiftStats_idle k sl s : shiftStats k sl None (priorityBands s) s = s.
Proof.
  destruct s. unfold shiftStats. simpl. reduce_records. f_equal; lia.
Qed.

(** Turns the facts about truthiness in the context into equations and
    rewrites with the vanishing values. *)
Ltac falsy_to_zero :=
  repeat match goal with
         | Hf : truthy ?x = false |- _ => apply truthy_false in Hf; rewrite ?Hf
         end.

(** [removeStats] counts the component once less. *)
Lemma removeStats_spec sl old s pc s' pc' :
  removeStats sl old s pc = Some (s', pc') →
  ∃ bands', bandsDelta (-1) sl (Some old) (priorityBands s) bands'
    ∧ s' = shiftStats (-1) sl (Some old) bands' s
    ∧ pc' = pc || (truthy (power old) && enabled sl)
    ∧ (truthy (power old) && enabled sl = false → bands' = priorityBands s)
    ∧ (truthy (power old) && enabled sl = true →
       is_Some (bandAt (priorityBands s) (priority sl))).
Proof.
  unfold removeStats. intros Hrem.
  destruct (truthy (power old) && enabled sl) eqn:Hact; simpl in Hrem.
  - destruct (adjustBand _ _ _ _) as [s0|] eqn:Hadj; simpl in Hrem; [|done].
    injection Hrem as <- <-.
    apply andb_true_iff in Hact as [Hpow Hen].
    apply (adjustBand_delta (-1)) in Hadj as (Hs0 & Hband & Hdelta); [|done|lia].
    exists (priorityBands s0). split.
    { revert Hdelta. by repeat case_match. }
    split; [|split; [by rewrite orb_true_r|split; [done|]]];
      [|intros _; revert Hband; by repeat case_match].
    rewrite Hs0. unfold shiftStats, fuelOfC, cargoOfC, armourOfC, shieldOfC, costOfC,
      massOfC, dpsOfC. rewrite Hpow, Hen. simpl.
    generalize (priorityBands s0). intros bands'. clear.
    destruct (grpIs old "ft"), (grpIs old "cr"), (grpIs old "hr"), (grpIs old "sb"),
      (incCost sl), (truthy (cost old)) eqn:Hcost, (truthy (dps old)) eqn:Hdps;
      falsy_to_zero; simpl; destruct s; reduce_records; f_equal; lia.
  - injection Hrem as <- <-. exists (priorityBands s).
    split; [by apply bandsDelta_idle|].
    split; [|split; [by rewrite orb_false_r|split; done]].
    unfold shiftStats, fuelOfC, cargoOfC, armourOfC, shieldOfC, costOfC, massOfC, dpsOfC.
    rewrite Hact. clear.
    destruct (grpIs old "ft"), (grpIs old "cr"), (grpIs old "hr"), (grpIs old "sb"),
      (incCost sl), (enabled sl), (truthy (cost old)) eqn:Hcost;
      falsy_to_zero; simpl; destruct s; reduce_records; f_equal; lia.
Qed.

(** [addStats] counts the component once more. *)
Lemma addStats_spec sl n s pc s' pc' :
  addStats sl n s pc = Some (s', pc') →
  ∃ bands', bandsDelta 1 sl (Some n) (priorityBands s) bands'
    ∧ s' = shiftStats 1 sl (Some n) bands' s
    ∧ pc' = pc || (truthy (power n) && enabled sl)
    ∧ (truthy (power n) && enabled sl = false → bands' = priorityBands s)
    ∧ (truthy (power n) && enabled sl = true →
       is_Some (bandAt (priorityBands s) (priority sl))).
Proof.
  unfold addStats. intros Hadd.
  destruct (truthy (power n) && enabled sl) eqn:Hact; simpl in Hadd.
  - destruct (adjustBand _ _ _ _) as [s0|] eqn:Hadj; simpl in Hadd; [|done].
    injection Hadd as <- <-.
    apply andb_true_iff in Hact as [Hpow Hen].
    apply (adjustBand_delta 1) in Hadj as (Hs0 & Hband & Hdelta); [|done|lia].
    exists (priorityBands s0). split.
    { revert Hdelta. by repeat case_match. }
    split; [|split; [by rewrite orb_true_r|split; [done|]]];
      [|intros _; revert Hband; by repeat case_match].
    rewrite Hs0. unfold shiftStats, fuelOfC, cargoOfC, armourOfC, shieldOfC, costOfC,
      massOfC, dpsOfC. rewrite Hpow, Hen. simpl.
    generalize (priorityBands s0). intros bands'. clear.
    destruct (grpIs n "ft"), (grpIs n "cr"), (grpIs n "hr"), (grpIs n "sb"),
      (incCost sl), (truthy (cost n)) eqn:Hcost, (truthy (dps n)) eqn:Hdps;
      falsy_to_zero; simpl; destruct s; reduce_records; f_equal; lia.
  - injection Hadd as <- <-. exists (priorityBands s).
    split; [by apply bandsDelta_idle|].
    split; [|split; [by rewrite orb_false_r|split; done]].
    unfold shiftStats, fuelOfC, cargoOfC, armourOfC, shieldOfC, costOfC, massOfC, dpsOfC.
    rewrite Hact. clear.
    destruct (grpIs n "ft"), (grpIs n "cr"), (grpIs n "hr"), (grpIs n "sb"),
      (incCost sl), (enabled sl), (truthy (cost n)) eqn:Hcost;
      falsy_to_zero; simpl; destruct s; reduce_records; f_equal; lia.
Qed.

(** [updateStats], with its tail named. *)
Lemma updateStats_unfold s r n old preventUpdate :
  updateStats s r n old preventUpdate
  = sl ← getSlot s r;
    '(s1, pc1) ← match old return option (Ship * bool) with
                 | Some o => removeStats sl o s (bool_decide (r = RStandard 0))
                 | None => Some (s, bool_decide (r = RStandard 0))
                 end;
    '(s2, pc2) ← match n return option (Ship * bool) with
                 | Some m => addStats sl m s1 pc1
                 | None => Some (s1, pc1)
                 end;
    if preventUpdate then Some (settleStats s2) else refresh pc2 (settleStats s2).
Proof. reflexivity. Qed.

(** [updateStats] with updates prevented: the old component is counted
    once less and the new one once more. *)
Lemma updateStats_prevent_spec s r sl n old s' :
  getSlot s r = Some sl → updateStats s r n old true = Some s' →
  ∃ b1 b2, bandsDelta (-1) sl old (priorityBands s) b1
    ∧ bandsDelta 1 sl n b1 b2
    ∧ (activeC sl old = false → b1 = priorityBands s)
    ∧ (activeC sl n = false → b2 = b1)
    ∧ (activeC sl n = true → is_Some (bandAt b1 (priority sl)))
    ∧ s' = settleStats (shiftStats 1 sl n b2 (shiftStats (-1) sl old b1 s)).
Proof.
  intros Hsl. rewrite updateStats_unfold, Hsl. simpl.
  destruct old as [o|]; simpl.
  - destruct (removeStats sl o s _) as [[s1 pc1]|] eqn:Hrem; simpl; [|done].
    apply removeStats_spec in Hrem as (b1 & Hb1 & -> & -> & Hidle1 & _).
    destruct n as [m|]; simpl.
    + destruct (addStats sl m _ _) as [[s2 pc2]|] eqn:Hadd; simpl; [|done].
      apply addStats_spec in Hadd as (b2 & Hb2 & -> & -> & Hidle2 & Hband2).
      intros [= <-]. exists b1, b2. simpl in Hb2, Hidle2, Hband2. done.
    + intros [= <-]. exists b1, b1. split; [done|].
      split; [apply bandsDelta_refl|]. do 3 (split; [done|]).
      pose proof (shiftStats_idle 1 sl (shiftStats (-1) sl (Some o) b1 s)) as Hid.
      simpl in Hid. by rewrite Hid.
  - destruct n as [m|]; simpl.
    + destruct (addStats sl m _ _) as [[s2 pc2]|] eqn:Hadd; simpl; [|done].
      apply addStats_spec in Hadd as (b2 & Hb2 & -> & -> & Hidle2 & Hband2).
      intros [= <-]. exists (priorityBands s), b2.
      split; [apply bandsDelta_refl|]. rewrite shiftStats_idle. done.
    + intros [= <-]. exists (priorityBands s), (priorityBands s).
      split; [apply bandsDelta_refl|]. split; [apply bandsDelta_refl|].
      by rewrite !shiftStats_idle.
Qed.

(** [updateStats] with updates: the same, followed by the refresh of the
    derived statistics. *)
Lemma updateStats_refresh s r sl n old :
  getSlot s r = Some sl →
  updateStats s r n old false
  = s4 ← updateStats s r n old true;
    refresh (bool_decide (r = RStandard 0) || activeC sl old || activeC sl n) s4.
Proof.
  intros Hsl. rewrite !updateStats_unfold, Hsl. simpl.
  destruct old as [o|]; simpl.
  - destruct (removeStats sl o s _) as [[s1 pc1]|] eqn:Hrem; simpl; [|done].
    apply removeStats_spec in Hrem as (b1 & Hb1 & -> & -> & Hidle1 & _).
    destruct n as [m|]; simpl.
    + destruct (addStats sl m _ _) as [[s2 pc2]|] eqn:Hadd; simpl; [|done].
      apply addStats_spec in Hadd as (b2 & Hb2 & -> & -> & Hidle2 & _). done.
    + by rewrite orb_false_r.
  - rewrite orb_false_r. destruct n as [m|]; simpl.
    + destruct (addStats sl m _ _) as [[s2 pc2]|] eqn:Hadd; simpl; [|done].
      apply addStats_spec in Hadd as (b2 & Hb2 & -> & -> & Hidle2 & _). done.
    + by rewrite orb_false_r.
Qed.

(** The two halves return when the tier of the slot exists, or no power
    is drawn. *)
Lemma adjustBand_is_Some p u d s :
  is_Some (bandAt (priorityBands s) p) → is_Some (adjustBand p u d s).
Proof. intros [b Hb]. unfold adjustBand. rewrite Hb. by eexists. Qed.

Lemma adjustBand_length p u d s s' :
  adjustBand p u d s = Some s' → length (priorityBands s') = length (priorityBands s).
Proof.
  unfold adjustBand. destruct (bandAt _ _); simpl; [|done].
  intros [= <-]. simpl. by rewrite length_insert.
Qed.

Lemma bandAt_is_Some_length l l' p :
  length l = length l' → is_Some (bandAt l p) → is_Some (bandAt l' p).
Proof.
  unfold bandAt. intros Hlen. case_decide; [|by intros [? ?]].
  rewrite !lookup_lt_is_Some. lia.
Qed.

Lemma removeStats_is_Some sl old s pc :
  (truthy (power old) && enabled sl = true →
   is_Some (bandAt (priorityBands s) (priority sl))) →
  is_Some (removeStats sl old s pc).
Proof.
  intros Hband. unfold removeStats.
  destruct (truthy (power old) && enabled sl); simpl; [|by eexists].
  match goal with |- context [adjustBand ?p ?u ?d ?t] =>
    destruct (adjustBand_is_Some p u d t) as [s0 ->] end; [|by eexists].
  revert Hband. repeat case_match; simpl; auto.
Qed.

Lemma addStats_is_Some sl n s pc :
  (truthy (power n) && enabled sl = true →
   is_Some (bandAt (priorityBands s) (priority sl))) →
  is_Some (addStats sl n s pc).
Proof.
  intros Hband. unfold addStats.
  destruct (truthy (power n) && enabled sl); simpl; [|by eexists].
  match goal with |- context [adjustBand ?p ?u ?d ?t] =>
    destruct (adjustBand_is_Some p u d t) as [s0 ->] end; [|by eexists].
  revert Hband. repeat case_match; simpl; auto.
Qed.

Lemma updateStats_prevent_is_Some s r sl n old :
  getSlot s r = Some sl →
  (activeC sl old = true ∨ activeC sl n = true →
   is_Some (bandAt (priorityBands s) (priority sl))) →
  is_Some (updateStats s r n old true).
Proof.
  intros Hsl Hband. rewrite updateStats_unfold, Hsl. simpl.
  assert (∃ s1 pc1,
    match old return option (Ship * bool) with
    | Some o => removeStats sl o s (bool_decide (r = RStandard 0))
    | None => Some (s, bool_decide (r = RStandard 0))
    end = Some (s1, pc1)
    ∧ length (priorityBands s1) = length (priorityBands s)) as (s1 & pc1 & -> & Hlen).
  { destruct old as [o|]; [|by eexists _, _].
    destruct (removeStats_is_Some sl o s (bool_decide (r = RStandard 0)))
      as [[s1 pc1] Hrem]; [intros Ho; apply Hband; by left|].
    exists s1, pc1. split; [done|].
    apply removeStats_spec in Hrem as (b1 & [Hlen _] & -> & _). done. }
  simpl. destruct n as [m|]; simpl; [|by eexists].
  destruct (addStats_is_Some sl m s1 pc1) as [[s2 pc2] ->]; [|by eexists].
  intros Hm. eapply bandAt_is_Some_length; [symmetry; exact Hlen|].
  apply Hband. by right.
Qed.

End Deltas.

Arguments overSlots : simpl never.
Arguments overPowered : simpl never.

Section Frames.
Context `{Collaborators}.

(** *** Reading and writing slots *)

Lemma getSlot_setSlot_eq s r old x :
  getSlot s r = Some old → getSlot (setSlot r x s) r = Some x.
Proof.
  destruct r; simpl; try done; intros Hi;
    (apply list_lookup_insert_eq; by eapply lookup_lt_Some).
Qed.

Lemma getSlot_setSlot_ne s r r' x :
  r ≠ r' → getSlot (setSlot r x s) r' = getSlot s r'.
Proof.
  intros Hne. destruct r, r'; simpl; try done;
    apply list_lookup_insert_ne; congruence.
Qed.

Lemma getSlot_setSlot s r r' old x :
  getSlot s r = Some old →
  getSlot (setSlot r x s) r' = if decide (r = r') then Some x else getSlot s r'.
Proof.
  intros Hold. case_decide as Hr.
  - subst r'. by eapply getSlot_setSlot_eq.
  - by apply getSlot_setSlot_ne.
Qed.

Lemma overSlots_setSlot f s r old x :
  r ≠ RShip → r ≠ RCargoHatch → getSlot s r = Some old →
  overSlots f (setSlot r x s) = overSlots f s - f old + f x.
Proof.
  intros Hs Hh. unfold overSlots.
  destruct r; simpl; try done; intros Hi.
  - injection Hi as <-. lia.
  - rewrite (total_insert _ _ _ _ _ Hi). lia.
  - rewrite (total_insert _ _ _ _ _ Hi). lia.
  - rewrite (total_insert _ _ _ _ _ Hi). lia.
Qed.

Lemma overPowered_setSlot f s r old x :
  r ≠ RShip → getSlot s r = Some old →
  overPowered f (setSlot r x s) = overPowered f s - f old + f x.
Proof.
  intros Hs Hold. unfold overPowered.
  destruct (decide (r = RCargoHatch)) as [->|Hh].
  - simpl in *. injection Hold as <-. unfold overSlots. simpl. lia.
  - rewrite (overSlots_setSlot f s r old x) by done.
    assert (cargoHatch (setSlot r x s) = cargoHatch s) as ->; [|lia].
    by destruct r.
Qed.

(** The sums over the slots look at the slots only. *)
Lemma overSlots_frame f s s' :
  bulkheads s' = bulkheads s → standard s' = standard s →
  hardpoints s' = hardpoints s → internal s' = internal s →
  overSlots f s' = overSlots f s.
Proof. unfold overSlots. by intros -> -> -> ->. Qed.

Lemma overPowered_frame f s s' :
  cargoHatch s' = cargoHatch s → bulkheads s' = bulkheads s →
  standard s' = standard s → hardpoints s' = hardpoints s →
  internal s' = internal s →
  overPowered f s' = overPowered f s.
Proof.
  unfold overPowered. intros -> Hb Hs Hh Hi. by rewrite (overSlots_frame f s s').
Qed.

(** *** The cumulative sums depend on the raw sums only *)

Lemma sumBands_ext l l' : Forall2 rawEq l l' → ∀ r d, sumBands r d l = sumBands r d l'.
Proof.
  induction 1 as [|b b' l l' (Hd & Hr & Ho) _ IH]; intros r d; simpl; [done|].
  rewrite Hd, Hr, Ho. rewrite IH. destruct (sumBands _ _ l') as [rest totals].
  f_equal. f_equal. destruct b, b'. simpl in *. by subst.
Qed.

Lemma sumBands_rawEq l : ∀ r d, Forall2 rawEq (sumBands r d l).1 l.
Proof.
  induction l as [|b l IH]; intros r d; simpl; [constructor|].
  specialize (IH (r + retracted b + retOnly b) (d + deployed b + retracted b)).
  destruct (sumBands _ _ l) as [rest totals]. simpl in *.
  constructor; [|done]. by destruct b.
Qed.

Lemma sumBands_idem l r d :
  sumBands r d (sumBands r d l).1 = sumBands r d l.
Proof. apply sumBands_ext, sumBands_rawEq. Qed.

Lemma sumBands_fixed l r d :
  sumBands r d (sumBands r d l).1
  = ((sumBands r d l).1, ((sumBands r d l).2.1, (sumBands r d l).2.2)).
Proof. rewrite sumBands_idem. by destruct (sumBands r d l) as [? [? ?]]. Qed.

(** *** The refreshing methods, written out *)

Lemma updatePower_spec s s' :
  updatePower s = Some s' →
  ∃ pp plant, standard s !! 0%nat = Some pp ∧ c pp = Some plant
    ∧ s' = set_powerDeployed (sumBands 0 0 (priorityBands s)).2.2
             (set_powerRetracted (sumBands 0 0 (priorityBands s)).2.1
               (set_powerAvailable (pGen plant)
                 (set_priorityBands (sumBands 0 0 (priorityBands s)).1 s))).
Proof.
  unfold updatePower. destruct (sumBands 0 0 (priorityBands s)) as [bands [r d]].
  simpl. destruct (standard s !! 0%nat) as [pp|]; simpl; [|done].
  destruct (c pp) as [plant|] eqn:Hplant; simpl; [|done].
  intros [= <-]. by exists pp, plant.
Qed.

Lemma updateTopSpeed_spec s s' :
  updateTopSpeed s = Some s' →
  ∃ th, standard s !! 1%nat = Some th
    ∧ s' = set_topBoost
             (calcSpeed (unladenMass s + fuelCapacity s) (speed (props s))
                (boost (props s)) (c th) (pipSpeed (props s))).2
             (set_topSpeed
                (calcSpeed (unladenMass s + fuelCapacity s) (speed (props s))
                   (boost (props s)) (c th) (pipSpeed (props s))).1 s).
Proof.
  unfold updateTopSpeed. destruct (standard s !! 1%nat) as [th|]; simpl; [|done].
  intros [= <-]. by exists th.
Qed.

Lemma updateJumpStats_spec s s' :
  updateJumpStats s = Some s' →
  ∃ sl fsd, standard s !! 2%nat = Some sl ∧ c sl = Some fsd
    ∧ s' = set_maxJumpCount (Math_ceil_div (fuelCapacity s) (maxfuel fsd))
          (set_ladenTotalRange
             (calcTotalRange (unladenMass s + cargoCapacity s) fsd (fuelCapacity s))
          (set_unladenTotalRange (calcTotalRange (unladenMass s) fsd (fuelCapacity s))
          (set_ladenRange (calcJumpRange (ladenMass s) fsd (fuelCapacity s))
          (set_fullTankRange
             (calcJumpRange (unladenMass s + fuelCapacity s) fsd (fuelCapacity s))
          (set_unladenRange
             (calcJumpRange (unladenMass s + maxfuel fsd) fsd (fuelCapacity s)) s))))).
Proof.
  unfold updateJumpStats. destruct (standard s !! 2%nat) as [sl|]; simpl; [|done].
  destruct (c sl) as [fsd|] eqn:Hfsd; simpl; [|done].
  intros [= <-]. by exists sl, fsd.
Qed.

(** *** Parts of the ship that two states share *)

Lemma sameBase_refl s : sameBase s s.
Proof. by constructor. Qed.

Lemma sameBase_trans s1 s2 s3 : sameBase s1 s2 → sameBase s2 s3 → sameBase s1 s3.
Proof. intros [] []. constructor; congruence. Qed.

Lemma sameTally_refl s : sameTally s s.
Proof. by constructor. Qed.

Lemma sameTally_trans s1 s2 s3 : sameTally s1 s2 → sameTally s2 s3 → sameTally s1 s3.
Proof. intros [] []. constructor; congruence. Qed.

Lemma samePower_refl s : samePower s s.
Proof. by constructor. Qed.

Lemma sameBase_getSlot s s' r : sameBase s s' → getSlot s' r = getSlot s r.
Proof. intros []. destruct r; simpl; congruence. Qed.

Lemma sameBase_overSlots f s s' : sameBase s s' → overSlots f s' = overSlots f s.
Proof. intros []. by apply overSlots_frame. Qed.

Lemma sameBase_overPowered f s s' : sameBase s s' → overPowered f s' = overPowered f s.
Proof. intros []. by apply overPowered_frame. Qed.

Lemma sameBase_findInternalByGroup s s' g :
  sameBase s s' → findInternalByGroup s' g = findInternalByGroup s g.
Proof. intros []. unfold findInternalByGroup. by rewrite same_internal0. Qed.

Lemma Shaped_ext s s' : sameBase s s' → Shaped s → Shaped s'.
Proof.
  intros Hb [Hslots Hhatch Hbulk Hhull Hplant Hfsd]. pose proof Hb as [].
  constructor.
  - intros r sl Hr. rewrite (sameBase_getSlot s s') by done.
    rewrite same_componentCostMultiplier0. by apply Hslots.
  - by rewrite same_cargoHatch0.
  - by rewrite same_bulkheads0, same_shipId0, same_bulkheadsId0,
      same_componentCostMultiplier0.
  - by rewrite same_shipC0, same_shipCostMultiplier0.
  - by rewrite same_standard0.
  - by rewrite same_standard0.
Qed.

Lemma Counted_ext s s' : sameBase s s' → sameTally s s' → Counted s → Counted s'.
Proof.
  intros Hb [] [Hfuel Hcargo Harm Hsh Hcost Hmass Hdps]. pose proof Hb as [].
  constructor; try (intros Hsane; specialize (Hsh Hsane); specialize (Hdps Hsane));
    rewrite ?(sameBase_overSlots _ s s') by done;
    rewrite ?same_shipC0, ?same_componentCostMultiplier0, ?same_props0; congruence.
Qed.

Lemma Tallied_ext s s' : sameBase s s' → sameTally s s' → Tallied s → Tallied s'.
Proof.
  intros Hb Ht [Hc Hl Hm Ha]. pose proof Hb as []. pose proof Ht as [].
  constructor; [by eapply Counted_ext| |rewrite same_bulkheadsId0|rewrite same_props0];
    congruence.
Qed.

Lemma Metered_ext s s' :
  sameBase s s' → priorityBands s' = priorityBands s → Metered s → Metered s'.
Proof.
  intros Hb Hbands Hraw i b. rewrite Hbands.
  rewrite !(sameBase_overPowered _ s s') by done. apply Hraw.
Qed.

Lemma Summed_ext s s' : sameBase s s' → samePower s s' → Summed s → Summed s'.
Proof.
  intros [] [] [Hsums Hplant]. split.
  - congruence.
  - by rewrite same_standard0, same_powerAvailable0.
Qed.

Lemma Tiered_ext s s' :
  sameBase s s' → length (priorityBands s') = length (priorityBands s) →
  Tiered s → Tiered s'.
Proof.
  intros Hb Hlen Htiers r sl Hr. rewrite (sameBase_getSlot s s') by done.
  intros Hsl Hen n Hn Hp. eapply bandAt_is_Some_length; [symmetry; exact Hlen|].
  by eapply Htiers.
Qed.

Lemma Supplied_ext s s' : sameBase s s' → samePower s s' → Supplied s → Supplied s'.
Proof.
  intros Hb Hp [Hraw Hsums Htiers]. pose proof Hp as [].
  constructor.
  - by eapply Metered_ext.
  - by eapply Summed_ext.
  - eapply Tiered_ext; [done| |done]. by rewrite same_priorityBands0.
Qed.

(** *** The refresh of the derived statistics *)

Lemma updateShieldStrength_base s : sameBase s (updateShieldStrength s).
Proof. by constructor. Qed.

Lemma updateShieldStrength_tally s : sameTally s (updateShieldStrength s).
Proof. by constructor. Qed.

Lemma updateShieldStrength_power s : samePower s (updateShieldStrength s).
Proof. by constructor. Qed.

Lemma updateShieldStrength_idem s :
  updateShieldStrength (updateShieldStrength s) = updateShieldStrength s.
Proof. reflexivity. Qed.

Lemma updatePower_base s s' : updatePower s = Some s' → sameBase s s'.
Proof. intros (pp & plant & _ & _ & ->)%updatePower_spec. by constructor. Qed.

Lemma updatePower_tally s s' : updatePower s = Some s' → sameTally s s'.
Proof. intros (pp & plant & _ & _ & ->)%updatePower_spec. by constructor. Qed.

(** After [updatePower] the cumulative sums and the power figures are
    those of the raw sums, which it keeps. *)
Lemma updatePower_sums s s' :
  updatePower s = Some s' →
  Forall2 rawEq (priorityBands s') (priorityBands s) ∧ Summed s'.
Proof.
  intros (pp & plant & Hpp & Hplant & ->)%updatePower_spec. unfold Summed. simpl.
  split; [apply sumBands_rawEq|]. split; [apply sumBands_fixed|].
  by exists pp, plant.
Qed.

Lemma refresh_spec pc s4 s' :
  refresh pc s4 = Some s' →
  sameBase s4 s' ∧ sameTally s4 s' ∧ Derived s'
  ∧ (∃ sl fsd, standard s' !! 2%nat = Some sl ∧ c sl = Some fsd)
  ∧ (if pc then ∃ s5, updatePower s4 = Some s5 ∧ samePower s5 s'
     else samePower s4 s').
Proof.
  unfold refresh. intros Href.
  assert (∃ s5, (if pc then updatePower s4 = Some s5 else s5 = s4)
                ∧ (s6 ← updateTopSpeed s5; s7 ← updateJumpStats s6;
                   Some (updateShieldStrength s7)) = Some s') as (s5 & Hs5 & Hrest).
  { destruct pc.
    - destruct (updatePower s4) as [s5|]; simpl in Href; [|done]. by exists s5.
    - by exists s4. }
  clear Href.
  destruct (updateTopSpeed s5) as [s6|] eqn:Hs6; simpl in Hrest; [|done].
  destruct (updateJumpStats s6) as [s7|] eqn:Hs7; simpl in Hrest; [|done].
  injection Hrest as <-.
  apply updateTopSpeed_spec in Hs6 as (th & Hth & ->).
  apply updateJumpStats_spec in Hs7 as (sl & fsd & Hsl & Hfsd & ->).
  simpl in Hsl.
  assert (sameBase s4 s5 ∧ sameTally s4 s5) as [Hb5 Ht5].
  { destruct pc; [|subst; split; [apply sameBase_refl|apply sameTally_refl]].
    split; [by eapply updatePower_base|by eapply updatePower_tally]. }
  split; [|split; [|split; [|split]]].
  - eapply sameBase_trans; [exact Hb5|]. by constructor.
  - eapply sameTally_trans; [exact Ht5|]. by constructor.
  - constructor.
    + intros th'. simpl. rewrite Hth. intros [= <-]. by destruct (calcSpeed _ _ _ _ _).
    + intros sl' fsd'. simpl. rewrite Hsl. intros [= <-]. rewrite Hfsd.
      intros [= <-]. done.
    + reflexivity.
  - exists sl, fsd. simpl. by rewrite Hsl.
  - destruct pc.
    + exists s5. split; [done|]. by constructor.
    + subst s5. by constructor.
Qed.

End Frames.

Section Swaps.
Context `{Collaborators}.

(** *** One component leaves a slot and another enters *)

Lemma sameMount_refl sl : sameMount sl sl.
Proof. by constructor. Qed.

Lemma sameMount_contents sl i n d :
  sameMount sl (set_discountedCost d (set_c n (set_id i sl))).
Proof. by constructor. Qed.

Lemma sameMount_usage sl sl' n :
  sameMount sl sl' → powerUsageType sl' n = powerUsageType sl n.
Proof. intros []. unfold powerUsageType, catIs. by rewrite mount_cat0. Qed.

Lemma sameMount_shield sl sl' n : sameMount sl sl' → shieldOfC sl' n = shieldOfC sl n.
Proof. intros []. unfold shieldOfC. by rewrite mount_enabled0. Qed.

Lemma sameMount_cost m sl sl' n : sameMount sl sl' → costOfC m sl' n = costOfC m sl n.
Proof. intros []. unfold costOfC. by rewrite mount_incCost0. Qed.

Lemma sameMount_dps sl sl' n : sameMount sl sl' → dpsOfC sl' n = dpsOfC sl n.
Proof. intros []. unfold dpsOfC. by rewrite mount_enabled0. Qed.

Lemma sameMount_draw i u sl sl' n :
  sameMount sl sl' → drawOfC i u sl' n = drawOfC i u sl n.
Proof.
  intros Hm. unfold drawOfC. destruct n as [m|]; [|done].
  rewrite (sameMount_usage sl sl') by done. destruct Hm.
  by rewrite mount_enabled0, mount_priority0.
Qed.

Lemma sameMount_active sl sl' n : sameMount sl sl' → activeC sl' n = activeC sl n.
Proof. intros []. unfold activeC. by rewrite mount_enabled0. Qed.

Lemma setSlot_tally r x s : sameTally s (setSlot r x s).
Proof. by destruct r. Qed.

Lemma setSlot_power r x s : samePower s (setSlot r x s).
Proof. by destruct r. Qed.

Lemma setSlot_fields r x s :
  shipId (setSlot r x s) = shipId s ∧ props (setSlot r x s) = props s
  ∧ bulkheadsId (setSlot r x s) = bulkheadsId s
  ∧ shipCostMultiplier (setSlot r x s) = shipCostMultiplier s
  ∧ componentCostMultiplier (setSlot r x s) = componentCostMultiplier s.
Proof. by destruct r. Qed.

(** The fields of the ship after [updateStats] with updates prevented. *)
Lemma swapped_fields s sl n old b1 b2 :
  let s' := settleStats (shiftStats 1 sl n b2 (shiftStats (-1) sl old b1 s)) in
  sameBase s s'
  ∧ fuelCapacity s' = fuelCapacity s - fuelOfC old + fuelOfC n
  ∧ cargoCapacity s' = cargoCapacity s - cargoOfC old + cargoOfC n
  ∧ armourAdded s' = armourAdded s - armourOfC old + armourOfC n
  ∧ shieldMultiplier s' = shieldMultiplier s - shieldOfC sl old + shieldOfC sl n
  ∧ totalCost s' = totalCost s - costOfC (componentCostMultiplier s) sl old
                   + costOfC (componentCostMultiplier s) sl n
  ∧ unladenMass s' = unladenMass s - massOfC old + massOfC n
  ∧ totalDps s' = totalDps s - dpsOfC sl old + dpsOfC sl n
  ∧ priorityBands s' = b2
  ∧ ladenMass s' = unladenMass s' + cargoCapacity s' + fuelCapacity s'
  ∧ armourMultiplier s' = armourMultiplier s
  ∧ armour s' = armourAdded s' + Math_round (baseArmour (props s') * armourMultiplier s')
  ∧ powerAvailable s' = powerAvailable s
  ∧ powerRetracted s' = powerRetracted s
  ∧ powerDeployed s' = powerDeployed s.
Proof.
  unfold settleStats, shiftStats. simpl.
  split; [by constructor|]. repeat split; lia.
Qed.

Lemma bandsDelta_lookup k sl n bands bands' i b' :
  bandsDelta k sl n bands bands' → bands' !! i = Some b' →
  ∃ b, bands !! i = Some b
    ∧ deployed b' = deployed b + k * drawOfC i Deployed sl n
    ∧ retracted b' = retracted b + k * drawOfC i Retracted sl n
    ∧ retOnly b' = retOnly b.
Proof.
  intros [Hlen Hfwd] Hi.
  destruct (lookup_lt_is_Some_2 bands i) as [b Hb].
  { rewrite <- Hlen. by eapply lookup_lt_Some. }
  destruct (Hfwd i b Hb) as (b'' & Hb'' & Hd & Hr & Ho & _).
  rewrite Hi in Hb''. injection Hb'' as <-. by exists b.
Qed.

Lemma bandsDelta_length k sl n bands bands' :
  bandsDelta k sl n bands bands' → length bands' = length bands.
Proof. by intros [? _]. Qed.

(** What [updateStats] with updates prevented does to the ship. *)
Lemma updateStats_prevent_traded s r sl n old s' :
  getSlot s r = Some sl → updateStats s r n old true = Some s' →
  traded s s' sl old n ∧ sameBase s s'
  ∧ ladenMass s' = unladenMass s' + cargoCapacity s' + fuelCapacity s'
  ∧ armourMultiplier s' = armourMultiplier s
  ∧ armour s' = armourAdded s' + Math_round (baseArmour (props s') * armourMultiplier s')
  ∧ powerAvailable s' = powerAvailable s
  ∧ powerRetracted s' = powerRetracted s
  ∧ powerDeployed s' = powerDeployed s
  ∧ (activeC sl old = false → activeC sl n = false → priorityBands s' = priorityBands s)
  ∧ (activeC sl n = true → is_Some (bandAt (priorityBands s') (priority sl))).
Proof.
  intros Hsl Hup.
  destruct (updateStats_prevent_spec s r sl n old s' Hsl Hup)
    as (b1 & b2 & Hd1 & Hd2 & Hidle1 & Hidle2 & Hband & ->).
  pose proof (swapped_fields s sl n old b1 b2) as F. cbv zeta in F.
  destruct F as (Hb & Ff & Fc & Fa & Fs & Ft & Fm & Fd & Hbands & Hl & Hmul & Ha
                 & Hpa & Hpr & Hpd).
  assert (length (priorityBands s) = length b2) as Hlen.
  { rewrite (bandsDelta_length _ _ _ _ _ Hd2). symmetry. by eapply bandsDelta_length. }
  split; [|split; [exact Hb|split; [exact Hl|split; [exact Hmul|split; [exact Ha|
    split; [exact Hpa|split; [exact Hpr|split; [exact Hpd|split]]]]]]]].
  - constructor; [exact Ff|exact Fc|exact Fa|exact Fs|exact Ft|exact Fm|exact Fd|..].
    + rewrite Hbands. by symmetry.
    + rewrite Hbands. intros i b' Hi.
      destruct (bandsDelta_lookup _ _ _ _ _ _ _ Hd2 Hi) as (b1' & Hi1 & Hdep2 & Hret2 & Ho2).
      destruct (bandsDelta_lookup _ _ _ _ _ _ _ Hd1 Hi1) as (b0 & Hi0 & Hdep1 & Hret1 & Ho1).
      exists b0. split; [exact Hi0|]. split; [lia|]. split; [lia|congruence].
  - intros Ho Hn. rewrite Hbands, (Hidle2 Hn). by apply Hidle1.
  - intros Hn. rewrite Hbands. eapply bandAt_is_Some_length; [|by apply Hband].
    symmetry. by eapply bandsDelta_length.
Qed.

Lemma traded_mount s0 s' sl sl' old n :
  sameMount sl sl' → traded s0 s' sl old n → traded s0 s' sl' old n.
Proof.
  intros Hm []. constructor; try done.
  - by rewrite !(sameMount_shield sl sl').
  - by rewrite !(sameMount_cost _ sl sl').
  - by rewrite !(sameMount_dps sl sl').
  - intros i b' Hi. destruct (traded_bands0 i b' Hi) as (b & Hb & Hd & Hr & Ho).
    exists b. by rewrite !(sameMount_draw _ _ sl sl').
Qed.

(** The relation looks at the statistics and the raw sums only. *)
Lemma traded_ext_r s0 s' s'' sl old n :
  sameTally s' s'' → Forall2 rawEq (priorityBands s'') (priorityBands s') →
  traded s0 s' sl old n → traded s0 s'' sl old n.
Proof.
  intros [] Hraw []. constructor; try congruence.
  - rewrite <- traded_length0. by eapply Forall2_length.
  - intros i b'' Hi.
    destruct (Forall2_lookup_l _ _ _ _ _ Hraw Hi) as (b' & Hi' & Hd & Hr & Ho).
    destruct (traded_bands0 i b' Hi') as (b & Hb & Hd' & Hr' & Ho').
    exists b. repeat split; [done|lia|lia|congruence].
Qed.

Lemma traded_ext_l s0 s1 s' sl old n :
  sameTally s0 s1 → priorityBands s1 = priorityBands s0 →
  componentCostMultiplier s1 = componentCostMultiplier s0 →
  traded s0 s' sl old n → traded s1 s' sl old n.
Proof.
  intros [] Hbands Hccm [].
  constructor; rewrite ?Hbands, ?Hccm; try assumption; congruence.
Qed.

Lemma rawEq_refl l : Forall2 rawEq l l.
Proof. apply Forall2_same_length_lookup. split; [done|]. by intros i b b' -> [= ->]. Qed.

(** The statistics stay counted when a slot of the ship takes new
    contents and the exchange is accounted for. *)
Lemma Counted_traded s0 s' r sl0 sl1 :
  r ≠ RShip → r ≠ RCargoHatch → getSlot s0 r = Some sl0 → sameMount sl0 sl1 →
  sameBase (setSlot r sl1 s0) s' → traded s0 s' sl0 (c sl0) (c sl1) →
  Counted s0 → Counted s'.
Proof.
  intros Hs Hh Hsl0 Hm Hb [Ff Fc Fa Fs Ft Fm Fd _ _] [Hfuel Hcargo Harm Hsh Hcost Hmass Hdps].
  destruct (setSlot_fields r sl1 s0) as (_ & Hprops & _ & _ & Hccm).
  pose proof Hb as [].
  assert (shipC (setSlot r sl1 s0) = shipC s0) as HshipC by (by destruct r).
  constructor; rewrite (sameBase_overSlots _ _ _ Hb);
    rewrite (overSlots_setSlot _ s0 r sl0 sl1) by done.
  - rewrite Ff, <- Hfuel. unfold fuelOf. lia.
  - rewrite Fc, <- Hcargo. unfold cargoOf. lia.
  - rewrite Fa, <- Harm. unfold armourOf. lia.
  - intros Hsane. specialize (Hsh Hsane). rewrite Fs. unfold shieldOf at 2 3.
    rewrite (sameMount_shield sl0 sl1) by done. lia.
  - rewrite Ft, same_shipC0, HshipC, same_componentCostMultiplier0, Hccm.
    unfold costOf at 2 3. rewrite (sameMount_cost _ sl0 sl1) by done. lia.
  - rewrite Fm, same_props0, Hprops. unfold massOf at 2 3. lia.
  - intros Hsane. rewrite Fd, <- (Hdps Hsane). unfold dpsOf.
    rewrite (sameMount_dps sl0 sl1) by done. lia.
Qed.

(** The raw sums of the bands stay those of the slots. *)
Lemma Metered_traded s0 s' r sl0 sl1 :
  r ≠ RShip → getSlot s0 r = Some sl0 → sameMount sl0 sl1 →
  sameBase (setSlot r sl1 s0) s' → traded s0 s' sl0 (c sl0) (c sl1) →
  Metered s0 → Metered s'.
Proof.
  intros Hs Hsl0 Hm Hb [_ _ _ _ _ _ _ _ Hbands] Hraw i b' Hi.
  destruct (Hbands i b' Hi) as (b0 & Hi0 & Hdep & Hret & Ho).
  destruct (Hraw i b0 Hi0) as (Hdep0 & Hret0 & Ho0).
  rewrite !(sameBase_overPowered _ _ _ Hb).
  rewrite !(overPowered_setSlot _ s0 r sl0 sl1) by done.
  pose proof (λ u n, sameMount_draw i u sl0 sl1 n Hm) as Hdraw.
  rewrite Hdep, Hdep0, Hret, Hret0.
  unfold drawOf at 3 4 7 8. rewrite !Hdraw.
  repeat split; lia.
Qed.

End Swaps.

Section Steps.
Context `{Collaborators}.

(** *** Pieces shared by the steps *)

Lemma sameBase_setSlot s s' r x : sameBase s s' → sameBase (setSlot r x s) (setSlot r x s').
Proof. intros []. destruct r; constructor; simpl; congruence. Qed.

Lemma sameBase_sym s s' : sameBase s s' → sameBase s' s.
Proof. intros []. by constructor. Qed.

Lemma sameMount_sym sl sl' : sameMount sl sl' → sameMount sl' sl.
Proof. intros []. by constructor. Qed.

Lemma priceOf_use comp m :
  match comp with
  | Some n => if truthy (cost n) then cost n * m else 0
  | None => 0
  end = priceOf comp * m.
Proof.
  destruct comp as [n|]; simpl; [|done].
  destruct (truthy (cost n)) eqn:Hc; [done|]. apply truthy_false in Hc. by rewrite Hc.
Qed.

(** The tiers of the enabled slots stay known when one slot takes new
    contents whose tier is known. *)
Lemma Tiered_setSlot s0 s' r sl0 sl1 :
  getSlot s0 r = Some sl0 → sameBase (setSlot r sl1 s0) s' →
  length (priorityBands s') = length (priorityBands s0) →
  (powered r → tierKnown s' r sl1) → Tiered s0 → Tiered s'.
Proof.
  intros Hsl0 Hb Hlen Hnew Htiers r' sl' Hr'.
  rewrite (sameBase_getSlot _ _ _ Hb), (getSlot_setSlot _ _ _ sl0) by done.
  case_decide as Heq.
  - subst r'. intros [= <-]. by apply Hnew.
  - intros Hsl' Hen n Hn Hp. eapply bandAt_is_Some_length; [symmetry; exact Hlen|].
    by eapply Htiers.
Qed.

(** The slots stay well formed when a slot of a group takes a component
    under the id the catalogue knows it by. *)
Lemma Shaped_install s r sl i :
  installable r → getSlot s r = Some sl → Shaped s →
  (r = RStandard 0 ∨ r = RStandard 2 → is_Some (i ≫= catalogueAt r)) →
  Shaped (setSlot r (set_discountedCost
                       (priceOf (i ≫= catalogueAt r) * componentCostMultiplier s)
                       (set_c (i ≫= catalogueAt r) (set_id i sl))) s).
Proof.
  intros Hr Hsl [Hslots Hhatch Hbulk Hhull Hplant Hfsd] Hkeep.
  destruct (setSlot_fields r (set_discountedCost
             (priceOf (i ≫= catalogueAt r) * componentCostMultiplier s)
             (set_c (i ≫= catalogueAt r) (set_id i sl))) s) as (Hid & _ & Hbid & Hscm & Hccm).
  constructor.
  - intros r' sl' Hr'. rewrite (getSlot_setSlot _ _ _ sl) by done. rewrite Hccm.
    case_decide as Heq; [|by apply Hslots].
    subst r'. intros [= <-]. destruct (Hslots r sl Hr Hsl) as [Hcat _ _ Hty].
    constructor; simpl; try done.
  - by destruct r.
  - rewrite Hid, Hbid, Hccm. by destruct r.
  - rewrite Hscm. by destruct r.
  - destruct Hplant as (pp & plant & Hpp & Hplant).
    destruct (decide (r = RStandard 0)) as [->|Hne].
    + destruct Hkeep as [n Hn]; [by left|]. eexists _, n. simpl.
      split; [apply list_lookup_insert_eq; by eapply lookup_lt_Some|done].
    + exists pp, plant. split; [|done].
      change (standard (setSlot r ?x s) !! 0%nat) with (getSlot (setSlot r x s) (RStandard 0)).
      by rewrite getSlot_setSlot_ne.
  - destruct Hfsd as (fs & fsd & Hfs & Hfsd).
    destruct (decide (r = RStandard 2)) as [->|Hne].
    + destruct Hkeep as [n Hn]; [by right|]. eexists _, n. simpl.
      split; [apply list_lookup_insert_eq; by eapply lookup_lt_Some|done].
    + exists fs, fsd. split; [|done].
      change (standard (setSlot r ?x s) !! 2%nat) with (getSlot (setSlot r x s) (RStandard 2)).
      by rewrite getSlot_setSlot_ne.
Qed.

(** A slot takes new contents, [updateStats] accounts for the exchange
    (state [U]) and refreshes the derived statistics (state [s']).  The
    ship [s''] that has the new slot and the figures of [s'] is counted
    and supplied. *)
Lemma exchange_refreshed s0 r sl0 sl1 U pc s' s'' :
  r ≠ RShip → r ≠ RCargoHatch →
  getSlot s0 r = Some sl0 → sameMount sl0 sl1 →
  Supplied s0 → Counted s0 →
  traded s0 U sl0 (c sl0) (c sl1) →
  (pc = false → priorityBands U = priorityBands s0
                ∧ powerAvailable U = powerAvailable s0
                ∧ powerRetracted U = powerRetracted s0
                ∧ powerDeployed U = powerDeployed s0
                ∧ standard s'' !! 0%nat = standard s0 !! 0%nat) →
  (activeC sl1 (c sl1) = true → is_Some (bandAt (priorityBands U) (priority sl1))) →
  refresh pc U = Some s' →
  sameBase (setSlot r sl1 s0) s'' → standard s'' = standard U →
  sameTally s' s'' → samePower s' s'' →
  Counted s'' ∧ Supplied s'' ∧ sameTally U s''.
Proof.
  intros Hs Hh Hsl0 Hm [Hraw Hsums Htiers] Hcount Htr Hquiet Hband Href Hb Hstd Ht Hp.
  destruct (refresh_spec _ _ _ Href) as (HbU & HtU & _ & _ & Hpower).
  assert (Forall2 rawEq (priorityBands s'') (priorityBands U)
          ∧ Summed s'') as [HrawEq Hsummed].
  { destruct pc.
    - destruct Hpower as (s5 & Hs5 & Hp5).
      destruct (updatePower_sums _ _ Hs5) as [Hr5 [Hsum5 (pp & plant & Hpp & Hplant & Hav)]].
      pose proof (updatePower_base _ _ Hs5) as [].
      destruct Hp5, Hp.
      split; [congruence|]. split; [congruence|].
      exists pp, plant. rewrite Hstd, <- same_standard0. split; [done|]. split; [done|].
      congruence.
    - destruct (Hquiet eq_refl) as (Hbands & Hav & Hre & Hde & Hplant0).
      destruct Hpower, Hp. destruct Hsums as [Hsum (pp & plant & Hpp & Hplant & Hav0)].
      split; [replace (priorityBands s'') with (priorityBands U) by congruence;
              apply rawEq_refl|].
      split; [congruence|]. exists pp, plant. rewrite Hplant0.
      split; [done|]. split; [done|]. congruence. }
  assert (sameTally U s'') as HtU'' by (by eapply sameTally_trans).
  assert (traded s0 s'' sl0 (c sl0) (c sl1)) as Htr''.
  { by eapply traded_ext_r. }
  split; [by eapply Counted_traded|]. split; [|done].
  constructor; [by eapply Metered_traded|done|].
  eapply Tiered_setSlot; [done|done|by destruct Htr''| |done].
  intros _ Hen n Hn Hpow.
  eapply bandAt_is_Some_length.
  { symmetry. by eapply Forall2_length. }
  apply Hband. unfold activeC. rewrite Hn, Hen.
  destruct Hpow as [Hpow| ->]; [|done].
  unfold truthy. by destruct (Z.eqb_spec (power n) 0).
Qed.

Lemma sameTally_sym s s' : sameTally s s' → sameTally s' s.
Proof. intros []. by constructor. Qed.

(** The statistics that [settleStats] assigns carry over to a ship with
    the same tallies. *)
Lemma Tallied_intro s U :
  Counted s → sameTally U s → props s = props U →
  ladenMass U = unladenMass U + cargoCapacity U + fuelCapacity U →
  armour U = armourAdded U + Math_round (baseArmour (props U) * armourMultiplier U) →
  armourMultiplier U = ArmourMultiplier (bulkheadsId s) →
  Tallied s.
Proof.
  intros Hc [] Hprops Hl Ha Hm. constructor; [done|..]; rewrite ?Hprops; congruence.
Qed.

(** *** Installing a component *)

(** The body of [use] after the other slot of a unique group has been
    emptied: the slot takes the component and [updateStats] runs. *)
Lemma install_step s0 r sl0 i s' :
  installable r → getSlot s0 r = Some sl0 →
  Shaped s0 → Supplied s0 → Tallied s0 →
  updateStats
    (setSlot r (set_discountedCost
                  (priceOf (i ≫= catalogueAt r) * componentCostMultiplier s0)
                  (set_c (i ≫= catalogueAt r) (set_id i sl0))) s0)
    r (i ≫= catalogueAt r) (c sl0) false = Some s' →
  Shaped s' ∧ Supplied s' ∧ Tallied s' ∧ Derived s'.
Proof.
  intros Hr Hsl0 Hshape Hsup Htal.
  set (comp := i ≫= catalogueAt r).
  set (new := set_discountedCost (priceOf comp * componentCostMultiplier s0)
                (set_c comp (set_id i sl0))).
  set (s2 := setSlot r new s0). intros Hup.
  assert (getSlot s2 r = Some new) as Hnew by (by eapply getSlot_setSlot_eq).
  assert (sameMount sl0 new) as Hm by apply sameMount_contents.
  assert (r ≠ RShip ∧ r ≠ RCargoHatch) as [Hs Hh] by (by destruct r).
  rewrite (updateStats_refresh s2 r new) in Hup by done.
  destruct (updateStats s2 r comp (c sl0) true) as [U|] eqn:HU; simpl in Hup; [|done].
  destruct (updateStats_prevent_traded _ _ _ _ _ _ Hnew HU)
    as (Htr & HbU & Hl & Hmul & Ha & Hpa & Hpr & Hpd & Hidle & Hband).
  destruct (refresh_spec _ _ _ Hup) as (Hb' & Ht' & Hder & Hfsd & Hpower).
  pose proof (setSlot_tally r new s0) as Ht2.
  pose proof (setSlot_power r new s0) as [Hbands2 Hpa2 Hpr2 Hpd2].
  destruct (setSlot_fields r new s0) as (_ & Hprops2 & Hbid2 & _ & Hccm2).
  assert (traded s0 U sl0 (c sl0) (c new)) as Htr0.
  { eapply traded_mount; [by apply sameMount_sym|].
    eapply traded_ext_l; [by apply sameTally_sym| | |exact Htr]; by symmetry. }
  assert (sameBase s2 s') as Hb2' by (by eapply sameBase_trans).
  pose proof Hb2' as []. pose proof HbU as [].
  set (pc := bool_decide (r = RStandard 0) || activeC new (c sl0) || activeC new comp) in *.
  assert (pc = false → priorityBands U = priorityBands s0
                ∧ powerAvailable U = powerAvailable s0
                ∧ powerRetracted U = powerRetracted s0
                ∧ powerDeployed U = powerDeployed s0
                ∧ standard s' !! 0%nat = standard s0 !! 0%nat) as Hquiet.
  { intros Hpc. apply orb_false_iff in Hpc as [Hpc Hn].
    apply orb_false_iff in Hpc as [Hpc Ho]. apply bool_decide_eq_false in Hpc.
    rewrite (Hidle Ho Hn), Hpa, Hpr, Hpd. split; [exact Hbands2|].
    split; [exact Hpa2|]. split; [exact Hpr2|]. split; [exact Hpd2|].
    rewrite same_standard0.
    change (standard s2 !! 0%nat) with (getSlot s2 (RStandard 0)).
    unfold s2. by rewrite getSlot_setSlot_ne. }
  assert (standard s' = standard U) as Hstd by congruence.
  destruct (exchange_refreshed s0 r sl0 new U pc s' s' Hs Hh Hsl0 Hm Hsup
              (tallied_counted _ Htal) Htr0 Hquiet Hband Hup Hb2' Hstd
              (sameTally_refl _) (samePower_refl _)) as (Hcount & Hsup' & HtU').
  assert (Shaped s') as Hshape'.
  { eapply Shaped_ext; [exact Hb2'|]. apply Shaped_install; [done..|].
    intros Hkeep. destruct Hfsd as (fs & fsd & Hfs & Hfsd).
    destruct Hkeep as [->| ->].
    - destruct Hsup' as [_ [_ (pp & plant & Hpp & Hplant & _)] _].
      rewrite same_standard0 in Hpp.
      change (standard s2 !! 0%nat) with (getSlot s2 (RStandard 0)) in Hpp.
      rewrite Hnew in Hpp. injection Hpp as <-. by eexists.
    - rewrite same_standard0 in Hfs.
      change (standard s2 !! 2%nat) with (getSlot s2 (RStandard 2)) in Hfs.
      rewrite Hnew in Hfs. injection Hfs as <-. by eexists. }
  split; [done|]. split; [done|]. split; [|done].
  eapply Tallied_intro; [done|exact HtU'|congruence|done|done|].
  rewrite Hmul, same_bulkheadsId0. unfold s2. rewrite Hbid2.
  rewrite (same_armourMultiplier _ _ Ht2). apply Htal.
Qed.

(** The cases of [vacateSimilar]: nothing happens, or the first internal
    slot that holds the group, another slot than the target, is emptied. *)
Lemma vacateSimilar_spec s r comp preventUpdate s1 :
  vacateSimilar s r comp preventUpdate = Some s1 →
  s1 = s
  ∨ ∃ sl n j sim s_a sim1,
      preventUpdate = false ∧ getSlot s r = Some sl ∧ comp = Some n
      ∧ cat sl = Some 2 ∧ uniqueGroup (grp n) = true
      ∧ findInternalByGroup s (grp n) = Some j ∧ RInternal j ≠ r
      ∧ internal s !! j = Some sim
      ∧ updateStats s (RInternal j) None (c sim) false = Some s_a
      ∧ internal s_a !! j = Some sim1
      ∧ s1 = setSlot (RInternal j)
               (set_discountedCost 0 (set_c None (set_id None sim1))) s_a.
Proof.
  unfold vacateSimilar. destruct (getSlot s r) as [sl|] eqn:Hsl; simpl; [|done].
  destruct comp as [n|]; [|intros [= <-]; by left].
  destruct (catIs sl 2) eqn:Hcat; simpl; [|intros [= <-]; by left].
  destruct (uniqueGroup (grp n)) eqn:Hu; [|intros [= <-]; by left].
  destruct (findInternalByGroup s (grp n)) as [j|] eqn:Hj; [|intros [= <-]; by left].
  destruct preventUpdate; simpl; [intros [= <-]; by left|].
  case_bool_decide as Hne; simpl; [intros [= <-]; by left|].
  destruct (internal s !! j) as [sim|] eqn:Hsim; simpl; [|done].
  destruct (updateStats s (RInternal j) None (c sim) false) as [s_a|] eqn:Ha;
    simpl; [|done].
  destruct (internal s_a !! j) as [sim1|] eqn:Hsim1; simpl; [|done].
  intros [= <-]. right. exists sl, n, j, sim, s_a, sim1.
  unfold catIs in Hcat. apply bool_decide_eq_true in Hcat. done.
Qed.

(** Emptying the other slot of a unique group leaves the slots, the
    bands and the cumulative statistics consistent. *)
Lemma vacate_step s j sim s_a :
  internal s !! j = Some sim →
  Shaped s → Supplied s → Tallied s →
  updateStats s (RInternal j) None (c sim) false = Some s_a →
  internal s_a !! j = Some sim
  ∧ Shaped (setSlot (RInternal j) (set_discountedCost 0 (set_c None (set_id None sim))) s_a)
  ∧ Supplied (setSlot (RInternal j) (set_discountedCost 0 (set_c None (set_id None sim))) s_a)
  ∧ Tallied (setSlot (RInternal j) (set_discountedCost 0 (set_c None (set_id None sim))) s_a).
Proof.
  intros Hsim Hshape Hsup Htal Hup.
  set (r := RInternal j). set (e := set_discountedCost 0 (set_c None (set_id None sim))).
  assert (getSlot s r = Some sim) as Hsl0 by done.
  rewrite (updateStats_refresh s r sim) in Hup by done.
  destruct (updateStats s r None (c sim) true) as [U|] eqn:HU; simpl in Hup; [|done].
  destruct (updateStats_prevent_traded _ _ _ _ _ _ Hsl0 HU)
    as (Htr & HbU & Hl & Hmul & Ha & Hpa & Hpr & Hpd & Hidle & Hband).
  destruct (refresh_spec _ _ _ Hup) as (Hb' & Ht' & Hder & Hfsd & Hpower).
  assert (sameBase s s_a) as Hba by (by eapply sameBase_trans).
  pose proof Hba as []. pose proof HbU as [].
  assert (internal s_a !! j = Some sim) as Hsim' by (by rewrite same_internal0).
  split; [done|].
  assert (sameMount sim e) as Hm by apply sameMount_contents.
  set (pc := bool_decide (r = RStandard 0) || activeC sim (c sim) || activeC sim None) in *.
  assert (sameBase (setSlot r e s) (setSlot r e s_a)) as Hb1 by (by apply sameBase_setSlot).
  assert (pc = false → priorityBands U = priorityBands s
                ∧ powerAvailable U = powerAvailable s
                ∧ powerRetracted U = powerRetracted s
                ∧ powerDeployed U = powerDeployed s
                ∧ standard (setSlot r e s_a) !! 0%nat = standard s !! 0%nat) as Hquiet.
  { intros Hpc. apply orb_false_iff in Hpc as [Hpc Hn].
    apply orb_false_iff in Hpc as [Hpc Ho].
    rewrite (Hidle Ho Hn). do 4 (split; [done|]). simpl. by rewrite same_standard0. }
  assert (standard (setSlot r e s_a) = standard U) as Hstd.
  { simpl. congruence. }
  destruct (exchange_refreshed s r sim e U pc s_a (setSlot r e s_a)
              ltac:(done) ltac:(done) Hsl0 Hm Hsup (tallied_counted _ Htal) Htr Hquiet
              ltac:(done) Hup Hb1 Hstd (setSlot_tally _ _ _) (setSlot_power _ _ _))
    as (Hcount & Hsup' & HtU').
  split; [|split; [done|]].
  - eapply Shaped_ext; [exact Hb1|].
    pose proof (Shaped_install s r sim None ltac:(done) Hsl0 Hshape ltac:(by intros [|])) as Hsh.
    exact Hsh.
  - eapply Tallied_intro; [done|exact HtU'|simpl; congruence|done|done|].
    rewrite Hmul. simpl. rewrite same_bulkheadsId0. apply Htal.
Qed.

(** [use] keeps the ship consistent. *)
Lemma use_step s r i s' :
  installable r →
  Shaped s → Supplied s → Tallied s → Derived s →
  use s r i (i ≫= catalogueAt r) false = Some s' →
  Shaped s' ∧ Supplied s' ∧ Tallied s' ∧ Derived s'.
Proof.
  intros Hr Hshape Hsup Htal Hder. unfold use.
  destruct (getSlot s r) as [sl|] eqn:Hsl; simpl; [|done].
  case_bool_decide as Hid; [by intros [= <-]|].
  destruct (vacateSimilar s r _ false) as [s1|] eqn:Hvac; simpl; [|done].
  destruct (getSlot s1 r) as [sl1|] eqn:Hsl1; simpl; [|done].
  rewrite priceOf_use. intros Hup.
  apply vacateSimilar_spec in Hvac as [->|Hvac].
  - by eapply install_step.
  - destruct Hvac as (sl' & n & j & sim & s_a & sim1 & _ & _ & _ & _ & _ & _ & Hne & Hsim
                      & Ha & Hsim1 & ->).
    destruct (vacate_step s j sim s_a Hsim Hshape Hsup Htal Ha)
      as (Hsim' & Hshape1 & Hsup1 & Htal1).
    rewrite Hsim' in Hsim1. injection Hsim1 as <-.
    by eapply install_step.
Qed.

(** *** Changing the bulkheads *)

Lemma useBulkhead_step s index s' :
  Shaped s → Supplied s → Tallied s →
  useBulkhead s index false = Some s' →
  Shaped s' ∧ Supplied s' ∧ Tallied s' ∧ Derived s'.
Proof.
  intros Hshape Hsup Htal. unfold useBulkhead.
  destruct (Components_bulkheads (shipId s) index) as [bh|] eqn:Hbh; simpl; [|done].
  set (new := set_discountedCost (cost bh * componentCostMultiplier s)
                (set_c (Some bh) (bulkheads s))).
  set (s0 := set_armourMultiplier (ArmourMultiplier index) (set_bulkheadsId index s)).
  set (s3 := set_armourMultiplier (ArmourMultiplier index)
               (set_bulkheads new (set_bulkheadsId index s))).
  intros Hup. set (r := RBulkheads).
  assert (getSlot s3 r = Some new) as Hnew by done.
  assert (getSlot s0 r = Some (bulkheads s)) as Hsl0 by done.
  assert (sameMount (bulkheads s) new) as Hm by (by constructor).
  destruct Hshape as [Hslots Hhatch Hbulk Hhull Hplant Hfsd].
  destruct Hbulk as (Hbc & Hbsome & Hben & Hbcat & Hbty & Hbprice).
  rewrite (updateStats_refresh s3 r new) in Hup by done.
  destruct (updateStats s3 r (Some bh) (c (bulkheads s)) true) as [U|] eqn:HU;
    simpl in Hup; [|done].
  destruct (updateStats_prevent_traded _ _ _ _ _ _ Hnew HU)
    as (Htr & HbU & Hl & Hmul & Ha & Hpa & Hpr & Hpd & Hidle & Hband).
  destruct (refresh_spec _ _ _ Hup) as (Hb' & Ht' & Hder & Hfsd' & Hpower).
  assert (sameBase s3 s') as Hb3 by (by eapply sameBase_trans).
  pose proof Hb3 as []. pose proof HbU as [].
  assert (activeC new (c (bulkheads s)) = false) as Ho.
  { unfold activeC. destruct (c (bulkheads s)); [|done]. simpl. rewrite Hben.
    apply andb_false_r. }
  assert (activeC new (Some bh) = false) as Hn.
  { unfold activeC. simpl. rewrite Hben. apply andb_false_r. }
  assert (traded s0 U (bulkheads s) (c (bulkheads s)) (c new)) as Htr0.
  { eapply traded_mount; [by apply sameMount_sym|].
    eapply traded_ext_l; [| | |exact Htr]; [by constructor|done|done]. }
  assert (Supplied s0) as Hsup0.
  { destruct Hsup as [Hraw Hsums Htiers]. by constructor. }
  assert (Counted s0) as Hc0.
  { destruct Htal as [[] _ _ _]. by constructor. }
  assert (standard s' = standard U) as Hstd by congruence.
  set (pc := bool_decide (r = RStandard 0) || activeC new (c (bulkheads s))
             || activeC new (Some bh)) in *.
  assert (pc = false → priorityBands U = priorityBands s0
                ∧ powerAvailable U = powerAvailable s0
                ∧ powerRetracted U = powerRetracted s0
                ∧ powerDeployed U = powerDeployed s0
                ∧ standard s' !! 0%nat = standard s0 !! 0%nat) as Hquiet.
  { intros _. rewrite (Hidle Ho Hn), Hpa, Hpr, Hpd. do 4 (split; [done|]).
    by rewrite same_standard0. }
  assert (activeC new (c new) = true →
          is_Some (bandAt (priorityBands U) (priority new))) as Hband'.
  { change (c new) with (Some bh). by rewrite Hn. }
  destruct (exchange_refreshed s0 r (bulkheads s) new U pc s' s'
              ltac:(done) ltac:(done) Hsl0 Hm Hsup0 Hc0 Htr0 Hquiet Hband' Hup Hb3 Hstd
              (sameTally_refl _) (samePower_refl _)) as (Hcount & Hsup' & HtU').
  split; [|split; [done|split; [|done]]].
  - constructor.
    + intros r' sl' Hr'. rewrite (sameBase_getSlot _ _ _ Hb3).
      rewrite same_componentCostMultiplier0.
      destruct r'; try done; intros Hsl'; (apply Hslots; [done|exact Hsl']).
    + by rewrite same_cargoHatch0.
    + rewrite same_bulkheads0, same_shipId0, same_bulkheadsId0,
        same_componentCostMultiplier0. simpl. rewrite Hbh. by repeat split.
    + by rewrite same_shipC0, same_shipCostMultiplier0.
    + by rewrite same_standard0.
    + by rewrite same_standard0.
  - eapply Tallied_intro; [done|exact HtU'|congruence|done|done|].
    rewrite Hmul, same_bulkheadsId0. done.
Qed.

(** *** Editing a slot that keeps its component *)

Lemma setSlot_derived r x s : sameDerived s (setSlot r x s).
Proof. by destruct r. Qed.

Lemma findIndex_ext {A} (R : A → A → Prop) (p : A → bool) l l' :
  Forall2 R l l' → (∀ a b, R a b → p a = p b) → findIndex p l = findIndex p l'.
Proof.
  intros HR Hp. induction HR as [|a b l l' Hab _ IH]; simpl; [done|].
  rewrite (Hp a b Hab), IH. done.
Qed.

Lemma findIndex_Some {A} (p : A → bool) l i :
  findIndex p l = Some i → ∃ x, l !! i = Some x ∧ p x = true.
Proof.
  revert i. induction l as [|a l IH]; intros i; simpl; [done|].
  destruct (p a) eqn:Ha.
  - intros [= <-]. by exists a.
  - destruct (findIndex p l) as [j|]; simpl; [|done].
    intros [= <-]. by apply IH.
Qed.

Lemma shieldAlike_holds a b : shieldAlike a b → holdsGroup "sg" a = holdsGroup "sg" b.
Proof. intros [Hc _]. unfold holdsGroup. by rewrite Hc. Qed.

Lemma shieldStrength_ext s s' :
  Forall2 shieldAlike (internal s) (internal s') →
  props s' = props s → shieldMultiplier s' = shieldMultiplier s →
  shieldStrength (updateShieldStrength s') = shieldStrength (updateShieldStrength s).
Proof.
  intros Hint Hprops Hmul. unfold updateShieldStrength, findInternalByGroup. simpl.
  rewrite <- (findIndex_ext _ _ _ _ Hint shieldAlike_holds).
  destruct (findIndex (holdsGroup "sg") (internal s)) as [i|] eqn:Hi; [|done].
  destruct (findIndex_Some _ _ _ Hi) as (a & Ha & Hpa).
  destruct (Forall2_lookup_l _ _ _ _ _ Hint Ha) as (b & Hb & Hcab & Hen).
  rewrite Ha, Hb, <- Hcab, <- (Hen Hpa), Hprops, Hmul. done.
Qed.

Lemma sameTally_load s s' : sameTally s s' → sameLoad s s'.
Proof. intros []. by constructor. Qed.

Lemma Derived_ext s s' :
  sameLoad s s' → sameDerived s s' → props s' = props s →
  (∀ k, c <$> standard s' !! k = c <$> standard s !! k) →
  Forall2 shieldAlike (internal s) (internal s') →
  Derived s → Derived s'.
Proof.
  intros [] [] Hprops Hstd Hint [Hspeed Hjump Hshield].
  constructor.
  - intros th' Hth'. pose proof (Hstd 1%nat) as H1. rewrite Hth' in H1.
    destruct (standard s !! 1%nat) as [th|] eqn:Hth; [|done].
    injection H1 as H1. rewrite H1, Hprops, same_topSpeed0, same_topBoost0,
      load_unladenMass0, load_fuelCapacity0. by apply Hspeed.
  - intros sl' fsd Hsl' Hfsd. pose proof (Hstd 2%nat) as H2. rewrite Hsl' in H2.
    destruct (standard s !! 2%nat) as [sl|] eqn:Hsl; [|done].
    injection H2 as H2. rewrite Hfsd in H2.
    rewrite same_unladenRange0, same_fullTankRange0, same_ladenRange0,
      same_unladenTotalRange0, same_ladenTotalRange0, same_maxJumpCount0,
      load_unladenMass0, load_fuelCapacity0, load_cargoCapacity0, load_ladenMass0.
    by apply (Hjump sl).
  - rewrite same_shieldStrength0, Hshield. symmetry.
    by apply shieldStrength_ext.
Qed.

Lemma Forall2_insert_r {A} (R : A → A → Prop) l i a x :
  (∀ y, R y y) → l !! i = Some a → R a x → Forall2 R l (<[i:=x]> l).
Proof.
  intros Hrefl Ha Hax. apply Forall2_same_length_lookup.
  split; [by rewrite length_insert|].
  intros k y z Hy. destruct (decide (k = i)) as [->|Hne].
  - rewrite list_lookup_insert_eq; [|by eapply lookup_lt_Some]. intros [= <-]. congruence.
  - rewrite list_lookup_insert_ne by done. intros Hz. rewrite Hy in Hz.
    injection Hz as <-. apply Hrefl.
Qed.

Lemma shieldAlike_refl a : shieldAlike a a.
Proof. by split. Qed.

Lemma setSlot_internal_alike s r sl x :
  getSlot s r = Some sl → shieldAlike sl x →
  Forall2 shieldAlike (internal s) (internal (setSlot r x s)).
Proof.
  intros Hsl Hx. destruct r; simpl in *;
    try (apply Forall2_same_length_lookup; split; [done|];
         intros k y z -> [= <-]; apply shieldAlike_refl).
  eapply Forall2_insert_r; [apply shieldAlike_refl|done..].
Qed.

Lemma setSlot_standard_c s r sl x k :
  getSlot s r = Some sl → c x = c sl →
  c <$> standard (setSlot r x s) !! k = c <$> standard s !! k.
Proof.
  intros Hsl Hx. destruct r; simpl in *; try done.
  destruct (decide (i = k)) as [->|Hne].
  - rewrite list_lookup_insert_eq; [|by eapply lookup_lt_Some]. rewrite Hsl. simpl.
    by rewrite Hx.
  - by rewrite list_lookup_insert_ne.
Qed.

Lemma overSlots_edit f s r sl x :
  getSlot s r = Some sl → f x = f sl → overSlots f (setSlot r x s) = overSlots f s.
Proof.
  intros Hsl Hf. destruct (decide (r = RShip ∨ r = RCargoHatch)) as [[->| ->]|Hn]; try done.
  rewrite (overSlots_setSlot f s r sl x); [lia|tauto|tauto|done].
Qed.

Lemma overPowered_edit f s r sl x :
  getSlot s r = Some sl → f x = f sl → overPowered f (setSlot r x s) = overPowered f s.
Proof.
  intros Hsl Hf. destruct (decide (r = RShip)) as [->|Hn]; [done|].
  rewrite (overPowered_setSlot f s r sl x); [lia|done..].
Qed.

(** The slots stay well formed under an edit that keeps identity,
    component and price. *)
Lemma Shaped_edit s r sl x :
  getSlot s r = Some sl → sameFittings sl x →
  (r = RBulkheads → enabled x = enabled sl) →
  Shaped s → Shaped (setSlot r x s).
Proof.
  intros Hsl [] Hben [Hslots Hhatch Hbulk Hhull Hplant Hfsd].
  destruct (setSlot_fields r x s) as (Hid & _ & Hbid & Hscm & Hccm).
  constructor.
  - intros r' sl' Hr'. rewrite (getSlot_setSlot _ _ _ sl) by done. rewrite Hccm.
    case_decide as Heq; [|by apply Hslots].
    subst r'. intros [= <-]. destruct (Hslots r sl Hr' Hsl) as [Hcat Hc Hprice Hty].
    constructor; [congruence|congruence|congruence|].
    rewrite fit_type0, Hty. destruct r as [| | |[|[|[|?]]]| |]; simpl; try done.
    by rewrite fit_maxClass0.
  - destruct r; simpl in *; try done. injection Hsl as <-. by rewrite fit_c0, fit_cat0.
  - rewrite Hid, Hbid, Hccm. destruct r; simpl in *; try done.
    injection Hsl as <-. rewrite fit_c0, fit_cat0, fit_type0, fit_discountedCost0.
    by rewrite Hben.
  - rewrite Hscm. destruct r; simpl in *; try done.
    injection Hsl as <-. by rewrite fit_c0, fit_type0, fit_discountedCost0.
  - destruct Hplant as (pp & plant & Hpp & Hplant).
    pose proof (setSlot_standard_c s r sl x 0%nat Hsl fit_c0) as Hk. rewrite Hpp in Hk.
    destruct (standard (setSlot r x s) !! 0%nat) as [pp'|]; [|done].
    injection Hk as Hk. exists pp', plant. by rewrite Hk.
  - destruct Hfsd as (fs & fsd & Hfs & Hfsd).
    pose proof (setSlot_standard_c s r sl x 2%nat Hsl fit_c0) as Hk. rewrite Hfs in Hk.
    destruct (standard (setSlot r x s) !! 2%nat) as [fs'|]; [|done].
    injection Hk as Hk. exists fs', fsd. by rewrite Hk.
Qed.

Lemma Metered_remounted s s' r sl x :
  r ≠ RShip → getSlot s r = Some sl → sameBase (setSlot r x s) s' →
  remounted (priorityBands s) (priorityBands s') sl x →
  Metered s → Metered s'.
Proof.
  intros Hr Hsl Hb [_ Hbands] Hraw i b' Hi.
  destruct (Hbands i b' Hi) as (b & Hi0 & Hdep & Hret & Ho).
  destruct (Hraw i b Hi0) as (Hdep0 & Hret0 & Ho0).
  rewrite !(sameBase_overPowered _ _ _ Hb).
  rewrite !(overPowered_setSlot _ s r sl x) by done.
  repeat split; lia.
Qed.

Lemma remounted_rawEq bands bands' bands'' sl x :
  remounted bands bands' sl x → Forall2 rawEq bands'' bands' →
  remounted bands bands'' sl x.
Proof.
  intros [Hlen Hb] Hraw. split.
  - rewrite <- Hlen. by eapply Forall2_length.
  - intros i b'' Hi.
    destruct (Forall2_lookup_l _ _ _ _ _ Hraw Hi) as (b' & Hi' & Hd & Hr & Ho).
    destruct (Hb i b' Hi') as (b & Hb0 & Hd' & Hr' & Ho').
    exists b. repeat split; [done|lia|lia|congruence].
Qed.

Lemma remounted_same bands sl x :
  (∀ i u, drawOf i u x = drawOf i u sl) → remounted bands bands sl x.
Proof.
  intros Hsame. split; [done|]. intros i b Hi. exists b.
  rewrite !Hsame. repeat split; try done; lia.
Qed.

Lemma drawOf_disabled i u sl : enabled sl = false → drawOf i u sl = 0.
Proof. intros Hen. unfold drawOf, drawOfC. rewrite Hen. by destruct (c sl). Qed.

Lemma Summed_edit s s' :
  (∀ k, c <$> standard s' !! k = c <$> standard s !! k) → samePower s s' →
  Summed s → Summed s'.
Proof.
  intros Hstd [] [Hsum (pp & plant & Hpp & Hplant & Hav)]. split; [congruence|].
  pose proof (Hstd 0%nat) as H0. rewrite Hpp in H0.
  destruct (standard s' !! 0%nat) as [pp'|]; [|done]. injection H0 as H0.
  exists pp', plant. split; [done|]. split; congruence.
Qed.

(** The tiers stay known under an edit that keeps the component, when
    the slot stays in its tier or its new tier exists. *)
Lemma Tiered_edit s s' r sl x :
  getSlot s r = Some sl → sameBase (setSlot r x s) s' →
  length (priorityBands s') = length (priorityBands s) →
  c x = c sl →
  (powered r → enabled x = true → is_Some (c x) →
   (enabled sl = true ∧ priority x = priority sl)
   ∨ is_Some (bandAt (priorityBands s') (priority x))) →
  Tiered s → Tiered s'.
Proof.
  intros Hsl Hb Hlen Hc Hx Htiers.
  eapply (Tiered_setSlot s s' r sl x); [done..| |done].
  intros Hpow Hen n Hn Hp. destruct (Hx Hpow Hen) as [[Hen0 Hpr]|Hk]; [by eexists| |done].
  eapply bandAt_is_Some_length; [symmetry; exact Hlen|]. rewrite Hpr.
  eapply (Htiers r sl Hpow Hsl Hen0 n); [congruence|done].
Qed.

(** *** Including and excluding the cost of a slot *)

Lemma setCostIncluded_step s r included s' :
  r ≠ RCargoHatch →
  Shaped s → Supplied s → Tallied s → Derived s →
  setCostIncluded s r included = Some s' →
  Shaped s' ∧ Supplied s' ∧ Tallied s' ∧ Derived s'.
Proof.
  intros Hr Hshape Hsup Htal Hder. unfold setCostIncluded.
  destruct (getSlot s r) as [it|] eqn:Hit; simpl; [|done].
  set (x := set_incCost included it).
  set (s1 := if negb (bool_decide (incCost it = included)) && bool_decide (is_Some (c it))
             then set_totalCost (totalCost s + (if included then discountedCost it
                                                else - discountedCost it)) s
             else s).
  intros [= <-].
  assert (sameBase s s1 ∧ samePower s s1 ∧ sameDerived s s1
          ∧ fuelCapacity s1 = fuelCapacity s ∧ cargoCapacity s1 = cargoCapacity s
          ∧ ladenMass s1 = ladenMass s ∧ armourAdded s1 = armourAdded s
          ∧ armourMultiplier s1 = armourMultiplier s
          ∧ shieldMultiplier s1 = shieldMultiplier s
          ∧ unladenMass s1 = unladenMass s ∧ totalDps s1 = totalDps s
          ∧ armour s1 = armour s)
    as (Hb1 & Hp1 & Hd1 & Ff & Fc & Fl & Fa & Fam & Fs & Fm & Fd & Far).
  { unfold s1. case_match; by repeat split. }
  assert (sameBase (setSlot r x s) (setSlot r x s1)) as Hb by (by apply sameBase_setSlot).
  assert (sameFittings it x) as Hfit by (by constructor).
  pose proof (setSlot_tally r x s1) as []. pose proof (setSlot_power r x s1) as Hp.
  pose proof (setSlot_derived r x s1) as Hd. pose proof (setSlot_power r x s) as Hps.
  destruct (setSlot_fields r x s) as (_ & Hprops & Hbid & _ & Hccm).
  pose proof Hb as []. pose proof Hshape as [Hslots _ Hbulk Hhull _ _].
  assert (Shaped (setSlot r x s1)) as Hshape'.
  { eapply Shaped_ext; [exact Hb|]. by eapply Shaped_edit. }
  split; [done|]. destruct Hsup as [Hraw Hsums Htiers].
  split; [|split].
  - constructor.
    + eapply (Metered_ext (setSlot r x s)); [done|destruct Hp, Hp1, Hps; congruence|].
      intros i b Hi. destruct (setSlot_power r x s) as [Hbands _ _ _].
      rewrite Hbands in Hi. rewrite !(overPowered_edit _ s r it x) by done.
      by apply Hraw.
    + eapply (Summed_edit s); [|destruct Hp, Hp1; constructor; congruence|done].
      intros k. rewrite same_standard0. by eapply setSlot_standard_c.
    + eapply (Tiered_edit s _ r it x); [done|done|destruct Hp, Hp1; congruence|done| |done].
      intros _ Hen _. left. done.
  - destruct Htal as [[Hfuel Hcargo Harm Hsh Hcost Hmass Hdps] Hl Hm Ha].
    constructor; [constructor|..];
      try (intros Hsane; specialize (Hsh Hsane); specialize (Hdps Hsane));
      rewrite ?(sameBase_overSlots _ _ _ Hb),
      ?same_props0, ?Hprops, ?same_bulkheadsId0, ?Hbid,
      ?same_componentCostMultiplier0, ?Hccm; try congruence.
    + rewrite (overSlots_edit _ s r it x) by done. lia.
    + rewrite (overSlots_edit _ s r it x) by done. lia.
    + rewrite (overSlots_edit _ s r it x) by done. lia.
    + rewrite (overSlots_edit _ s r it x) by done. lia.
    + rewrite same_totalCost0, same_shipC0.
      destruct (decide (r = RShip)) as [->|Hns].
      * simpl in Hit. injection Hit as <-. simpl.
        change (overSlots ?f (set_shipC ?y s)) with (overSlots f s).
        unfold s1. destruct Hhull as (_ & Hsome & _).
        rewrite (bool_decide_eq_true_2 _ Hsome), andb_true_r.
        destruct included, (incCost (shipC s)); simpl; lia.
      * assert (shipC (setSlot r x s) = shipC s) as -> by (by destruct r).
        rewrite (overSlots_setSlot _ s r it x) by done.
        set (T := overSlots (costOf (componentCostMultiplier s)) s) in *. clearbody T.
        unfold s1, costOf, costOfC. simpl.
        assert (c it = None ∨ ∃ n, c it = Some n
                  ∧ discountedCost it = cost n * componentCostMultiplier s) as Hprice.
        { destruct (c it) as [n|] eqn:Hn; [right|by left]. exists n. split; [done|].
          destruct r as [| | |k|k|k]; try done.
          - destruct Hbulk as (_ & _ & _ & _ & _ & Hpr). simpl in Hit.
            injection Hit as <-. rewrite Hpr, Hn. reflexivity.
          - destruct (Hslots (RStandard k) it I Hit) as [_ _ Hpr _].
            rewrite Hpr, Hn. reflexivity.
          - destruct (Hslots (RHardpoint k) it I Hit) as [_ _ Hpr _].
            rewrite Hpr, Hn. reflexivity.
          - destruct (Hslots (RInternal k) it I Hit) as [_ _ Hpr _].
            rewrite Hpr, Hn. reflexivity. }
        destruct Hprice as [Hn|(n & Hn & Hpr)]; rewrite Hn.
        -- rewrite andb_false_r. lia.
        -- rewrite (bool_decide_eq_true_2 (is_Some (Some n))) by done.
           rewrite andb_true_r, Hpr.
           destruct included, (incCost it); simpl; lia.
    + rewrite (overSlots_edit _ s r it x) by done. lia.
    + rewrite (overSlots_edit _ s r it x) by done. lia.
  - eapply (Derived_ext s).
    + constructor; congruence.
    + destruct Hd, Hd1. constructor; congruence.
    + congruence.
    + intros k. rewrite same_standard0. by eapply setSlot_standard_c.
    + rewrite same_internal0. eapply setSlot_internal_alike; [done|]. by split.
    + done.
Qed.

(** *** Changing the priority of a slot *)

Lemma adjustBand_frame p u d s s' :
  adjustBand p u d s = Some s' →
  sameBase s s' ∧ sameTally s s' ∧ sameDerived s s'
  ∧ powerAvailable s' = powerAvailable s ∧ powerRetracted s' = powerRetracted s
  ∧ powerDeployed s' = powerDeployed s
  ∧ is_Some (bandAt (priorityBands s) p)
  ∧ length (priorityBands s') = length (priorityBands s).
Proof.
  intros Hadj. pose proof (adjustBand_length _ _ _ _ _ Hadj) as Hlen.
  revert Hadj. unfold adjustBand. destruct (bandAt _ _) as [b|]; simpl; [|done].
  intros [= <-]. by repeat split.
Qed.

Lemma updatePower_derived s s' : updatePower s = Some s' → sameDerived s s'.
Proof. intros (pp & plant & _ & _ & ->)%updatePower_spec. by constructor. Qed.

Lemma sameDerived_trans s1 s2 s3 :
  sameDerived s1 s2 → sameDerived s2 s3 → sameDerived s1 s3.
Proof. intros [] []. constructor; congruence. Qed.

Lemma updatePower_length s s' :
  updatePower s = Some s' → length (priorityBands s') = length (priorityBands s).
Proof.
  intros (pp & plant & _ & _ & ->)%updatePower_spec. simpl. apply sumBands_length.
Qed.

(** Taking the draw of a slot out of the bands and putting the draw of
    its edited version in. *)
Lemma remounted_deltas bands bands1 bands2 sl x n :
  c sl = Some n → c x = Some n →
  bandsDelta (-1) sl (Some n) bands bands1 →
  bandsDelta 1 x (Some n) bands1 bands2 →
  remounted bands bands2 sl x.
Proof.
  intros Hsl Hx Hd1 Hd2. split.
  - rewrite (bandsDelta_length _ _ _ _ _ Hd2). by eapply bandsDelta_length.
  - intros i b2 Hi.
    destruct (bandsDelta_lookup _ _ _ _ _ _ _ Hd2 Hi) as (b1 & Hi1 & Hdep2 & Hret2 & Ho2).
    destruct (bandsDelta_lookup _ _ _ _ _ _ _ Hd1 Hi1) as (b & Hi0 & Hdep1 & Hret1 & Ho1).
    exists b. unfold drawOf. rewrite Hsl, Hx. repeat split; [done|lia|lia|congruence].
Qed.

Lemma remounted_out bands bands1 sl x n :
  c sl = Some n → enabled x = false →
  bandsDelta (-1) sl (Some n) bands bands1 → remounted bands bands1 sl x.
Proof.
  intros Hsl Hx Hd1. split; [by eapply bandsDelta_length|].
  intros i b1 Hi.
  destruct (bandsDelta_lookup _ _ _ _ _ _ _ Hd1 Hi) as (b & Hi0 & Hdep1 & Hret1 & Ho1).
  exists b. rewrite !(drawOf_disabled _ _ x) by done. unfold drawOf. rewrite Hsl.
  repeat split; [done|lia|lia|congruence].
Qed.

Lemma remounted_in bands bands1 sl x n :
  enabled sl = false → c x = Some n →
  bandsDelta 1 x (Some n) bands bands1 → remounted bands bands1 sl x.
Proof.
  intros Hsl Hx Hd1. split; [by eapply bandsDelta_length|].
  intros i b1 Hi.
  destruct (bandsDelta_lookup _ _ _ _ _ _ _ Hd1 Hi) as (b & Hi0 & Hdep1 & Hret1 & Ho1).
  exists b. rewrite !(drawOf_disabled _ _ sl) by done. unfold drawOf. rewrite Hx.
  repeat split; [done|lia|lia|congruence].
Qed.

(** A slot edit that keeps the component and touches no statistic keeps
    the cumulative statistics consistent. *)
Lemma Tallied_edit s s' r sl x :
  getSlot s r = Some sl → sameBase (setSlot r x s) s' → sameTally s s' →
  c x = c sl → incCost x = incCost sl → enabled x = enabled sl →
  discountedCost x = discountedCost sl →
  Tallied s → Tallied s'.
Proof.
  intros Hsl Hb Ht Hc Hinc Hen Hdisc [[Hfuel Hcargo Harm Hsh Hcost Hmass Hdps] Hl Hm Ha].
  destruct (setSlot_fields r x s) as (_ & Hprops & Hbid & _ & Hccm).
  pose proof Hb as []. pose proof Ht as [].
  assert (shipC (setSlot r x s) = shipC s ∨ r = RShip) as HshipC.
  { destruct r; by (left + right). }
  constructor; [constructor|..];
    try (intros Hsane; specialize (Hsh Hsane); specialize (Hdps Hsane));
    rewrite ?(sameBase_overSlots _ _ _ Hb),
      ?same_props0, ?Hprops, ?same_bulkheadsId0, ?Hbid,
      ?same_componentCostMultiplier0, ?Hccm; try congruence.
  - rewrite (overSlots_edit _ s r sl x); [congruence|done|]. unfold fuelOf. by rewrite Hc.
  - rewrite (overSlots_edit _ s r sl x); [congruence|done|]. unfold cargoOf. by rewrite Hc.
  - rewrite (overSlots_edit _ s r sl x); [congruence|done|]. unfold armourOf. by rewrite Hc.
  - rewrite (overSlots_edit _ s r sl x); [congruence|done|].
    unfold shieldOf, shieldOfC. by rewrite Hc, Hen.
  - rewrite (overSlots_edit _ s r sl x); [|done|unfold costOf, costOfC; by rewrite Hc, Hinc].
    rewrite same_totalCost0, same_shipC0, Hcost.
    destruct HshipC as [->| ->]; [done|]. simpl in *. injection Hsl as <-.
    by rewrite Hinc, Hdisc.
  - rewrite (overSlots_edit _ s r sl x); [congruence|done|]. unfold massOf. by rewrite Hc.
  - rewrite (overSlots_edit _ s r sl x); [congruence|done|].
    unfold dpsOf, dpsOfC. by rewrite Hc, Hen.
Qed.

Lemma drawOf_priority_disabled i u sl p :
  enabled sl = false → drawOf i u (set_priority p sl) = drawOf i u sl.
Proof. intros Hen. by rewrite !drawOf_disabled. Qed.

Lemma changePriority_step s r newPriority s' result :
  powered r →
  Shaped s → Supplied s → Tallied s → Derived s →
  changePriority s r newPriority = Some (s', result) →
  Shaped s' ∧ Supplied s' ∧ Tallied s' ∧ Derived s'.
Proof.
  intros Hr Hshape Hsup Htal Hder. unfold changePriority.
  destruct (getSlot s r) as [sl|] eqn:Hsl; simpl; [|done].
  destruct (bool_decide (0 ≤ newPriority) && _) eqn:Hrange; [|by intros [= <- _]].
  set (x := set_priority newPriority sl). set (s1 := setSlot r x s).
  assert (r ≠ RShip ∧ r ≠ RBulkheads) as [Hns Hnb] by (by destruct r).
  assert (sameFittings sl x) as Hfit by (by constructor).
  assert (Shaped s1) as Hshape1 by (by eapply Shaped_edit).
  pose proof (setSlot_tally r x s) as Ht1. pose proof (setSlot_power r x s) as Hp1.
  pose proof (setSlot_derived r x s) as Hd1.
  destruct (setSlot_fields r x s) as (_ & Hprops & _).
  destruct Hsup as [Hraw Hsums Htiers].
  assert (∀ s'', sameBase s1 s'' → sameLoad s s'' → sameDerived s s'' → Derived s'')
    as Hder'.
  { intros s'' Hb Hl Hd. pose proof Hb as []. eapply (Derived_ext s); [done|done| | | |done].
    - rewrite same_props0. exact Hprops.
    - intros k. rewrite same_standard0. by eapply setSlot_standard_c.
    - rewrite same_internal0. eapply setSlot_internal_alike; [done|]. by split. }
  destruct (enabled sl) eqn:Hen; simpl.
  - destruct (c sl) as [n|] eqn:Hn; simpl; [|done].
    change (powerUsageType x (Some n)) with (powerUsageType sl (Some n)) at 1.
    destruct (adjustBand (priority sl) _ _ s1) as [s2|] eqn:H2; simpl; [|done].
    change (powerUsageType sl (Some n)) with (powerUsageType x (Some n)).
    change newPriority with (priority x) at 1.
    destruct (adjustBand (priority x) _ _ s2) as [s3|] eqn:H3; simpl; [|done].
    destruct (updatePower s3) as [s4|] eqn:H4; simpl; [|done].
    intros [= <- _].
    destruct (adjustBand_frame _ _ _ _ _ H2) as (Hb2 & Ht2 & Hd2 & Ha2 & Hr2 & Hp2 & _ & Hl2).
    destruct (adjustBand_frame _ _ _ _ _ H3) as (Hb3 & Ht3 & Hd3 & Ha3 & Hr3 & Hp3 & Hk3 & Hl3).
    change (powerUsageType x (Some n)) with (powerUsageType sl (Some n)) in H2.
    apply (adjustBand_delta (-1)) in H2 as (_ & _ & Hdelta2); [|done|lia].
    apply (adjustBand_delta 1) in H3 as (_ & _ & Hdelta3); [|done|lia].
    destruct (updatePower_sums _ _ H4) as [Hraw4 Hsum4].
    pose proof (updatePower_base _ _ H4) as Hb4.
    pose proof (updatePower_tally _ _ H4) as Ht4.
    pose proof (updatePower_derived _ _ H4) as Hd4.
    pose proof (updatePower_length _ _ H4) as Hl4.
    assert (sameBase s1 s4) as Hb14.
    { eapply sameBase_trans; [exact Hb2|]. by eapply sameBase_trans. }
    assert (sameTally s s4) as Ht04.
    { eapply sameTally_trans; [exact Ht1|]. eapply sameTally_trans; [exact Ht2|].
      by eapply sameTally_trans. }
    assert (sameDerived s s4) as Hd04.
    { eapply sameDerived_trans; [exact Hd1|]. eapply sameDerived_trans; [exact Hd2|].
      by eapply sameDerived_trans. }
    assert (remounted (priorityBands s) (priorityBands s4) sl x) as Hrem.
    { eapply remounted_rawEq; [|exact Hraw4].
      destruct Hp1 as [Hbands1 _ _ _]. rewrite <- Hbands1.
      by eapply (remounted_deltas _ _ _ sl x n). }
    split; [by eapply Shaped_ext|]. split; [|split].
    + constructor; [by eapply (Metered_remounted s s4 r sl x)|done|].
      eapply (Tiered_edit s s4 r sl x); [done|done|by destruct Hrem|done| |done].
      intros _ _ _. right. eapply bandAt_is_Some_length; [|exact Hk3]. congruence.
    + eapply (Tallied_edit s s4 r sl x); done.
    + apply Hder'; [done|by apply sameTally_load|done].
  - intros [= <- _].
    split; [done|]. split; [|split].
    + constructor.
      * eapply (Metered_remounted s s1 r sl x); [done|done|apply sameBase_refl| |done].
        unfold s1. destruct Hp1 as [-> _ _ _]. apply remounted_same.
        intros i u. by apply drawOf_priority_disabled.
      * eapply (Summed_edit s); [|done|done]. intros k. by eapply setSlot_standard_c.
      * eapply (Tiered_edit s s1 r sl x);
          [done|apply sameBase_refl|unfold s1; by rewrite (same_priorityBands _ _ Hp1)
          |done| |done].
        intros _ Hx. simpl in Hx. congruence.
    + eapply (Tallied_edit s s1 r sl x); [done|apply sameBase_refl|done..].
    + apply Hder'; [apply sameBase_refl|by apply sameTally_load|done].
Qed.

(** *** Enabling and disabling a slot *)

Lemma sameRanges_trans s1 s2 s3 : sameRanges s1 s2 → sameRanges s2 s3 → sameRanges s1 s3.
Proof. intros [] []. constructor; congruence. Qed.

Lemma Derived_rebase s s' :
  sameRanges s s' →
  (∀ k, c <$> standard s' !! k = c <$> standard s !! k) →
  Derived s →
  shieldStrength s' = shieldStrength (updateShieldStrength s') →
  Derived s'.
Proof.
  intros [] Hstd [Hspeed Hjump _] Hshield.
  constructor; [| |done].
  - intros th' Hth'. pose proof (Hstd 1%nat) as H1. rewrite Hth' in H1.
    destruct (standard s !! 1%nat) as [th|] eqn:Hth; [|done].
    injection H1 as H1. rewrite H1, ranges_props0, ranges_topSpeed0, ranges_topBoost0,
      ranges_unladenMass0, ranges_fuelCapacity0. by apply Hspeed.
  - intros sl' fsd Hsl' Hfsd. pose proof (Hstd 2%nat) as H2. rewrite Hsl' in H2.
    destruct (standard s !! 2%nat) as [sl|] eqn:Hsl; [|done].
    injection H2 as H2. rewrite Hfsd in H2.
    rewrite ranges_unladenRange0, ranges_fullTankRange0, ranges_ladenRange0,
      ranges_unladenTotalRange0, ranges_ladenTotalRange0, ranges_maxJumpCount0,
      ranges_unladenMass0, ranges_fuelCapacity0, ranges_cargoCapacity0,
      ranges_ladenMass0.
    by apply (Hjump sl).
Qed.

Lemma grpIs_clash n a b : grpIs n a = true → grpIs n b = true → a = b.
Proof. unfold grpIs. intros Ha%String.eqb_eq Hb%String.eqb_eq. congruence. Qed.

(** The component of a slot of a group, or of the cargo hatch, of a
    well formed ship is one the catalogue calls sane. *)
Lemma slot_sane s r sl n :
  SaneCatalogue → Shaped s → powered r → getSlot s r = Some sl → c sl = Some n →
  sane n ∧ (r = RCargoHatch → grpIs n "sb" = false ∧ dps n = 0).
Proof.
  intros [Hstd Hhp Hint Hhatch] [Hslots [Hc _] _ _ _ _] Hr Hsl Hn.
  destruct r as [| | |k|k|k]; try done.
  - simpl in Hsl. injection Hsl as <-. rewrite Hc in Hn. injection Hn as <-.
    split; [|done]. intros Hd. by destruct Hhatch as [_ Hz].
  - destruct (Hslots (RStandard k) sl I Hsl) as [_ Hcomp _ _]. rewrite Hn in Hcomp.
    destruct (id sl) as [i|]; [|done]. split; [by eapply Hstd|done].
  - destruct (Hslots (RHardpoint k) sl I Hsl) as [_ Hcomp _ _]. rewrite Hn in Hcomp.
    destruct (id sl) as [i|]; [|done]. split; [by eapply Hhp|done].
  - destruct (Hslots (RInternal k) sl I Hsl) as [_ Hcomp _ _]. rewrite Hn in Hcomp.
    destruct (id sl) as [i|]; [|done]. split; [by eapply Hint|done].
Qed.

Lemma toggleStats_spec n sign s2 :
  let s3 := toggleStats n sign s2 in
  sameBase s2 s3 ∧ samePower s2 s3 ∧ sameRanges s2 s3
  ∧ fuelCapacity s3 = fuelCapacity s2 ∧ cargoCapacity s3 = cargoCapacity s2
  ∧ armourAdded s3 = armourAdded s2 ∧ totalCost s3 = totalCost s2
  ∧ unladenMass s3 = unladenMass s2 ∧ ladenMass s3 = ladenMass s2
  ∧ armourMultiplier s3 = armourMultiplier s2 ∧ armour s3 = armour s2
  ∧ shieldMultiplier s3
    = shieldMultiplier s2
      + (if grpIs n "sg" || grpIs n "psg" then 0
         else if grpIs n "sb" then shieldmul n * sign else 0)
  ∧ totalDps s3
    = totalDps s2
      + (if grpIs n "sg" || grpIs n "psg" then 0
         else if grpIs n "sb" then 0
         else if truthy (dps n) then dps n * sign else 0)
  ∧ (if grpIs n "sg" || grpIs n "psg" || grpIs n "sb"
     then shieldStrength s3 = shieldStrength (updateShieldStrength s3)
     else shieldStrength s3 = shieldStrength s2).
Proof.
  unfold toggleStats.
  destruct (grpIs n "sg"), (grpIs n "psg"), (grpIs n "sb"), (truthy (dps n)); simpl;
    (split; [by constructor|]); (split; [by constructor|]); (split; [by constructor|]);
    repeat split; lia.
Qed.

(** Local definitions are kept as names. *)
Ltac forget_bodies := repeat match goal with v := _ |- _ => clearbody v end.

Lemma setSlotEnabled_step s r en s' :
  powered r →
  Shaped s → Supplied s → Tallied s → Derived s →
  setSlotEnabled s r en = Some s' →
  Shaped s' ∧ Supplied s' ∧ Tallied s' ∧ Derived s'.
Proof.
  intros Hr Hshape Hsup Htal Hder. unfold setSlotEnabled.
  destruct (getSlot s r) as [sl|] eqn:Hsl; simpl; [|done].
  case_bool_decide as Hen; [by intros [= <-]|].
  set (x := set_enabled en sl). set (s1 := setSlot r x s).
  assert (r ≠ RShip ∧ r ≠ RBulkheads) as [Hns Hnb] by (by destruct r).
  assert (sameFittings sl x) as Hfit by (by constructor).
  assert (Shaped s1) as Hshape1 by (by eapply Shaped_edit).
  pose proof (setSlot_tally r x s) as Ht1. pose proof (setSlot_power r x s) as Hp1.
  pose proof (setSlot_derived r x s) as Hd1.
  destruct (setSlot_fields r x s) as (_ & Hprops & Hbid & _ & Hccm).
  pose proof Hsup as [Hraw Hsums Htiers].
  assert (enabled sl = negb en) as Hen'.
  { destruct (enabled sl), en; done. }
  change (c x) with (c sl).
  destruct (c sl) as [n|] eqn:Hn.
  - destruct (adjustBand _ _ _ _) as [s2|] eqn:H2; simpl; [|done].
    change (if grpIs n "sg" || grpIs n "psg" then updateShieldStrength s2 else _)
      with (toggleStats n (if en then 1 else -1) s2).
    set (s3 := toggleStats n (if en then 1 else -1) s2). intros H4.
    destruct (adjustBand_frame _ _ _ _ _ H2) as (Hb2 & Ht2 & Hd2 & Ha2 & Hr2 & Hp2 & Hk2 & Hl2).
    pose proof (toggleStats_spec n (if en then 1 else -1) s2) as T. cbv zeta in T.
    fold s3 in T.
    destruct T as (Hb3 & Hp3 & Hrg3 & Ff & Fc & Fa & Ft & Fm & Fl & Fam & Far & Fs & Fd & Fsh).
    destruct (updatePower_sums _ _ H4) as [Hraw4 Hsum4].
    pose proof (updatePower_base _ _ H4) as Hb4.
    pose proof (updatePower_tally _ _ H4) as Ht4.
    pose proof (updatePower_derived _ _ H4) as Hd4.
    assert (sameBase s1 s') as Hb14.
    { eapply sameBase_trans; [exact Hb2|]. by eapply sameBase_trans. }
    assert (remounted (priorityBands s) (priorityBands s') sl x) as Hrem.
    { eapply remounted_rawEq; [|exact Hraw4].
      rewrite (same_priorityBands _ _ Hp3).
      destruct Hp1 as [Hbands1 _ _ _]. rewrite <- Hbands1.
      destruct en.
      - apply (adjustBand_delta 1 _ x n) in H2 as (_ & _ & Hdelta); [|done|lia].
        by eapply (remounted_in _ _ sl x n).
      - apply (adjustBand_delta (-1) _ sl n) in H2 as (_ & _ & Hdelta); [|done|lia].
        by eapply (remounted_out _ _ sl x n). }
    pose proof Hb14 as []. pose proof Ht4 as []. pose proof Ht2 as []. pose proof Ht1 as [].
    split; [by eapply Shaped_ext|]. split; [|split].
    all: unfold s1 in *.
    + constructor; [by eapply (Metered_remounted s s' r sl x)|done|].
      eapply (Tiered_edit s s' r sl x); [done|done|by destruct Hrem|done| |done].
      intros _ _ _. right. eapply bandAt_is_Some_length; [|exact Hk2].
      rewrite (proj1 Hrem). unfold s1. by rewrite (same_priorityBands _ _ Hp1).
    + destruct Htal as [[Hfuel Hcargo Harm Hsh Hcost Hmass Hdps] Hl Hm Ha].
      assert (shipC (setSlot r x s) = shipC s) as HshipC by (by destruct r).
      constructor; [constructor|..]; rewrite ?(sameBase_overSlots _ _ _ Hb14),
        ?same_props0, ?same_bulkheadsId0, ?same_componentCostMultiplier0,
        ?same_shipC0, ?HshipC, ?Hprops, ?Hbid, ?Hccm.
      * rewrite (overSlots_edit _ s r sl x); [|done|by unfold fuelOf]. forget_bodies; lia.
      * rewrite (overSlots_edit _ s r sl x); [|done|by unfold cargoOf]. forget_bodies; lia.
      * rewrite (overSlots_edit _ s r sl x); [|done|by unfold armourOf]. forget_bodies; lia.
      * intros Hsane. specialize (Hsh Hsane).
        destruct (slot_sane s r sl n Hsane Hshape Hr Hsl Hn) as [Hsn Hhatch].
        rewrite same_shieldMultiplier0, Fs, same_shieldMultiplier1, same_shieldMultiplier2.
        destruct (decide (r = RCargoHatch)) as [->|Hnh].
        -- destruct (Hhatch eq_refl) as [Hsb _]. rewrite Hsb.
           change (overSlots shieldOf (setSlot RCargoHatch x s)) with (overSlots shieldOf s).
           rewrite Hsh. by destruct (grpIs n "sg" || grpIs n "psg"); lia.
        -- rewrite (overSlots_setSlot _ s r sl x) by done. rewrite Hsh.
           unfold shieldOf, shieldOfC. change (c x) with (c sl). rewrite Hn.
           change (enabled x) with en. rewrite Hen'.
           destruct (grpIs n "sg") eqn:Gsg, (grpIs n "psg") eqn:Gpsg,
             (grpIs n "sb") eqn:Gsb, (grpIs n "ft") eqn:Gft, (grpIs n "cr") eqn:Gcr,
             (grpIs n "hr") eqn:Ghr;
             try (by pose proof (grpIs_clash _ _ _ Gsg Gsb));
             try (by pose proof (grpIs_clash _ _ _ Gpsg Gsb));
             try (by pose proof (grpIs_clash _ _ _ Gsb Gft));
             try (by pose proof (grpIs_clash _ _ _ Gsb Gcr));
             try (by pose proof (grpIs_clash _ _ _ Gsb Ghr));
             destruct en; simpl; forget_bodies; lia.
      * rewrite (overSlots_edit _ s r sl x); [|done|by unfold costOf]. forget_bodies; lia.
      * rewrite (overSlots_edit _ s r sl x); [|done|by unfold massOf]. forget_bodies; lia.
      * intros Hsane. specialize (Hdps Hsane).
        destruct (slot_sane s r sl n Hsane Hshape Hr Hsl Hn) as [Hsn Hhatch].
        rewrite same_totalDps0, Fd, same_totalDps1, same_totalDps2.
        assert (dps n = 0 ∨ (truthy (dps n) = true ∧ truthy (power n) = true
                             ∧ grpIs n "sg" = false ∧ grpIs n "psg" = false
                             ∧ grpIs n "sb" = false ∧ r ≠ RCargoHatch)) as Hcases.
        { destruct (decide (dps n = 0)) as [Hz|Hnz]; [by left|right].
          destruct (Hsn Hnz) as (Hpw & Hsg & Hpsg & Hsb).
          unfold truthy. destruct (Z.eqb_spec (dps n) 0); [done|].
          destruct (Z.eqb_spec (power n) 0); [done|].
          repeat split; try done. intros ->. by destruct (Hhatch eq_refl). }
        destruct Hcases as [Hz|(Hd & Hpw & Hsg & Hpsg & Hsb & Hnh)].
        -- assert (overSlots dpsOf (setSlot r x s) = overSlots dpsOf s) as ->.
           { apply (overSlots_edit _ s r sl x); [done|]. unfold dpsOf, dpsOfC.
             change (c x) with (c sl). rewrite Hn, Hz. by repeat case_match. }
           rewrite Hz. assert (truthy 0 = false) as -> by done.
           rewrite Hdps. repeat case_match; lia.
        -- rewrite (overSlots_setSlot _ s r sl x) by done. rewrite Hdps.
           unfold dpsOf, dpsOfC. change (c x) with (c sl). rewrite Hn.
           change (enabled x) with en. rewrite Hen', Hsg, Hpsg, Hsb, Hd, Hpw.
           destruct en; simpl; forget_bodies; lia.
      * forget_bodies; lia.
      * forget_bodies; congruence.
      * forget_bodies.
        rewrite same_armour0, Far, same_armour1, same_armour2, same_armourAdded0, Fa,
          same_armourAdded1, same_armourAdded2, same_armourMultiplier0, Fam,
          same_armourMultiplier1, same_armourMultiplier2.
        exact Ha.
    + assert (sameRanges s s') as Hrg.
      { assert (sameRanges s (setSlot r x s)) as R1 by (by destruct r).
        assert (sameRanges (setSlot r x s) s2) as R2.
        { destruct Ht2, Hd2, Hb2. by constructor. }
        assert (sameRanges s3 s') as R4.
        { destruct Ht4, Hd4, Hb4. by constructor. }
        eapply sameRanges_trans; [exact R1|]. eapply sameRanges_trans; [exact R2|].
        by eapply sameRanges_trans. }
      apply (Derived_rebase s s' Hrg); [|done|].
      { intros k. rewrite same_standard0. by eapply setSlot_standard_c. }
      destruct Hd4 as [_ _ Hss4 _ _ _ _ _ _]. destruct Hb4 as [_ Hpr4 _ _ _ _ _ _ Hin4 _ _].
      destruct (grpIs n "sg" || grpIs n "psg" || grpIs n "sb") eqn:Hflag.
      * rewrite Hss4, Fsh. symmetry. apply shieldStrength_ext; [|done|done].
        rewrite Hin4. apply Forall2_same_length_lookup. split; [done|].
        intros k a b -> [= <-]. apply shieldAlike_refl.
      * apply orb_false_iff in Hflag as [Hflag Hsb].
        rewrite Hss4, Fsh. destruct Hd2 as [_ _ -> _ _ _ _ _ _].
        destruct Hd1 as [_ _ -> _ _ _ _ _ _]. rewrite (derived_shield _ Hder).
        symmetry. apply shieldStrength_ext.
        -- rewrite same_internal0. eapply setSlot_internal_alike; [done|].
           split; [done|]. unfold holdsGroup. rewrite Hn. simpl. by rewrite Hflag.
        -- rewrite same_props0. exact Hprops.
        -- rewrite same_shieldMultiplier0, Fs, same_shieldMultiplier1,
             same_shieldMultiplier2, Hflag, Hsb. lia.
  - intros [= <-].
    assert (∀ i u, drawOf i u x = drawOf i u sl) as Hdraw.
    { intros i u. unfold drawOf. change (c x) with (c sl). by rewrite Hn. }
    split; [done|]. split; [|split].
    + constructor.
      * eapply (Metered_remounted s s1 r sl x); [done|done|apply sameBase_refl| |done].
        unfold s1. rewrite (same_priorityBands _ _ Hp1). by apply remounted_same.
      * eapply (Summed_edit s); [|done|done]. intros k. by eapply setSlot_standard_c.
      * eapply (Tiered_edit s s1 r sl x);
          [done|apply sameBase_refl|unfold s1; by rewrite (same_priorityBands _ _ Hp1)
          |done| |done].
        intros _ _ [m Hm]. change (c x) with (c sl) in Hm. congruence.
    + destruct Htal as [[Hfuel Hcargo Harm Hsh Hcost Hmass Hdps] Hl Hm Ha].
      destruct Ht1.
      assert (shipC (setSlot r x s) = shipC s) as HshipC by (by destruct r).
      assert (∀ f, f x = f sl → overSlots f s1 = overSlots f s) as Hover.
      { intros f Hf. by apply (overSlots_edit _ s r sl x). }
      constructor; [constructor|..]; unfold s1 in *;
        rewrite ?HshipC, ?Hprops, ?Hbid, ?Hccm.
      * rewrite Hover; [congruence|by unfold fuelOf].
      * rewrite Hover; [congruence|by unfold cargoOf].
      * rewrite Hover; [congruence|by unfold armourOf].
      * intros Hsane. specialize (Hsh Hsane).
        rewrite Hover; [congruence|]. unfold shieldOf. change (c x) with (c sl).
        by rewrite Hn.
      * rewrite Hover; [congruence|by unfold costOf].
      * rewrite Hover; [congruence|by unfold massOf].
      * intros Hsane. specialize (Hdps Hsane).
        rewrite Hover; [congruence|]. unfold dpsOf. change (c x) with (c sl).
        by rewrite Hn.
      * congruence.
      * congruence.
      * congruence.
    + eapply (Derived_rebase s s1); [by destruct r| |done|].
      * intros k. by eapply setSlot_standard_c.
      * destruct Hd1 as [_ _ Hss _ _ _ _ _ _]. unfold s1. rewrite Hss.
        rewrite (derived_shield _ Hder). symmetry. apply shieldStrength_ext.
        -- eapply setSlot_internal_alike; [done|]. split; [done|].
           unfold holdsGroup. by rewrite Hn.
        -- exact Hprops.
        -- by destruct Ht1.
Qed.

End Steps.

(** *** Applying discounts *)

Section Discounts.
Context `{Collaborators}.

Lemma sumOver_app f s l1 l2 : sumOver f s (l1 ++ l2) = sumOver f s l1 + sumOver f s l2.
Proof. unfold sumOver. induction l1 as [|r l1 IH]; simpl; lia. Qed.

Lemma total_lookup_seq f l :
  foldr (λ i acc, default 0 (f <$> l !! i) + acc) 0 (seq 0 (length l)) = total f l.
Proof.
  induction l as [|x l IH]; simpl; [done|].
  rewrite <- fmap_S_seq, foldr_fmap. simpl. by rewrite IH.
Qed.

Lemma sumOver_group f s (mk : nat → SlotRef) l :
  (∀ i, getSlot s (mk i) = l !! i) →
  sumOver f s (mk <$> seq 0 (length l)) = total f l.
Proof.
  intros Hmk. unfold sumOver. rewrite foldr_fmap. rewrite <- total_lookup_seq.
  apply foldr_ext; [|done..]. intros i acc. by rewrite Hmk.
Qed.

Lemma sumOver_costList f s :
  sumOver f s (costList s) = f (shipC s) + overSlots f s.
Proof.
  unfold costList, overSlots. change (RShip :: ?l) with ([RShip] ++ l).
  rewrite !sumOver_app.
  rewrite (sumOver_group f s RInternal (internal s)) by done.
  rewrite (sumOver_group f s RStandard (standard s)) by done.
  rewrite (sumOver_group f s RHardpoint (hardpoints s)) by done.
  unfold sumOver. simpl. lia.
Qed.

Lemma NoDup_costList s : NoDup (costList s).
Proof.
  unfold costList.
  assert (∀ (mk : nat → SlotRef) n, Inj (=) (=) mk → NoDup (mk <$> seq 0 n)) as Hg.
  { intros mk n Hinj. apply NoDup_fmap_2; [done|apply NoDup_seq]. }
  apply NoDup_cons. split.
  { rewrite !elem_of_app, !list_elem_of_fmap, list_elem_of_singleton.
    intros [(? & ? & _)|[(? & ? & _)|[(? & ? & _)|?]]]; done. }
  apply NoDup_app. split; [apply Hg; by intros ?? [=]|]. split.
  { intros r (i & -> & _)%list_elem_of_fmap.
    rewrite !elem_of_app, !list_elem_of_fmap, list_elem_of_singleton.
    intros [(? & ? & _)|[(? & ? & _)|?]]; done. }
  apply NoDup_app. split; [apply Hg; by intros ?? [=]|]. split.
  { intros r (i & -> & _)%list_elem_of_fmap.
    rewrite !elem_of_app, !list_elem_of_fmap, list_elem_of_singleton.
    intros [(? & ? & _)|?]; done. }
  apply NoDup_app. split; [apply Hg; by intros ?? [=]|]. split.
  { intros r (i & -> & _)%list_elem_of_fmap.
    rewrite list_elem_of_singleton. done. }
  apply NoDup_singleton.
Qed.

Lemma sameRest_setSlot s s' r x : sameRest s s' → sameRest s (setSlot r x s').
Proof.
  intros [? ? ? ? ? [] [] []]. destruct r; constructor; try done; by constructor.
Qed.

Lemma applyDiscountsItem_slots m1 m2 acc r item r' :
  getSlot acc.1 r = Some item →
  getSlot (applyDiscountsItem m1 m2 acc r).1 r'
  = if decide (r = r') then Some (reprice m1 m2 item) else getSlot acc.1 r'.
Proof.
  intros Hitem. unfold applyDiscountsItem, reprice. rewrite Hitem.
  destruct (c item) as [n|] eqn:Hn.
  - destruct (truthy (cost n)) eqn:Hc.
    + simpl. by apply (getSlot_setSlot _ _ _ item).
    + case_decide; [by subst r'|done].
  - case_decide; [by subst r'|done].
Qed.

Lemma applyDiscountsItem_total m1 m2 acc r item :
  getSlot acc.1 r = Some item →
  (applyDiscountsItem m1 m2 acc r).2 = acc.2 + billed m1 m2 item.
Proof.
  intros Hitem. unfold applyDiscountsItem, billed. rewrite Hitem.
  destruct (c item) as [n|]; [|lia]. destruct (truthy (cost n)); simpl; [|lia].
  destruct (incCost item); simpl; lia.
Qed.

Lemma applyDiscountsItem_rest m1 m2 s acc r :
  sameRest s acc.1 → sameRest s (applyDiscountsItem m1 m2 acc r).1.
Proof.
  intros Hrest. unfold applyDiscountsItem.
  destruct (getSlot acc.1 r) as [item|]; [|done].
  destruct (c item) as [n|]; [|done]. destruct (truthy (cost n)); [|done].
  simpl. by apply sameRest_setSlot.
Qed.

Lemma applyDiscountsItem_skip m1 m2 acc r :
  getSlot acc.1 r = None → applyDiscountsItem m1 m2 acc r = acc.
Proof. intros Hitem. unfold applyDiscountsItem. by rewrite Hitem. Qed.

(** The loop of [applyDiscounts] over a part [l] of the cost list, after
    the references [seen]. *)
Lemma applyDiscounts_loop m1 m2 s l : ∀ seen acc,
  NoDup (seen ++ l) →
  sameRest s acc.1 →
  (∀ r, getSlot acc.1 r
        = if decide (r ∈ seen) then reprice m1 m2 <$> getSlot s r else getSlot s r) →
  acc.2 = sumOver (billed m1 m2) s seen →
  let acc' := foldl (applyDiscountsItem m1 m2) acc l in
  sameRest s acc'.1
  ∧ (∀ r, getSlot acc'.1 r
          = if decide (r ∈ seen ++ l) then reprice m1 m2 <$> getSlot s r
            else getSlot s r)
  ∧ acc'.2 = sumOver (billed m1 m2) s (seen ++ l).
Proof.
  induction l as [|r l IH]; intros seen acc Hnd Hrest Hslots Htotal; simpl.
  { rewrite app_nil_r. done. }
  replace (seen ++ r :: l) with ((seen ++ [r]) ++ l) in * by (by rewrite <- app_assoc).
  assert (r ∉ seen) as Hr.
  { apply NoDup_app in Hnd as [Hnd _]. apply NoDup_app in Hnd as (_ & Hd & _).
    intros Hin. apply (Hd r Hin). by apply list_elem_of_singleton. }
  pose proof (Hslots r) as Hcur. rewrite decide_False in Hcur by done.
  assert (r ∈ seen ++ [r]) as Hlast.
  { apply elem_of_app. right. by apply list_elem_of_singleton. }
  assert (∀ r', r' ∈ seen → r' ∈ seen ++ [r]) as Hseen.
  { intros r' Hin. apply elem_of_app. by left. }
  assert (∀ r', r' ≠ r → r' ∉ seen → r' ∉ seen ++ [r]) as Hnew.
  { intros r' Hne Hout [Hin|Hin%list_elem_of_singleton]%elem_of_app; done. }
  apply IH; [done|by apply applyDiscountsItem_rest|..].
  - intros r'. destruct (getSlot s r) as [item|] eqn:Hitem.
    + rewrite (applyDiscountsItem_slots _ _ _ _ item) by done.
      rewrite Hslots. destruct (decide (r = r')) as [<-|Hne].
      * rewrite decide_True by done. by rewrite Hitem.
      * destruct (decide (r' ∈ seen)).
        -- by rewrite decide_True by (by apply Hseen).
        -- by rewrite decide_False by (by apply Hnew).
    + rewrite applyDiscountsItem_skip by done.
      rewrite Hslots. destruct (decide (r' ∈ seen)).
      * by rewrite decide_True by (by apply Hseen).
      * destruct (decide (r' = r)) as [->|Hne].
        -- rewrite decide_True by done. by rewrite Hitem.
        -- by rewrite decide_False by (by apply Hnew).
  - rewrite sumOver_app. unfold sumOver at 2. simpl.
    destruct (getSlot s r) as [item|] eqn:Hitem; simpl.
    + rewrite (applyDiscountsItem_total _ _ _ _ item) by done. lia.
    + rewrite applyDiscountsItem_skip by done. lia.
Qed.

(** [applyDiscounts] reprices every slot of the cost list and bills the
    included ones. *)
Lemma applyDiscounts_spec s m1 m2 :
  let s' := applyDiscounts s m1 m2 in
  shipC s' = reprice m1 m2 (shipC s)
  ∧ bulkheads s' = reprice m1 m2 (bulkheads s)
  ∧ standard s' = reprice m1 m2 <$> standard s
  ∧ hardpoints s' = reprice m1 m2 <$> hardpoints s
  ∧ internal s' = reprice m1 m2 <$> internal s
  ∧ cargoHatch s' = cargoHatch s
  ∧ shipCostMultiplier s' = m1 ∧ componentCostMultiplier s' = m2
  ∧ totalCost s' = billed m1 m2 (shipC s) + overSlots (billed m1 m2) s
  ∧ shipId s' = shipId s ∧ props s' = props s ∧ bulkheadsId s' = bulkheadsId s
  ∧ samePower s s' ∧ sameDerived s s'
  ∧ fuelCapacity s' = fuelCapacity s ∧ cargoCapacity s' = cargoCapacity s
  ∧ ladenMass s' = ladenMass s ∧ armourAdded s' = armourAdded s
  ∧ armourMultiplier s' = armourMultiplier s ∧ shieldMultiplier s' = shieldMultiplier s
  ∧ unladenMass s' = unladenMass s ∧ totalDps s' = totalDps s ∧ armour s' = armour s.
Proof.
  unfold applyDiscounts.
  destruct (applyDiscounts_loop m1 m2 s (costList s) [] (s, 0)) as (Hrest & Hslots & Htotal).
  { apply NoDup_costList. }
  { constructor; try done; by constructor. }
  { intros r. rewrite decide_False; [done|]. by intros ?%elem_of_nil. }
  { done. }
  change ([] ++ costList s) with (costList s) in *.
  destruct (foldl (applyDiscountsItem m1 m2) (s, 0) (costList s)) as [s1 total'].
  cbn [fst snd] in *. rewrite sumOver_costList in Htotal.
  assert (∀ r, r ≠ RCargoHatch → getSlot s1 r = reprice m1 m2 <$> getSlot s r) as Hall.
  { intros r Hr. rewrite Hslots. case_decide as Hin; [done|].
    destruct (getSlot s r) as [item|] eqn:Hitem; [|done]. exfalso. apply Hin.
    unfold costList. destruct r as [| | |k|k|k]; try done.
    - apply elem_of_cons. by left.
    - rewrite elem_of_cons, !elem_of_app, list_elem_of_singleton. by do 4 right.
    - apply lookup_lt_Some in Hitem. rewrite elem_of_cons, !elem_of_app. right. right. left.
      apply list_elem_of_fmap. exists k. split; [done|]. apply elem_of_seq. simpl in *. lia.
    - apply lookup_lt_Some in Hitem. rewrite elem_of_cons, !elem_of_app. do 3 right. left.
      apply list_elem_of_fmap. exists k. split; [done|]. apply elem_of_seq. simpl in *. lia.
    - apply lookup_lt_Some in Hitem. rewrite elem_of_cons, !elem_of_app. right. left.
      apply list_elem_of_fmap. exists k. split; [done|]. apply elem_of_seq. simpl in *. lia. }
  destruct Hrest as [? ? ? ? ? [] ? ?].
  pose proof (Hall RShip ltac:(done)) as Hship. simpl in Hship. injection Hship as Hship.
  pose proof (Hall RBulkheads ltac:(done)) as Hbulk. simpl in Hbulk. injection Hbulk as Hbulk.
  assert (standard s1 = reprice m1 m2 <$> standard s) as Hstd.
  { apply list_eq. intros k. rewrite list_lookup_fmap. by apply (Hall (RStandard k)). }
  assert (hardpoints s1 = reprice m1 m2 <$> hardpoints s) as Hhp.
  { apply list_eq. intros k. rewrite list_lookup_fmap. by apply (Hall (RHardpoint k)). }
  assert (internal s1 = reprice m1 m2 <$> internal s) as Hint.
  { apply list_eq. intros k. rewrite list_lookup_fmap. by apply (Hall (RInternal k)). }
  pose proof (Hslots RCargoHatch) as Hhatch. rewrite decide_False in Hhatch.
  2:{ unfold costList. rewrite elem_of_cons, !elem_of_app, !list_elem_of_fmap,
        list_elem_of_singleton.
      intros [?|[(? & ? & _)|[(? & ? & _)|[(? & ? & _)|?]]]]; done. }
  simpl in Hhatch. injection Hhatch as Hhatch.
  simpl. rewrite Htotal.
  destruct rest_power0, rest_derived0.
  repeat match goal with |- _ ∧ _ => split end; try done.
Qed.

Lemma reprice_fittings m1 m2 sl :
  id (reprice m1 m2 sl) = id sl ∧ c (reprice m1 m2 sl) = c sl
  ∧ incCost (reprice m1 m2 sl) = incCost sl ∧ maxClass (reprice m1 m2 sl) = maxClass sl
  ∧ cat (reprice m1 m2 sl) = cat sl ∧ enabled (reprice m1 m2 sl) = enabled sl
  ∧ priority (reprice m1 m2 sl) = priority sl ∧ type (reprice m1 m2 sl) = type sl.
Proof.
  unfold reprice. destruct sl as [? [n|] ? ? ? ? ? ? ?]; simpl; [|done].
  by destruct (truthy (cost n)).
Qed.

Lemma reprice_price m1 m2 sl m :
  discountedCost sl = priceOf (c sl) * m →
  discountedCost (reprice m1 m2 sl)
  = priceOf (c sl) * (match type sl with SHIP => m1 | _ => m2 end).
Proof.
  unfold reprice. destruct sl as [? [n|] ? ? ? ? ? ? ?]; simpl; [|lia].
  destruct (truthy (cost n)) eqn:Hc; simpl; [done|].
  apply truthy_false in Hc. rewrite Hc. lia.
Qed.

Lemma total_fmap f (g : Slot → Slot) l : total f (g <$> l) = total (f ∘ g) l.
Proof. unfold total. by rewrite foldr_fmap. Qed.

Lemma overSlots_ext_in f g s :
  (∀ r sl, r ≠ RShip → r ≠ RCargoHatch → getSlot s r = Some sl → f sl = g sl) →
  overSlots f s = overSlots g s.
Proof.
  intros Hfg. unfold overSlots.
  rewrite (Hfg RBulkheads (bulkheads s)) by done.
  rewrite (total_ext f g (standard s)), (total_ext f g (hardpoints s)),
    (total_ext f g (internal s)); [done|..].
  - intros sl (k & Hk)%list_elem_of_lookup_1. by apply (Hfg (RInternal k)).
  - intros sl (k & Hk)%list_elem_of_lookup_1. by apply (Hfg (RHardpoint k)).
  - intros sl (k & Hk)%list_elem_of_lookup_1. by apply (Hfg (RStandard k)).
Qed.

Lemma overSlots_repriced f s m1 m2 :
  (∀ sl, f (reprice m1 m2 sl) = f sl) →
  overSlots f (applyDiscounts s m1 m2) = overSlots f s.
Proof.
  intros Hf. pose proof (applyDiscounts_spec s m1 m2) as S. cbv zeta in S.
  destruct S as (_ & Hbulk & Hstd & Hhp & Hint & _).
  unfold overSlots. rewrite Hbulk, Hstd, Hhp, Hint, !total_fmap, Hf.
  by rewrite !(total_ext (f ∘ reprice m1 m2) f) by (intros; apply Hf).
Qed.

Lemma getSlot_repriced s m1 m2 r :
  getSlot (applyDiscounts s m1 m2) r
  = if decide (r = RCargoHatch) then getSlot s r else reprice m1 m2 <$> getSlot s r.
Proof.
  pose proof (applyDiscounts_spec s m1 m2) as S. cbv zeta in S.
  destruct S as (Hship & Hbulk & Hstd & Hhp & Hint & Hhatch & _).
  destruct r; simpl; rewrite ?Hship, ?Hbulk, ?Hstd, ?Hhp, ?Hint, ?Hhatch,
    ?list_lookup_fmap; done.
Qed.

(** [applyDiscounts] keeps the ship consistent. *)
Lemma applyDiscounts_step s m1 m2 :
  Shaped s → Supplied s → Tallied s → Derived s →
  Shaped (applyDiscounts s m1 m2) ∧ Supplied (applyDiscounts s m1 m2)
  ∧ Tallied (applyDiscounts s m1 m2) ∧ Derived (applyDiscounts s m1 m2).
Proof.
  intros [Hslots Hhatch Hbulk Hhull Hplant Hfsd] [Hraw Hsums Htiers]
    [[Hfuel Hcargo Harm Hsh Hcost Hmass Hdps] Hl Hm Ha] Hder.
  pose proof (applyDiscounts_spec s m1 m2) as S. cbv zeta in S.
  pose proof (getSlot_repriced s m1 m2) as Hget.
  pose proof (λ f, overSlots_repriced f s m1 m2) as Hover.
  set (s' := applyDiscounts s m1 m2) in *.
  destruct S as (Hship' & Hbulk' & Hstd' & Hhp' & Hint' & Hhatch' & Hscm & Hccm & Htotal
                 & Hid & Hprops & Hbid & Hpow & Hsd & Ff & Fc & Fl & Fa & Fam & Fs
                 & Fm & Fd & Far).
  assert (∀ k, c <$> standard s' !! k = c <$> standard s !! k) as Hstdc.
  { intros k. rewrite Hstd', list_lookup_fmap. destruct (standard s !! k) as [sl|]; [|done].
    simpl. f_equal. apply reprice_fittings. }
  assert (∀ r sl, r ≠ RShip → r ≠ RCargoHatch → getSlot s r = Some sl → type sl ≠ SHIP)
    as Htype.
  { intros r sl Hs Hh Hsl. destruct (decide (r = RBulkheads)) as [->|Hb].
    - simpl in Hsl. injection Hsl as <-. apply Hbulk.
    - assert (installable r) as Hr by (by destruct r).
      destruct (Hslots r sl Hr Hsl) as [_ _ _ Hty]. rewrite Hty.
      destruct r as [| | |[|[|[|?]]]| |]; simpl; try done. by destruct (truthy (maxClass sl)). }
  split; [|split; [|split]].
  - constructor.
    + intros r sl' Hr. rewrite Hget, decide_False by (by destruct r).
      destruct (getSlot s r) as [sl|] eqn:Hsl; [|done]. intros [= <-].
      destruct (Hslots r sl Hr Hsl) as [Hcat Hc Hprice Hty].
      destruct (reprice_fittings m1 m2 sl) as (Rid & Rc & _ & Rmax & Rcat & _ & _ & Rty).
      constructor; rewrite ?Rcat, ?Rc, ?Rid, ?Rty; try done.
      * rewrite Hccm, (reprice_price _ _ _ _ Hprice).
        assert (type sl ≠ SHIP) as Hn by (apply (Htype r); by destruct r).
        by destruct (type sl).
      * rewrite Hty. destruct r as [| | |[|[|[|?]]]| |]; simpl; try done. by rewrite Rmax.
    + by rewrite Hhatch'.
    + destruct Hbulk as (Hbc & Hbsome & Hben & Hbcat & Hbty & Hbprice).
      destruct (reprice_fittings m1 m2 (bulkheads s)) as (Rid & Rc & _ & Rmax & Rcat & Ren & _ & Rty).
      rewrite Hbulk', Hid, Hbid, Hccm, Rc, Ren, Rcat, Rty.
      repeat split; try done. rewrite (reprice_price _ _ _ _ Hbprice).
      by destruct (type (bulkheads s)).
    + destruct Hhull as (Hty & Hsome & Hprice).
      destruct (reprice_fittings m1 m2 (shipC s)) as (Rid & Rc & _ & Rmax & Rcat & Ren & _ & Rty).
      rewrite Hship', Hscm, Rc, Rty. repeat split; try done.
      rewrite (reprice_price _ _ _ _ Hprice). by rewrite Hty.
    + destruct Hplant as (pp & plant & Hpp & Hplant). pose proof (Hstdc 0%nat) as H0.
      rewrite Hpp in H0. destruct (standard s' !! 0%nat) as [pp'|]; [|done].
      injection H0 as H0. exists pp', plant. by rewrite H0.
    + destruct Hfsd as (fs & fsd & Hfs & Hfsd). pose proof (Hstdc 2%nat) as H2.
      rewrite Hfs in H2. destruct (standard s' !! 2%nat) as [fs'|]; [|done].
      injection H2 as H2. exists fs', fsd. by rewrite H2.
  - constructor.
    + intros i b. rewrite (same_priorityBands _ _ Hpow). intros Hi.
      destruct (Hraw i b Hi) as (Hd & Hr & Ho).
      unfold overPowered. rewrite Hhatch'.
      rewrite !Hover; [done|..]; intros sl; unfold drawOf, drawOfC, powerUsageType, catIs;
        destruct (reprice_fittings m1 m2 sl) as (_ & -> & _ & _ & -> & -> & -> & _); done.
    + by eapply Summed_edit.
    + intros r sl' Hr. rewrite Hget.
      intros Hsl' Hen n Hn Hp. rewrite (same_priorityBands _ _ Hpow).
      case_decide as Hh.
      * eapply (Htiers r sl'); done.
      * destruct (getSlot s r) as [sl|] eqn:Hsl; [|done]. injection Hsl' as <-.
        destruct (reprice_fittings m1 m2 sl) as (_ & Rc & _ & _ & _ & Ren & Rpr & _).
        rewrite Rpr. rewrite Ren in Hen. rewrite Rc in Hn.
        exact (Htiers r sl Hr Hsl Hen n Hn Hp).
  - constructor; [constructor|..]; fold s'.
    + rewrite Hover; [congruence|]. intros sl. unfold fuelOf.
      by destruct (reprice_fittings m1 m2 sl) as (_ & -> & _).
    + rewrite Hover; [congruence|]. intros sl. unfold cargoOf.
      by destruct (reprice_fittings m1 m2 sl) as (_ & -> & _).
    + rewrite Hover; [congruence|]. intros sl. unfold armourOf.
      by destruct (reprice_fittings m1 m2 sl) as (_ & -> & _).
    + intros Hsane. specialize (Hsh Hsane).
      rewrite Hover; [congruence|]. intros sl. unfold shieldOf, shieldOfC.
      by destruct (reprice_fittings m1 m2 sl) as (_ & -> & _ & _ & _ & -> & _).
    + rewrite Htotal, Hccm, Hover.
      2:{ intros sl. unfold costOf, costOfC.
          by destruct (reprice_fittings m1 m2 sl) as (_ & -> & -> & _). }
      destruct Hhull as (Hty & [hull Hhull] & Hprice).
      destruct (reprice_fittings m1 m2 (shipC s)) as (_ & _ & Rinc & _).
      rewrite Hship', Rinc, (reprice_price _ _ _ _ Hprice), Hty, Hhull.
      rewrite (overSlots_ext_in (billed m1 m2) (costOf m2) s).
      * unfold billed. rewrite Hhull, Hty. simpl.
        destruct (truthy (cost hull)) eqn:Hc; simpl; [done|].
        apply truthy_false in Hc. rewrite Hc. by destruct (incCost (shipC s)).
      * intros r sl Hs Hh Hsl. pose proof (Htype r sl Hs Hh Hsl) as Hn.
        unfold billed, costOf, costOfC. destruct (c sl) as [n|]; [|done].
        destruct (truthy (cost n)) eqn:Hc; simpl.
        -- by destruct (type sl), (incCost sl).
        -- apply truthy_false in Hc. rewrite Hc. by destruct (incCost sl).
    + rewrite Hover; [congruence|]. intros sl. unfold massOf.
      by destruct (reprice_fittings m1 m2 sl) as (_ & -> & _).
    + intros Hsane. specialize (Hdps Hsane).
      rewrite Hover; [congruence|]. intros sl. unfold dpsOf, dpsOfC.
      by destruct (reprice_fittings m1 m2 sl) as (_ & -> & _ & _ & _ & -> & _).
    + congruence.
    + congruence.
    + congruence.
  - eapply (Derived_ext s s'); [by constructor|done|done|done| |done].
    rewrite Hint'. apply Forall2_same_length_lookup. split; [by rewrite length_fmap|].
    intros k a b Hka. rewrite list_lookup_fmap, Hka. intros [= <-].
    destruct (reprice_fittings m1 m2 a) as (_ & Rc & _ & _ & _ & Ren & _).
    split; [done|]. by rewrite Ren.
Qed.

End Discounts.

(** *** Building the ship *)

Section Veil.
Context `{Collaborators}.

Lemma veilFrom_lookup k l i :
  veilFrom k l !! i
  = (λ sl, if bool_decide (i < k)%nat then sl else set_c None sl) <$> l !! i.
Proof. unfold veilFrom. by rewrite list_lookup_imap. Qed.

Lemma veilFrom_length k l : length (veilFrom k l) = length l.
Proof. unfold veilFrom. by rewrite length_imap. Qed.

Lemma getSlot_veil p t r :
  getSlot (veil p t) r
  = (λ sl, if visited p r then sl else set_c None sl) <$> getSlot t r.
Proof. destruct r; simpl; rewrite ?veilFrom_lookup; done. Qed.

Lemma veilFrom_insert k l i x :
  (i < k)%nat → veilFrom k (<[i:=x]> l) = <[i:=x]> (veilFrom k l).
Proof.
  intros Hi. apply list_eq. intros j. rewrite veilFrom_lookup.
  destruct (decide (j = i)) as [->|Hne].
  - destruct (decide (i < length l)%nat) as [Hlt|Hge].
    + rewrite !list_lookup_insert_eq by (by rewrite ?veilFrom_length). simpl.
      by rewrite bool_decide_eq_true_2.
    + rewrite !list_insert_ge by (rewrite ?veilFrom_length; lia).
      by rewrite veilFrom_lookup.
  - rewrite !list_lookup_insert_ne by done. by rewrite veilFrom_lookup.
Qed.

Lemma veilFrom_insert_front k l x :
  (k < length l)%nat → veilFrom (S k) (<[k:=x]> l) = <[k:=x]> (veilFrom k l).
Proof.
  intros Hk. apply list_eq. intros j. rewrite veilFrom_lookup.
  destruct (decide (j = k)) as [->|Hne].
  - rewrite !list_lookup_insert_eq by (by rewrite ?veilFrom_length). simpl.
    rewrite bool_decide_eq_true_2; [done|lia].
  - rewrite !list_lookup_insert_ne by done. rewrite veilFrom_lookup.
    destruct (l !! j) as [sl|]; [|done]. simpl.
    by rewrite (bool_decide_ext (j < S k)%nat (j < k)%nat) by lia.
Qed.

Lemma veilFrom_front_other k l :
  (length l ≤ k)%nat → veilFrom (S k) l = veilFrom k l.
Proof.
  intros Hk. apply list_eq. intros j. rewrite !veilFrom_lookup.
  destruct (l !! j) as [sl|] eqn:Hj; [|done]. apply lookup_lt_Some in Hj. simpl.
  by rewrite !bool_decide_eq_true_2 by lia.
Qed.

Lemma veilFrom_full k l : (length l ≤ k)%nat → veilFrom k l = l.
Proof.
  intros Hk. apply list_eq. intros j. rewrite veilFrom_lookup.
  destruct (l !! j) as [sl|] eqn:Hj; [|done]. apply lookup_lt_Some in Hj. simpl.
  by rewrite bool_decide_eq_true_2 by lia.
Qed.

(** Writing a built slot commutes with the veil. *)
Lemma veil_setSlot p r x t :
  visited p r = true → veil p (setSlot r x t) = setSlot r x (veil p t).
Proof.
  intros Hv. destruct t, r; simpl in *; try done; unfold veil; simpl;
    apply bool_decide_eq_true in Hv; by rewrite veilFrom_insert.
Qed.

(** Writing the next slot lifts the veil from it. *)
Lemma veil_front p r x t sl :
  front p r → getSlot t r = Some sl →
  veil (after r p) (setSlot r x t) = setSlot r x (veil p t).
Proof.
  intros Hf Hsl. destruct t, r; simpl in *; try done; subst; unfold veil; simpl;
    apply lookup_lt_Some in Hsl; by rewrite veilFrom_insert_front.
Qed.

Lemma veil_full p t :
  (length (standard t) ≤ doneStandard p)%nat →
  (length (hardpoints t) ≤ doneHardpoints p)%nat →
  (length (internal t) ≤ doneInternal p)%nat →
  veil p t = t.
Proof.
  intros H1 H2 H3. destruct t; unfold veil; simpl in *.
  by rewrite !veilFrom_full.
Qed.

Lemma veil_tally p t : sameTally t (veil p t).
Proof. by constructor. Qed.

Lemma veil_power p t : samePower t (veil p t).
Proof. by constructor. Qed.

Lemma veil_fields p t :
  shipId (veil p t) = shipId t ∧ props (veil p t) = props t
  ∧ bulkheadsId (veil p t) = bulkheadsId t
  ∧ shipCostMultiplier (veil p t) = shipCostMultiplier t
  ∧ componentCostMultiplier (veil p t) = componentCostMultiplier t
  ∧ cargoHatch (veil p t) = cargoHatch t ∧ bulkheads (veil p t) = bulkheads t
  ∧ shipC (veil p t) = shipC t.
Proof. done. Qed.

Lemma veil_base p t t' : sameBase t t' → sameBase (veil p t) (veil p t').
Proof. intros []. constructor; simpl; congruence. Qed.

Lemma total_veiled f l :
  (∀ sl, f (set_c None sl) = 0) → total f (veilFrom 0 l) = 0.
Proof.
  intros Hf. unfold veilFrom.
  assert (∀ (g : nat → Slot → Slot), (∀ i sl, f (g i sl) = 0) → total f (imap g l) = 0)
    as Hgen.
  { induction l as [|x l IH]; intros g Hg; [done|]. simpl.
    change (f (g 0%nat x) + total f (imap (g ∘ S) l) = 0).
    rewrite Hg, IH; [done|]. intros i sl. apply Hg. }
  apply Hgen. intros i sl. simpl. apply Hf.
Qed.

End Veil.

Section BuildSlots.
Context `{Collaborators}.

Lemma front_not_visited p r : front p r → visited p r = false.
Proof. destruct r; simpl; try done; intros ->; apply bool_decide_eq_false; lia. Qed.

Lemma visited_after p r r' :
  front p r → visited (after r p) r' = true → r' = r ∨ visited p r' = true.
Proof.
  destruct r as [| | |k|k|k]; simpl; try done; intros Hk;
    destruct r' as [| | |j|j|j]; simpl; auto;
    rewrite !bool_decide_eq_true; intros Hj;
    (destruct (decide (j = k)) as [->|Hne]; [by left|right; lia]).
Qed.

Lemma visited_after_front p r : front p r → visited (after r p) r = true.
Proof. destruct r; simpl; try done; intros ->; apply bool_decide_eq_true; lia. Qed.

Lemma visited_after_mono p r r' : front p r → visited p r' = true → visited (after r p) r' = true.
Proof.
  destruct r as [| | |k|k|k]; simpl; try done; intros ->;
    destruct r' as [| | |j|j|j]; simpl; auto;
    rewrite !bool_decide_eq_true; lia.
Qed.

(** Editing an empty slot that stays empty. *)
Lemma Counted_blank s r sl x :
  r ≠ RShip → getSlot s r = Some sl → c sl = None → c x = None →
  Counted s → Counted (setSlot r x s).
Proof.
  intros Hr Hsl Hc Hx [Hfuel Hcargo Harm Hsh Hcost Hmass Hdps].
  destruct (setSlot_fields r x s) as (_ & Hprops & _ & _ & Hccm).
  pose proof (setSlot_tally r x s) as [].
  assert (shipC (setSlot r x s) = shipC s) as HshipC by (by destruct r).
  constructor; rewrite ?HshipC, ?Hprops, ?Hccm.
  - rewrite (overSlots_edit _ s r sl x); [congruence|done|]. unfold fuelOf. by rewrite Hc, Hx.
  - rewrite (overSlots_edit _ s r sl x); [congruence|done|]. unfold cargoOf. by rewrite Hc, Hx.
  - rewrite (overSlots_edit _ s r sl x); [congruence|done|]. unfold armourOf. by rewrite Hc, Hx.
  - intros Hsane. specialize (Hsh Hsane).
    rewrite (overSlots_edit _ s r sl x); [congruence|done|]. unfold shieldOf. by rewrite Hc, Hx.
  - rewrite (overSlots_edit _ s r sl x); [congruence|done|]. unfold costOf. by rewrite Hc, Hx.
  - rewrite (overSlots_edit _ s r sl x); [congruence|done|]. unfold massOf. by rewrite Hc, Hx.
  - intros Hsane. specialize (Hdps Hsane).
    rewrite (overSlots_edit _ s r sl x); [congruence|done|]. unfold dpsOf. by rewrite Hc, Hx.
Qed.

Lemma Metered_blank s r sl x :
  getSlot s r = Some sl → c sl = None → c x = None → Metered s → Metered (setSlot r x s).
Proof.
  intros Hsl Hc Hx Hraw i b. rewrite (same_priorityBands _ _ (setSlot_power r x s)).
  intros Hi. destruct (Hraw i b Hi) as (Hd & Hr & Ho).
  rewrite !(overPowered_edit _ s r sl x); [done|done| |done|];
    unfold drawOf; by rewrite Hc, Hx.
Qed.

Lemma Tiered_blank s r sl x :
  getSlot s r = Some sl → c x = None → Tiered s → Tiered (setSlot r x s).
Proof.
  intros Hsl Hx Htiers.
  eapply (Tiered_setSlot s _ r sl x); [done|apply sameBase_refl| | |done].
  - by rewrite (same_priorityBands _ _ (setSlot_power r x s)).
  - intros _ _ n Hn. congruence.
Qed.

Lemma Framed_setSlot s r x : installable r → Framed s → Framed (setSlot r x s).
Proof. intros Hr [? ? ?]. destruct r; try done; by constructor. Qed.

(** The loop resets the next slot. *)
Lemma blank_slot eng p t r sl x :
  installable r → front p r → getSlot t r = Some sl →
  c x = None → id x = None → discountedCost x = 0 →
  cat x = categoryOf r → type x = typeLaid eng r x →
  Building eng p t → Building eng (after r p) (setSlot r x t).
Proof.
  intros Hr Hf Hsl Hc Hid Hdc Hcat Hty [Hcount Hraw Htiers Hl Hm Ha Hslots Hframe Hbulk].
  assert (getSlot (veil p t) r = Some (set_c None sl)) as Hv.
  { by rewrite getSlot_veil, Hsl, (front_not_visited p r). }
  destruct (setSlot_fields r x t) as (Hsid & Hprops & Hbid & Hscm & Hccm).
  pose proof (setSlot_tally r x t) as [].
  assert (bulkheads (setSlot r x t) = bulkheads t) as Hbh by (by destruct r).
  constructor; rewrite ?(veil_front p r x t sl), ?Hccm, ?Hbh, ?Hsid, ?Hbid, ?Hprops by done.
  - eapply Counted_blank; [by destruct r|done..].
  - by eapply Metered_blank.
  - by eapply Tiered_blank.
  - congruence.
  - congruence.
  - congruence.
  - intros r' sl' Hr' Hvis. rewrite (getSlot_setSlot _ _ _ sl) by done.
    case_decide as Heq.
    + subst r'. intros [= <-]. constructor; [done| | |done].
      * by rewrite Hc, Hid.
      * rewrite Hc, Hdc. simpl. lia.
    + intros Hsl'. apply Hslots; [done| |done].
      destruct (visited_after p r r' Hf Hvis) as [?|?]; [congruence|done].
  - by apply Framed_setSlot.
  - done.
Qed.

Lemma vacateSimilar_prevented s r sl comp :
  getSlot s r = Some sl → vacateSimilar s r comp true = Some s.
Proof.
  intros Hsl. unfold vacateSimilar. rewrite Hsl. simpl.
  destruct comp as [n|]; [|done].
  destruct (catIs sl 2 && uniqueGroup (grp n)); [|done].
  by destruct (findInternalByGroup s (grp n)).
Qed.

Lemma filled_empty i comp m sl :
  id sl = None → c sl = None → discountedCost sl = 0 → i = None → comp = None →
  filled i comp m sl = sl.
Proof. intros ? ? ? -> ->. destruct sl. simpl in *. unfold filled. simpl. by subst. Qed.

Lemma setSlot_same s r sl : getSlot s r = Some sl → sameBase s (setSlot r sl s).
Proof.
  intros Hsl. destruct r; simpl in *; try (injection Hsl as <-); constructor; simpl;
    try done; by rewrite list_insert_id.
Qed.

(** [use] with updates prevented, on a slot that has been reset. *)
Lemma use_prevented t r sl i comp :
  getSlot t r = Some sl → id sl = None → c sl = None → discountedCost sl = 0 →
  (i = None → comp = None) →
  use t r i comp true
  = if bool_decide (i = None) then Some t
    else updateStats (setSlot r (filled i comp (componentCostMultiplier t) sl) t)
           r comp None true.
Proof.
  intros Hsl Hid Hc Hdc Hnone. unfold use. rewrite Hsl. simpl. rewrite Hid.
  destruct i as [i|].
  - rewrite !bool_decide_eq_false_2 by done.
    rewrite (vacateSimilar_prevented _ _ sl) by done. simpl. rewrite Hsl. simpl.
    rewrite Hc, priceOf_use. done.
  - by rewrite !bool_decide_eq_true_2.
Qed.

(** The loop installs the component of a slot it has reset. *)
Lemma fill_slot eng p t r sl i t' :
  installable r → visited p r = true → getSlot t r = Some sl →
  id sl = None → c sl = None →
  Building eng p t →
  use t r i (i ≫= catalogueAt r) true = Some t' →
  Building eng p t'
  ∧ sameBase (setSlot r (filled i (i ≫= catalogueAt r) (componentCostMultiplier t) sl) t) t'
  ∧ length (priorityBands t') = length (priorityBands t).
Proof.
  intros Hr Hvis Hsl Hid Hc HB.
  pose proof HB as [Hcount Hraw Htiers Hl Hm Ha Hslots Hframe Hbulk].
  destruct (Hslots r sl Hr Hvis Hsl) as [Hcat _ Hdc Hty].
  rewrite Hc in Hdc. simpl in Hdc.
  rewrite (use_prevented t r sl) by (try done; by intros ->).
  set (comp := i ≫= catalogueAt r). set (m := componentCostMultiplier t).
  set (F := filled i comp m sl). set (s2 := setSlot r F t).
  case_bool_decide as Hi.
  { intros [= <-]. split; [done|]. split; [|done]. unfold s2, F.
    rewrite filled_empty; [by apply sameBase_sym, setSlot_same|done..|by subst]. }
  intros HU.
  assert (getSlot s2 r = Some F) as HF by (by eapply getSlot_setSlot_eq).
  assert (sameMount sl F) as Hmount by apply sameMount_contents.
  assert (r ≠ RShip ∧ r ≠ RCargoHatch) as [Hns Hnh] by (by destruct r).
  destruct (updateStats_prevent_traded _ _ _ _ _ _ HF HU)
    as (Htr & HbU & Hl' & Hmul' & Ha' & _ & _ & _ & _ & Hband).
  destruct (setSlot_fields r F t) as (Hsid & Hprops & Hbid & Hscm & Hccm).
  pose proof (setSlot_tally r F t) as Ht2.
  pose proof (setSlot_power r F t) as Hp2.
  set (V := veil p t). set (V' := veil p t').
  assert (getSlot V r = Some sl) as HV by (unfold V; by rewrite getSlot_veil, Hsl, Hvis).
  assert (sameBase (setSlot r F V) V') as HbV.
  { unfold V, V'. rewrite <- veil_setSlot by done. by apply veil_base. }
  assert (traded V V' sl (c sl) (c F)) as HtrV.
  { rewrite Hc. change (c F) with comp.
    eapply (traded_ext_r V t'); [apply veil_tally|apply rawEq_refl|].
    eapply traded_mount; [by apply sameMount_sym|].
    eapply (traded_ext_l s2); [| | |exact Htr].
    - eapply sameTally_trans; [apply sameTally_sym, Ht2|apply veil_tally].
    - unfold V. simpl. by destruct Hp2.
    - done. }
  pose proof HbU as [Bid Bprops Bhatch Bbulk Bbid BshipC Bstd Bhp Bint Bscm Bccm].
  split; [|split; [done|]].
  - constructor.
    + by eapply (Counted_traded V V' r sl F).
    + by eapply (Metered_traded V V' r sl F).
    + eapply (Tiered_setSlot V V' r sl F); [done|done|by destruct HtrV| |done].
      intros _ Hen n Hn Hp. simpl. apply Hband. unfold activeC. change (c F) with comp in Hn.
      rewrite Hn, Hen. destruct Hp as [Hp|Hp]; [|congruence].
      unfold truthy. by destruct (Z.eqb_spec (power n) 0).
    + done.
    + rewrite Hmul', Bbid. unfold s2. simpl.
      rewrite (same_armourMultiplier _ _ Ht2), Hbid. done.
    + done.
    + intros r' sl' Hr' Hvis'. rewrite (sameBase_getSlot _ _ _ HbU).
      rewrite Bccm. unfold s2.
      rewrite (getSlot_setSlot _ _ _ sl), Hccm by done.
      case_decide as Heq; [|by apply Hslots].
      subst r'. intros [= <-]. constructor; [done|done| |].
      * done.
      * exact Hty.
    + destruct Hframe as [? ? ?].
      constructor; rewrite ?Bhatch, ?Bbulk, ?BshipC, ?Bscm; unfold s2;
        destruct r; try done.
    + rewrite Bbulk, Bid, Bbid, Bccm. unfold s2. rewrite Hsid, Hbid, Hccm.
      by destruct r.
  - destruct Htr as [_ _ _ _ _ _ _ Hlen _]. rewrite Hlen. unfold s2.
    by rewrite (same_priorityBands _ _ Hp2).
Qed.

(** [use] with updates prevented succeeds when the tier of the slot
    exists or the component draws nothing. *)
Lemma fill_slot_is_Some t r sl i comp :
  getSlot t r = Some sl → id sl = None → c sl = None → discountedCost sl = 0 →
  (i = None → comp = None) →
  (∀ n, comp = Some n → truthy (power n) && enabled sl = true →
        is_Some (bandAt (priorityBands t) (priority sl))) →
  is_Some (use t r i comp true).
Proof.
  intros Hsl Hid Hc Hdc Hnone Hband. rewrite (use_prevented t r sl) by done.
  case_bool_decide; [by eexists|].
  eapply updateStats_prevent_is_Some; [by eapply getSlot_setSlot_eq|].
  rewrite (same_priorityBands _ _ (setSlot_power _ _ _)).
  intros [?|Hact]; [done|]. unfold activeC in Hact.
  destruct comp as [n|]; [|done]. by eapply Hband.
Qed.

End BuildSlots.

Section BuildLoops.
Context `{Collaborators}.

Lemma sameSize_refl t : sameSize t t.
Proof. by constructor. Qed.

Lemma sameSize_trans t1 t2 t3 : sameSize t1 t2 → sameSize t2 t3 → sameSize t1 t3.
Proof. intros [] []. constructor; congruence. Qed.

Lemma sameSize_setSlot r x t : sameSize t (setSlot r x t).
Proof. destruct r; constructor; simpl; by rewrite ?length_insert. Qed.

Lemma sameBase_size t t' :
  sameBase t t' → length (priorityBands t') = length (priorityBands t) → sameSize t t'.
Proof. intros [] ?. constructor; congruence. Qed.

Lemma setSlot_setSlot r x y t : sameBase (setSlot r y t) (setSlot r y (setSlot r x t)).
Proof. destruct r; constructor; simpl; try done; by rewrite list_insert_insert_eq. Qed.

Lemma buildStandard_buildSlot cs priorities enabled' t i :
  buildStandard (Some cs) priorities enabled' t i
  = buildSlot (RStandard i) 0 (enabledAt enabled' (i + 1)) (priorityAt priorities (i + 1))
      (λ _, SYS) (compAt (comps_standard cs) i) t.
Proof. done. Qed.

Lemma buildHardpoint_buildSlot cs priorities enabled' cl t i :
  buildHardpoint (Some cs) priorities enabled' cl t i
  = buildSlot (RHardpoint i) 1 (enabledAt enabled' (cl + i)) (priorityAt priorities (cl + i))
      (λ sl, if truthy (maxClass sl) then WEP else SYS) (compAt (comps_hardpoints cs) i) t.
Proof.
  unfold buildHardpoint, buildSlot. simpl.
  destruct (hardpoints t !! i) as [sl|] eqn:Hsl; simpl; [|done].
  destruct (compAt (comps_hardpoints cs) i) as [ci|]; [done|].
  rewrite (use_prevented _ _ (resetSlot 1 (enabledAt enabled' (cl + i))
             (priorityAt priorities (cl + i))
             (if truthy (maxClass sl) then WEP else SYS) sl)); try done.
  simpl. apply list_lookup_insert_eq. by eapply lookup_lt_Some.
Qed.

Lemma buildInternal_buildSlot cs priorities enabled' cl t i :
  buildInternal (Some cs) priorities enabled' cl t i
  = buildSlot (RInternal i) 2 (enabledAt enabled' (cl + i)) (priorityAt priorities (cl + i))
      (λ _, SYS) (compAt (comps_internal cs) i) t.
Proof.
  unfold buildInternal, buildSlot. simpl.
  destruct (internal t !! i) as [sl|] eqn:Hsl; simpl; [|done].
  destruct (compAt (comps_internal cs) i) as [ci|]; [done|].
  rewrite (use_prevented _ _ (resetSlot 2 (enabledAt enabled' (cl + i))
             (priorityAt priorities (cl + i)) SYS sl)); try done.
  simpl. apply list_lookup_insert_eq. by eapply lookup_lt_Some.
Qed.

(** One turn of a loop of [buildWith]. *)
Lemma buildSlot_step eng p r category en pr ty i t t' :
  installable r → front p r → Some category = categoryOf r →
  (∀ sl, ty sl = typeLaid eng r sl) →
  Building eng p t →
  buildSlot r category en pr ty i t = Some t' →
  Building eng (after r p) t' ∧ sameSize t t'
  ∧ ∃ sl, getSlot t r = Some sl
      ∧ sameBase (setSlot r (filled i (i ≫= catalogueAt r) (componentCostMultiplier t)
                               (resetSlot category en pr (ty sl) sl)) t) t'.
Proof.
  intros Hr Hf Hcat Hty HB. unfold buildSlot.
  destruct (getSlot t r) as [sl|] eqn:Hsl; simpl; [|done].
  set (x := resetSlot category en pr (ty sl) sl). intros Huse.
  assert (Building eng (after r p) (setSlot r x t)) as HB1.
  { eapply (blank_slot eng p t r sl x); try done. unfold x. simpl. by rewrite Hty. }
  destruct (fill_slot eng (after r p) (setSlot r x t) r x i t') as (HB' & Hb & Hlen);
    try done.
  { by apply visited_after_front. }
  { by eapply getSlot_setSlot_eq. }
  destruct (setSlot_fields r x t) as (_ & _ & _ & _ & Hccm). rewrite Hccm in Hb.
  assert (sameBase (setSlot r (filled i (i ≫= catalogueAt r) (componentCostMultiplier t) x) t) t')
    as Hb'.
  { eapply sameBase_trans; [apply setSlot_setSlot|exact Hb]. }
  split; [done|]. split; [|by exists sl].
  eapply sameSize_trans; [apply sameSize_setSlot|]. apply sameBase_size; [exact Hb'|].
  rewrite Hlen. by rewrite !(same_priorityBands _ _ (setSlot_power r _ t)).
Qed.

Lemma forEach_seq (P : nat → Ship → Prop) (body : Ship → nat → option Ship) n :
  ∀ a s s',
  P a s →
  (∀ i t t', (a ≤ i < a + n)%nat → P i t → body t i = Some t' → P (S i) t') →
  forEach body s (seq a n) = Some s' → P (a + n)%nat s'.
Proof.
  induction n as [|n IH]; intros a s s' Ha Hstep; simpl.
  { intros [= <-]. by rewrite Nat.add_0_r. }
  destruct (body s a) as [t|] eqn:Hbody; simpl; [|done]. intros Hrest.
  replace (a + S n)%nat with (S a + n)%nat by lia.
  apply (IH (S a) t s'); [|intros i u u' Hi; apply Hstep; lia|done].
  apply (Hstep a s t); [lia|done..].
Qed.

Lemma forEach_seq_is_Some (P : nat → Ship → Prop) (body : Ship → nat → option Ship) n :
  ∀ a s,
  P a s →
  (∀ i t, (a ≤ i < a + n)%nat → P i t → ∃ t', body t i = Some t' ∧ P (S i) t') →
  ∃ s', forEach body s (seq a n) = Some s' ∧ P (a + n)%nat s'.
Proof.
  induction n as [|n IH]; intros a s Ha Hstep; simpl.
  { exists s. by rewrite Nat.add_0_r. }
  destruct (Hstep a s) as (t & Hbody & Ht); [lia|done|]. rewrite Hbody. simpl.
  replace (a + S n)%nat with (S a + n)%nat by lia.
  apply (IH (S a) t); [done|]. intros i u Hi. apply Hstep. lia.
Qed.

End BuildLoops.

Section BuildPrefix.
Context `{Collaborators}.

Lemma buildWith_unfold s cs priorities enabled' :
  buildWith s (Some cs) priorities enabled'
  = (s6 ← buildPrefix s (comps_bulkheads cs) priorities enabled';
     s7 ← forEach (buildStandard (Some cs) priorities enabled') s6
            (seq 0 (length (standard s)));
     s8 ← markEngine 1 s7;
     s9 ← markEngine 2 s8;
     s10 ← forEach (buildHardpoint (Some cs) priorities enabled' (length (standard s) + 1)) s9
             (seq 0 (length (hardpoints s9)));
     s11 ← forEach (buildInternal (Some cs) priorities enabled'
                      (length (standard s) + 1 + length (hardpoints s9))) s10
             (seq 0 (length (internal s10)));
     buildSuffix s11).
Proof.
  unfold buildWith, buildPrefix.
  by destruct (useBulkhead _ (comps_bulkheads cs) true) as [s3|].
Qed.

Lemma overSlots_veiled f p t :
  (∀ sl, f (set_c None sl) = 0) →
  doneStandard p = 0%nat → doneHardpoints p = 0%nat → doneInternal p = 0%nat →
  overSlots f (veil p t) = f (bulkheads t).
Proof.
  intros Hf H1 H2 H3. unfold overSlots, veil. simpl. rewrite H1, H2, H3.
  rewrite !total_veiled by done. lia.
Qed.

Lemma overPowered_veiled f p t :
  (∀ sl, f (set_c None sl) = 0) →
  doneStandard p = 0%nat → doneHardpoints p = 0%nat → doneInternal p = 0%nat →
  overPowered f (veil p t) = f (cargoHatch t) + f (bulkheads t).
Proof. intros. unfold overPowered. by rewrite overSlots_veiled. Qed.

Lemma drawOf_veiled i u sl : drawOf i u (set_c None sl) = 0.
Proof. done. Qed.

Lemma resetBand_lookup (bands : list Band) (i : nat) b :
  (resetBand <$> bands) !! i = Some b → deployed b = 0 ∧ retracted b = 0 ∧ retOnly b = 0.
Proof.
  rewrite list_lookup_fmap. destruct (bands !! i) as [b0|]; [|done]. by intros [= <-].
Qed.

(** [useBulkhead] with updates prevented, on bulkheads that have been
    cleared. *)
Lemma useBulkhead_prevented p X index X' :
  enabled (bulkheads X) = false → c (bulkheads X) = None →
  Counted (veil p X) →
  useBulkhead X index true = Some X' →
  ∃ bh, Components_bulkheads (shipId X) index = Some bh
    ∧ sameBase (set_bulkheads (set_discountedCost (cost bh * componentCostMultiplier X)
                                 (set_c (Some bh) (bulkheads X)))
                  (set_bulkheadsId index X)) X'
    ∧ Counted (veil p X')
    ∧ priorityBands X' = priorityBands X
    ∧ ladenMass X' = unladenMass X' + cargoCapacity X' + fuelCapacity X'
    ∧ armourMultiplier X' = ArmourMultiplier index
    ∧ armour X' = armourAdded X'
                  + Math_round (baseArmour (props X') * armourMultiplier X').
Proof.
  intros Hben Hbc Hcount. unfold useBulkhead.
  destruct (Components_bulkheads (shipId X) index) as [bh|] eqn:Hbh; simpl; [|done].
  rewrite Hbc.
  set (new := set_discountedCost (cost bh * componentCostMultiplier X)
                (set_c (Some bh) (bulkheads X))).
  set (B0 := set_armourMultiplier (ArmourMultiplier index) (set_bulkheadsId index X)).
  set (B1 := set_armourMultiplier (ArmourMultiplier index)
               (set_bulkheads new (set_bulkheadsId index X))).
  intros HU. exists bh. split; [done|].
  assert (getSlot B1 RBulkheads = Some new) as Hnew by done.
  destruct (updateStats_prevent_traded _ _ _ _ _ _ Hnew HU)
    as (Htr & HbU & Hl & Hmul & Ha & _ & _ & _ & Hidle & _).
  split; [|split; [|split; [|done]]].
  - eapply sameBase_trans; [|exact HbU]. by constructor.
  - assert (Counted (veil p B0)) as Hc0.
    { destruct Hcount. by constructor. }
    eapply (Counted_traded (veil p B0) (veil p X') RBulkheads (bulkheads X) new);
      [done|done|done| | | |exact Hc0].
    + by constructor.
    + eapply sameBase_trans; [|apply (veil_base p B1 X'); exact HbU]. by constructor.
    + rewrite Hbc. eapply (traded_ext_r _ X'); [apply veil_tally|apply rawEq_refl|].
      eapply (traded_ext_l B1); [by constructor|done|done|].
      eapply (traded_mount _ _ new); [by constructor|exact Htr].
  - rewrite Hidle; [done|done|]. unfold activeC. simpl. rewrite Hben. apply andb_false_r.
Qed.

(** The cargo hatch is set up and the bands are cleared: the bands hold
    the draw of the hatch and nothing else. *)
Lemma hatch_powered p X (en : bool) (pr : Z) s6 :
  doneStandard p = 0%nat → doneHardpoints p = 0%nat → doneInternal p = 0%nat →
  c (cargoHatch X) = Some Components_cargoHatch → cat (cargoHatch X) = None →
  enabled (bulkheads X) = false →
  (if en then
     adjustBand pr Retracted (power Components_cargoHatch)
       (set_priorityBands (resetBand <$> priorityBands X)
          (set_cargoHatch (set_enabled en (set_priority pr (cargoHatch X))) X))
   else Some (set_priorityBands (resetBand <$> priorityBands X)
                (set_cargoHatch (set_enabled en (set_priority pr (cargoHatch X))) X)))
  = Some s6 →
  s6 = set_priorityBands (priorityBands s6)
         (set_cargoHatch (set_enabled en (set_priority pr (cargoHatch X))) X)
  ∧ length (priorityBands s6) = length (priorityBands X)
  ∧ Metered (veil p s6) ∧ Tiered (veil p s6).
Proof.
  intros H1 H2 H3 Hhc Hhcat Hben.
  set (hatch := set_enabled en (set_priority pr (cargoHatch X))).
  set (s5 := set_priorityBands _ (set_cargoHatch hatch X)). intros Hs6.
  assert (s6 = set_priorityBands (priorityBands s6) (set_cargoHatch hatch X)
          ∧ length (priorityBands s6) = length (priorityBands X)
          ∧ (en = true → is_Some (bandAt (priorityBands s6) pr))
          ∧ ∀ i b, priorityBands s6 !! i = Some b →
              deployed b = drawOf i Deployed hatch
              ∧ retracted b = drawOf i Retracted hatch ∧ retOnly b = 0)
    as (Hs6' & Hlen6 & Htier6 & Hbands6).
  { destruct en eqn:Hen.
    - assert (powerUsageType hatch (Some Components_cargoHatch) = Retracted) as Hu.
      { unfold powerUsageType, catIs. simpl. rewrite Hhcat.
        rewrite bool_decide_eq_false_2 by done. by destruct (passive _). }
      rewrite <- Hu in Hs6.
      apply (adjustBand_delta 1 _ hatch Components_cargoHatch) in Hs6
        as (Hs6' & Hsome & Hdelta); [|done|lia].
      assert (length (priorityBands s6) = length (priorityBands X)) as Hlen.
      { rewrite (bandsDelta_length _ _ _ _ _ Hdelta). simpl. by rewrite length_fmap. }
      split; [done|]. split; [done|]. split.
      + intros _. eapply bandAt_is_Some_length; [|exact Hsome]. symmetry.
        by eapply bandsDelta_length.
      + intros i b Hi.
        destruct (bandsDelta_lookup _ _ _ _ _ _ _ Hdelta Hi) as (b5 & Hi5 & Hd & Hr & Ho).
        apply resetBand_lookup in Hi5 as (Hd5 & Hr5 & Ho5).
        unfold drawOf. change (c hatch) with (c (cargoHatch X)). rewrite Hhc.
        split; [lia|]. split; [lia|congruence].
    - injection Hs6 as <-. split; [done|]. split.
      { simpl. by rewrite length_fmap. }
      split; [done|]. intros i b Hi. apply resetBand_lookup in Hi as (Hd5 & Hr5 & Ho5).
      by rewrite !drawOf_disabled. }
  split; [done|]. split; [done|]. rewrite Hs6'. split.
  - intros i b Hi. simpl in Hi. destruct (Hbands6 i b Hi) as (Hd & Hr & Ho).
    rewrite !overPowered_veiled by done. simpl.
    rewrite !(drawOf_disabled _ _ (bulkheads X)) by done.
    fold hatch. split; [lia|]. split; [lia|done].
  - intros r sl Hr. rewrite getSlot_veil.
    destruct r as [| | |k|k|k]; try done; simpl.
    + intros [= <-] Hen n Hn _. by apply Htier6.
    + rewrite H1. destruct (standard X !! k); [|done]. simpl. by intros [= <-] _ n Hn.
    + rewrite H2. destruct (hardpoints X !! k); [|done]. simpl. by intros [= <-] _ n Hn.
    + rewrite H3. destruct (internal X !! k); [|done]. simpl. by intros [= <-] _ n Hn.
Qed.

Lemma hatch_stage X (en : bool) (pr : Z) :
  c (cargoHatch X) = Some Components_cargoHatch →
  (let s4 := set_cargoHatch (set_enabled en (set_priority pr (cargoHatch X))) X in
   let s5 := set_priorityBands (resetBand <$> priorityBands s4) s4 in
   if enabled (cargoHatch s5) then
     hatch ← c (cargoHatch s5);
     adjustBand (priority (cargoHatch s5)) Retracted (power hatch) s5
   else Some s5)
  = (if en then
       adjustBand pr Retracted (power Components_cargoHatch)
         (set_priorityBands (resetBand <$> priorityBands X)
            (set_cargoHatch (set_enabled en (set_priority pr (cargoHatch X))) X))
     else Some (set_priorityBands (resetBand <$> priorityBands X)
                  (set_cargoHatch (set_enabled en (set_priority pr (cargoHatch X))) X))).
Proof. intros Hc. simpl. by rewrite Hc. Qed.

(** The state in which the loops of [buildWith] start. *)
Lemma buildPrefix_spec s index priorities enabled' s6 :
  Framed s →
  buildPrefix s index priorities enabled' = Some s6 →
  Building (λ _, false) (Build_Progress 0 0 0) s6
  ∧ sameSize s s6
  ∧ standard s6 = standard s ∧ hardpoints s6 = hardpoints s ∧ internal s6 = internal s
  ∧ shipC s6 = shipC s ∧ shipId s6 = shipId s ∧ props s6 = props s
  ∧ shipCostMultiplier s6 = shipCostMultiplier s
  ∧ componentCostMultiplier s6 = componentCostMultiplier s
  ∧ bulkheadsId s6 = index
  ∧ cargoHatch s6 = set_enabled (enabledAt enabled' 0)
                      (set_priority (hatchPriority priorities) (cargoHatch s))
  ∧ ∃ bh, Components_bulkheads (shipId s) index = Some bh
      ∧ bulkheads s6 = set_discountedCost (cost bh * componentCostMultiplier s)
                         (set_c (Some bh) (bulkheads s)).
Proof.
  intros [[Hhc Hhcat] (Hben & Hbcat & Hbty) (Hsty & Hssome & Hsprice)].
  unfold buildPrefix. cbv zeta.
  set (s1 := set_totalDps 0 _).
  set (s2 := set_bulkheads (set_c None (bulkheads s1)) s1).
  set (p := Build_Progress 0 0 0).
  assert (Counted (veil p s2)) as Hc2.
  { constructor; try intros _; rewrite overSlots_veiled by done;
      unfold fuelOf, cargoOf, armourOf, shieldOf, costOf, massOf, dpsOf, veil, s2, s1;
      reduce_records; simpl; lia. }
  assert (shipId s2 = shipId s ∧ props s2 = props s ∧ cargoHatch s2 = cargoHatch s
          ∧ bulkheads s2 = set_c None (bulkheads s) ∧ shipC s2 = shipC s
          ∧ standard s2 = standard s ∧ hardpoints s2 = hardpoints s
          ∧ internal s2 = internal s ∧ shipCostMultiplier s2 = shipCostMultiplier s
          ∧ componentCostMultiplier s2 = componentCostMultiplier s
          ∧ priorityBands s2 = priorityBands s)
    as (Eid & Eprops & Ehatch & Ebulk & EshipC & Estd & Ehp & Eint & Escm & Eccm & Ebands).
  { repeat split; reflexivity. }
  clearbody s2. clear s1.
  destruct (useBulkhead s2 index true) as [s3|] eqn:H3; cbn [mbind option_bind]; [|done].
  destruct (useBulkhead_prevented p s2 index s3) as (bh & Hbh & Hb3 & Hc3 & Hbands3 & Hl & Hm & Ha);
    [by rewrite Ebulk|by rewrite Ebulk|done|done|].
  pose proof Hb3 as [Bid Bprops Bhatch Bbulk Bbid BshipC Bstd Bhp Bint Bscm Bccm].
  simpl in Bid, Bprops, Bhatch, Bbulk, Bbid, BshipC, Bstd, Bhp, Bint, Bscm, Bccm.
  pose proof (hatch_stage s3 (enabledAt enabled' 0) (hatchPriority priorities)) as Hstage.
  cbv zeta in Hstage. rewrite Hstage by (by rewrite Bhatch, Ehatch). clear Hstage.
  intros Hs6.
  destruct (hatch_powered p s3 (enabledAt enabled' 0) (hatchPriority priorities) s6
              eq_refl eq_refl eq_refl) as (Hs6' & Hlen6 & Hraw6 & Htier6);
    [by rewrite Bhatch, Ehatch|by rewrite Bhatch, Ehatch|by rewrite Bbulk, Ebulk| |].
  { exact Hs6. }
  set (hatch := set_enabled _ _) in Hs6'. clear Hs6.
  assert (shipId s6 = shipId s3 ∧ props s6 = props s3 ∧ cargoHatch s6 = hatch
          ∧ bulkheads s6 = bulkheads s3 ∧ shipC s6 = shipC s3
          ∧ standard s6 = standard s3 ∧ hardpoints s6 = hardpoints s3
          ∧ internal s6 = internal s3 ∧ shipCostMultiplier s6 = shipCostMultiplier s3
          ∧ componentCostMultiplier s6 = componentCostMultiplier s3
          ∧ bulkheadsId s6 = bulkheadsId s3 ∧ sameTally s3 s6)
    as (Fid & Fprops & Fhatch & Fbulk & FshipC & Fstd & Fhp & Fint & Fscm & Fccm & Fbid & Ft).
  { rewrite Hs6'. repeat split; reflexivity. }
  clear Hs6'. destruct Ft as [Tf Tc Tl Ta Tam Ts Tt Tu Td Tar].
  assert (overSlots_eq : ∀ f, overSlots f (veil p s6) = overSlots f (veil p s3)).
  { intros f. apply overSlots_frame; simpl; congruence. }
  split; [|split; [|repeat split; try congruence]].
  - constructor.
    + destruct Hc3 as [Hfuel Hcargo Harm Hsh Hcost Hmass Hdps].
      constructor; try (intros Hsane; specialize (Hsh Hsane); specialize (Hdps Hsane));
        rewrite overSlots_eq; simpl in *; rewrite ?FshipC, ?Fccm; congruence.
    + done.
    + done.
    + congruence.
    + congruence.
    + congruence.
    + intros r sl Hr Hvis. by destruct r.
    + constructor.
      * rewrite Fhatch. unfold hatch. simpl. by rewrite Bhatch, Ehatch.
      * rewrite Fbulk, Bbulk, Ebulk. done.
      * rewrite FshipC, BshipC, EshipC, Fscm, Bscm, Escm. done.
    + rewrite Fbulk, Bbulk, Fid, Bid, Fbid, Bbid, Fccm, Bccm. simpl.
      rewrite Hbh. by repeat split.
  - constructor; congruence.
  - rewrite Fhatch. unfold hatch. by rewrite Bhatch, Ehatch.
  - exists bh. rewrite <- Eid. split; [done|].
    rewrite Fbulk, Bbulk, Ebulk, Eccm. done.
Qed.

(** The loops are over: the veil is gone. *)
Lemma Building_done eng p t :
  (length (standard t) ≤ doneStandard p)%nat →
  (length (hardpoints t) ≤ doneHardpoints p)%nat →
  (length (internal t) ≤ doneInternal p)%nat →
  Building eng p t →
  Tallied t ∧ Metered t ∧ Tiered t
  ∧ ∀ r sl, installable r → getSlot t r = Some sl →
      slotLaid eng (componentCostMultiplier t) r sl.
Proof.
  intros H1 H2 H3 [Hcount Hraw Htiers Hl Hm Ha Hslots Hframe Hbulk].
  rewrite veil_full in * by done. split; [by constructor|]. split; [done|]. split; [done|].
  intros r sl Hr Hsl. apply Hslots; [done| |done].
  destruct r as [| | |k|k|k]; try done; simpl in *; apply bool_decide_eq_true;
    apply lookup_lt_Some in Hsl; lia.
Qed.

Lemma Building_eng eng eng' p t :
  (∀ r sl, installable r → typeLaid eng r sl = typeLaid eng' r sl) →
  Building eng p t → Building eng' p t.
Proof.
  intros Heng [Hcount Hraw Htiers Hl Hm Ha Hslots Hframe Hbulk]. constructor; try done.
  intros r sl Hr Hvis Hsl. destruct (Hslots r sl Hr Hvis Hsl) as [? ? ? Hty].
  constructor; try done. by rewrite <- Heng.
Qed.

(** [markEngine] on a slot that the loop has built. *)
Lemma markEngine_step eng p t k t' :
  (k = 1 ∨ k = 2)%nat → (length (standard t) ≤ doneStandard p)%nat →
  Building eng p t →
  markEngine k t = Some t' →
  Building (λ j, eng j || bool_decide (j = k)) p t' ∧ sameSize t t'
  ∧ ∃ sl, standard t !! k = Some sl ∧ t' = setSlot (RStandard k) (set_type ENG sl) t.
Proof.
  intros Hk Hdone [Hcount Hraw Htiers Hl Hm Ha Hslots Hframe Hbulk]. unfold markEngine.
  destruct (standard t !! k) as [sl|] eqn:Hsl; simpl; [|done]. intros [= <-].
  assert (visited p (RStandard k) = true) as Hvis.
  { simpl. apply bool_decide_eq_true. apply lookup_lt_Some in Hsl. lia. }
  set (r := RStandard k). set (x := set_type ENG sl).
  change (set_standard (<[k:=x]> (standard t)) t) with (setSlot r x t).
  split; [|split; [apply sameSize_setSlot|by exists sl]].
  assert (getSlot (veil p t) r = Some sl) as HV.
  { rewrite getSlot_veil. unfold r. rewrite Hvis. simpl. by rewrite Hsl. }
  assert (Tallied (veil p t)) as Htal by (by constructor).
  constructor; rewrite ?veil_setSlot by done.
  - eapply (Tallied_edit (veil p t) _ r sl x); [done|apply sameBase_refl|
      apply setSlot_tally|done..].
  - eapply (Metered_remounted (veil p t) _ r sl x); [done|done|apply sameBase_refl| |done].
    rewrite (same_priorityBands _ _ (setSlot_power r x _)). by apply remounted_same.
  - eapply (Tiered_edit (veil p t) _ r sl x); [done|apply sameBase_refl| |done| |done].
    + by rewrite (same_priorityBands _ _ (setSlot_power r x _)).
    + intros _ Hen _. left. done.
  - done.
  - done.
  - done.
  - intros r' sl' Hr' Hvis'. rewrite (getSlot_setSlot _ _ _ sl) by done.
    simpl. case_decide as Heq.
    + subst r'. intros [= <-].
      destruct (Hslots r sl Hr' Hvis' Hsl) as [Hcat Hc Hprice Hty].
      constructor; try done. simpl. rewrite bool_decide_eq_true_2 by done.
      rewrite orb_true_r. by destruct Hk as [-> | ->].
    + intros Hsl'. destruct (Hslots r' sl' Hr' Hvis' Hsl') as [Hcat Hc Hprice Hty].
      constructor; try done. rewrite Hty. destruct r' as [| | |j|j|j]; try done. simpl.
      rewrite (bool_decide_eq_false_2 (j = k)); [by rewrite orb_false_r|].
      intros ->. by apply Heq.
  - destruct Hframe. by constructor.
  - done.
Qed.

(** The end of [buildWith] refreshes the figures. *)
Lemma buildSuffix_spec s11 s' :
  Metered s11 → Tiered s11 →
  buildSuffix s11 = Some s' →
  sameBase s11 s' ∧ sameTally s11 s' ∧ Supplied s' ∧ Derived s'
  ∧ (∃ sl n, standard s' !! 0%nat = Some sl ∧ c sl = Some n)
  ∧ (∃ sl n, standard s' !! 2%nat = Some sl ∧ c sl = Some n)
  ∧ length (priorityBands s') = length (priorityBands s11).
Proof.
  intros Hraw Htiers. unfold buildSuffix.
  destruct (updatePower s11) as [s12|] eqn:H12; simpl; [|done].
  destruct (updateJumpStats s12) as [s13|] eqn:H13; simpl; [|done].
  intros H14.
  destruct (updatePower_sums _ _ H12) as [Hraw12 Hsum12].
  pose proof (updatePower_base _ _ H12) as Hb12.
  pose proof (updatePower_tally _ _ H12) as Ht12.
  apply updateJumpStats_spec in H13 as (fs & fsd & Hfs & Hfsd & ->).
  apply updateTopSpeed_spec in H14 as (th & Hth & ->).
  simpl in Hth, Hfs.
  set (s' := set_topBoost _ _).
  assert (sameBase s12 s') as Hb' by (by constructor).
  assert (sameTally s12 s') as Ht' by (by constructor).
  assert (samePower s12 s') as Hp' by (by constructor).
  assert (sameBase s11 s') as Hb by (by eapply sameBase_trans).
  assert (Derived s') as Hder.
  { assert (standard s' = standard s12) as Hstd by reflexivity.
    assert ((topSpeed s', topBoost s')
            = ((calcSpeed (unladenMass s' + fuelCapacity s') (speed (props s'))
                  (boost (props s')) (c th) (pipSpeed (props s'))).1,
               (calcSpeed (unladenMass s' + fuelCapacity s') (speed (props s'))
                  (boost (props s')) (c th) (pipSpeed (props s'))).2)) as Hspeed
      by (unfold s', updateShieldStrength, findInternalByGroup; reduce_records;
          reflexivity).
    assert (unladenRange s'
            = calcJumpRange (unladenMass s' + maxfuel fsd) fsd (fuelCapacity s')
            ∧ fullTankRange s'
              = calcJumpRange (unladenMass s' + fuelCapacity s') fsd (fuelCapacity s')
            ∧ ladenRange s' = calcJumpRange (ladenMass s') fsd (fuelCapacity s')
            ∧ unladenTotalRange s' = calcTotalRange (unladenMass s') fsd (fuelCapacity s')
            ∧ ladenTotalRange s'
              = calcTotalRange (unladenMass s' + cargoCapacity s') fsd (fuelCapacity s')
            ∧ maxJumpCount s' = Math_ceil_div (fuelCapacity s') (maxfuel fsd)) as Hjump
      by (unfold s', updateShieldStrength, findInternalByGroup; reduce_records;
          repeat split; reflexivity).
    assert (shieldStrength s' = shieldStrength (updateShieldStrength s')) as Hshield
      by (unfold s', updateShieldStrength, findInternalByGroup; reduce_records;
          reflexivity).
    clearbody s'. constructor; [| |done].
    - intros th'. rewrite Hstd, Hth. intros [= <-]. rewrite Hspeed.
      by destruct (calcSpeed _ _ _ _ _).
    - intros sl' fsd'. rewrite Hstd, Hfs. intros [= <-]. rewrite Hfsd.
      intros [= <-]. done. }
  clearbody s'.
  split; [done|]. split; [by eapply sameTally_trans|].
  split; [|split; [done|split; [|split]]].
  - constructor.
    + intros i b' Hi. rewrite (same_priorityBands _ _ Hp') in Hi.
      destruct (Forall2_lookup_l _ _ _ _ _ Hraw12 Hi) as (b & Hb0 & Hd & Hr & Ho).
      destruct (Hraw i b Hb0) as (Hd0 & Hr0 & Ho0).
      rewrite !(sameBase_overPowered _ _ _ Hb). split; [congruence|]. split; congruence.
    + exact (Summed_ext _ _ Hb' Hp' Hsum12).
    + eapply Tiered_ext; [exact Hb| |done].
      rewrite (same_priorityBands _ _ Hp'). by eapply Forall2_length.
  - destruct Hsum12 as [_ (pp & plant & Hpp & Hplant & _)]. exists pp, plant.
    by rewrite (same_standard _ _ Hb').
  - exists fs, fsd. by rewrite (same_standard _ _ Hb').
  - rewrite (same_priorityBands _ _ Hp'). by eapply Forall2_length.
Qed.


Lemma typeLaid_marked r sl :
  typeLaid (λ j, false || bool_decide (j = 1%nat) || bool_decide (j = 2%nat)) r sl
  = typeLaid (λ _, true) r sl.
Proof. by destruct r as [| | |[|[|[|?]]]| |]. Qed.

(** The three loops and the marking of the engines. *)
Lemma buildLoops_spec cs priorities enabled' cl s6 s7 s8 s9 s10 s11 :
  Building (λ _, false) (Build_Progress 0 0 0) s6 →
  cl = length (standard s6) →
  forEach (buildStandard (Some cs) priorities enabled') s6 (seq 0 cl) = Some s7 →
  markEngine 1 s7 = Some s8 →
  markEngine 2 s8 = Some s9 →
  forEach (buildHardpoint (Some cs) priorities enabled' (cl + 1)) s9
    (seq 0 (length (hardpoints s9))) = Some s10 →
  forEach (buildInternal (Some cs) priorities enabled' (cl + 1 + length (hardpoints s9))) s10
    (seq 0 (length (internal s10))) = Some s11 →
  Building (λ _, true)
    (Build_Progress (length (standard s11)) (length (hardpoints s11)) (length (internal s11)))
    s11
  ∧ sameSize s6 s11.
Proof.
  intros HB6 Hcl H7 H8 H9 H10 H11.
  assert (Building (λ _, false) (Build_Progress (0 + cl) 0 0) s7 ∧ sameSize s6 s7)
    as [HB7 Hz7].
  { eapply (forEach_seq
              (λ i t, Building (λ _, false) (Build_Progress i 0 0) t ∧ sameSize s6 t));
      [split; [done|apply sameSize_refl]| |exact H7].
    intros i t t' Hi [HB Hz]. rewrite buildStandard_buildSlot. intros Hbody.
    destruct (buildSlot_step _ (Build_Progress i 0 0) (RStandard i) _ _ _ _ _ _ _
                I eq_refl eq_refl
                ltac:(done) HB Hbody) as (HB' & Hz' & _).
    split; [exact HB'|by eapply sameSize_trans]. }
  simpl in HB7.
  destruct (markEngine_step _ (Build_Progress cl 0 0) s7 1%nat _ ltac:(by left)
              ltac:(simpl; rewrite (size_standard _ _ Hz7), Hcl; lia) HB7 H8)
    as (HB8 & Hz8 & _).
  destruct (markEngine_step _ (Build_Progress cl 0 0) s8 2%nat _ ltac:(by right)
              ltac:(simpl; rewrite (size_standard _ _ Hz8), (size_standard _ _ Hz7), Hcl; lia)
              HB8 H9) as (HB9 & Hz9 & _).
  apply (Building_eng _ (λ _, true)) in HB9; [|intros; apply typeLaid_marked].
  assert (sameSize s6 s9) as Hz69.
  { eapply sameSize_trans; [exact Hz7|]. by eapply sameSize_trans. }
  assert (Building (λ _, true) (Build_Progress cl (0 + length (hardpoints s9)) 0) s10
          ∧ sameSize s9 s10) as [HB10 Hz10].
  { eapply (forEach_seq
              (λ i t, Building (λ _, true) (Build_Progress cl i 0) t ∧ sameSize s9 t));
      [split; [done|apply sameSize_refl]| |exact H10].
    intros i t t' Hi [HB Hz]. rewrite buildHardpoint_buildSlot. intros Hbody.
    destruct (buildSlot_step _ (Build_Progress cl i 0) (RHardpoint i) _ _ _ _ _ _ _
                I eq_refl eq_refl
                ltac:(done) HB Hbody) as (HB' & Hz' & _).
    split; [exact HB'|by eapply sameSize_trans]. }
  simpl in HB10.
  assert (Building (λ _, true)
            (Build_Progress cl (length (hardpoints s9)) (0 + length (internal s10))) s11
          ∧ sameSize s10 s11) as [HB11 Hz11].
  { eapply (forEach_seq
              (λ i t, Building (λ _, true)
                        (Build_Progress cl (length (hardpoints s9)) i) t ∧ sameSize s10 t));
      [split; [done|apply sameSize_refl]| |exact H11].
    intros i t t' Hi [HB Hz]. rewrite buildInternal_buildSlot. intros Hbody.
    destruct (buildSlot_step _ (Build_Progress cl (length (hardpoints s9)) i) (RInternal i)
                _ _ _ _ _ _ _ I eq_refl eq_refl
                ltac:(done) HB Hbody) as (HB' & Hz' & _).
    split; [exact HB'|by eapply sameSize_trans]. }
  simpl in HB11.
  assert (sameSize s6 s11) as Hz.
  { eapply sameSize_trans; [exact Hz69|]. by eapply sameSize_trans. }
  split; [|done].
  rewrite (size_standard _ _ Hz), (size_hardpoints _ _ Hz11), (size_hardpoints _ _ Hz10),
    (size_internal _ _ Hz11), <- Hcl. done.
Qed.

(** [buildWith] establishes the consistency of the ship. *)
Lemma buildWith_spec s cs priorities enabled' s' :
  Framed s →
  buildWith s (Some cs) priorities enabled' = Some s' →
  Shaped s' ∧ Supplied s' ∧ Tallied s' ∧ Derived s'.
Proof.
  intros Hframe. rewrite buildWith_unfold.
  destruct (buildPrefix s _ _ _) as [s6|] eqn:H6; simpl; [|done].
  destruct (forEach _ s6 _) as [s7|] eqn:H7; simpl; [|done].
  destruct (markEngine 1 s7) as [s8|] eqn:H8; simpl; [|done].
  destruct (markEngine 2 s8) as [s9|] eqn:H9; simpl; [|done].
  destruct (forEach _ s9 _) as [s10|] eqn:H10; simpl; [|done].
  destruct (forEach _ s10 _) as [s11|] eqn:H11; simpl; [|done].
  intros Hsuffix.
  destruct (buildPrefix_spec _ _ _ _ _ Hframe H6) as (HB6 & Hz6 & Hstd6 & _).
  destruct (buildLoops_spec cs priorities enabled' (length (standard s)) s6 s7 s8 s9 s10 s11)
    as [HB _]; [done|by rewrite Hstd6|done..|].
  pose proof HB as [_ _ _ _ _ _ _ [Fhatch Fbulk Fhull] Hbulk].
  apply Building_done in HB as (Htal & Hraw & Htiers & Hslots); [|simpl; lia..].
  destruct (buildSuffix_spec _ _ Hraw Htiers Hsuffix)
    as (Hb & Ht & Hsup & Hder & Hplant & Hfsd & _).
  pose proof Hb as [Bid Bprops Bhatch Bbulk Bbid BshipC Bstd Bhp Bint Bscm Bccm].
  split; [|split; [done|split; [|done]]].
  - constructor; [|by rewrite Bhatch| |by rewrite BshipC, Bscm|done|done].
    + intros r sl Hr. rewrite (sameBase_getSlot _ _ _ Hb), Bccm. intros Hsl.
      destruct (Hslots r sl Hr Hsl) as [Hcat Hc Hprice Hty].
      constructor; try done. rewrite Hty. by destruct r.
    + rewrite Bbulk, Bid, Bbid, Bccm. destruct Hbulk as (? & ? & ?).
      destruct Fbulk as (? & ? & ?). done.
  - by eapply Tallied_ext.
Qed.

End BuildPrefix.

(** *** Reachable ships *)

Section Consistency.
Context `{Collaborators}.

Lemma newShip_Framed i properties slots : Framed (newShip i properties slots).
Proof. constructor; simpl; repeat split; try done; lia. Qed.

Lemma Shaped_Framed s : Shaped s → Framed s.
Proof.
  intros [_ Hhatch (_ & _ & Hben & Hbcat & Hbty & _) Hhull _ _]. by constructor.
Qed.

(** Every ship of a session is consistent: the slots are well formed,
    and the bands, the cumulative statistics and the derived statistics
    agree with the slots. *)
Lemma reachable_consistent s :
  reachable s → Shaped s ∧ Supplied s ∧ Tallied s ∧ Derived s.
Proof.
  intros Hreach. induction Hreach as [i properties slots comps pr en s Hbuild
                                           |s s' Hreach IH Hstep].
  - eapply buildWith_spec; [apply newShip_Framed|exact Hbuild].
  - destruct IH as (Hshape & Hsup & Htal & Hder).
    destruct Hstep as [s r i s' Hr Huse|s index s' Hbh|s r inc s' Hr Hset
                      |s r en s' Hr Hset|s r p s' res Hr Hch|s m1 m2
                      |s comps pr en s' Hbuild].
    + by eapply use_step.
    + by eapply useBulkhead_step.
    + by eapply setCostIncluded_step.
    + by eapply setSlotEnabled_step.
    + by eapply changePriority_step.
    + by apply applyDiscounts_step.
    + eapply buildWith_spec; [by apply Shaped_Framed|exact Hbuild].
Qed.

End Consistency.

(** *** Rebuilding *)

Section Rebuild.
Context `{Collaborators}.

Lemma slot_eq (a b : Slot) :
  id a = id b → c a = c b → incCost a = incCost b → maxClass a = maxClass b →
  cat a = cat b → enabled a = enabled b → priority a = priority b → type a = type b →
  discountedCost a = discountedCost b → a = b.
Proof. destruct a, b. simpl. by intros -> -> -> -> -> -> -> -> ->. Qed.

(** A rebuild gives a well formed slot back its own fields. *)
Lemma restored_slot m r sl category ty :
  slotOk m r sl → Some category = categoryOf r →
  filled (id sl) (id sl ≫= catalogueAt r) m
    (resetSlot category (enabled sl) (priority sl) ty sl)
  = set_type ty sl.
Proof.
  intros [Hcat Hc Hprice Hty] Hcategory.
  apply slot_eq; simpl; try done; [congruence|by rewrite Hprice, Hc].
Qed.

Lemma visited_after_ne p r r' : front p r → r' ≠ r → visited (after r p) r' = visited p r'.
Proof.
  destruct r as [| | |k|k|k]; simpl; try done; intros Hk;
    destruct r' as [| | |j|j|j]; simpl; try done; intros Hne;
    apply bool_decide_ext; (assert (j ≠ k) by congruence); lia.
Qed.

Lemma enabledOf_hatch s : enabledAt (Some (enabledOf s)) 0 = enabled (cargoHatch s).
Proof. done. Qed.

Lemma prioritiesOf_hatch s : hatchPriority (Some (prioritiesOf s)) = priority (cargoHatch s).
Proof. done. Qed.

Lemma lookup_fmap_app_l {A} (f : Slot → A) (l1 : list Slot) (l2 : list A) i sl :
  l1 !! i = Some sl → ((f <$> l1) ++ l2) !! i = Some (f sl).
Proof.
  intros Hsl. rewrite lookup_app_l by (rewrite length_fmap; by eapply lookup_lt_Some).
  by rewrite list_lookup_fmap, Hsl.
Qed.

Lemma lookup_fmap_app_r {A} (f : Slot → A) (l1 : list Slot) (l2 : list A) i :
  ((f <$> l1) ++ l2) !! (length l1 + i)%nat = l2 !! i.
Proof.
  rewrite lookup_app_r by (rewrite length_fmap; lia). rewrite length_fmap.
  f_equal. lia.
Qed.

Lemma readAt_standard s i sl :
  standard s !! i = Some sl →
  enabledAt (Some (enabledOf s)) (i + 1) = enabled sl
  ∧ priorityAt (Some (prioritiesOf s)) (i + 1) = priority sl
  ∧ compAt (comps_standard (compsOf s)) i = id sl.
Proof.
  intros Hsl. unfold enabledAt, priorityAt, compAt, enabledOf, prioritiesOf. simpl.
  replace (i + 1)%nat with (S i) by lia. simpl.
  rewrite !(lookup_fmap_app_l _ _ _ _ sl) by done.
  by rewrite !list_lookup_fmap, Hsl.
Qed.

Lemma readAt_hardpoints s i sl :
  hardpoints s !! i = Some sl →
  enabledAt (Some (enabledOf s)) (length (standard s) + 1 + i) = enabled sl
  ∧ priorityAt (Some (prioritiesOf s)) (length (standard s) + 1 + i) = priority sl
  ∧ compAt (comps_hardpoints (compsOf s)) i = id sl.
Proof.
  intros Hsl. unfold enabledAt, priorityAt, compAt, enabledOf, prioritiesOf. simpl.
  replace (length (standard s) + 1 + i)%nat with (S (length (standard s) + i)) by lia.
  simpl. rewrite !lookup_fmap_app_r.
  rewrite !(lookup_fmap_app_l _ _ _ _ sl) by done.
  by rewrite !list_lookup_fmap, Hsl.
Qed.

Lemma readAt_internal s i sl :
  internal s !! i = Some sl →
  enabledAt (Some (enabledOf s)) (length (standard s) + 1 + length (hardpoints s) + i)
  = enabled sl
  ∧ priorityAt (Some (prioritiesOf s)) (length (standard s) + 1 + length (hardpoints s) + i)
    = priority sl
  ∧ compAt (comps_internal (compsOf s)) i = id sl.
Proof.
  intros Hsl. unfold enabledAt, priorityAt, compAt, enabledOf, prioritiesOf. simpl.
  replace (length (standard s) + 1 + length (hardpoints s) + i)%nat
    with (S (length (standard s) + (length (hardpoints s) + i))) by lia.
  simpl. rewrite !lookup_fmap_app_r.
  by rewrite !list_lookup_fmap, Hsl.
Qed.

Lemma laidSlot_fresh eng p r sl : visited p r = false → laidSlot eng p r sl = sl.
Proof. intros Hv. unfold laidSlot. rewrite Hv. by destruct r. Qed.

(** One turn of a loop of a rebuild: the slot gets back what it held. *)
Lemma rebuildSlot_step eng p s t r sl category ty :
  installable r → front p r → Some category = categoryOf r →
  (∀ x, ty x = typeLaid eng r x) →
  Shaped s → Tiered s → getSlot s r = Some sl →
  Restoring eng p s t → Building eng p t → sameSize s t →
  ∃ t', buildSlot r category (enabled sl) (priority sl) ty (id sl) t = Some t'
    ∧ Restoring eng (after r p) s t' ∧ Building eng (after r p) t' ∧ sameSize s t'.
Proof.
  intros Hr Hf Hcat Hty Hshape Htiers Hsl [Hslots Rid Rprops Rbid Rscm Rccm] HB Hz.
  assert (getSlot t r = Some sl) as Ht.
  { rewrite Hslots, Hsl. simpl.
    by rewrite (laidSlot_fresh _ _ _ _ (front_not_visited p r Hf)). }
  destruct (shaped_slots s Hshape r sl Hr Hsl) as [Ocat Oc Oprice Oty].
  set (x := resetSlot category (enabled sl) (priority sl) (ty sl) sl).
  assert (is_Some (buildSlot r category (enabled sl) (priority sl) ty (id sl) t))
    as [t' Hbuild].
  { unfold buildSlot. rewrite Ht. simpl. fold x.
    eapply (fill_slot_is_Some _ r x); try done.
    - by eapply getSlot_setSlot_eq.
    - by intros ->.
    - intros n Hn Hact. rewrite (same_priorityBands _ _ (setSlot_power r x t)).
      apply andb_true_iff in Hact as [Hp Hen]. simpl in Hen.
      eapply bandAt_is_Some_length; [symmetry; apply (size_priorityBands _ _ Hz)|].
      eapply (Htiers r sl); [by destruct r|done|done|by rewrite Oc|].
      left. by apply truthy_true. }
  exists t'. split; [done|].
  destruct (buildSlot_step eng p r category _ _ ty _ t t' Hr Hf Hcat Hty HB Hbuild)
    as (HB' & Hz' & sl' & Hsl' & Hb).
  rewrite Ht in Hsl'. injection Hsl' as <-.
  rewrite Rccm, <- Oc in Hb. rewrite Oc in Hb at 1.
  rewrite (restored_slot _ r sl category (ty sl)) in Hb by done.
  pose proof Hb as [Bid Bprops Bhatch Bbulk Bbid BshipC Bstd Bhp Bint Bscm Bccm].
  destruct (setSlot_fields r (set_type (ty sl) sl) t) as (Fid & Fprops & Fbid & Fscm & Fccm).
  split; [|split; [done|by eapply sameSize_trans]].
  constructor; try congruence.
  intros r'. rewrite (sameBase_getSlot _ _ _ Hb), (getSlot_setSlot _ _ _ sl) by done.
  case_decide as Heq.
  - subst r'. rewrite Hsl. simpl. unfold laidSlot.
    rewrite (visited_after_front p r Hf), Hty. by destruct r.
  - rewrite Hslots. destruct (getSlot s r') as [sl'|]; [|done]. simpl. f_equal.
    unfold laidSlot. rewrite (visited_after_ne p r r') by done. done.
Qed.

Lemma useBulkhead_prevented_is_Some X index :
  is_Some (Components_bulkheads (shipId X) index) → enabled (bulkheads X) = false →
  is_Some (useBulkhead X index true).
Proof.
  intros [bh Hbh] Hen. unfold useBulkhead. rewrite Hbh. simpl.
  eapply updateStats_prevent_is_Some; [done|].
  unfold activeC. simpl. rewrite Hen.
  intros [Ha|Ha]; [destruct (c (bulkheads X))|]; by rewrite ?andb_false_r in Ha.
Qed.

Lemma useBulkhead_prevented_frame X index X' :
  enabled (bulkheads X) = false →
  useBulkhead X index true = Some X' →
  cargoHatch X' = cargoHatch X ∧ priorityBands X' = priorityBands X.
Proof.
  intros Hen. unfold useBulkhead.
  destruct (Components_bulkheads (shipId X) index) as [bh|]; simpl; [|done].
  intros HU.
  eapply updateStats_prevent_traded in HU as (_ & HbU & _ & _ & _ & _ & _ & _ & Hidle & _);
    [|done].
  split; [by rewrite (same_cargoHatch _ _ HbU)|].
  rewrite Hidle; [done| |]; unfold activeC; simpl; rewrite Hen;
    [destruct (c (bulkheads X))|]; by rewrite ?andb_false_r.
Qed.

(** The first part of [buildWith] succeeds when the bulkheads exist and
    the tier of an enabled cargo hatch does. *)
Lemma buildPrefix_is_Some s index priorities enabled' :
  Framed s →
  is_Some (Components_bulkheads (shipId s) index) →
  (enabledAt enabled' 0 = true →
   is_Some (bandAt (priorityBands s) (hatchPriority priorities))) →
  is_Some (buildPrefix s index priorities enabled').
Proof.
  intros [[Hhc Hhcat] (Hben & Hbcat & Hbty) _] Hbh Hband.
  unfold buildPrefix. cbv zeta.
  set (s1 := set_totalDps 0 _).
  set (s2 := set_bulkheads (set_c None (bulkheads s1)) s1).
  assert (shipId s2 = shipId s ∧ cargoHatch s2 = cargoHatch s
          ∧ bulkheads s2 = set_c None (bulkheads s)
          ∧ priorityBands s2 = priorityBands s) as (Eid & Ehatch & Ebulk & Ebands).
  { repeat split; reflexivity. }
  clearbody s2. clear s1.
  destruct (useBulkhead_prevented_is_Some s2 index) as [s3 H3];
    [by rewrite Eid|by rewrite Ebulk|].
  rewrite H3. cbn [mbind option_bind].
  destruct (useBulkhead_prevented_frame s2 index s3) as [Fhatch Fbands];
    [by rewrite Ebulk|done|].
  pose proof (hatch_stage s3 (enabledAt enabled' 0) (hatchPriority priorities)) as Hstage.
  cbv zeta in Hstage. rewrite Hstage by (by rewrite Fhatch, Ehatch). clear Hstage.
  destruct (enabledAt enabled' 0) eqn:Hen; [|by eexists].
  apply adjustBand_is_Some. simpl.
  eapply bandAt_is_Some_length; [|by apply Hband].
  by rewrite length_fmap, Fbands, Ebands.
Qed.

Lemma set_type_same (sl : Slot) ty : type sl = ty → set_type ty sl = sl.
Proof. intros <-. by destruct sl. Qed.

(** [markEngine] in a rebuild. *)
Lemma markEngine_restoring eng p s t k :
  (k = 1 ∨ k = 2)%nat → (length (standard t) ≤ doneStandard p)%nat →
  (k < length (standard s))%nat →
  Restoring eng p s t → Building eng p t → sameSize s t →
  ∃ t', markEngine k t = Some t'
    ∧ Restoring (λ j, eng j || bool_decide (j = k)) p s t'
    ∧ Building (λ j, eng j || bool_decide (j = k)) p t' ∧ sameSize s t'.
Proof.
  intros Hk Hdone Hlt [Hslots Rid Rprops Rbid Rscm Rccm] HB Hz.
  destruct (lookup_lt_is_Some_2 (standard t) k) as [x Hx].
  { by rewrite (size_standard _ _ Hz). }
  assert (markEngine k t = Some (setSlot (RStandard k) (set_type ENG x) t)) as Hmark.
  { unfold markEngine. by rewrite Hx. }
  exists (setSlot (RStandard k) (set_type ENG x) t). split; [done|].
  destruct (markEngine_step eng p t k _ Hk Hdone HB Hmark) as (HB' & Hz' & _).
  split; [|split; [done|by eapply sameSize_trans]].
  destruct (setSlot_fields (RStandard k) (set_type ENG x) t) as (Fid & Fprops & Fbid & Fscm & Fccm).
  constructor; try congruence.
  intros r'. rewrite (getSlot_setSlot _ _ _ x) by done.
  pose proof (Hslots r') as Hr'.
  case_decide as Heq.
  - subst r'. destruct (lookup_lt_is_Some_2 (standard s) k Hlt) as [sl Hsl].
    assert (visited p (RStandard k) = true) as Hvis.
    { apply bool_decide_eq_true. apply lookup_lt_Some in Hx. lia. }
    change (getSlot s (RStandard k)) with (standard s !! k) in *.
    change (getSlot t (RStandard k)) with (standard t !! k) in *.
    rewrite Hsl, Hx in *. simpl in *. rewrite Hvis in *. injection Hr' as ->. f_equal.
    rewrite bool_decide_eq_true_2 by done. rewrite orb_true_r.
    by destruct Hk as [-> | ->].
  - rewrite Hr'. destruct (getSlot s r') as [sl|]; [|done]. simpl. f_equal.
    unfold laidSlot. destruct r' as [| | |j|j|j]; try done. simpl.
    rewrite (bool_decide_eq_false_2 (j = k)); [by rewrite orb_false_r|].
    intros ->. by apply Heq.
Qed.

Lemma buildSuffix_is_Some t :
  (∃ sl n, standard t !! 0%nat = Some sl ∧ c sl = Some n) →
  (∃ sl n, standard t !! 2%nat = Some sl ∧ c sl = Some n) →
  is_Some (buildSuffix t).
Proof.
  intros (pp & plant & Hpp & Hplant) (fs & fsd & Hfs & Hfsd). unfold buildSuffix.
  destruct (updatePower_is_Some t pp plant Hpp Hplant) as [s12 H12]. rewrite H12. simpl.
  pose proof (updatePower_base _ _ H12) as Hb.
  assert (is_Some (updateJumpStats s12)) as [s13 H13].
  { unfold updateJumpStats. rewrite (same_standard _ _ Hb), Hfs. simpl. rewrite Hfsd.
    by eexists. }
  rewrite H13. simpl.
  apply updateJumpStats_spec in H13 as (fs' & fsd' & _ & _ & ->).
  unfold updateTopSpeed. simpl. rewrite (same_standard _ _ Hb).
  destruct (standard t !! 1%nat) as [th|] eqn:Hth; [by eexists|].
  apply lookup_ge_None in Hth. apply lookup_lt_Some in Hfs. lia.
Qed.

Lemma ship_eq s s' :
  sameBase s s' → samePower s s' → sameTally s s' → sameDerived s s' → s' = s.
Proof.
  intros [] [] [] []. destruct s, s'. simpl in *. by subst.
Qed.

(** The slots determine the figures of a consistent ship. *)
Lemma consistent_unique s s' :
  SaneCatalogue →
  sameBase s s' → length (priorityBands s') = length (priorityBands s) →
  Shaped s → Supplied s → Tallied s → Derived s →
  Supplied s' → Tallied s' → Derived s' →
  s' = s.
Proof.
  intros Hsane Hb Hlen Hshape [Hraw [Hsum Hav] _] [Hcount Hl Hm Ha] [Hspeed Hjump Hshield]
    [Hraw' [Hsum' Hav'] _] [Hcount' Hl' Hm' Ha'] [Hspeed' Hjump' Hshield'].
  pose proof Hb as [Bid Bprops Bhatch Bbulk Bbid BshipC Bstd Bhp Bint Bscm Bccm].
  assert (samePower s s') as Hp.
  { assert (Forall2 rawEq (priorityBands s') (priorityBands s)) as Hre.
    { apply Forall2_same_length_lookup. split; [done|]. intros i b' b Hi' Hi.
      destruct (Hraw i b Hi) as (Hd & Hr & Ho). destruct (Hraw' i b' Hi') as (Hd' & Hr' & Ho').
      rewrite !(sameBase_overPowered _ _ _ Hb) in *. split; [congruence|]. split; congruence. }
    pose proof (sumBands_ext _ _ Hre 0 0) as Heq. rewrite Hsum, Hsum' in Heq.
    injection Heq as E1 E2 E3.
    destruct Hav as (pp & plant & Hpp & Hplant & Hpa).
    destruct Hav' as (pp' & plant' & Hpp' & Hplant' & Hpa').
    rewrite Bstd, Hpp in Hpp'. injection Hpp' as <-.
    rewrite Hplant in Hplant'. injection Hplant' as <-.
    constructor; congruence. }
  assert (sameTally s s') as Ht.
  { destruct Hcount as [Hfuel Hcargo Harm Hsh Hcost Hmass Hdps].
    destruct Hcount' as [Hfuel' Hcargo' Harm' Hsh' Hcost' Hmass' Hdps'].
    specialize (Hsh Hsane). specialize (Hdps Hsane).
    specialize (Hsh' Hsane). specialize (Hdps' Hsane).
    rewrite !(sameBase_overSlots _ _ _ Hb), ?BshipC, ?Bccm, ?Bprops in *.
    assert (fuelCapacity s' = fuelCapacity s) as Ef by congruence.
    assert (cargoCapacity s' = cargoCapacity s) as Ec by congruence.
    assert (armourAdded s' = armourAdded s) as Ea by congruence.
    assert (unladenMass s' = unladenMass s) as Em by congruence.
    assert (armourMultiplier s' = armourMultiplier s) as Eam by congruence.
    constructor; congruence. }
  assert (sameDerived s s') as Hd.
  { destruct Ht as [Tf Tc Tl Ta Tam Ts Tt Tu Td Tar].
    destruct (shaped_fsd s Hshape) as (fs & fsd & Hfs & Hfsd).
    destruct (lookup_lt_is_Some_2 (standard s) 1) as [th Hth].
    { apply lookup_lt_Some in Hfs. lia. }
    pose proof (Hspeed th Hth) as Es. pose proof (Hspeed' th) as Es'.
    rewrite Bstd, Bprops, Tu, Tf in Es'. specialize (Es' Hth). rewrite <- Es in Es'.
    injection Es' as E1 E2.
    pose proof (Hjump fs fsd Hfs Hfsd) as (J1 & J2 & J3 & J4 & J5 & J6).
    pose proof (Hjump' fs fsd) as Ej. rewrite Bstd, Tu, Tf, Tl, Tc in Ej.
    destruct (Ej Hfs Hfsd) as (J1' & J2' & J3' & J4' & J5' & J6').
    constructor; try congruence.
    rewrite Hshield, Hshield'. apply shieldStrength_ext; [|done..].
    rewrite Bint. apply Forall2_same_length_lookup. split; [done|].
    intros i a b -> [= <-]. apply shieldAlike_refl. }
  by apply ship_eq.
Qed.

Lemma Restoring_eng eng eng' p s t :
  (∀ r sl, typeLaid eng r sl = typeLaid eng' r sl) →
  Restoring eng p s t → Restoring eng' p s t.
Proof.
  intros Heng [Hslots ? ? ? ? ?]. constructor; try done.
  intros r. rewrite Hslots. destruct (getSlot s r) as [sl|]; [|done]. simpl.
  unfold laidSlot. by rewrite Heng.
Qed.

(** The loops are over: every slot is what it was. *)
Lemma Restoring_done p s t :
  Shaped s → Restoring (λ _, true) p s t → cargoHatch t = cargoHatch s →
  bulkheads t = bulkheads s → shipC t = shipC s → sameBase s t.
Proof.
  intros Hshape [Hslots Rid Rprops Rbid Rscm Rccm] Rhatch Rbulk RshipC.
  assert (∀ r, installable r → getSlot t r = getSlot s r) as Hsame.
  { intros r Hr. rewrite Hslots. destruct (getSlot s r) as [sl|] eqn:Hsl; [|done].
    simpl. f_equal. destruct (shaped_slots s Hshape r sl Hr Hsl) as [_ _ _ Hty].
    unfold laidSlot. destruct (visited p r); destruct r; try done;
      by apply set_type_same. }
  constructor; try done.
  - apply list_eq. intros k. by apply (Hsame (RStandard k)).
  - apply list_eq. intros k. by apply (Hsame (RHardpoint k)).
  - apply list_eq. intros k. by apply (Hsame (RInternal k)).
Qed.

(** A rebuild of a consistent ship succeeds and gives every slot back
    what it held. *)
Lemma rebuild_restores s :
  Shaped s → Tiered s →
  ∃ s', rebuild s = Some s' ∧ sameBase s s'
    ∧ length (priorityBands s') = length (priorityBands s).
Proof.
  intros Hshape Htiers. unfold rebuild. rewrite buildWith_unfold.
  pose proof (Shaped_Framed s Hshape) as Hframe.
  destruct (shaped_hatch s Hshape) as [Hhc Hhcat].
  destruct (shaped_bulkheads s Hshape) as (Hbc & Hbsome & Hben & Hbcat & Hbty & Hbprice).
  destruct (shaped_fsd s Hshape) as (fs & fsd & Hfs & Hfsd).
  destruct (shaped_plant s Hshape) as (pp & plant & Hpp & Hplant).
  assert (2 < length (standard s))%nat as Hlen2 by (by eapply lookup_lt_Some).
  set (cs := compsOf s). set (pr := Some (prioritiesOf s)). set (en := Some (enabledOf s)).
  (* the first part *)
  destruct (buildPrefix_is_Some s (comps_bulkheads cs) pr en) as [s6 H6]; [done|..].
  { simpl. by rewrite <- Hbc. }
  { unfold en, pr. rewrite enabledOf_hatch, prioritiesOf_hatch. intros Hen.
    eapply (Htiers RCargoHatch (cargoHatch s)); [done|done|done|done|by right]. }
  rewrite H6. cbn [mbind option_bind].
  destruct (buildPrefix_spec _ _ _ _ _ Hframe H6)
    as (HB6 & Hz6 & Hstd6 & Hhp6 & Hint6 & HshipC6 & Hid6 & Hprops6 & Hscm6 & Hccm6 & Hbid6
        & Hhatch6 & bh & Hbh & Hbulk6).
  assert (cargoHatch s6 = cargoHatch s) as Ehatch.
  { rewrite Hhatch6. unfold en, pr. rewrite enabledOf_hatch, prioritiesOf_hatch.
    by destruct (cargoHatch s). }
  assert (bulkheads s6 = bulkheads s) as Ebulk.
  { rewrite Hbulk6. simpl in Hbh. rewrite <- Hbc in Hbh.
    apply slot_eq; simpl; try done. rewrite Hbprice, Hbh. done. }
  assert (Restoring (λ _, false) (Build_Progress 0 0 0) s s6) as HR6.
  { constructor; try done. intros [| | |k|k|k]; simpl; rewrite ?Hstd6, ?Hhp6, ?Hint6,
      ?HshipC6, ?Ehatch, ?Ebulk; try done.
    - by destruct (standard s !! k).
    - by destruct (hardpoints s !! k).
    - by destruct (internal s !! k). }
  (* the standard slots *)
  destruct (forEach_seq_is_Some
              (λ i t, Restoring (λ _, false) (Build_Progress i 0 0) s t
                      ∧ Building (λ _, false) (Build_Progress i 0 0) t ∧ sameSize s t)
              (buildStandard (Some cs) pr en) (length (standard s)) 0%nat s6)
    as (s7 & H7 & HR7 & HB7 & Hz7); [done| |].
  { intros i t Hi (HR & HB & Hz).
    destruct (lookup_lt_is_Some_2 (standard s) i) as [sl Hsl]; [lia|].
    rewrite buildStandard_buildSlot. unfold cs, pr, en.
    destruct (readAt_standard s i sl Hsl) as (-> & -> & ->).
    destruct (rebuildSlot_step (λ _, false) (Build_Progress i 0 0) s t (RStandard i) sl 0
                (λ _, SYS))
      as (t' & Ht' & HR' & HB' & Hz'); try done.
    by exists t'. }
  rewrite H7. cbn [mbind option_bind]. simpl in HR7, HB7.
  (* the engines *)
  destruct (markEngine_restoring (λ _, false)
              (Build_Progress (length (standard s)) 0 0) s s7 1%nat)
    as (s8 & H8 & HR8 & HB8 & Hz8); try done; [by left|simpl; rewrite (size_standard _ _ Hz7); lia|lia|].
  rewrite H8. cbn [mbind option_bind].
  destruct (markEngine_restoring (λ j, false || bool_decide (j = 1%nat))
              (Build_Progress (length (standard s)) 0 0) s s8 2%nat)
    as (s9 & H9 & HR9 & HB9 & Hz9); try done; [by right|simpl; rewrite (size_standard _ _ Hz8); lia|].
  rewrite H9. cbn [mbind option_bind].
  apply (Restoring_eng _ (λ _, true)) in HR9; [|intros; apply typeLaid_marked].
  apply (Building_eng _ (λ _, true)) in HB9; [|intros; apply typeLaid_marked].
  (* the hardpoints *)
  rewrite (size_hardpoints _ _ Hz9).
  destruct (forEach_seq_is_Some
              (λ i t, Restoring (λ _, true) (Build_Progress (length (standard s)) i 0) s t
                      ∧ Building (λ _, true) (Build_Progress (length (standard s)) i 0) t
                      ∧ sameSize s t)
              (buildHardpoint (Some cs) pr en (length (standard s) + 1))
              (length (hardpoints s)) 0%nat s9)
    as (s10 & H10 & HR10 & HB10 & Hz10); [done| |].
  { intros i t Hi (HR & HB & Hz).
    destruct (lookup_lt_is_Some_2 (hardpoints s) i) as [sl Hsl]; [lia|].
    rewrite buildHardpoint_buildSlot. unfold cs, pr, en.
    destruct (readAt_hardpoints s i sl Hsl) as (-> & -> & ->).
    destruct (rebuildSlot_step (λ _, true) (Build_Progress (length (standard s)) i 0) s t
                (RHardpoint i) sl 1 (λ sl, if truthy (maxClass sl) then WEP else SYS))
      as (t' & Ht' & HR' & HB' & Hz'); try done.
    by exists t'. }
  rewrite H10. cbn [mbind option_bind]. simpl in HR10, HB10.
  (* the internal slots *)
  rewrite (size_internal _ _ Hz10).
  destruct (forEach_seq_is_Some
              (λ i t, Restoring (λ _, true)
                        (Build_Progress (length (standard s)) (length (hardpoints s)) i) s t
                      ∧ Building (λ _, true)
                          (Build_Progress (length (standard s)) (length (hardpoints s)) i) t
                      ∧ sameSize s t)
              (buildInternal (Some cs) pr en
                 (length (standard s) + 1 + length (hardpoints s)))
              (length (internal s)) 0%nat s10)
    as (s11 & H11 & HR11 & HB11 & Hz11); [done| |].
  { intros i t Hi (HR & HB & Hz).
    destruct (lookup_lt_is_Some_2 (internal s) i) as [sl Hsl]; [lia|].
    rewrite buildInternal_buildSlot. unfold cs, pr, en.
    destruct (readAt_internal s i sl Hsl) as (-> & -> & ->).
    destruct (rebuildSlot_step (λ _, true)
                (Build_Progress (length (standard s)) (length (hardpoints s)) i) s t
                (RInternal i) sl 2 (λ _, SYS))
      as (t' & Ht' & HR' & HB' & Hz'); try done.
    by exists t'. }
  rewrite H11. cbn [mbind option_bind]. simpl in HR11, HB11.
  (* the end *)
  pose proof HB11 as HB.
  apply Building_done in HB as (Htal & Hraw & Htiers11 & _);
    [|simpl; rewrite ?(size_standard _ _ Hz11), ?(size_hardpoints _ _ Hz11),
        ?(size_internal _ _ Hz11); lia..].
  assert (sameBase s s11) as Hb11.
  { apply (Restoring_done _ _ _ Hshape HR11).
    - pose proof (restoring_slots _ _ _ _ HR11 RCargoHatch) as E. simpl in E. congruence.
    - pose proof (restoring_slots _ _ _ _ HR11 RBulkheads) as E. simpl in E. congruence.
    - pose proof (restoring_slots _ _ _ _ HR11 RShip) as E. simpl in E. congruence. }
  destruct (buildSuffix_is_Some s11) as [s' Hs'].
  { exists pp, plant. by rewrite (same_standard _ _ Hb11). }
  { exists fs, fsd. by rewrite (same_standard _ _ Hb11). }
  exists s'. split; [done|].
  destruct (buildSuffix_spec _ _ Hraw Htiers11 Hs') as (Hb & _ & _ & _ & _ & _ & Hlen).
  split; [by eapply sameBase_trans|]. rewrite Hlen. apply (size_priorityBands _ _ Hz11).
Qed.

(** A rebuild of a consistent ship gives the ship itself. *)
Lemma rebuild_fixed s :
  SaneCatalogue →
  Shaped s → Supplied s → Tallied s → Derived s → rebuild s = Some s.
Proof.
  intros Hsane Hshape Hsup Htal Hder.
  destruct (rebuild_restores s Hshape (supplied_tiers _ Hsup)) as (s' & Hs' & Hb & Hlen).
  rewrite Hs'. f_equal.
  destruct (buildWith_spec _ _ _ _ _ (Shaped_Framed _ Hshape) Hs') as (_ & Hsup' & Htal' & Hder').
  by apply consistent_unique.
Qed.

End Rebuild.

(** *** Sessions *)

Section Sessions.
Context `{Collaborators}.

(** *** The cost list *)

Lemma costList_no_hatch s : RCargoHatch ∉ costList s.
Proof.
  unfold costList. rewrite !elem_of_cons, !elem_of_app, !list_elem_of_fmap, list_elem_of_singleton.
  intros [?|[(? & ? & _)|[(? & ? & _)|[(? & ? & _)|?]]]]; done.
Qed.

(** C7.  On a reachable ship [applyDiscounts] leaves in every item of the
    cost list the cost of its component times the ship multiplier for
    the ship entry and times the component multiplier for every other
    entry (an item without a component costs nothing), stores the two
    multipliers, and sets the total cost to the sum of the discounted
    costs of the items whose cost is included.  The multipliers are
    numbers of the embedding, integers: a discount of 10% on prices in
    hundredths is the multiplier 90. *)
Theorem applyDiscounts_costs s shipMultiplier componentMultiplier :
  reachable s →
  let s' := applyDiscounts s shipMultiplier componentMultiplier in
  (∀ r item, r ∈ costList s' → getSlot s' r = Some item →
     discountedCost item
     = priceOf (c item) * (if decide (r = RShip) then shipMultiplier else componentMultiplier))
  ∧ totalCost s'
    = sumOver (λ item, if incCost item then discountedCost item else 0) s' (costList s')
  ∧ shipCostMultiplier s' = shipMultiplier
  ∧ componentCostMultiplier s' = componentMultiplier.
Proof.
  intros Hs s'.
  destruct (reachable_consistent s Hs) as (Hsh & Hsu & Hta & Hde).
  destruct (applyDiscounts_step s shipMultiplier componentMultiplier Hsh Hsu Hta Hde)
    as (Hsh' & _ & Hta' & _).
  fold s' in Hsh', Hta'.
  destruct (applyDiscounts_spec s shipMultiplier componentMultiplier)
    as (_ & _ & _ & _ & _ & _ & Hm1 & Hm2 & _).
  fold s' in Hm1, Hm2.
  assert (∀ r item, r ≠ RCargoHatch → getSlot s' r = Some item →
     discountedCost item
     = priceOf (c item) * (if decide (r = RShip) then shipMultiplier else componentMultiplier))
    as Hitems.
  { intros r item Hr Hitem.
    destruct r as [| | |i|i|i]; try done; simpl in Hitem.
    - injection Hitem as <-. destruct (shaped_hull s' Hsh') as (_ & _ & ->). by rewrite Hm1.
    - injection Hitem as <-.
      destruct (shaped_bulkheads s' Hsh') as (_ & _ & _ & _ & _ & ->). by rewrite Hm2.
    - destruct (shaped_slots s' Hsh' (RStandard i) item I Hitem) as [_ _ -> _]. by rewrite Hm2.
    - destruct (shaped_slots s' Hsh' (RHardpoint i) item I Hitem) as [_ _ -> _]. by rewrite Hm2.
    - destruct (shaped_slots s' Hsh' (RInternal i) item I Hitem) as [_ _ -> _]. by rewrite Hm2. }
  split; [|split; [|done]].
  - intros r item Hr. apply Hitems. intros ->. by apply costList_no_hatch in Hr.
  - rewrite sumOver_costList.
    rewrite (counted_cost s' (tallied_counted s' Hta')). f_equal.
    apply overSlots_ext_in. intros r sl Hr1 Hr2 Hsl.
    specialize (Hitems r sl Hr2 Hsl). rewrite decide_False in Hitems by done.
    unfold costOf, costOfC. rewrite Hitems, Hm2.
    destruct (c sl); simpl; [done|]. by destruct (incCost sl).
Qed.

(** C8, as amended.  In every reachable ship a slot of the three slot
    groups holds the component that the catalogue of its group gives for
    its id: a component only together with an id, and no component under
    an id that the catalogue does not know.  Its discounted cost is the
    cost of the component times the component cost multiplier, and zero
    without a component. *)
Theorem slot_contents s r sl :
  reachable s → installable r → getSlot s r = Some sl →
  c sl = id sl ≫= catalogueAt r
  ∧ (is_Some (c sl) → is_Some (id sl))
  ∧ discountedCost sl
    = match c sl with
      | Some n => cost n * componentCostMultiplier s
      | None => 0
      end.
Proof.
  intros Hs Hr Hsl.
  destruct (reachable_consistent s Hs) as (Hsh & _).
  destruct (shaped_slots s Hsh r sl Hr Hsl) as [_ Hc Hd _].
  split; [done|]. split.
  - rewrite Hc. destruct (id sl); [by eexists|]. by intros [? ?].
  - rewrite Hd. by destruct (c sl).
Qed.

(** *** The cumulative sums grow with the tier *)

Lemma drawOf_nonneg s r sl k u :
  DrawingCatalogue → Shaped s → r ≠ RShip → getSlot s r = Some sl → 0 ≤ drawOf k u sl.
Proof.
  intros Hcat Hsh Hr Hsl. unfold drawOf, drawOfC.
  destruct (c sl) as [n|] eqn:Hn; [|done].
  destruct (enabled sl) eqn:Hen; simpl; [|done].
  assert (0 ≤ power n) as Hp; [|by repeat case_match].
  destruct r as [| | |i|i|i]; try done; simpl in Hsl.
  - injection Hsl as <-. destruct (shaped_hatch s Hsh) as [Hc _].
    rewrite Hc in Hn. injection Hn as <-. apply Hcat.
  - injection Hsl as <-. destruct (shaped_bulkheads s Hsh) as (_ & _ & Hen' & _). congruence.
  - destruct (shaped_slots s Hsh (RStandard i) sl I Hsl) as [_ Hc _ _].
    rewrite Hn in Hc. destruct (id sl) as [k'|]; [|done]. simpl in Hc.
    by eapply drawing_standard.
  - destruct (shaped_slots s Hsh (RHardpoint i) sl I Hsl) as [_ Hc _ _].
    rewrite Hn in Hc. destruct (id sl) as [k'|]; [|done]. simpl in Hc.
    by eapply drawing_hardpoints.
  - destruct (shaped_slots s Hsh (RInternal i) sl I Hsl) as [_ Hc _ _].
    rewrite Hn in Hc. destruct (id sl) as [k'|]; [|done]. simpl in Hc.
    by eapply drawing_internal.
Qed.

Lemma overPowered_nonneg s k u :
  DrawingCatalogue → Shaped s → 0 ≤ overPowered (drawOf k u) s.
Proof.
  intros Hcat Hsh. unfold overPowered, overSlots.
  assert (0 ≤ drawOf k u (cargoHatch s)) by by apply (drawOf_nonneg s RCargoHatch).
  assert (0 ≤ drawOf k u (bulkheads s)) by by apply (drawOf_nonneg s RBulkheads).
  assert (0 ≤ total (drawOf k u) (standard s)).
  { apply total_nonneg. intros sl [i Hi]%list_elem_of_lookup_1.
    by apply (drawOf_nonneg s (RStandard i)). }
  assert (0 ≤ total (drawOf k u) (hardpoints s)).
  { apply total_nonneg. intros sl [i Hi]%list_elem_of_lookup_1.
    by apply (drawOf_nonneg s (RHardpoint i)). }
  assert (0 ≤ total (drawOf k u) (internal s)).
  { apply total_nonneg. intros sl [i Hi]%list_elem_of_lookup_1.
    by apply (drawOf_nonneg s (RInternal i)). }
  lia.
Qed.

(** *** Builds with a flag for every slot *)

Lemma mutation_step s s' : mutation s s' → step s s'.
Proof. intros []; by econstructor. Qed.

Lemma wellFlagged_reachable s : wellFlagged s → reachable s.
Proof.
  induction 1 as [? ? ? ? ? ? ? _ Hb|? ? ? ? ? _ IH _ Hb|? ? _ IH Hm].
  - by eapply reachable_new.
  - eapply reachable_step; [exact IH|]. by eapply step_buildWith.
  - eapply reachable_step; [exact IH|]. by apply mutation_step.
Qed.

(** C9, as amended.  When no component of the catalogue has a negative
    power draw, and the power draws are integers, the cumulative sums
    of a ship do not decrease with the tier: for tiers [i < j],
    [retractedSum[i] ≤ retractedSum[j]] and
    [deployedSum[i] ≤ deployedSum[j]].  The ship is one that a session
    reaches by builds that pass a flag for every slot (or no flags) and
    by mutations with updates not prevented. *)
Theorem cumulative_sums_monotone s i j bi bj :
  DrawingCatalogue → wellFlagged s → (i < j)%nat →
  priorityBands s !! i = Some bi → priorityBands s !! j = Some bj →
  retractedSum bi ≤ retractedSum bj ∧ deployedSum bi ≤ deployedSum bj.
Proof.
  intros Hcat Hs%wellFlagged_reachable Hij Hi Hj.
  destruct (reachable_consistent s Hs) as (Hsh & [Hme [Hsum _] _] & _).
  assert (∀ k b, priorityBands s !! k = Some b →
            retractedSum b = sumBefore retractedSum (priorityBands s) k
                             + retracted b + retOnly b
            ∧ deployedSum b = sumBefore deployedSum (priorityBands s) k
                              + deployed b + retracted b) as Hrec.
  { intros k b Hk.
    pose proof (sumBands_step (priorityBands s) 0 0 k b) as Hstep.
    rewrite Hsum in Hstep. simpl in Hstep. specialize (Hstep Hk).
    destruct k; simpl; done. }
  assert (∀ d k bk b, priorityBands s !! k = Some bk →
            priorityBands s !! (k + d)%nat = Some b →
            retractedSum bk ≤ retractedSum b ∧ deployedSum bk ≤ deployedSum b) as Hmono.
  { induction d as [|d IH]; intros k bk b Hk Hb.
    - rewrite Nat.add_0_r in Hb. simplify_eq. lia.
    - destruct (lookup_lt_is_Some_2 (priorityBands s) (k + d)) as [bm Hbm].
      { apply lookup_lt_Some in Hb. lia. }
      destruct (IH k bk bm Hk Hbm) as [IHr IHd].
      replace (k + S d)%nat with (S (k + d)) in Hb by lia.
      destruct (Hrec _ _ Hb) as [Hr Hd]. simpl in Hr, Hd. rewrite Hbm in Hr, Hd.
      simpl in Hr, Hd.
      destruct (Hme _ _ Hb) as (Hdep & Hret & Hro).
      pose proof (overPowered_nonneg s (S (k + d)) Deployed Hcat Hsh).
      pose proof (overPowered_nonneg s (S (k + d)) Retracted Hcat Hsh).
      lia. }
  apply (Hmono (j - i)%nat i); [done|]. by replace (i + (j - i))%nat with j by lia.
Qed.



(** *** The slots after an install *)

Lemma updateStats_base s r n old preventUpdate s' :
  updateStats s r n old preventUpdate = Some s' → sameBase s s'.
Proof.
  destruct (getSlot s r) as [sl|] eqn:Hsl.
  - destruct preventUpdate.
    + intros HU. by destruct (updateStats_prevent_traded _ _ _ _ _ _ Hsl HU) as (_ & Hb & _).
    + rewrite (updateStats_refresh s r sl) by done.
      destruct (updateStats s r n old true) as [U|] eqn:HU; simpl; [|done].
      intros Hre. destruct (updateStats_prevent_traded _ _ _ _ _ _ Hsl HU) as (_ & Hb & _).
      destruct (refresh_spec _ _ _ Hre) as (Hb' & _). by eapply sameBase_trans.
  - unfold updateStats. rewrite Hsl. done.
Qed.

(** The slots after [use]: the slots after the block that vacates, with
    the target slot fitted. *)
Lemma use_slots s r sl i component preventUpdate s' :
  getSlot s r = Some sl → id sl ≠ i →
  use s r i component preventUpdate = Some s' →
  ∃ s1 sl1, vacateSimilar s r component preventUpdate = Some s1
    ∧ getSlot s1 r = Some sl1
    ∧ sameBase (setSlot r (fitted i component (componentCostMultiplier s1) sl1) s1) s'.
Proof.
  intros Hsl Hid. unfold use. rewrite Hsl. simpl.
  rewrite bool_decide_eq_false_2 by done.
  destruct (vacateSimilar s r component preventUpdate) as [s1|]; simpl; [|done].
  destruct (getSlot s1 r) as [sl1|] eqn:Hsl1; simpl; [|done].
  rewrite priceOf_use. intros Hup. exists s1, sl1. split; [done|]. split; [done|].
  by eapply updateStats_base.
Qed.

Lemma findIndex_None {A} (p : A → bool) l i x :
  findIndex p l = None → l !! i = Some x → p x = false.
Proof.
  revert i. induction l as [|y l IH]; intros i; simpl; [done|].
  destruct (p y) eqn:Hy; [done|].
  destruct (findIndex p l); [done|]. intros _.
  destruct i as [|i]; simpl; [by intros [= <-]|]. by apply IH.
Qed.

(** The block of [use] that vacates, for an internal slot and a
    component of a unique group, with updates not prevented. *)
Lemma vacateSimilar_internal s k sl n s1 :
  internal s !! k = Some sl → cat sl = Some 2 → uniqueGroup (grp n) = true →
  vacateSimilar s (RInternal k) (Some n) false = Some s1 →
  match findInternalByGroup s (grp n) with
  | Some j =>
      if decide (j = k) then s1 = s
      else ∃ sim, internal s !! j = Some sim ∧ holdsGroup (grp n) sim = true
             ∧ sameBase (setSlot (RInternal j) (vacated sim) s) s1
  | None => s1 = s
  end.
Proof.
  intros Hsl Hcat Hu. unfold vacateSimilar. simpl. rewrite Hsl. simpl.
  unfold catIs. rewrite bool_decide_eq_true_2 by done. rewrite Hu. simpl.
  destruct (findInternalByGroup s (grp n)) as [j|] eqn:Hj; [|by intros [= <-]].
  destruct (decide (j = k)) as [->|Hne].
  - rewrite bool_decide_eq_true_2 by done. simpl. by intros [= <-].
  - rewrite bool_decide_eq_false_2 by congruence. simpl.
    destruct (internal s !! j) as [sim|] eqn:Hsim; simpl; [|done].
    destruct (updateStats s (RInternal j) None (c sim) false) as [s_a|] eqn:Ha;
      simpl; [|done].
    pose proof (updateStats_base _ _ _ _ _ _ Ha) as Hb.
    pose proof Hb as [_ _ _ _ _ _ _ _ Hint _ _].
    assert (internal s_a !! j = Some sim) as -> by (by rewrite Hint). simpl.
    intros [= <-]. exists sim. split; [done|]. split.
    + apply findIndex_Some in Hj as (x & Hx & Hp). congruence.
    + exact (sameBase_setSlot s s_a (RInternal j) (vacated sim) Hb).
Qed.

Lemma holdsGroup_own sl n : c sl = Some n → holdsGroup (grp n) sl = true.
Proof.
  intros Hc. unfold holdsGroup, grpIs. rewrite Hc.
  destruct (String.eqb (grp n) "sg") eqn:Hsg; simpl; [done|].
  destruct (String.eqb (grp n) "psg") eqn:Hpsg; simpl; [done|].
  apply String.eqb_refl.
Qed.

Lemma holdsGroup_empty g sl : c sl = None → holdsGroup g sl = false.
Proof. intros Hc. unfold holdsGroup. by rewrite Hc. Qed.

(** What [updateStats] does to the statistics and the raw sums, with
    updates not prevented. *)
Lemma updateStats_traded s r sl n old s' :
  getSlot s r = Some sl → updateStats s r n old false = Some s' →
  traded s s' sl old n ∧ sameBase s s'.
Proof.
  intros Hsl. rewrite (updateStats_refresh s r sl) by done.
  destruct (updateStats s r n old true) as [U|] eqn:HU; simpl; [|done].
  intros Hre.
  destruct (updateStats_prevent_traded _ _ _ _ _ _ Hsl HU) as (Htr & Hb & _).
  destruct (refresh_spec _ _ _ Hre) as (Hb' & Ht' & _ & _ & Hpower).
  split; [|by eapply sameBase_trans].
  eapply traded_ext_r; [exact Ht'| |exact Htr].
  destruct (_ || _).
  - destruct Hpower as (s5 & Hs5 & [-> _ _ _]). by apply updatePower_sums in Hs5 as [? _].
  - destruct Hpower as [-> _ _ _]. apply rawEq_refl.
Qed.

(** The two calls of [updateStats] in a call of [use] that vacates
    another slot. *)
Lemma use_vacating s k sl i n s' j a :
  internal s !! k = Some sl → id sl ≠ i → cat sl = Some 2 → uniqueGroup (grp n) = true →
  findInternalByGroup s (grp n) = Some j → j ≠ k → internal s !! j = Some a →
  use s (RInternal k) i (Some n) false = Some s' →
  ∃ t, traded s t a (c a) None ∧ sameBase (setSlot (RInternal j) (vacated a) s) t
    ∧ traded t s' sl (c sl) (Some n)
    ∧ sameBase (setSlot (RInternal k) (fitted i (Some n) (componentCostMultiplier s) sl) t) s'.
Proof.
  intros Hsl Hid Hcat Hu Hfind Hne Ha Huse.
  assert (getSlot s (RInternal k) = Some sl) as Hg by done.
  unfold use in Huse. rewrite Hg in Huse. cbn [mbind option_bind] in Huse.
  rewrite bool_decide_eq_false_2 in Huse by done.
  unfold vacateSimilar in Huse. rewrite Hg in Huse. cbn [mbind option_bind] in Huse.
  unfold catIs in Huse. rewrite bool_decide_eq_true_2 in Huse by done.
  rewrite Hu, Hfind in Huse. cbn [andb negb] in Huse.
  rewrite bool_decide_eq_false_2 in Huse by congruence. cbn [andb negb] in Huse.
  rewrite Ha in Huse. cbn [mbind option_bind] in Huse.
  destruct (updateStats s (RInternal j) None (c a) false) as [s_a|] eqn:Hva;
    cbn [mbind option_bind] in Huse; [|done].
  destruct (updateStats_traded s (RInternal j) a None (c a) s_a Ha Hva) as [Htr Hb].
  pose proof Hb as [_ _ _ _ _ _ _ _ Hint _ Hccm].
  assert (internal s_a !! j = Some a) as Haj by (by rewrite Hint).
  rewrite Haj in Huse. cbn [mbind option_bind] in Huse. revert Huse.
  set (t := setSlot (RInternal j) (set_discountedCost 0 (set_c None (set_id None a))) s_a).
  assert (getSlot t (RInternal k) = Some sl) as Hk.
  { unfold t. simpl. rewrite list_lookup_insert_ne by done. by rewrite Hint. }
  rewrite Hk. cbn [mbind option_bind]. cbv zeta.
  pose proof (priceOf_use (Some n) (componentCostMultiplier t)) as Hp.
  cbv beta iota in Hp. rewrite Hp. clear Hp.
  intros Hup.
  match type of Hup with updateStats (setSlot _ ?x _) _ _ _ _ = _ => set (f := x) in * end.
  assert (getSlot (setSlot (RInternal k) f t) (RInternal k) = Some f) as Hf
    by (by eapply (getSlot_setSlot_eq t (RInternal k) sl)).
  destruct (updateStats_traded _ _ _ _ _ _ Hf Hup) as [Htr2 Hb2].
  exists t. split; [|split; [|split]].
  - eapply traded_ext_r; [apply (setSlot_tally (RInternal j) _ s_a)| |exact Htr].
    unfold t. apply rawEq_refl.
  - unfold t. by apply sameBase_setSlot.
  - eapply traded_mount; [apply sameMount_sym; apply (sameMount_contents sl i (Some n))|].
    eapply traded_ext_l; [apply sameTally_sym, (setSlot_tally (RInternal k) f t)| | |exact Htr2];
      done.
  - unfold f, fitted in *. replace (componentCostMultiplier s) with (componentCostMultiplier t).
    exact Hb2.
Qed.


(** C3, as amended.  A component of a ship-unique group is installed
    from the catalogue into an internal slot of a reachable ship, with
    updates not prevented, and at most one internal slot held a
    component of the group before.  When [use] returns, no internal slot
    but the target holds a component of the group; any other internal
    slot that held one is empty (no id, no component, discounted cost
    zero), and its statistics have been taken from the aggregates:
    every cumulative statistic and every raw sum of a tier is its value
    before the call, less what the vacated component counted for, less
    what the component that the target held counted for, plus what the
    installed component counts for. *)
Theorem use_unique_group s k i n s' :
  reachable s → i ≫= Components_internal = Some n → uniqueGroup (grp n) = true →
  (∀ j j' a b, internal s !! j = Some a → internal s !! j' = Some b →
     holdsGroup (grp n) a = true → holdsGroup (grp n) b = true → j = j') →
  use s (RInternal k) i (Some n) false = Some s' →
  (∀ j a, internal s' !! j = Some a → holdsGroup (grp n) a = true → j = k)
  ∧ (∀ j a sl, j ≠ k → internal s !! j = Some a → holdsGroup (grp n) a = true →
       internal s !! k = Some sl →
       (∃ a', internal s' !! j = Some a'
          ∧ id a' = None ∧ c a' = None ∧ discountedCost a' = 0)
       ∧ fuelCapacity s'
         = fuelCapacity s - fuelOfC (c a) - fuelOfC (c sl) + fuelOfC (Some n)
       ∧ cargoCapacity s'
         = cargoCapacity s - cargoOfC (c a) - cargoOfC (c sl) + cargoOfC (Some n)
       ∧ armourAdded s'
         = armourAdded s - armourOfC (c a) - armourOfC (c sl) + armourOfC (Some n)
       ∧ shieldMultiplier s'
         = shieldMultiplier s - shieldOfC a (c a) - shieldOfC sl (c sl)
           + shieldOfC sl (Some n)
       ∧ totalCost s'
         = totalCost s - costOfC (componentCostMultiplier s) a (c a)
           - costOfC (componentCostMultiplier s) sl (c sl)
           + costOfC (componentCostMultiplier s) sl (Some n)
       ∧ unladenMass s'
         = unladenMass s - massOfC (c a) - massOfC (c sl) + massOfC (Some n)
       ∧ totalDps s' = totalDps s - dpsOfC a (c a) - dpsOfC sl (c sl) + dpsOfC sl (Some n)
       ∧ ∀ t b', priorityBands s' !! t = Some b' →
           ∃ b, priorityBands s !! t = Some b
             ∧ deployed b'
               = deployed b - drawOfC t Deployed a (c a) - drawOfC t Deployed sl (c sl)
                 + drawOfC t Deployed sl (Some n)
             ∧ retracted b'
               = retracted b - drawOfC t Retracted a (c a) - drawOfC t Retracted sl (c sl)
                 + drawOfC t Retracted sl (Some n)
             ∧ retOnly b' = retOnly b).
Proof.
  intros Hs Hn Hu Hone Huse.
  destruct (reachable_consistent s Hs) as (Hsh & _).
  destruct (internal s !! k) as [sl|] eqn:Hsl; [|by unfold use in Huse; simpl in Huse;
    rewrite Hsl in Huse].
  destruct (shaped_slots s Hsh (RInternal k) sl I Hsl) as [Hcat Hc _ _].
  destruct (decide (id sl = i)) as [Hid|Hid].
  { unfold use in Huse. simpl in Huse. rewrite Hsl in Huse. simpl in Huse.
    rewrite bool_decide_eq_true_2 in Huse by done. injection Huse as <-.
    rewrite Hid in Hc. change (c sl = i ≫= Components_internal) in Hc. rewrite Hn in Hc.
    pose proof (holdsGroup_own sl n Hc) as Hk.
    split.
    - intros j a Ha Hh. by eapply Hone.
    - intros j a sl0 Hj Ha Hh. destruct Hj. by eapply Hone. }
  destruct (use_slots s (RInternal k) sl i (Some n) false s' Hsl Hid Huse)
    as (s1 & sl1 & Hvac & Hsl1 & Hb).
  destruct Hb as [_ _ _ _ _ _ _ _ Hint _ _]. simpl in Hint, Hsl1.
  pose proof (vacateSimilar_internal s k sl n s1 Hsl Hcat Hu Hvac) as Hcases.
  assert (∀ j a, j ≠ k → internal s' !! j = Some a → internal s1 !! j = Some a) as Hother.
  { intros j a Hj. rewrite Hint. by rewrite list_lookup_insert_ne. }
  destruct (findInternalByGroup s (grp n)) as [j0|] eqn:Hj0.
  - pose proof Hj0 as Hfind. apply findIndex_Some in Hj0 as (x & Hx & Hp).
    destruct (decide (j0 = k)) as [->|Hne].
    + subst s1. split.
      * intros j a Ha Hh. destruct (decide (j = k)) as [|Hj]; [done|].
        apply Hother in Ha; [|done]. by eapply Hone.
      * intros j a sl0 Hj Ha Hh. destruct Hj. by eapply Hone.
    + destruct Hcases as (sim & Hsim & Hhold & Hb1).
      destruct Hb1 as [_ _ _ _ _ _ _ _ Hint1 _ _]. simpl in Hint1.
      split.
      * intros j a Ha Hh. destruct (decide (j = k)) as [|Hj]; [done|].
        apply Hother in Ha; [|done]. rewrite Hint1 in Ha.
        destruct (decide (j = j0)) as [->|Hjj].
        -- rewrite list_lookup_insert_eq in Ha by (by eapply lookup_lt_Some).
           injection Ha as <-. by rewrite holdsGroup_empty in Hh.
        -- rewrite list_lookup_insert_ne in Ha by done.
           destruct Hjj. by eapply Hone.
      * intros j a sl0 Hj Ha Hh [= <-].
        assert (j = j0) as -> by (by eapply Hone).
        assert (a = sim) as -> by congruence.
        split.
        { exists (vacated sim). split; [|done].
          rewrite Hint, list_lookup_insert_ne by done.
          rewrite Hint1. rewrite list_lookup_insert_eq by (by eapply lookup_lt_Some). done. }
        destruct (use_vacating s k sl i n s' j0 sim Hsl Hid Hcat Hu Hfind Hne Hsim Huse)
          as (t & [Tf Tc Ta Ts Tt Tm Td _ Tb] & Hbt & [Uf Uc Ua Us Ut Um Ud _ Ub] & _).
        assert (componentCostMultiplier t = componentCostMultiplier s) as Hm.
        { destruct Hbt as [_ _ _ _ _ _ _ _ _ _ ->].
          by destruct (setSlot_fields (RInternal j0) (vacated sim) s) as (_ & _ & _ & _ & -> ). }
        rewrite Hm in Ut. simpl in Tf, Tc, Ta, Ts, Tt, Tm, Td.
        do 7 (split; [lia|]).
        intros q b' Hq. destruct (Ub q b' Hq) as (b1 & Hq1 & Hd1 & Hr1 & Ho1).
        destruct (Tb q b1 Hq1) as (b & Hq0 & Hd0 & Hr0 & Ho0). simpl in Hd0, Hr0.
        exists b. split; [done|]. split; [lia|]. split; [lia|congruence].
  - subst s1. split.
    + intros j a Ha Hh. destruct (decide (j = k)) as [|Hj]; [done|].
      apply Hother in Ha; [|done].
      by rewrite (findIndex_None _ _ _ _ Hj0 Ha) in Hh.
    + intros j a sl0 Hj Ha Hh. by rewrite (findIndex_None _ _ _ _ Hj0 Ha) in Hh.
Qed.


(** *** Installing and removing *)

Lemma updateStats_length s r n old preventUpdate s' :
  updateStats s r n old preventUpdate = Some s' →
  length (priorityBands s') = length (priorityBands s).
Proof.
  destruct (getSlot s r) as [sl|] eqn:Hsl; [|by unfold updateStats; rewrite Hsl].
  assert (∀ U, updateStats s r n old true = Some U →
            length (priorityBands U) = length (priorityBands s)) as Hprevent.
  { intros U HU. destruct (updateStats_prevent_traded _ _ _ _ _ _ Hsl HU) as (Htr & _).
    apply Htr. }
  destruct preventUpdate; [apply Hprevent|].
  rewrite (updateStats_refresh s r sl) by done.
  destruct (updateStats s r n old true) as [U|] eqn:HU; simpl; [|done].
  intros Hre. rewrite <- (Hprevent U eq_refl).
  destruct (refresh_spec _ _ _ Hre) as (_ & _ & _ & _ & Hpower).
  destruct (_ || _).
  - destruct Hpower as (s5 & Hs5 & [-> _ _ _]). by eapply updatePower_length.
  - by destruct Hpower as [-> _ _ _].
Qed.

Lemma vacateSimilar_length s r component preventUpdate s1 :
  vacateSimilar s r component preventUpdate = Some s1 →
  length (priorityBands s1) = length (priorityBands s).
Proof.
  intros [->|Hvac]%vacateSimilar_spec; [done|].
  destruct Hvac as (sl & n & j & sim & s_a & sim1 & _ & _ & _ & _ & _ & _ & _ & _
                    & Ha & _ & ->).
  simpl. by eapply updateStats_length.
Qed.

Lemma use_length s r i component preventUpdate s' :
  use s r i component preventUpdate = Some s' →
  length (priorityBands s') = length (priorityBands s).
Proof.
  unfold use. destruct (getSlot s r) as [sl|]; simpl; [|done].
  case_bool_decide; [by intros [= <-]|].
  destruct (vacateSimilar s r component preventUpdate) as [s1|] eqn:Hvac; simpl; [|done].
  destruct (getSlot s1 r) as [sl1|]; simpl; [|done].
  intros Hup. apply updateStats_length in Hup. rewrite <- (vacateSimilar_length _ _ _ _ _ Hvac).
  rewrite Hup. by destruct r.
Qed.

Lemma setSlot_twice r x y s : setSlot r x (setSlot r y s) = setSlot r x s.
Proof.
  destruct r; try reflexivity; unfold setSlot; reduce_records;
    by rewrite list_insert_insert_eq.
Qed.

(** Two ships that agree with their slots, and whose slots differ in one
    slot that is empty in both, have the same cumulative statistics and
    the same priority bands. *)
Lemma empty_slot_aggregates s s' r sl x :
  installable r → getSlot s r = Some sl → c sl = None → c x = None →
  sameBase (setSlot r x s) s' →
  length (priorityBands s') = length (priorityBands s) →
  Supplied s → Tallied s → Supplied s' → Tallied s' →
  totalCost s' = totalCost s
  ∧ unladenMass s' = unladenMass s ∧ ladenMass s' = ladenMass s
  ∧ fuelCapacity s' = fuelCapacity s ∧ cargoCapacity s' = cargoCapacity s
  ∧ priorityBands s' = priorityBands s.
Proof.
  intros Hr Hsl Hc Hx Hb Hlen [Hraw [Hsum _] _] [Hcount Hl _ _] [Hraw' [Hsum' _] _]
    [Hcount' Hl' _ _].
  assert (∀ f, (∀ a, c a = None → f a = 0) → overSlots f s' = overSlots f s) as Hover.
  { intros f Hf. rewrite (sameBase_overSlots _ _ _ Hb).
    apply (overSlots_edit f s r sl x Hsl). by rewrite !Hf. }
  assert (∀ f, (∀ a, c a = None → f a = 0) → overPowered f s' = overPowered f s) as Hpow.
  { intros f Hf. rewrite (sameBase_overPowered _ _ _ Hb).
    apply (overPowered_edit f s r sl x Hsl). by rewrite !Hf. }
  destruct Hb as [_ Bprops _ _ _ BshipC _ _ _ _ Bccm].
  assert (shipC s' = shipC s) as EshipC by (by rewrite BshipC; destruct r).
  assert (props s' = props s) as Eprops by (by rewrite Bprops; destruct r).
  assert (componentCostMultiplier s' = componentCostMultiplier s) as Eccm
    by (by rewrite Bccm; destruct r).
  destruct Hcount as [Hfuel Hcargo _ _ Hcost Hmass _].
  destruct Hcount' as [Hfuel' Hcargo' _ _ Hcost' Hmass' _].
  assert (fuelCapacity s' = fuelCapacity s) as Ef.
  { rewrite Hfuel', Hfuel. apply Hover. intros a Ha. unfold fuelOf. by rewrite Ha. }
  assert (cargoCapacity s' = cargoCapacity s) as Ec.
  { rewrite Hcargo', Hcargo. apply Hover. intros a Ha. unfold cargoOf. by rewrite Ha. }
  assert (unladenMass s' = unladenMass s) as Em.
  { rewrite Hmass', Hmass, Eprops. f_equal. apply Hover. intros a Ha.
    unfold massOf. by rewrite Ha. }
  assert (totalCost s' = totalCost s) as Et.
  { rewrite Hcost', Hcost, EshipC, Eccm. f_equal. apply Hover. intros a Ha.
    unfold costOf. by rewrite Ha. }
  do 5 (split; [congruence|]).
  assert (Forall2 rawEq (priorityBands s') (priorityBands s)) as Hre.
  { apply Forall2_same_length_lookup. split; [done|]. intros i b' b Hi' Hi.
    destruct (Hraw i b Hi) as (Hd & Hrt & Ho). destruct (Hraw' i b' Hi') as (Hd' & Hrt' & Ho').
    rewrite Hpow in Hd', Hrt'; try (intros a Ha; unfold drawOf; by rewrite Ha).
    split; [congruence|]. split; congruence. }
  pose proof (sumBands_ext _ _ Hre 0 0) as Heq. rewrite Hsum, Hsum' in Heq.
  by injection Heq as -> _ _.
Qed.

(** C6, as amended.  In a reachable ship, a slot of the three groups
    that holds no component is given the component that the catalogue
    knows by an id, and the component is removed again at once; both
    calls return, and the install has vacated no other slot (the slot is
    no internal slot, or the component is of no ship-unique group, or no
    other internal slot holds a component of that group).  Then, on
    integer data, total cost, unladen and laden mass, fuel and cargo
    capacity and the priority bands with their raw sums are what they
    were before the install.  (The removal subtracts what the install
    has added; on fractional data the source leaves [x + d - d], which
    binary64 need not round to [x].) *)
Theorem use_then_remove s r sl i s1 s2 :
  reachable s → installable r → getSlot s r = Some sl → c sl = None →
  (∀ n j a, i ≫= catalogueAt r = Some n → cat sl = Some 2 → uniqueGroup (grp n) = true →
     RInternal j ≠ r → internal s !! j = Some a → holdsGroup (grp n) a = false) →
  use s r i (i ≫= catalogueAt r) false = Some s1 →
  use s1 r None None false = Some s2 →
  totalCost s2 = totalCost s
  ∧ unladenMass s2 = unladenMass s ∧ ladenMass s2 = ladenMass s
  ∧ fuelCapacity s2 = fuelCapacity s ∧ cargoCapacity s2 = cargoCapacity s
  ∧ priorityBands s2 = priorityBands s.
Proof.
  intros Hs Hr Hsl Hc Halone Huse1 Huse2.
  destruct (reachable_consistent s Hs) as (Hsh & Hsu & Hta & Hde).
  destruct (use_step s r i s1 Hr Hsh Hsu Hta Hde Huse1) as (Hsh1 & Hsu1 & Hta1 & Hde1).
  destruct (use_step s1 r None s2 Hr Hsh1 Hsu1 Hta1 Hde1) as (Hsh2 & Hsu2 & Hta2 & Hde2).
  { by destruct r. }
  pose proof (use_length _ _ _ _ _ _ Huse1) as Hlen1.
  pose proof (use_length _ _ _ _ _ _ Huse2) as Hlen2.
  assert (∃ x1, getSlot s1 r = Some x1 ∧ sameBase (setSlot r x1 s) s1) as (x1 & Hx1 & Hb1).
  { destruct (decide (id sl = i)) as [Hid|Hid].
    - unfold use in Huse1. rewrite Hsl in Huse1. simpl in Huse1.
      rewrite bool_decide_eq_true_2 in Huse1 by done. injection Huse1 as <-.
      exists sl. split; [done|]. by apply sameBase_sym, setSlot_same.
    - destruct (use_slots s r sl i _ false s1 Hsl Hid Huse1) as (s0 & sl0 & Hvac & Hsl0 & Hb).
      assert (s0 = s) as ->.
      { apply vacateSimilar_spec in Hvac as [->|Hvac]; [done|].
        destruct Hvac as (sl' & n & j & sim & s_a & sim1 & _ & Hsl' & Hn & Hcat & Hu
                          & Hfind & Hne & _).
        rewrite Hsl in Hsl'. injection Hsl' as <-.
        apply findIndex_Some in Hfind as (a & Ha & Hhold).
        by rewrite (Halone n j a Hn Hcat Hu Hne Ha) in Hhold. }
      eexists. split; [|exact Hb].
      rewrite (sameBase_getSlot _ _ r Hb). by eapply getSlot_setSlot_eq. }
  assert (∃ x2, c x2 = None ∧ sameBase (setSlot r x2 s) s2) as (x2 & Hx2 & Hb2).
  { destruct (decide (id x1 = None)) as [Hid|Hid].
    - unfold use in Huse2. rewrite Hx1 in Huse2. simpl in Huse2.
      rewrite bool_decide_eq_true_2 in Huse2 by done. injection Huse2 as <-.
      exists x1. split; [|done].
      destruct (shaped_slots s1 Hsh1 r x1 Hr Hx1) as [_ -> _ _]. by rewrite Hid.
    - destruct (use_slots s1 r x1 None None false s2 Hx1 Hid Huse2)
        as (s0 & sl0 & Hvac & Hsl0 & Hb).
      assert (s0 = s1) as ->.
      { unfold vacateSimilar in Hvac. rewrite Hx1 in Hvac. by injection Hvac. }
      exists (fitted None None (componentCostMultiplier s1) sl0). split; [done|].
      eapply sameBase_trans; [|exact Hb].
      rewrite <- (setSlot_twice r _ x1 s). by apply sameBase_setSlot. }
  eapply (empty_slot_aggregates s s2 r sl x2); try done. congruence.
Qed.

End Sessions.

(** *** The small catalogue and its ships *)

Section Evaluation.
#[local] Existing Instance Demo.catalogue.

Lemma catalogue_sane : SaneCatalogue.
Proof.
  split.
  - intros i k n. simpl.
    destruct (String.eqb k "2A");
      [destruct i as [|[|[|?]]]
      |destruct (String.eqb k "2C"); [destruct i as [|[|[|[|[|[|[|?]]]]]]]|]];
      intros [= <-] Hd; done.
  - intros k n. simpl. destruct (String.eqb k "17"); intros [= <-] _. by repeat split.
  - intros k n. simpl.
    destruct (String.eqb k "40"); [|destruct (String.eqb k "4j");
      [|destruct (String.eqb k "00")]]; intros [= <-] Hd; done.
  - done.
Qed.

Lemma catalogue_drawing : DrawingCatalogue.
Proof.
  split.
  - intros i k n. simpl.
    destruct (String.eqb k "2A");
      [destruct i as [|[|[|?]]]
      |destruct (String.eqb k "2C"); [destruct i as [|[|[|[|[|[|[|?]]]]]]]|]];
      intros [= <-]; done.
  - intros k n. simpl. destruct (String.eqb k "17"); intros [= <-]. done.
  - intros k n. simpl.
    destruct (String.eqb k "40"); [|destruct (String.eqb k "4j");
      [|destruct (String.eqb k "00")]]; intros [= <-]; done.
  - done.
Qed.

Lemma stockShip_reachable : reachable Demo.stockShip.
Proof.
  apply (reachable_new "sidewinder" Demo.properties Demo.layout Demo.stock None None).
  vm_compute. reflexivity.
Qed.

Lemma armedShip_reachable : reachable Demo.armedShip.
Proof.
  apply (reachable_new "sidewinder" Demo.properties Demo.layout Demo.armed
           (Some Demo.tiers) None).
  vm_compute. reflexivity.
Qed.

Lemma refitted_reachable : reachable Demo.refitted.
Proof.
  apply (reachable_step Demo.armedShip); [apply armedShip_reachable|].
  apply (step_use _ (RInternal 1) (Some "4j")); [exact I|]. vm_compute. reflexivity.
Qed.

Lemma tuned_reachable : reachable Demo.tuned.
Proof.
  apply (reachable_step Demo.unbilled).
  - apply (reachable_step Demo.discounted).
    + apply (reachable_step Demo.shifted).
      * apply (reachable_step Demo.silenced).
        -- apply (reachable_step Demo.refitted); [apply refitted_reachable|].
           apply (step_setSlotEnabled _ (RHardpoint 1) false); [exact I|].
           vm_compute. reflexivity.
        -- apply (step_changePriority _ (RHardpoint 0) 1 _ true); [exact I|].
           vm_compute. reflexivity.
      * replace Demo.discounted with (applyDiscounts Demo.shifted 90 75)
          by (vm_compute; reflexivity).
        apply step_applyDiscounts.
    + apply (step_setCostIncluded _ (RInternal 2) false); [done|].
      vm_compute. reflexivity.
  - apply (step_useBulkhead _ 0). vm_compute. reflexivity.
Qed.

Lemma armedShip_wellFlagged : wellFlagged Demo.armedShip.
Proof.
  apply (wellFlagged_new "sidewinder" Demo.properties Demo.layout Demo.armed
           (Some Demo.tiers) None); [exact I|].
  vm_compute. reflexivity.
Qed.

Lemma dimmedShip_wellFlagged : wellFlagged Demo.dimmedShip.
Proof.
  apply (wellFlagged_new "sidewinder" Demo.properties Demo.layout Demo.armed
           (Some Demo.tiers) (Some Demo.flags)); [simpl; lia|].
  vm_compute. reflexivity.
Qed.

Lemma tuned_wellFlagged : wellFlagged Demo.tuned.
Proof.
  apply (wellFlagged_mutation Demo.unbilled).
  - apply (wellFlagged_mutation Demo.discounted).
    + apply (wellFlagged_mutation Demo.shifted).
      * apply (wellFlagged_mutation Demo.silenced).
        -- apply (wellFlagged_mutation Demo.refitted).
           ++ apply (wellFlagged_mutation Demo.armedShip); [apply armedShip_wellFlagged|].
              apply (mutation_use _ (RInternal 1) (Some "4j")); [exact I|].
              vm_compute. reflexivity.
           ++ apply (mutation_setSlotEnabled _ (RHardpoint 1) false); [exact I|].
              vm_compute. reflexivity.
        -- apply (mutation_changePriority _ (RHardpoint 0) 1 _ true); [exact I|].
           vm_compute. reflexivity.
      * replace Demo.discounted with (applyDiscounts Demo.shifted 90 75)
          by (vm_compute; reflexivity).
        apply mutation_applyDiscounts.
    + apply (mutation_setCostIncluded _ (RInternal 2) false); [done|].
      vm_compute. reflexivity.
  - apply (mutation_useBulkhead _ 0). vm_compute. reflexivity.
Qed.

Lemma strayShip_reachable : reachable Demo.strayShip.
Proof.
  apply (reachable_step Demo.stockShip); [apply stockShip_reachable|].
  apply (step_use _ (RInternal 0) (Some "zz")); [exact I|]. vm_compute. reflexivity.
Qed.



(** The scenario of two lasers of draw 6 under a power plant of output
    10: the laser of tier 1 is offline while deployed, 12 being no less
    than 10. *)
Lemma getSlotStatus_power_witness :
  c Demo.secondLaser = Some Demo.laser ∧ enabled Demo.secondLaser = true
  ∧ deployedSum (Build_Band 6 0 0 0 12) = 12 ∧ powerAvailable Demo.armedShip = 10
  ∧ getSlotStatus Demo.armedShip Demo.secondLaser true = Some 2.
Proof.
  split; [reflexivity|]. split; [reflexivity|]. split; [reflexivity|]. split; [reflexivity|].
  apply (getSlotStatus_power Demo.armedShip Demo.secondLaser Demo.laser true
           (Build_Band 6 0 0 0 12)); [reflexivity|reflexivity|reflexivity|by left|].
  vm_compute. congruence.
Defined.

(** The laser of tier 0 has no status while retracted, though the
    retracted sum of its tier, 0, is less than the available power. *)
Lemma retracted_laser_has_no_status :
  c Demo.firstLaser = Some Demo.laser ∧ enabled Demo.firstLaser = true
  ∧ bandAt (priorityBands Demo.armedShip) (priority Demo.firstLaser)
    = Some (Build_Band 6 0 0 0 6)
  ∧ retractedSum (Build_Band 6 0 0 0 6) < powerAvailable Demo.armedShip
  ∧ getSlotStatus Demo.armedShip Demo.firstLaser false = Some 0
  ∧ getSlotStatus Demo.armedShip Demo.firstLaser false ≠ Some 3.
Proof. vm_compute. repeat split; congruence. Qed.

(** The other shield generator goes into the spare slot of the armed
    ship: the slot of the first one is vacated, and the total cost
    loses the 900 of the first generator and gains the 1500 of the
    other. *)
Lemma use_unique_group_witness :
  reachable Demo.armedShip
  ∧ use Demo.armedShip (RInternal 1) (Some "4j") (Some Demo.biweaveShield) false
    = Some Demo.refitted
  ∧ (∀ j a, internal Demo.refitted !! j = Some a →
       holdsGroup (grp Demo.biweaveShield) a = true → j = 1%nat)
  ∧ (∃ a', internal Demo.refitted !! 0%nat = Some a'
       ∧ id a' = None ∧ c a' = None ∧ discountedCost a' = 0)
  ∧ totalCost Demo.refitted = totalCost Demo.armedShip - 900 - 0 + 1500
  ∧ unladenMass Demo.refitted = unladenMass Demo.armedShip - 2 - 0 + 3.
Proof.
  split; [exact armedShip_reachable|]. split; [vm_compute; reflexivity|].
  destruct (use_unique_group Demo.armedShip 1 (Some "4j") Demo.biweaveShield Demo.refitted)
    as [Hone Hvac].
  - exact armedShip_reachable.
  - reflexivity.
  - reflexivity.
  - intros [|[|[|j]]] [|[|[|j']]] a b Ha Hb; vm_compute in Ha, Hb;
      try discriminate Ha; try discriminate Hb;
      injection Ha as <-; injection Hb as <-; vm_compute; congruence.
  - vm_compute. reflexivity.
  - split; [exact Hone|].
    destruct (Hvac 0%nat Demo.shieldSlot Demo.spareSlot) as (Ha' & _ & _ & _ & _ & Hcost & Hmass & _);
      [lia|reflexivity|reflexivity|reflexivity|].
    split; [exact Ha'|]. split; [exact Hcost|exact Hmass].
Defined.

(** With updates prevented, as [buildWith] installs, the first shield
    generator stays: two internal slots hold the group.  So a ship
    built with two shield generators holds both, and a third one,
    installed with updates not prevented, vacates the first of them
    only. *)
Lemma use_prevented_keeps_both :
  (s' ← use Demo.armedShip (RInternal 1) (Some "4j") (Some Demo.biweaveShield) true;
   Some (holdsGroup "sg" <$> internal s'))
  = Some [true; true; false]
  ∧ holdsGroup "sg" <$> internal Demo.twinShip = [true; true; false]
  ∧ (s' ← use Demo.twinShip (RInternal 2) (Some "40") (Some Demo.shieldGenerator) false;
     Some (holdsGroup "sg" <$> internal s'))
    = Some [false; true; true].
Proof. vm_compute. repeat split; reflexivity. Qed.

Lemma updatePower_recurrence_witness :
  standard Demo.armedShip !! 0%nat = Some Demo.plantSlot
  ∧ c Demo.plantSlot = Some Demo.powerPlant
  ∧ ∃ s', updatePower Demo.armedShip = Some s'
      ∧ length (priorityBands s') = length (priorityBands Demo.armedShip)
      ∧ ∀ i b', priorityBands s' !! i = Some b' →
          (∃ b, priorityBands Demo.armedShip !! i = Some b ∧ deployed b' = deployed b
                ∧ retracted b' = retracted b ∧ retOnly b' = retOnly b)
          ∧ retractedSum b'
            = sumBefore retractedSum (priorityBands s') i + retracted b' + retOnly b'
          ∧ deployedSum b'
            = sumBefore deployedSum (priorityBands s') i + deployed b' + retracted b'.
Proof.
  split; [reflexivity|]. split; [reflexivity|].
  apply (updatePower_recurrence Demo.armedShip Demo.plantSlot Demo.powerPlant);
    reflexivity.
Defined.

(** C5, the defect.  The first hardpoint of the stock ship is empty and
    enabled, as [buildWith] leaves it, and tier 1 exists; the change of
    its priority to tier 1 returns neither [true] nor [false]: reading
    the power of the absent component throws. *)
Theorem changePriority_empty_enabled_throws :
  (enabled <$> hardpoints Demo.stockShip !! 0%nat) = Some true
  ∧ (c <$> hardpoints Demo.stockShip !! 0%nat) = Some None
  ∧ 1 < Z.of_nat (length (priorityBands Demo.stockShip))
  ∧ changePriority Demo.stockShip (RHardpoint 0) 1 = None.
Proof. vm_compute. repeat split; congruence. Qed.

(** A laser goes into the empty hardpoint of the armed ship and leaves
    it again. *)
Lemma use_then_remove_witness :
  reachable Demo.armedShip
  ∧ ∃ s1 s2,
      use Demo.armedShip (RHardpoint 2) (Some "17") (Some Demo.laser) false = Some s1
      ∧ use s1 (RHardpoint 2) None None false = Some s2
      ∧ totalCost s2 = totalCost Demo.armedShip
      ∧ unladenMass s2 = unladenMass Demo.armedShip
      ∧ ladenMass s2 = ladenMass Demo.armedShip
      ∧ fuelCapacity s2 = fuelCapacity Demo.armedShip
      ∧ cargoCapacity s2 = cargoCapacity Demo.armedShip
      ∧ priorityBands s2 = priorityBands Demo.armedShip.
Proof.
  split; [exact armedShip_reachable|].
  destruct (use Demo.armedShip (RHardpoint 2) (Some "17") (Some Demo.laser) false)
    as [s1|] eqn:H1; [|by vm_compute in H1].
  destruct (use s1 (RHardpoint 2) None None false) as [s2|] eqn:H2.
  2: { exfalso. revert H2. vm_compute in H1. injection H1 as <-. vm_compute. congruence. }
  exists s1, s2. split; [reflexivity|]. split; [exact H2|].
  apply (use_then_remove Demo.armedShip (RHardpoint 2)
           (default (emptySlot 0) (hardpoints Demo.armedShip !! 2%nat)) (Some "17") s1 s2).
  - exact armedShip_reachable.
  - exact I.
  - reflexivity.
  - reflexivity.
  - intros n j a [= <-] _ Hu. discriminate Hu.
  - exact H1.
  - exact H2.
Defined.

(** Over a slot that holds a component the round trip fails: the shield
    generator of the armed ship is replaced and the replacement removed,
    and the cost and the mass of the generator are gone.  And over an
    empty slot it fails on fractional data: in binary64 a total cost of
    15975.9 to which the install adds a component of cost 700 under the
    multiplier 0.75, and from which the removal subtracts it, is
    15975.900000000001. *)
#[warnings="-inexact-float"] Lemma use_then_remove_occupied :
  totalCost Demo.armedShip = 19300 ∧ unladenMass Demo.armedShip = 75
  ∧ (s1 ← use Demo.armedShip (RInternal 0) (Some "4j") (Some Demo.biweaveShield) false;
     s2 ← use s1 (RInternal 0) None None false;
     Some (totalCost s2, unladenMass s2))
    = Some (18400, 73)
  ∧ Binary64.costRemoved (Binary64.costAdded 15975.9 700 0.75) 700 0.75
    = 15975.900000000001%float
  ∧ PrimFloat.eqb 15975.900000000001 15975.9 = false.
Proof. vm_compute. repeat split; congruence. Qed.

Lemma applyDiscounts_costs_witness :
  reachable Demo.armedShip
  ∧ totalCost (applyDiscounts Demo.armedShip 90 75)
    = sumOver (λ item, if incCost item then discountedCost item else 0)
        (applyDiscounts Demo.armedShip 90 75) (costList (applyDiscounts Demo.armedShip 90 75))
  ∧ shipCostMultiplier (applyDiscounts Demo.armedShip 90 75) = 90
  ∧ componentCostMultiplier (applyDiscounts Demo.armedShip 90 75) = 75.
Proof.
  split; [exact armedShip_reachable|].
  apply (applyDiscounts_costs Demo.armedShip 90 75 armedShip_reachable).
Defined.

Lemma slot_contents_witness :
  reachable Demo.armedShip
  ∧ getSlot Demo.armedShip (RInternal 0) = Some Demo.shieldSlot
  ∧ c Demo.shieldSlot = id Demo.shieldSlot ≫= catalogueAt (RInternal 0)
  ∧ (is_Some (c Demo.shieldSlot) → is_Some (id Demo.shieldSlot))
  ∧ discountedCost Demo.shieldSlot
    = match c Demo.shieldSlot with
      | Some n => cost n * componentCostMultiplier Demo.armedShip
      | None => 0
      end.
Proof.
  split; [exact armedShip_reachable|]. split; [reflexivity|].
  apply (slot_contents Demo.armedShip (RInternal 0) Demo.shieldSlot armedShip_reachable I).
  reflexivity.
Defined.

(** An id that the catalogue does not know stays in the slot, which
    holds no component. *)
Lemma unknown_id_stays :
  reachable Demo.strayShip
  ∧ getSlot Demo.strayShip (RInternal 0) = Some Demo.straySlot
  ∧ id Demo.straySlot = Some "zz" ∧ c Demo.straySlot = None.
Proof. split; [exact strayShip_reachable|]. vm_compute. repeat split; congruence. Qed.

(** The armed ship built with the second laser switched off. *)
Lemma cumulative_sums_monotone_witness :
  DrawingCatalogue ∧ wellFlagged Demo.dimmedShip
  ∧ priorityBands Demo.dimmedShip !! 0%nat = Some (Build_Band 6 0 0 0 6)
  ∧ priorityBands Demo.dimmedShip !! 2%nat = Some (Build_Band 0 6 0 6 12)
  ∧ retractedSum (Build_Band 6 0 0 0 6) ≤ retractedSum (Build_Band 0 6 0 6 12)
  ∧ deployedSum (Build_Band 6 0 0 0 6) ≤ deployedSum (Build_Band 0 6 0 6 12).
Proof.
  split; [exact catalogue_drawing|]. split; [exact dimmedShip_wellFlagged|].
  split; [reflexivity|]. split; [reflexivity|].
  apply (cumulative_sums_monotone Demo.dimmedShip 0 2 _ _ catalogue_drawing
           dimmedShip_wellFlagged); [lia|reflexivity|reflexivity].
Defined.

(** On the catalogue with the auxiliary cell, whose power draw is -3,
    the cell is installed in the stock ship and moved to tier 1: the
    cumulative sums of tier 1 are 1, below the 4 of tier 0.  And in
    binary64 the deployed raw sum of a tier that two weapons of draw
    0.6 and 1.2 have entered and left in that order is below zero:
    after a tier whose deployed sum is 0, the deployed sum of that tier
    is below 0. *)
#[warnings="-inexact-float"] Lemma negative_draw_lowers_sums :
  wellFlagged (H := Odd.catalogue) Odd.stockShip
  ∧ use (H := Odd.catalogue) Odd.stockShip (RInternal 0) (Some "ax") (Some Odd.cell) false
    = Some Odd.fedShip
  ∧ changePriority Odd.fedShip (RInternal 0) 1 = Some (Odd.deferred, true)
  ∧ priorityBands Odd.deferred !! 0%nat = Some (Build_Band 0 4 0 4 4)
  ∧ priorityBands Odd.deferred !! 1%nat = Some (Build_Band 0 (-3) 0 1 1)
  ∧ retractedSum (Build_Band 0 (-3) 0 1 1) < retractedSum (Build_Band 0 4 0 4 4)
  ∧ deployedSum (Build_Band 0 (-3) 0 1 1) < deployedSum (Build_Band 0 4 0 4 4)
  ∧ PrimFloat.ltb
      (Binary64.deployedSumAfter 0
         (Binary64.drawRemoved
            (Binary64.drawRemoved (Binary64.drawAdded (Binary64.drawAdded 0 0.6) 1.2) 0.6)
            1.2)
         0) 0
    = true.
Proof.
  split.
  { apply (wellFlagged_new (H := Odd.catalogue) "sidewinder" Demo.properties Demo.layout
             Demo.stock None None); [exact I|].
    vm_compute. reflexivity. }
  split; [vm_compute; reflexivity|]. split; [vm_compute; reflexivity|].
  split; [reflexivity|]. split; [reflexivity|]. split; [reflexivity|].
  split; [reflexivity|]. vm_compute. reflexivity.
Qed.

Lemma getSlotStatus_retracted_hardpoint_witness :
  cat Demo.firstLaser = Some 1 ∧ c Demo.firstLaser = Some Demo.laser
  ∧ passive Demo.laser = false ∧ enabled Demo.firstLaser = true
  ∧ getSlotStatus Demo.armedShip Demo.firstLaser false = Some 0.
Proof.
  do 4 (split; [reflexivity|]).
  apply (getSlotStatus_retracted_hardpoint Demo.armedShip Demo.firstLaser Demo.laser);
    reflexivity.
Defined.

End Evaluation.

(** *** Further properties *)

Section Further.
Context `{Collaborators}.

(** *** The figures of a reachable ship *)


Lemma sumBands_totals bands : ∀ r d,
  (sumBands r d bands).2
  = (default r (retractedSum <$> last (sumBands r d bands).1),
     default d (deployedSum <$> last (sumBands r d bands).1)).
Proof.
  induction bands as [|b bands IH]; intros r d; simpl; [done|].
  specialize (IH (r + retracted b + retOnly b) (d + deployed b + retracted b)).
  pose proof (sumBands_length bands (r + retracted b + retOnly b)
                (d + deployed b + retracted b)) as Hlen.
  destruct (sumBands _ _ bands) as [rest totals]. simpl in *. rewrite IH.
  destruct rest as [|b' rest]; [done|].
  change (last (?x :: b' :: rest)) with (last (b' :: rest)).
  destruct (last (b' :: rest)) as [l|] eqn:Hl; [done|].
  by apply last_None in Hl.
Qed.

(** X2.  On integer data, in every ship that a session reaches by
    builds with a flag for every slot (or no flags) and by mutations
    with updates not prevented, the raw sums of each tier are the power
    that the enabled components of the tier draw, by usage; nothing is
    retracted-only; the available power is the output of the power
    plant; and the retracted and deployed power are the cumulative sums
    of the last tier. *)
Theorem reachable_power s :
  wellFlagged s →
  (∀ i b, priorityBands s !! i = Some b →
     deployed b = overPowered (drawOf i Deployed) s
     ∧ retracted b = overPowered (drawOf i Retracted) s
     ∧ retOnly b = 0)
  ∧ (∃ sl plant, standard s !! 0%nat = Some sl ∧ c sl = Some plant
       ∧ powerAvailable s = pGen plant)
  ∧ powerRetracted s = default 0 (retractedSum <$> last (priorityBands s))
  ∧ powerDeployed s = default 0 (deployedSum <$> last (priorityBands s)).
Proof.
  intros Hs%wellFlagged_reachable.
  destruct (reachable_consistent s Hs) as (_ & [Hme [Hsum Hav] _] & _).
  split; [done|]. split; [done|].
  pose proof (sumBands_totals (priorityBands s) 0 0) as Htot.
  rewrite Hsum in Htot. simpl in Htot. by injection Htot as -> ->.
Qed.

(** X3.  On a reachable ship [getJumpRangeForMass] returns for every
    mass and fuel, and the jump ranges that the ship stores are its
    results for the masses of the ship: the unladen range for the
    unladen mass with one jump of fuel, the full tank range for the
    unladen mass with the fuel capacity, and the laden range for the
    laden mass. *)
Theorem reachable_jump_ranges s :
  reachable s →
  ∃ fsdSlot fsd, standard s !! 2%nat = Some fsdSlot ∧ c fsdSlot = Some fsd
    ∧ (∀ m fuel, getJumpRangeForMass s m fuel = Some (calcJumpRange m fsd fuel))
    ∧ getJumpRangeForMass s (unladenMass s + maxfuel fsd) (fuelCapacity s)
      = Some (unladenRange s)
    ∧ getJumpRangeForMass s (unladenMass s + fuelCapacity s) (fuelCapacity s)
      = Some (fullTankRange s)
    ∧ getJumpRangeForMass s (ladenMass s) (fuelCapacity s) = Some (ladenRange s).
Proof.
  intros Hs. destruct (reachable_consistent s Hs) as (Hsh & _ & _ & [_ Hjump _]).
  destruct (shaped_fsd s Hsh) as (fs & fsd & Hfs & Hfsd).
  exists fs, fsd. split; [done|]. split; [done|].
  assert (∀ m fuel, getJumpRangeForMass s m fuel = Some (calcJumpRange m fsd fuel)) as Hget.
  { intros m fuel. unfold getJumpRangeForMass. rewrite Hfs. simpl. by rewrite Hfsd. }
  split; [done|]. rewrite !Hget.
  destruct (Hjump fs fsd Hfs Hfsd) as (-> & -> & -> & _). done.
Qed.

(** X4.  Rebuilding a reachable ship from its own contents never throws
    and gives a reachable ship with the same slots, the same cost
    multipliers and as many tiers, whatever the catalogue. *)
Theorem rebuild_returns s :
  reachable s →
  ∃ s', rebuild s = Some s' ∧ reachable s'
    ∧ cargoHatch s' = cargoHatch s ∧ bulkheads s' = bulkheads s ∧ shipC s' = shipC s
    ∧ standard s' = standard s ∧ hardpoints s' = hardpoints s ∧ internal s' = internal s
    ∧ shipCostMultiplier s' = shipCostMultiplier s
    ∧ componentCostMultiplier s' = componentCostMultiplier s
    ∧ length (priorityBands s') = length (priorityBands s).
Proof.
  intros Hs. destruct (reachable_consistent s Hs) as (Hsh & [_ _ Hti] & _).
  destruct (rebuild_restores s Hsh Hti) as (s' & Hre & Hb & Hlen).
  exists s'. split; [done|]. split.
  { eapply reachable_step; [exact Hs|]. eapply step_buildWith. exact Hre. }
  destruct Hb as [_ _ Bhatch Bbulk _ BshipC Bstd Bhp Bint Bscm Bccm]. done.
Qed.

(** X5.  On a sane catalogue and on integer data, two ships that
    sessions reach by builds with a flag for every slot (or no flags)
    and by mutations with updates not prevented, and that agree in
    their slots, their identity, their cost multipliers and the number
    of their tiers, are the same ship: the statistics do not depend on
    the mutations that led to the slots. *)
Theorem reachable_unique s s' :
  SaneCatalogue → wellFlagged s → wellFlagged s' →
  shipId s' = shipId s → props s' = props s → bulkheadsId s' = bulkheadsId s →
  cargoHatch s' = cargoHatch s → bulkheads s' = bulkheads s → shipC s' = shipC s →
  standard s' = standard s → hardpoints s' = hardpoints s → internal s' = internal s →
  shipCostMultiplier s' = shipCostMultiplier s →
  componentCostMultiplier s' = componentCostMultiplier s →
  length (priorityBands s') = length (priorityBands s) →
  s' = s.
Proof.
  intros Hsane Hs%wellFlagged_reachable Hs'%wellFlagged_reachable ? ? ? ? ? ? ? ? ? ? ? Hlen.
  destruct (reachable_consistent s Hs) as (Hsh & Hsu & Hta & Hde).
  destruct (reachable_consistent s' Hs') as (Hsh' & Hsu' & Hta' & Hde').
  apply consistent_unique; done.
Qed.


(** *** Installing twice, and installing nothing where the ship needs a component *)

(** X6.  A call of [use] that has returned changes nothing when it is
    repeated with the same slot, id and component: the slot holds the id
    already. *)
Theorem use_idempotent s r i component preventUpdate s' :
  use s r i component preventUpdate = Some s' →
  use s' r i component preventUpdate = Some s'.
Proof.
  intros Huse. destruct (getSlot s r) as [sl|] eqn:Hsl; [|by unfold use in Huse; rewrite Hsl in Huse].
  destruct (decide (id sl = i)) as [Hid|Hid].
  - assert (s' = s) as ->; [|done]. unfold use in Huse. rewrite Hsl in Huse. simpl in Huse.
    rewrite bool_decide_eq_true_2 in Huse by done. by injection Huse.
  - destruct (use_slots s r sl i component preventUpdate s' Hsl Hid Huse)
      as (s1 & sl1 & _ & Hsl1 & Hb).
    unfold use. rewrite (sameBase_getSlot _ _ r Hb).
    rewrite (getSlot_setSlot_eq _ _ _ _ Hsl1). simpl.
    by rewrite bool_decide_eq_true_2.
Qed.

Lemma vacateSimilar_nothing s r sl preventUpdate :
  getSlot s r = Some sl → vacateSimilar s r None preventUpdate = Some s.
Proof. intros Hsl. unfold vacateSimilar. by rewrite Hsl. Qed.

Lemma refresh_without_plant s sl :
  standard s !! 0%nat = Some sl → c sl = None → refresh true s = None.
Proof.
  intros Hsl Hc. unfold refresh, updatePower.
  destruct (sumBands 0 0 (priorityBands s)) as [bands [r d]]. simpl.
  rewrite Hsl. simpl. by rewrite Hc.
Qed.

Lemma refresh_without_drive pc s sl :
  standard s !! 2%nat = Some sl → c sl = None → refresh pc s = None.
Proof.
  intros Hsl Hc. unfold refresh.
  assert (∀ t, standard t = standard s →
            (s6 ← updateTopSpeed t; s7 ← updateJumpStats s6;
             Some (updateShieldStrength s7)) = None) as Hrest.
  { intros t Ht. destruct (updateTopSpeed t) as [t'|] eqn:Ht'; simpl; [|done].
    apply updateTopSpeed_spec in Ht' as (th & _ & ->).
    unfold updateJumpStats. simpl. rewrite Ht, Hsl. simpl. by rewrite Hc. }
  destruct pc; simpl.
  - destruct (updatePower s) as [s5|] eqn:H5; simpl; [|done].
    apply Hrest. by destruct (updatePower_base _ _ H5) as [_ _ _ _ _ _ -> _ _ _ _].
  - by apply Hrest.
Qed.

(** X7.  Passing no component for the slot of the power plant
    (standard slot 0) or of the frame shift drive (standard slot 2)
    under another id than the slot holds, with updates not prevented,
    throws: the refresh of the power reads the output of the plant, and
    the refresh of the jump statistics reads the drive.  An id that the
    catalogue does not know is such a call. *)
Theorem use_without_plant_or_drive s k sl i :
  k = 0%nat ∨ k = 2%nat → standard s !! k = Some sl → id sl ≠ i →
  use s (RStandard k) i None false = None.
Proof.
  intros Hk Hsl Hid. unfold use. simpl. rewrite Hsl. simpl.
  rewrite bool_decide_eq_false_2 by done.
  rewrite (vacateSimilar_nothing s (RStandard k) sl) by done. simpl.
  rewrite Hsl. simpl.
  set (x := set_discountedCost 0 (set_c None (set_id i sl))).
  set (s2 := setSlot (RStandard k) x s).
  assert (getSlot s2 (RStandard k) = Some x) as Hx by (by eapply getSlot_setSlot_eq).
  rewrite (updateStats_refresh s2 (RStandard k) x) by done.
  destruct (updateStats s2 (RStandard k) None (c sl) true) as [s4|] eqn:H4; simpl; [|done].
  destruct (updateStats_prevent_traded _ _ _ _ _ _ Hx H4) as (_ & Hb & _).
  destruct Hb as [_ _ _ _ _ _ Bstd _ _ _ _].
  assert (standard s4 !! k = Some x) as Hx4 by (by rewrite Bstd).
  destruct Hk as [-> | ->].
  - rewrite bool_decide_eq_true_2 by done. simpl.
    by apply (refresh_without_plant s4 x).
  - by apply (refresh_without_drive _ s4 x).
Qed.

(** *** Including the cost of a slot, and discounts *)

Lemma setSlot_own s r sl : getSlot s r = Some sl → setSlot r sl s = s.
Proof.
  intros Hsl. destruct s. destruct r; simpl in *; simplify_eq; try done;
    unfold setSlot; reduce_records; f_equal; by apply list_insert_id.
Qed.

Lemma setCostIncluded_spec s r sl included :
  getSlot s r = Some sl →
  setCostIncluded s r included
  = Some (setSlot r (set_incCost included sl)
            (set_totalCost
               (totalCost s
                + (if negb (bool_decide (incCost sl = included))
                      && bool_decide (is_Some (c sl))
                   then if included then discountedCost sl else - discountedCost sl
                   else 0)) s)).
Proof.
  intros Hsl. unfold setCostIncluded. rewrite Hsl. simpl. f_equal.
  destruct (_ && _); [done|]. rewrite Z.add_0_r. by destruct s.
Qed.

(** X8.  On integer data, [setCostIncluded] on an item of the cost list
    (any slot but the cargo hatch, which has neither the flag nor a
    discounted cost) is undone by setting the flag back: the total cost
    and the slot return to what they were, and nothing else has
    changed. *)
Theorem setCostIncluded_round_trip s r sl included s1 :
  r ≠ RCargoHatch →
  getSlot s r = Some sl → setCostIncluded s r included = Some s1 →
  setCostIncluded s1 r (incCost sl) = Some s.
Proof.
  intros _ Hsl. rewrite (setCostIncluded_spec s r sl) by done. intros [= <-].
  match goal with |- context [setSlot r _ ?u] => set (t := u) end.
  assert (getSlot t r = Some sl) as Ht by (by destruct r).
  rewrite (setCostIncluded_spec _ r (set_incCost included sl))
    by (by eapply getSlot_setSlot_eq).
  f_equal.
  replace (set_incCost (incCost sl) (set_incCost included sl)) with sl by (by destruct sl).
  assert (incCost (set_incCost included sl) = included) as -> by (by destruct sl).
  assert (c (set_incCost included sl) = c sl) as -> by (by destruct sl).
  assert (discountedCost (set_incCost included sl) = discountedCost sl) as ->
    by (by destruct sl).
  assert (totalCost (setSlot r (set_incCost included sl) t) = totalCost t) as ->
    by (by destruct r).
  transitivity (setSlot r sl s); [|by apply setSlot_own].
  assert (totalCost t
          + (if negb (bool_decide (included = incCost sl)) && bool_decide (is_Some (c sl))
             then if incCost sl then discountedCost sl else - discountedCost sl
             else 0) = totalCost s) as ->.
  { unfold t. simpl.
    destruct (decide (incCost sl = included)) as [Heq|Hne].
    - rewrite (bool_decide_eq_true_2 (incCost sl = included)) by done.
      rewrite (bool_decide_eq_true_2 (included = incCost sl)) by done. simpl. lia.
    - rewrite (bool_decide_eq_false_2 (incCost sl = included)) by done.
      rewrite (bool_decide_eq_false_2 (included = incCost sl)) by done. simpl.
      destruct (bool_decide (is_Some (c sl))); simpl; [|lia].
      destruct included, (incCost sl); try done; lia. }
  unfold t. destruct s, r; unfold setSlot; reduce_records; f_equal;
    by rewrite list_insert_insert_eq.
Qed.

Lemma reprice_twice a b m1 m2 sl : reprice m1 m2 (reprice a b sl) = reprice m1 m2 sl.
Proof.
  unfold reprice. destruct sl as [i [n|] ? ? ? ? ? ty d]; cbn; [|done].
  destruct (truthy (cost n)) eqn:Hn; cbn; rewrite ?Hn; done.
Qed.

Lemma billed_repriced a b m1 m2 sl : billed m1 m2 (reprice a b sl) = billed m1 m2 sl.
Proof.
  unfold billed. destruct (reprice_fittings a b sl) as (_ & -> & -> & _ & _ & _ & _ & ->).
  done.
Qed.

(** X9.  The last discount wins: applying discounts to a ship with
    discounts applied gives what applying them to the ship itself
    gives. *)
Theorem applyDiscounts_last_wins s a b m1 m2 :
  applyDiscounts (applyDiscounts s a b) m1 m2 = applyDiscounts s m1 m2.
Proof.
  pose proof (applyDiscounts_spec s a b) as A. cbv zeta in A.
  pose proof (applyDiscounts_spec (applyDiscounts s a b) m1 m2) as B. cbv zeta in B.
  pose proof (applyDiscounts_spec s m1 m2) as C. cbv zeta in C.
  set (sa := applyDiscounts s a b) in *.
  set (sb := applyDiscounts sa m1 m2) in *. set (sc := applyDiscounts s m1 m2) in *.
  destruct A as (A1 & A2 & A3 & A4 & A5 & A6 & A7 & A8 & A9 & A10 & A11 & A12 & A13 & A14
                 & A15 & A16 & A17 & A18 & A19 & A20 & A21 & A22 & A23).
  destruct B as (B1 & B2 & B3 & B4 & B5 & B6 & B7 & B8 & B9 & B10 & B11 & B12 & B13 & B14
                 & B15 & B16 & B17 & B18 & B19 & B20 & B21 & B22 & B23).
  destruct C as (C1 & C2 & C3 & C4 & C5 & C6 & C7 & C8 & C9 & C10 & C11 & C12 & C13 & C14
                 & C15 & C16 & C17 & C18 & C19 & C20 & C21 & C22 & C23).
  assert (∀ l : list Slot,
            reprice m1 m2 <$> (reprice a b <$> l) = reprice m1 m2 <$> l) as Hl.
  { intros l. rewrite <- list_fmap_compose. apply list_fmap_ext. intros ? ? _. simpl.
    apply reprice_twice. }
  assert (totalCost sb = totalCost sc) as Htot.
  { rewrite B9, C9, A1, billed_repriced. f_equal. unfold sa.
    apply overSlots_repriced. intros sl. apply billed_repriced. }
  symmetry. apply ship_eq.
  - constructor; try congruence;
      rewrite ?B1, ?B2, ?B3, ?B4, ?B5, ?C1, ?C2, ?C3, ?C4, ?C5, ?A1, ?A2, ?A3, ?A4, ?A5,
        ?Hl, ?reprice_twice; done.
  - destruct A13, B13, C13. constructor; congruence.
  - constructor; congruence.
  - destruct A14, B14, C14. constructor; congruence.
Qed.

Lemma fmap_fixed {A} (f : A → A) (l : list A) :
  (∀ i x, l !! i = Some x → f x = x) → f <$> l = l.
Proof.
  intros Hf. apply list_eq. intros i. rewrite list_lookup_fmap.
  destruct (l !! i) as [x|] eqn:Hx; simpl; [|done]. by rewrite (Hf i x).
Qed.

Lemma reprice_fixed m1 m2 sl :
  discountedCost sl = priceOf (c sl) * (match type sl with SHIP => m1 | _ => m2 end) →
  reprice m1 m2 sl = sl.
Proof.
  unfold reprice. destruct sl as [i [n|] ? ? ? ? ? ty d]; simpl; [|done].
  intros ->. by destruct (truthy (cost n)).
Qed.

(** X10.  On integer data, applying to a reachable ship the multipliers
    that it has changes nothing: the sum that [applyDiscounts] forms
    anew is the total cost that the mutations have maintained. *)
Theorem applyDiscounts_current s :
  reachable s →
  applyDiscounts s (shipCostMultiplier s) (componentCostMultiplier s) = s.
Proof.
  intros Hs. destruct (reachable_consistent s Hs) as (Hsh & _ & Hta & _).
  set (m1 := shipCostMultiplier s). set (m2 := componentCostMultiplier s).
  pose proof (applyDiscounts_spec s m1 m2) as C. cbv zeta in C.
  destruct C as (C1 & C2 & C3 & C4 & C5 & C6 & C7 & C8 & C9 & C10 & C11 & C12 & C13 & C14
                 & C15 & C16 & C17 & C18 & C19 & C20 & C21 & C22 & C23).
  assert (∀ r sl, r ≠ RCargoHatch → getSlot s r = Some sl → reprice m1 m2 sl = sl) as Hfix.
  { intros r sl Hr Hsl. apply reprice_fixed.
    destruct r as [| | |k|k|k]; try done; simpl in Hsl.
    - injection Hsl as <-. by destruct (shaped_hull s Hsh) as (-> & _ & ->).
    - injection Hsl as <-.
      destruct (shaped_bulkheads s Hsh) as (_ & _ & _ & _ & Hty & ->).
      by destruct (type (bulkheads s)).
    - destruct (shaped_slots s Hsh (RStandard k) sl I Hsl) as [_ _ -> ->].
      by destruct k as [|[|[|?]]].
    - destruct (shaped_slots s Hsh (RHardpoint k) sl I Hsl) as [_ _ -> ->].
      simpl. by destruct (truthy (maxClass sl)).
    - by destruct (shaped_slots s Hsh (RInternal k) sl I Hsl) as [_ _ -> ->]. }
  apply ship_eq; [|done| |done].
  - constructor; try done.
    + rewrite C2. by apply (Hfix RBulkheads).
    + rewrite C1. by apply (Hfix RShip).
    + rewrite C3. apply fmap_fixed. intros i x Hx. by apply (Hfix (RStandard i)).
    + rewrite C4. apply fmap_fixed. intros i x Hx. by apply (Hfix (RHardpoint i)).
    + rewrite C5. apply fmap_fixed. intros i x Hx. by apply (Hfix (RInternal i)).
  - constructor; try done. rewrite C9.
    rewrite (counted_cost s (tallied_counted s Hta)). f_equal.
    + unfold billed. destruct (shaped_hull s Hsh) as (-> & [n ->] & ->). simpl.
      destruct (truthy (cost n)) eqn:Hn; destruct (incCost (shipC s)); simpl; try done.
      apply truthy_false in Hn. rewrite Hn. lia.
    + apply overSlots_ext_in. intros r sl Hr1 Hr2 Hsl.
      unfold billed, costOf, costOfC. destruct (c sl) as [n|]; [|done].
      assert (match type sl with SHIP => m1 | _ => m2 end = m2) as ->.
      { destruct r as [| | |k|k|k]; try done; simpl in Hsl.
        - injection Hsl as <-.
          destruct (shaped_bulkheads s Hsh) as (_ & _ & _ & _ & Hty & _).
          by destruct (type (bulkheads s)).
        - destruct (shaped_slots s Hsh (RStandard k) sl I Hsl) as [_ _ _ ->].
          by destruct k as [|[|[|?]]].
        - destruct (shaped_slots s Hsh (RHardpoint k) sl I Hsl) as [_ _ _ ->].
          simpl. by destruct (truthy (maxClass sl)).
        - by destruct (shaped_slots s Hsh (RInternal k) sl I Hsl) as [_ _ _ ->]. }
      destruct (truthy (cost n)) eqn:Hn; destruct (incCost sl); simpl; try done.
      apply truthy_false in Hn. rewrite Hn. lia.
Qed.


(** *** Finding the slot of a group *)

Lemma findIndex_first {A} (p : A → bool) l :
  match findIndex p l with
  | Some j => (∃ x, l !! j = Some x ∧ p x = true)
              ∧ ∀ i x, (i < j)%nat → l !! i = Some x → p x = false
  | None => ∀ i x, l !! i = Some x → p x = false
  end.
Proof.
  induction l as [|y l IH]; simpl; [done|].
  destruct (p y) eqn:Hy.
  - split; [by exists y|]. intros i x Hi. lia.
  - destruct (findIndex p l) as [j|]; simpl.
    + destruct IH as [Hj Hbefore]. split; [done|].
      intros [|i] x Hi; simpl; [by intros [= <-]|]. apply Hbefore. lia.
    + intros [|i] x; simpl; [by intros [= <-]|]. apply IH.
Qed.

(** X11.  [findInternalByGroup] gives the first internal slot that holds
    a component of the group, and nothing exactly when no internal slot
    holds one; the shield generators of both kinds are one group, so the
    groups "sg" and "psg" give the same slot. *)
Theorem findInternalByGroup_first s g :
  match findInternalByGroup s g with
  | Some j => (∃ sl, internal s !! j = Some sl ∧ holdsGroup g sl = true)
              ∧ ∀ i sl, (i < j)%nat → internal s !! i = Some sl → holdsGroup g sl = false
  | None => ∀ i sl, internal s !! i = Some sl → holdsGroup g sl = false
  end
  ∧ findInternalByGroup s "sg" = findInternalByGroup s "psg".
Proof. split; [apply findIndex_first|reflexivity]. Qed.

(** *** The refresh of the power *)

(** X12.  [updatePower] is idempotent: on the ship that it returns it
    returns the same ship. *)
Theorem updatePower_idempotent s s' :
  updatePower s = Some s' → updatePower s' = Some s'.
Proof.
  intros Hs'. destruct (updatePower_spec s s' Hs') as (pp & plant & Hpp & Hplant & ->).
  clear Hs'. destruct s. destruct pp as [? cpp ? ? ? ? ? ? ?]. simpl in Hpp, Hplant.
  subst cpp. unfold updatePower. reduce_records.
  rewrite sumBands_fixed. reduce_records. rewrite Hpp. reflexivity.
Qed.

(** *** The status of the slots of a reachable ship *)

(** X13.  On a reachable ship [getSlotStatus] does not throw for the
    cargo hatch, nor for a slot of the three groups that is empty, or
    disabled, or whose component draws power: its tier exists.  The
    status is 0, 1, 2 or 3. *)
Theorem getSlotStatus_defined s r sl isDeployed :
  reachable s → powered r → getSlot s r = Some sl →
  (r = RCargoHatch ∨ c sl = None ∨ enabled sl = false
   ∨ ∃ n, c sl = Some n ∧ power n ≠ 0) →
  ∃ k, getSlotStatus s sl isDeployed = Some k ∧ 0 ≤ k ≤ 3.
Proof.
  intros Hs Hr Hsl Hcase.
  destruct (reachable_consistent s Hs) as (Hsh & [_ _ Hti] & _).
  unfold getSlotStatus.
  destruct (c sl) as [n|] eqn:Hn; [|exists 0; split; [done|lia]].
  destruct (enabled sl) eqn:Hen; simpl; [|exists 1; split; [done|lia]].
  destruct (Hti r sl Hr Hsl Hen n Hn) as [b Hb].
  { destruct Hcase as [->|[?|[?|(n' & ? & ?)]]]; try done; [by right|].
    left. congruence. }
  rewrite Hb. simpl.
  destruct isDeployed; [|destruct (catIs sl 1 && negb (passive n))];
    try (by exists 0; split; [done|lia]);
    match goal with |- context [if ?t then _ else _] =>
      destruct t; [exists 2|exists 3]; split; try done; lia end.
Qed.

(** *** Switching a slot off and on, and moving it between tiers *)

Lemma setSlotEnabled_slots s r sl en s' :
  getSlot s r = Some sl → setSlotEnabled s r en = Some s' →
  sameBase (setSlot r (set_enabled en sl) s) s'
  ∧ length (priorityBands s') = length (priorityBands s).
Proof.
  intros Hsl. unfold setSlotEnabled. rewrite Hsl. simpl.
  case_bool_decide as Hen.
  { intros [= <-]. split; [|done].
    replace (set_enabled en sl) with sl by (by destruct sl; simpl in *; subst).
    by apply sameBase_sym, setSlot_same. }
  change (c (set_enabled en sl)) with (c sl).
  destruct (c sl) as [n|]; [|intros [= <-]; split; [apply sameBase_refl|by destruct r]].
  destruct (adjustBand _ _ _ _) as [s2|] eqn:H2; simpl; [|done].
  change (if grpIs n "sg" || grpIs n "psg" then updateShieldStrength s2 else _)
    with (toggleStats n (if en then 1 else -1) s2).
  intros H4.
  destruct (adjustBand_frame _ _ _ _ _ H2) as (Hb2 & _ & _ & _ & _ & _ & _ & Hl2).
  pose proof (toggleStats_spec n (if en then 1 else -1) s2) as T. cbv zeta in T.
  destruct T as (Hb3 & [Hp3 _ _ _] & _).
  split.
  - eapply sameBase_trans; [exact Hb2|]. eapply sameBase_trans; [exact Hb3|].
    by eapply updatePower_base.
  - rewrite (updatePower_length _ _ H4), Hp3, Hl2. by destruct r.
Qed.

(** X14.  On a sane catalogue and on integer data, switching a slot off
    or on and then back restores the ship, with every statistic (when
    both calls return); the ship is one that a session reaches by
    builds with a flag for every slot (or no flags) and by mutations
    with updates not prevented. *)
Theorem setSlotEnabled_round_trip s r sl en s1 s2 :
  SaneCatalogue → wellFlagged s → powered r → getSlot s r = Some sl →
  setSlotEnabled s r en = Some s1 → setSlotEnabled s1 r (enabled sl) = Some s2 →
  s2 = s.
Proof.
  intros Hsane Hs%wellFlagged_reachable Hr Hsl H1 H2.
  destruct (reachable_consistent s Hs) as (Hsh & Hsu & Hta & Hde).
  destruct (setSlotEnabled_step s r en s1 Hr Hsh Hsu Hta Hde H1) as (Hsh1 & Hsu1 & Hta1 & Hde1).
  destruct (setSlotEnabled_step s1 r _ s2 Hr Hsh1 Hsu1 Hta1 Hde1 H2)
    as (Hsh2 & Hsu2 & Hta2 & Hde2).
  destruct (setSlotEnabled_slots s r sl en s1 Hsl H1) as [Hb1 Hl1].
  assert (getSlot s1 r = Some (set_enabled en sl)) as Hsl1.
  { rewrite (sameBase_getSlot _ _ r Hb1). by eapply getSlot_setSlot_eq. }
  destruct (setSlotEnabled_slots s1 r _ _ s2 Hsl1 H2) as [Hb2 Hl2].
  apply consistent_unique; try done; [|congruence].
  eapply sameBase_trans; [|exact Hb2].
  replace (set_enabled (enabled sl) (set_enabled en sl)) with sl by (by destruct sl).
  eapply sameBase_trans; [apply (setSlot_same s r sl Hsl)|].
  rewrite <- (setSlot_twice r sl (set_enabled en sl) s). by apply sameBase_setSlot.
Qed.

Lemma changePriority_slots s r sl newPriority s' result :
  getSlot s r = Some sl → changePriority s r newPriority = Some (s', result) →
  sameBase (setSlot r (if result then set_priority newPriority sl else sl) s) s'
  ∧ length (priorityBands s') = length (priorityBands s).
Proof.
  intros Hsl. unfold changePriority. rewrite Hsl. simpl.
  destruct (_ && _).
  - change (enabled (set_priority newPriority sl)) with (enabled sl).
    change (c (set_priority newPriority sl)) with (c sl).
    destruct (enabled sl).
    + destruct (c sl) as [n|]; simpl; [|done].
      destruct (adjustBand _ _ _ _) as [s2|] eqn:H2; simpl; [|done].
      destruct (adjustBand _ _ _ s2) as [s3|] eqn:H3; simpl; [|done].
      destruct (updatePower s3) as [s4|] eqn:H4; simpl; [|done]. intros [= <- <-].
      destruct (adjustBand_frame _ _ _ _ _ H2) as (Hb2 & _ & _ & _ & _ & _ & _ & Hl2).
      destruct (adjustBand_frame _ _ _ _ _ H3) as (Hb3 & _ & _ & _ & _ & _ & _ & Hl3).
      split.
      * eapply sameBase_trans; [exact Hb2|]. eapply sameBase_trans; [exact Hb3|].
        by eapply updatePower_base.
      * rewrite (updatePower_length _ _ H4), Hl3, Hl2. by destruct r.
    + intros [= <- <-]. split; [apply sameBase_refl|by destruct r].
  - intros [= <- <-]. split; [|done]. by apply sameBase_sym, setSlot_same.
Qed.

(** X15.  On a sane catalogue and on integer data, moving a slot of a
    reachable ship to another tier and then back to its own, which is
    accepted, restores the ship (when both calls return, whatever the
    first one answers). *)
Theorem changePriority_round_trip s r sl newPriority s1 result s2 :
  SaneCatalogue → reachable s → powered r → getSlot s r = Some sl →
  changePriority s r newPriority = Some (s1, result) →
  changePriority s1 r (priority sl) = Some (s2, true) →
  s2 = s.
Proof.
  intros Hsane Hs Hr Hsl H1 H2.
  destruct (reachable_consistent s Hs) as (Hsh & Hsu & Hta & Hde).
  destruct (changePriority_step s r _ s1 _ Hr Hsh Hsu Hta Hde H1)
    as (Hsh1 & Hsu1 & Hta1 & Hde1).
  destruct (changePriority_step s1 r _ s2 _ Hr Hsh1 Hsu1 Hta1 Hde1 H2)
    as (Hsh2 & Hsu2 & Hta2 & Hde2).
  destruct (changePriority_slots s r sl _ s1 _ Hsl H1) as [Hb1 Hl1].
  set (x := if result then set_priority newPriority sl else sl) in *.
  assert (getSlot s1 r = Some x) as Hsl1.
  { rewrite (sameBase_getSlot _ _ r Hb1). by eapply getSlot_setSlot_eq. }
  destruct (changePriority_slots s1 r x _ s2 _ Hsl1 H2) as [Hb2 Hl2].
  apply consistent_unique; try done; [|congruence].
  eapply sameBase_trans; [|exact Hb2].
  replace (set_priority (priority sl) x) with sl by (by unfold x; destruct result, sl).
  eapply sameBase_trans; [apply (setSlot_same s r sl Hsl)|].
  rewrite <- (setSlot_twice r sl x s). by apply sameBase_setSlot.
Qed.


(** *** Emptying slots *)

Lemma refresh_is_Some pc s pp plant fs fsd :
  standard s !! 0%nat = Some pp → c pp = Some plant →
  standard s !! 2%nat = Some fs → c fs = Some fsd →
  is_Some (refresh pc s).
Proof.
  intros Hpp Hplant Hfs Hfsd. unfold refresh.
  assert (∀ t, standard t = standard s →
            is_Some (s6 ← updateTopSpeed t; s7 ← updateJumpStats s6;
                     Some (updateShieldStrength s7))) as Hrest.
  { intros t Ht.
    destruct (lookup_lt_is_Some_2 (standard s) 1) as [th Hth].
    { apply lookup_lt_Some in Hfs. lia. }
    unfold updateTopSpeed. rewrite Ht, Hth. simpl.
    unfold updateJumpStats. simpl. rewrite Ht, Hfs. simpl. rewrite Hfsd. simpl.
    by eexists. }
  destruct pc; simpl; [|by apply Hrest].
  destruct (updatePower_is_Some s pp plant Hpp Hplant) as [s5 H5]. rewrite H5. simpl.
  apply Hrest. by destruct (updatePower_base _ _ H5) as [_ _ _ _ _ _ -> _ _ _ _].
Qed.

(** Emptying a hardpoint or an internal slot of a reachable ship
    returns. *)
Lemma use_nothing_returns t r sl :
  reachable t → (∃ i, r = RHardpoint i ∨ r = RInternal i) → getSlot t r = Some sl →
  ∃ t', use t r None None false = Some t' ∧ reachable t'
    ∧ sameBase (setSlot r (vacated sl) t) t'
    ∧ length (priorityBands t') = length (priorityBands t).
Proof.
  intros Ht Hr Hsl.
  assert (installable r ∧ powered r ∧ ∀ k, r ≠ RStandard k) as (Hin & Hpo & Hns).
  { destruct Hr as (i & [-> | ->]); done. }
  destruct (reachable_consistent t Ht) as (Hsh & [_ _ Hti] & _).
  assert (∀ t', use t r None None false = Some t' → reachable t') as Hreach.
  { intros t' Huse. eapply reachable_step; [exact Ht|].
    by apply (step_use t r None t' Hin). }
  destruct (shaped_slots t Hsh r sl Hin Hsl) as [_ Hc Hd _].
  destruct (decide (id sl = None)) as [Hid|Hid].
  { assert (use t r None None false = Some t) as Huse.
    { unfold use. rewrite Hsl. simpl. by rewrite bool_decide_eq_true_2. }
    exists t. split; [done|]. split; [by apply Hreach|]. split; [|done].
    replace (vacated sl) with sl; [by apply sameBase_sym, setSlot_same|].
    rewrite Hid in Hc. simpl in Hc. rewrite Hc in Hd. simpl in Hd.
    unfold vacated. destruct sl; simpl in *; by subst. }
  assert (is_Some (use t r None None false)) as [t' Huse].
  { unfold use. rewrite Hsl. simpl. rewrite bool_decide_eq_false_2 by done.
    rewrite (vacateSimilar_nothing t r sl) by done. simpl. rewrite Hsl. simpl.
    change (set_discountedCost 0 (set_c None (set_id None sl))) with (vacated sl).
    set (s2 := setSlot r (vacated sl) t).
    assert (getSlot s2 r = Some (vacated sl)) as Hx by (by eapply getSlot_setSlot_eq).
    rewrite (updateStats_refresh s2 r (vacated sl)) by done.
    destruct (updateStats_prevent_is_Some s2 r (vacated sl) None (c sl) Hx) as [U HU].
    { intros [Hact|Hact]; [|done]. unfold activeC in Hact.
      destruct (c sl) as [n|] eqn:Hn; [|done].
      apply andb_true_iff in Hact as [Hp Hen].
      unfold s2. rewrite (same_priorityBands _ _ (setSlot_power r (vacated sl) t)).
      apply (Hti r sl Hpo Hsl Hen n Hn). left. by apply truthy_true. }
    rewrite HU. simpl.
    destruct (updateStats_prevent_traded _ _ _ _ _ _ Hx HU) as (_ & Hb & _).
    destruct Hb as [_ _ _ _ _ _ Bstd _ _ _ _].
    assert (standard U = standard t) as HstdU.
    { rewrite Bstd. destruct Hr as (i & [-> | ->]); done. }
    destruct (shaped_plant t Hsh) as (pp & plant & Hpp & Hplant).
    destruct (shaped_fsd t Hsh) as (fs & fsd & Hfs & Hfsd).
    apply (refresh_is_Some _ U pp plant fs fsd); by rewrite ?HstdU. }
  exists t'. split; [done|]. split; [by apply Hreach|].
  split; [|by eapply use_length].
  destruct (use_slots t r sl None None false t' Hsl Hid Huse) as (s1 & sl1 & Hvac & Hsl1 & Hb).
  rewrite (vacateSimilar_nothing t r sl) in Hvac by done. injection Hvac as <-.
  rewrite Hsl in Hsl1. injection Hsl1 as <-. exact Hb.
Qed.

Lemma forEach_fmap {A B} (f : A → B) (body : Ship → B → option Ship) l : ∀ s,
  forEach (λ t x, body t (f x)) s l = forEach body s (f <$> l).
Proof.
  induction l as [|x l IH]; intros s; simpl; [done|].
  destruct (body s (f x)); simpl; [apply IH|done].
Qed.

Lemma unlessKept_twice keep sl :
  (∀ a, keep (vacated a) = keep a) →
  unlessKept keep (unlessKept keep sl) = unlessKept keep sl.
Proof.
  intros Hkeep. unfold unlessKept. destruct (keep sl) eqn:Hk; [by rewrite Hk|].
  rewrite Hkeep, Hk. by destruct sl.
Qed.

(** A loop that empties the slots that it does not keep among the
    hardpoints and internal slots [l] of a reachable ship returns, and
    touches no other slot. *)
Lemma emptying_loop (keep : Slot → bool) (body : Ship → SlotRef → option Ship) s
    (l : list SlotRef) :
  (∀ a, keep (vacated a) = keep a) →
  (∀ t r sl, r ∈ l → getSlot t r = Some sl →
     body t r = if keep sl then Some t else use t r None None false) →
  (∀ r, r ∈ l → (∃ i, r = RHardpoint i ∨ r = RInternal i) ∧ is_Some (getSlot s r)) →
  ∀ seen t,
  reachable t →
  (∀ r, getSlot t r
        = if decide (r ∈ seen) then unlessKept keep <$> getSlot s r else getSlot s r) →
  shipId t = shipId s ∧ props t = props s ∧ bulkheadsId t = bulkheadsId s
  ∧ shipCostMultiplier t = shipCostMultiplier s
  ∧ componentCostMultiplier t = componentCostMultiplier s
  ∧ length (priorityBands t) = length (priorityBands s) →
  ∃ s', forEach body t l = Some s' ∧ reachable s'
    ∧ (∀ r, getSlot s' r
            = if decide (r ∈ seen ++ l) then unlessKept keep <$> getSlot s r
              else getSlot s r)
    ∧ shipId s' = shipId s ∧ props s' = props s ∧ bulkheadsId s' = bulkheadsId s
    ∧ shipCostMultiplier s' = shipCostMultiplier s
    ∧ componentCostMultiplier s' = componentCostMultiplier s
    ∧ length (priorityBands s') = length (priorityBands s).
Proof.
  intros Hkeep. induction l as [|r l IH]; intros Hbody Hl seen t Ht Hslots Hrest; simpl.
  { exists t. rewrite app_nil_r. done. }
  destruct (Hl r) as [Hr [sl0 Hsl0]]; [apply elem_of_cons; by left|].
  assert (∃ sl, getSlot t r = Some sl ∧ unlessKept keep sl = unlessKept keep sl0)
    as (sl & Hsl & Hsame).
  { rewrite Hslots. case_decide; rewrite Hsl0; simpl; eexists; split; try done.
    by apply unlessKept_twice. }
  assert (∃ t', body t r = Some t' ∧ reachable t'
            ∧ sameBase (setSlot r (unlessKept keep sl) t) t'
            ∧ length (priorityBands t') = length (priorityBands t))
    as (t' & Hstep & Ht' & Hb & Hlen).
  { rewrite (Hbody t r sl); [|apply elem_of_cons; by left|done]. unfold unlessKept.
    destruct (keep sl).
    - exists t. split; [done|]. split; [done|]. split; [|done].
      by apply sameBase_sym, setSlot_same.
    - by apply use_nothing_returns. }
  rewrite Hstep. simpl.
  replace (seen ++ r :: l) with ((seen ++ [r]) ++ l) by (by rewrite <- app_assoc).
  apply IH.
  - intros u r' sl' Hr'. apply Hbody. apply elem_of_cons. by right.
  - intros r' Hr'. apply Hl. apply elem_of_cons. by right.
  - done.
  - intros r'. rewrite (sameBase_getSlot _ _ r' Hb).
    rewrite (getSlot_setSlot _ _ _ _ _ Hsl).
    destruct (decide (r = r')) as [<-|Hne].
    + rewrite decide_True by (apply elem_of_app; right; by apply list_elem_of_singleton).
      by rewrite Hsl0, Hsame.
    + rewrite Hslots. destruct (decide (r' ∈ seen)) as [Hin|Hout].
      * by rewrite decide_True by (apply elem_of_app; by left).
      * rewrite decide_False; [done|].
        intros [?|?%list_elem_of_singleton]%elem_of_app; done.
  - destruct Hrest as (? & ? & ? & ? & ? & ?).
    destruct Hb as [Bid Bprops _ _ Bbid _ _ _ _ Bscm Bccm].
    destruct (setSlot_fields r (unlessKept keep sl) t) as (F1 & F2 & F3 & F4 & F5).
    repeat split; congruence.
Qed.

Lemma elem_of_downFrom i n : i ∈ downFrom n ↔ (i < n)%nat.
Proof. unfold downFrom. rewrite elem_of_reverse, elem_of_seq. lia. Qed.


Lemma hardpoint_not_elem r (l : list nat) :
  (∀ i, r ≠ RHardpoint i) → r ∉ RHardpoint <$> l.
Proof. intros Hr (i & -> & _)%list_elem_of_fmap. by apply (Hr i). Qed.

Lemma internal_not_elem r (l : list nat) :
  (∀ i, r ≠ RInternal i) → r ∉ RInternal <$> l.
Proof. intros Hr (i & -> & _)%list_elem_of_fmap. by apply (Hr i). Qed.

(** What a loop over all hardpoints leaves. *)
Lemma emptying_hardpoints (keep : Slot → bool) (body : Ship → nat → option Ship) s :
  (∀ a, keep (vacated a) = keep a) →
  (∀ t i sl, hardpoints t !! i = Some sl →
     body t i = if keep sl then Some t else use t (RHardpoint i) None None false) →
  reachable s →
  ∃ s', forEach body s (downFrom (length (hardpoints s))) = Some s' ∧ reachable s'
    ∧ hardpoints s' = unlessKept keep <$> hardpoints s
    ∧ sameBase (set_hardpoints (hardpoints s') s) s'
    ∧ length (priorityBands s') = length (priorityBands s).
Proof.
  intros Hkeep Hbody Hs.
  set (l := downFrom (length (hardpoints s))).
  set (bodyAt := λ (t : Ship) (r : SlotRef),
         match r with RHardpoint i => body t i | _ => None end).
  destruct (emptying_loop keep bodyAt s (RHardpoint <$> l) Hkeep) with (seen := @nil SlotRef)
    (t := s) as (s' & Hloop & Hs' & Hslots & Hid & Hprops & Hbid & Hscm & Hccm & Hlen).
  - intros t r sl (i & -> & _)%list_elem_of_fmap Hsl. by apply Hbody.
  - intros r (i & -> & Hi)%list_elem_of_fmap. split; [by exists i; left|].
    apply elem_of_downFrom in Hi. by apply lookup_lt_is_Some_2.
  - done.
  - intros r. by rewrite decide_False by (by intros ?%elem_of_nil).
  - done.
  - exists s'. split; [by rewrite <- Hloop, <- forEach_fmap|]. split; [done|].
    change ([] ++ (RHardpoint <$> l)) with (RHardpoint <$> l) in Hslots.
    assert (hardpoints s' = unlessKept keep <$> hardpoints s) as Hhp.
    { apply list_eq. intros i. pose proof (Hslots (RHardpoint i)) as Hi. simpl in Hi.
      rewrite Hi, list_lookup_fmap. case_decide as Hin; [done|].
      destruct (hardpoints s !! i) as [x|] eqn:Hx; [|done]. destruct Hin.
      apply list_elem_of_fmap. exists i. split; [done|].
      apply elem_of_downFrom. by eapply lookup_lt_Some. }
    split; [done|]. split; [|done].
    assert (∀ r, (∀ i, r ≠ RHardpoint i) → getSlot s' r = getSlot s r) as Hother.
    { intros r Hr. rewrite Hslots. by rewrite decide_False by (by apply hardpoint_not_elem). }
    constructor; simpl; try done.
    + pose proof (Hother RCargoHatch ltac:(done)) as E. by injection E.
    + pose proof (Hother RBulkheads ltac:(done)) as E. by injection E.
    + pose proof (Hother RShip ltac:(done)) as E. by injection E.
    + apply list_eq. intros i. by apply (Hother (RStandard i)).
    + apply list_eq. intros i. by apply (Hother (RInternal i)).
Qed.

(** What a loop over all internal slots leaves. *)
Lemma emptying_internal (keep : Slot → bool) (body : Ship → nat → option Ship) s :
  (∀ a, keep (vacated a) = keep a) →
  (∀ t i sl, internal t !! i = Some sl →
     body t i = if keep sl then Some t else use t (RInternal i) None None false) →
  reachable s →
  ∃ s', forEach body s (downFrom (length (internal s))) = Some s' ∧ reachable s'
    ∧ internal s' = unlessKept keep <$> internal s
    ∧ sameBase (set_internal (internal s') s) s'
    ∧ length (priorityBands s') = length (priorityBands s).
Proof.
  intros Hkeep Hbody Hs.
  set (l := downFrom (length (internal s))).
  set (bodyAt := λ (t : Ship) (r : SlotRef),
         match r with RInternal i => body t i | _ => None end).
  destruct (emptying_loop keep bodyAt s (RInternal <$> l) Hkeep) with (seen := @nil SlotRef)
    (t := s) as (s' & Hloop & Hs' & Hslots & Hid & Hprops & Hbid & Hscm & Hccm & Hlen).
  - intros t r sl (i & -> & _)%list_elem_of_fmap Hsl. by apply Hbody.
  - intros r (i & -> & Hi)%list_elem_of_fmap. split; [by exists i; right|].
    apply elem_of_downFrom in Hi. by apply lookup_lt_is_Some_2.
  - done.
  - intros r. by rewrite decide_False by (by intros ?%elem_of_nil).
  - done.
  - exists s'. split; [by rewrite <- Hloop, <- forEach_fmap|]. split; [done|].
    change ([] ++ (RInternal <$> l)) with (RInternal <$> l) in Hslots.
    assert (internal s' = unlessKept keep <$> internal s) as Hint.
    { apply list_eq. intros i. pose proof (Hslots (RInternal i)) as Hi. simpl in Hi.
      rewrite Hi, list_lookup_fmap. case_decide as Hin; [done|].
      destruct (internal s !! i) as [x|] eqn:Hx; [|done]. destruct Hin.
      apply list_elem_of_fmap. exists i. split; [done|].
      apply elem_of_downFrom. by eapply lookup_lt_Some. }
    split; [done|]. split; [|done].
    assert (∀ r, (∀ i, r ≠ RInternal i) → getSlot s' r = getSlot s r) as Hother.
    { intros r Hr. rewrite Hslots. by rewrite decide_False by (by apply internal_not_elem). }
    constructor; simpl; try done.
    + pose proof (Hother RCargoHatch ltac:(done)) as E. by injection E.
    + pose proof (Hother RBulkheads ltac:(done)) as E. by injection E.
    + pose proof (Hother RShip ltac:(done)) as E. by injection E.
    + apply list_eq. intros i. by apply (Hother (RStandard i)).
    + apply list_eq. intros i. by apply (Hother (RHardpoint i)).
Qed.

(** X16.  On a reachable ship [emptyHardpoints] never throws: it gives
    a reachable ship in which every hardpoint is empty (no id, no
    component, discounted cost zero, its other fields kept) and every
    other slot, the cost multipliers and the number of tiers are what
    they were. *)
Theorem emptyHardpoints_spec s :
  reachable s →
  ∃ s', emptyHardpoints s = Some s' ∧ reachable s'
    ∧ hardpoints s' = vacated <$> hardpoints s
    ∧ standard s' = standard s ∧ internal s' = internal s
    ∧ cargoHatch s' = cargoHatch s ∧ bulkheads s' = bulkheads s ∧ shipC s' = shipC s
    ∧ shipCostMultiplier s' = shipCostMultiplier s
    ∧ componentCostMultiplier s' = componentCostMultiplier s
    ∧ length (priorityBands s') = length (priorityBands s).
Proof.
  intros Hs.
  destruct (emptying_hardpoints (λ _, false)
              (λ t i, use t (RHardpoint i) None None false) s)
    as (s' & Hloop & Hs' & Hhp & Hb & Hlen); [done..|].
  exists s'. split; [exact Hloop|]. split; [done|]. split; [exact Hhp|].
  by destruct Hb as [_ _ ? ? _ ? ? _ ? ? ?].
Qed.

(** X17.  On a reachable ship [emptyInternal] never throws: it gives a
    reachable ship in which every internal slot is empty and every
    other slot, the cost multipliers and the number of tiers are what
    they were. *)
Theorem emptyInternal_spec s :
  reachable s →
  ∃ s', emptyInternal s = Some s' ∧ reachable s'
    ∧ internal s' = vacated <$> internal s
    ∧ standard s' = standard s ∧ hardpoints s' = hardpoints s
    ∧ cargoHatch s' = cargoHatch s ∧ bulkheads s' = bulkheads s ∧ shipC s' = shipC s
    ∧ shipCostMultiplier s' = shipCostMultiplier s
    ∧ componentCostMultiplier s' = componentCostMultiplier s
    ∧ length (priorityBands s') = length (priorityBands s).
Proof.
  intros Hs.
  destruct (emptying_internal (λ _, false)
              (λ t i, use t (RInternal i) None None false) s)
    as (s' & Hloop & Hs' & Hint & Hb & Hlen); [done..|].
  exists s'. split; [exact Hloop|]. split; [done|]. split; [exact Hint|].
  by destruct Hb as [_ _ ? ? _ ? ? ? _ ? ?].
Qed.



(** *** Standard components of one rating *)

Lemma forEach_visited {A} (P : list A → Ship → Prop) (body : Ship → A → option Ship)
    (l : list A) : ∀ seen s s',
  P seen s →
  (∀ seen' x t t', x ∈ l → P seen' t → body t x = Some t' → P (seen' ++ [x]) t') →
  forEach body s l = Some s' → P (seen ++ l) s'.
Proof.
  induction l as [|x l IH]; intros seen s s' HP Hstep; simpl.
  { intros [= <-]. by rewrite app_nil_r. }
  destruct (body s x) as [t|] eqn:Hbody; simpl; [|done]. intros Hrest.
  replace (seen ++ x :: l) with ((seen ++ [x]) ++ l) by (by rewrite <- app_assoc).
  apply (IH _ t); [|intros seen' y u u' Hy; apply Hstep; apply elem_of_cons; by right|done].
  apply (Hstep seen x s t); [apply elem_of_cons; by left|done..].
Qed.

(** An install into a standard slot of a reachable ship leaves the
    component in the slot and touches no other slot. *)
Lemma use_standard_slots t k sl i t' :
  reachable t → standard t !! k = Some sl →
  use t (RStandard k) (Some i) (Components_standard k i) false = Some t' →
  reachable t'
  ∧ hardpoints t' = hardpoints t ∧ internal t' = internal t
  ∧ ∃ sl', standard t' = <[k:=sl']> (standard t)
      ∧ id sl' = Some i ∧ c sl' = Components_standard k i ∧ maxClass sl' = maxClass sl.
Proof.
  intros Ht Hsl Huse.
  destruct (reachable_consistent t Ht) as (Hsh & _).
  destruct (shaped_slots t Hsh (RStandard k) sl I Hsl) as [Hcat Hc _ _].
  split.
  { eapply reachable_step; [exact Ht|]. by apply (step_use t (RStandard k) (Some i) t' I). }
  destruct (decide (id sl = Some i)) as [Hid|Hid].
  - unfold use in Huse. simpl in Huse. rewrite Hsl in Huse. simpl in Huse.
    rewrite bool_decide_eq_true_2 in Huse by done. injection Huse as <-.
    split; [done|]. split; [done|]. exists sl. split; [by rewrite list_insert_id|].
    split; [done|]. split; [|done]. by rewrite Hc, Hid.
  - destruct (use_slots t (RStandard k) sl (Some i) _ false t' Hsl Hid Huse)
      as (s1 & sl1 & Hvac & Hsl1 & Hb).
    assert (s1 = t) as ->.
    { apply vacateSimilar_spec in Hvac as [->|Hvac]; [done|].
      destruct Hvac as (sl' & n & j & sim & s_a & sim1 & _ & Hsl' & _ & Hcat' & _).
      simpl in Hsl'. rewrite Hsl in Hsl'. injection Hsl' as <-.
      rewrite Hcat in Hcat'. done. }
    simpl in Hsl1. rewrite Hsl in Hsl1. injection Hsl1 as <-.
    destruct Hb as [_ _ _ _ _ _ Bstd Bhp Bint _ _]. simpl in Bstd, Bhp, Bint.
    split; [done|]. split; [done|]. eexists. split; [exact Bstd|]. done.
Qed.

(** X19.  When [useStandard] returns on a reachable ship, the ship it
    gives is reachable; every standard slot but the last holds the id
    made of its class and the rating, with the component that the
    catalogue has for it; and the last standard slot (the fuel tank),
    the hardpoints and the internal slots are what they were. *)
Theorem useStandard_spec s rating s' :
  reachable s → useStandard s rating = Some s' →
  reachable s'
  ∧ (∀ i sl, (S i < length (standard s))%nat → standard s !! i = Some sl →
       ∃ sl', standard s' !! i = Some sl'
         ∧ id sl' = Some (pretty (maxClass sl) +:+ rating)
         ∧ c sl' = Components_standard i (pretty (maxClass sl) +:+ rating)
         ∧ maxClass sl' = maxClass sl)
  ∧ (∀ i, (length (standard s) ≤ S i)%nat → standard s' !! i = standard s !! i)
  ∧ hardpoints s' = hardpoints s ∧ internal s' = internal s.
Proof.
  intros Hs. unfold useStandard.
  destruct (length (standard s)) as [|n] eqn:Hlen; [done|]. intros Hloop.
  set (P := λ (seen : list nat) (t : Ship),
         reachable t ∧ hardpoints t = hardpoints s ∧ internal t = internal s
         ∧ (∀ i, maxClass <$> standard t !! i = maxClass <$> standard s !! i)
         ∧ (∀ i, i ∉ seen → standard t !! i = standard s !! i)
         ∧ (∀ i sl', i ∈ seen → standard t !! i = Some sl' →
              id sl' = Some (pretty (maxClass sl') +:+ rating)
              ∧ c sl' = Components_standard i (pretty (maxClass sl') +:+ rating))).
  assert (P ([] ++ downFrom n) s') as (Hs' & Hhp & Hint & Hmax & Hout & Hin).
  { eapply (forEach_visited P) with (seen := []); [| |exact Hloop].
    - split; [done|]. do 4 (split; [done|]). intros i sl' Hi. by apply elem_of_nil in Hi.
    - intros seen x t t' Hx (Ht & Hhp & Hint & Hmax & Hout & Hin) Hbody.
      destruct (standard t !! x) as [cur|] eqn:Hcur; simpl in Hbody; [|done].
      destruct (use_standard_slots t x cur _ t' Ht Hcur Hbody)
        as (Ht' & Hhp' & Hint' & sl' & Hstd' & Hid' & Hc' & Hmax').
      split; [done|]. split; [congruence|]. split; [congruence|].
      assert (∀ i, i ≠ x → standard t' !! i = standard t !! i) as Hne.
      { intros i Hi. rewrite Hstd'. by rewrite list_lookup_insert_ne. }
      assert (standard t' !! x = Some sl') as Hx'.
      { rewrite Hstd'. apply list_lookup_insert_eq. by eapply lookup_lt_Some. }
      split; [|split].
      + intros i. destruct (decide (i = x)) as [->|Hi].
        * rewrite <- Hmax, Hx', Hcur. simpl. by rewrite Hmax'.
        * by rewrite Hne.
      + intros i Hi. rewrite Hne; [apply Hout|].
        * intros Hseen. apply Hi, elem_of_app. by left.
        * intros ->. apply Hi, elem_of_app. right. by apply list_elem_of_singleton.
      + intros i sl'' [Hseen| ->%list_elem_of_singleton]%elem_of_app Hi.
        * destruct (decide (i = x)) as [->|Hix].
          -- rewrite Hx' in Hi. injection Hi as <-. by rewrite Hmax'.
          -- rewrite Hne in Hi by done. by apply Hin.
        * rewrite Hx' in Hi. injection Hi as <-. by rewrite Hmax'. }
  simpl in Hout, Hin.
  split; [done|]. split; [|split; [|done]].
  - intros i sl Hi Hsl.
    pose proof (Hmax i) as E. rewrite Hsl in E.
    destruct (standard s' !! i) as [sl'|] eqn:Hsl'; [|done].
    simpl in E. injection E as Hm.
    exists sl'. split; [done|].
    destruct (Hin i sl') as [Hid Hc]; [apply elem_of_downFrom; lia|done|].
    rewrite Hm in Hid, Hc. done.
  - intros i Hi. apply Hout. rewrite elem_of_downFrom. lia.
Qed.


(** *** Changing the bulkheads *)

Lemma useBulkhead_slots s index preventUpdate s' :
  useBulkhead s index preventUpdate = Some s' →
  ∃ bh, Components_bulkheads (shipId s) index = Some bh
    ∧ sameBase (set_bulkheads
                  (set_discountedCost (cost bh * componentCostMultiplier s)
                     (set_c (Some bh) (bulkheads s)))
                  (set_bulkheadsId index s)) s'
    ∧ length (priorityBands s') = length (priorityBands s).
Proof.
  unfold useBulkhead.
  destruct (Components_bulkheads (shipId s) index) as [bh|]; simpl; [|done].
  intros Hup. exists bh. split; [done|].
  pose proof (updateStats_base _ _ _ _ _ _ Hup) as Hb.
  pose proof (updateStats_length _ _ _ _ _ _ Hup) as Hlen.
  split; [|exact Hlen].
  destruct Hb as [? ? ? ? ? ? ? ? ? ? ?]. by constructor.
Qed.

(** X20.  On a reachable ship [useBulkhead] throws exactly when the
    catalogue has no bulkheads of the index for the ship.  Otherwise it
    gives a reachable ship with the index, the bulkheads of the
    catalogue at their discounted cost, the armour multiplier of the
    index and the armour that goes with it, and every slot of the three
    groups as it was. *)
Theorem useBulkhead_spec s index :
  reachable s →
  match Components_bulkheads (shipId s) index with
  | None => useBulkhead s index false = None
  | Some bh =>
      ∃ s', useBulkhead s index false = Some s' ∧ reachable s'
        ∧ bulkheadsId s' = index ∧ c (bulkheads s') = Some bh
        ∧ discountedCost (bulkheads s') = cost bh * componentCostMultiplier s
        ∧ armourMultiplier s' = ArmourMultiplier index
        ∧ armour s' = armourAdded s'
                      + Math_round (baseArmour (props s') * ArmourMultiplier index)
        ∧ standard s' = standard s ∧ hardpoints s' = hardpoints s
        ∧ internal s' = internal s
  end.
Proof.
  intros Hs. destruct (Components_bulkheads (shipId s) index) as [bh|] eqn:Hbh;
    [|by unfold useBulkhead; rewrite Hbh].
  destruct (reachable_consistent s Hs) as (Hsh & _).
  assert (is_Some (useBulkhead s index false)) as [s' Hs'].
  { unfold useBulkhead. rewrite Hbh. simpl.
    match goal with |- is_Some (updateStats ?t _ _ _ _) => set (s3 := t) end.
    set (new := set_discountedCost (cost bh * componentCostMultiplier s)
                  (set_c (Some bh) (bulkheads s))).
    assert (getSlot s3 RBulkheads = Some new) as Hnew by done.
    rewrite (updateStats_refresh s3 RBulkheads new) by done.
    destruct (shaped_bulkheads s Hsh) as (_ & _ & Hen & _).
    destruct (updateStats_prevent_is_Some s3 RBulkheads new (Some bh) (c (bulkheads s)) Hnew)
      as [U HU].
    { unfold activeC. change (enabled new) with (enabled (bulkheads s)). rewrite Hen.
      intros [Hact|Hact].
      - destruct (c (bulkheads s)); [|done]. by rewrite andb_false_r in Hact.
      - by rewrite andb_false_r in Hact. }
    rewrite HU. simpl.
    destruct (updateStats_prevent_traded _ _ _ _ _ _ Hnew HU) as (_ & Hb & _).
    destruct Hb as [_ _ _ _ _ _ Bstd _ _ _ _].
    destruct (shaped_plant s Hsh) as (pp & plant & Hpp & Hplant).
    destruct (shaped_fsd s Hsh) as (fs & fsd & Hfs & Hfsd).
    apply (refresh_is_Some _ U pp plant fs fsd); by rewrite ?Bstd. }
  exists s'. split; [done|].
  assert (reachable s') as Hr'.
  { eapply reachable_step; [exact Hs|]. by eapply step_useBulkhead. }
  split; [done|].
  destruct (useBulkhead_slots s index false s' Hs') as (bh' & Hbh' & Hb & _).
  rewrite Hbh in Hbh'. injection Hbh' as <-.
  destruct Hb as [_ _ _ Bbulk Bbid _ Bstd Bhp Bint _ _]. simpl in *.
  destruct (reachable_consistent s' Hr') as (_ & _ & [_ _ Hmul Harm] & _).
  rewrite Bbulk, Bbid. do 3 (split; [done|]). rewrite Bbid in Hmul.
  split; [done|]. split; [by rewrite <- Hmul|]. done.
Qed.

(** X21.  On a sane catalogue and on integer data, changing the
    bulkheads of a reachable ship and then changing them back to the
    ones it had restores the ship. *)
Theorem useBulkhead_round_trip s index s1 s2 :
  SaneCatalogue → reachable s →
  useBulkhead s index false = Some s1 →
  useBulkhead s1 (bulkheadsId s) false = Some s2 →
  s2 = s.
Proof.
  intros Hsane Hs H1 H2.
  destruct (reachable_consistent s Hs) as (Hsh & Hsu & Hta & Hde).
  destruct (useBulkhead_step s index s1 Hsh Hsu Hta H1) as (Hsh1 & Hsu1 & Hta1 & Hde1).
  destruct (useBulkhead_step s1 _ s2 Hsh1 Hsu1 Hta1 H2) as (Hsh2 & Hsu2 & Hta2 & Hde2).
  destruct (useBulkhead_slots s index false s1 H1) as (bh & Hbh & Hb1 & Hl1).
  destruct (useBulkhead_slots s1 _ false s2 H2) as (bh0 & Hbh0 & Hb2 & Hl2).
  destruct Hb1 as [B1 B2 B3 B4 B5 B6 B7 B8 B9 B10 B11].
  destruct Hb2 as [D1 D2 D3 D4 D5 D6 D7 D8 D9 D10 D11]. simpl in *.
  apply consistent_unique; try done; [|congruence].
  destruct (shaped_bulkheads s Hsh) as (Hc & _ & _ & _ & _ & Hprice).
  rewrite B1, <- Hc in Hbh0.
  constructor; try congruence.
  rewrite D4, B4, B11. rewrite Hbh0 in Hprice. simpl in Hprice.
  destruct (bulkheads s); simpl in *. by rewrite Hbh0, Hprice.
Qed.

(** *** Switching a slot whose tier exists *)

(** X22.  On a reachable ship [setSlotEnabled] does not throw for the
    cargo hatch or a slot of the three groups that is empty or whose
    priority names a tier. *)
Theorem setSlotEnabled_returns s r sl en :
  reachable s → powered r → getSlot s r = Some sl →
  (c sl = None ∨ is_Some (bandAt (priorityBands s) (priority sl))) →
  ∃ s', setSlotEnabled s r en = Some s' ∧ reachable s'.
Proof.
  intros Hs Hr Hsl Hcase.
  destruct (reachable_consistent s Hs) as (Hsh & _).
  assert (is_Some (setSlotEnabled s r en)) as [s' Hs'].
  { unfold setSlotEnabled. rewrite Hsl. simpl.
    case_bool_decide; [by eexists|].
    change (c (set_enabled en sl)) with (c sl).
    change (priority (set_enabled en sl)) with (priority sl).
    destruct (c sl) as [n|] eqn:Hn; [|by eexists].
    destruct Hcase as [?|Hband]; [done|].
    match goal with |- context [adjustBand ?p ?u ?d ?t] =>
      destruct (adjustBand_is_Some p u d t) as [s2 H2] end.
    { by rewrite (same_priorityBands _ _ (setSlot_power r (set_enabled en sl) s)). }
    rewrite H2. simpl.
    change (if grpIs n "sg" || grpIs n "psg" then updateShieldStrength s2 else _)
      with (toggleStats n (if en then 1 else -1) s2).
    destruct (adjustBand_frame _ _ _ _ _ H2) as (Hb2 & _).
    pose proof (toggleStats_spec n (if en then 1 else -1) s2) as T. cbv zeta in T.
    destruct T as (Hb3 & _).
    assert (∀ k, c <$> standard (toggleStats n (if en then 1 else -1) s2) !! k
                 = c <$> standard s !! k) as Hstd.
    { intros k. rewrite (same_standard _ _ Hb3), (same_standard _ _ Hb2).
      by apply (setSlot_standard_c s r sl). }
    destruct (shaped_plant s Hsh) as (pp & plant & Hpp & Hplant).
    pose proof (Hstd 0%nat) as E. rewrite Hpp in E. simpl in E. rewrite Hplant in E.
    destruct (standard (toggleStats n (if en then 1 else -1) s2) !! 0%nat) as [pp'|] eqn:Hpp';
      [|done].
    simpl in E. injection E as E.
    by apply (updatePower_is_Some _ pp' plant). }
  exists s'. split; [done|]. eapply reachable_step; [exact Hs|].
  by eapply step_setSlotEnabled.
Qed.

End Further.

(** *** The further properties on the small catalogue *)

Section FurtherEvaluation.
#[local] Existing Instance Demo.catalogue.

Lemma unlit_wellFlagged : wellFlagged Demo.unlit.
Proof.
  apply (wellFlagged_mutation Demo.lit).
  - apply (wellFlagged_mutation Demo.armedShip); [apply armedShip_wellFlagged|].
    apply (mutation_use _ (RHardpoint 2) (Some "17")); [exact I|]. vm_compute. reflexivity.
  - apply (mutation_use _ (RHardpoint 2) None); [exact I|]. vm_compute. reflexivity.
Qed.


Lemma reachable_power_witness :
  wellFlagged Demo.tuned
  ∧ powerRetracted Demo.tuned
    = default 0 (retractedSum <$> last (priorityBands Demo.tuned))
  ∧ powerDeployed Demo.tuned
    = default 0 (deployedSum <$> last (priorityBands Demo.tuned)).
Proof.
  split; [exact tuned_wellFlagged|].
  destruct (reachable_power Demo.tuned tuned_wellFlagged) as (_ & _ & Hr & Hd).
  split; [exact Hr|exact Hd].
Defined.

Lemma reachable_jump_ranges_witness :
  reachable Demo.tuned
  ∧ getJumpRangeForMass Demo.tuned (ladenMass Demo.tuned) (fuelCapacity Demo.tuned)
    = Some (ladenRange Demo.tuned).
Proof.
  split; [exact tuned_reachable|].
  destruct (reachable_jump_ranges Demo.tuned tuned_reachable)
    as (fs & fsd & _ & _ & _ & _ & _ & Hl).
  exact Hl.
Defined.

Lemma rebuild_returns_witness :
  reachable Demo.tuned
  ∧ ∃ s', rebuild Demo.tuned = Some s' ∧ internal s' = internal Demo.tuned.
Proof.
  split; [exact tuned_reachable|].
  destruct (rebuild_returns Demo.tuned tuned_reachable)
    as (s' & Hre & _ & _ & _ & _ & _ & _ & Hint & _).
  exists s'. split; [exact Hre|exact Hint].
Defined.

(** The armed ship, and the armed ship after a laser has come and
    gone. *)
Lemma reachable_unique_witness :
  SaneCatalogue ∧ wellFlagged Demo.armedShip ∧ wellFlagged Demo.unlit
  ∧ Demo.unlit = Demo.armedShip.
Proof.
  split; [exact catalogue_sane|]. split; [exact armedShip_wellFlagged|].
  split; [exact unlit_wellFlagged|].
  apply (reachable_unique Demo.armedShip Demo.unlit catalogue_sane armedShip_wellFlagged
           unlit_wellFlagged); reflexivity.
Defined.

Lemma use_idempotent_witness :
  use Demo.armedShip (RHardpoint 2) (Some "17") (Some Demo.laser) false = Some Demo.lit
  ∧ use Demo.lit (RHardpoint 2) (Some "17") (Some Demo.laser) false = Some Demo.lit.
Proof.
  assert (use Demo.armedShip (RHardpoint 2) (Some "17") (Some Demo.laser) false
          = Some Demo.lit) as Huse by (vm_compute; reflexivity).
  split; [exact Huse|]. exact (use_idempotent _ _ _ _ _ _ Huse).
Defined.

(** An id that the catalogue does not know, passed for the power plant
    of the armed ship. *)
Lemma use_without_plant_or_drive_witness :
  standard Demo.armedShip !! 0%nat = Some Demo.plantSlot
  ∧ id Demo.plantSlot ≠ Some "9Z"
  ∧ Components_standard 0 "9Z" = None
  ∧ use Demo.armedShip (RStandard 0) (Some "9Z") None false = None.
Proof.
  split; [reflexivity|]. split; [discriminate|]. split; [reflexivity|].
  apply (use_without_plant_or_drive Demo.armedShip 0 Demo.plantSlot (Some "9Z"));
    [by left|reflexivity|discriminate].
Defined.

Lemma setCostIncluded_round_trip_witness :
  RInternal 0 ≠ RCargoHatch
  ∧ getSlot Demo.armedShip (RInternal 0) = Some Demo.shieldSlot
  ∧ ∃ s1, setCostIncluded Demo.armedShip (RInternal 0) false = Some s1
      ∧ totalCost s1 = 18400
      ∧ setCostIncluded s1 (RInternal 0) (incCost Demo.shieldSlot) = Some Demo.armedShip.
Proof.
  split; [discriminate|]. split; [reflexivity|].
  destruct (setCostIncluded Demo.armedShip (RInternal 0) false) as [s1|] eqn:H1;
    [|by vm_compute in H1].
  exists s1. split; [reflexivity|]. split.
  - vm_compute in H1. injection H1 as <-. reflexivity.
  - apply (setCostIncluded_round_trip Demo.armedShip (RInternal 0) Demo.shieldSlot false s1);
      [discriminate|reflexivity|exact H1].
Defined.

Lemma applyDiscounts_current_witness :
  reachable Demo.tuned
  ∧ applyDiscounts Demo.tuned (shipCostMultiplier Demo.tuned)
      (componentCostMultiplier Demo.tuned) = Demo.tuned.
Proof.
  split; [exact tuned_reachable|]. exact (applyDiscounts_current _ tuned_reachable).
Defined.

(** The armed ship with its power figures wiped: one refresh restores
    them, and a second one changes nothing. *)
Lemma updatePower_idempotent_witness :
  updatePower (set_powerDeployed 0 (set_powerAvailable 0 Demo.armedShip))
  = Some Demo.armedShip
  ∧ updatePower Demo.armedShip = Some Demo.armedShip.
Proof.
  assert (updatePower (set_powerDeployed 0 (set_powerAvailable 0 Demo.armedShip))
          = Some Demo.armedShip) as Hup by (vm_compute; reflexivity).
  split; [exact Hup|]. exact (updatePower_idempotent _ _ Hup).
Defined.

Lemma getSlotStatus_defined_witness :
  reachable Demo.armedShip
  ∧ getSlot Demo.armedShip (RHardpoint 1) = Some Demo.secondLaser
  ∧ c Demo.secondLaser = Some Demo.laser ∧ power Demo.laser ≠ 0
  ∧ ∃ k, getSlotStatus Demo.armedShip Demo.secondLaser true = Some k ∧ 0 ≤ k ≤ 3.
Proof.
  split; [exact armedShip_reachable|]. split; [reflexivity|]. split; [reflexivity|].
  split; [discriminate|].
  apply (getSlotStatus_defined Demo.armedShip (RHardpoint 1) Demo.secondLaser true
           armedShip_reachable I); [reflexivity|].
  right. right. right. exists Demo.laser. split; [reflexivity|discriminate].
Defined.

Lemma setSlotEnabled_round_trip_witness :
  SaneCatalogue ∧ wellFlagged Demo.armedShip
  ∧ getSlot Demo.armedShip (RHardpoint 1) = Some Demo.secondLaser
  ∧ ∃ s1, setSlotEnabled Demo.armedShip (RHardpoint 1) false = Some s1
      ∧ totalDps s1 = 3
      ∧ setSlotEnabled s1 (RHardpoint 1) (enabled Demo.secondLaser) = Some Demo.armedShip.
Proof.
  split; [exact catalogue_sane|]. split; [exact armedShip_wellFlagged|].
  split; [reflexivity|].
  destruct (setSlotEnabled Demo.armedShip (RHardpoint 1) false) as [s1|] eqn:H1;
    [|by vm_compute in H1].
  destruct (setSlotEnabled s1 (RHardpoint 1) (enabled Demo.secondLaser)) as [s2|] eqn:H2.
  2: { exfalso. revert H2. vm_compute in H1. injection H1 as <-. vm_compute. congruence. }
  exists s1. split; [reflexivity|]. split.
  - vm_compute in H1. injection H1 as <-. reflexivity.
  - rewrite H2. f_equal.
    apply (setSlotEnabled_round_trip Demo.armedShip (RHardpoint 1) Demo.secondLaser false
             s1 s2 catalogue_sane armedShip_wellFlagged I); [reflexivity|exact H1|exact H2].
Defined.

Lemma changePriority_round_trip_witness :
  SaneCatalogue ∧ reachable Demo.armedShip
  ∧ getSlot Demo.armedShip (RHardpoint 1) = Some Demo.secondLaser
  ∧ ∃ s1, changePriority Demo.armedShip (RHardpoint 1) 3 = Some (s1, true)
      ∧ changePriority s1 (RHardpoint 1) (priority Demo.secondLaser)
        = Some (Demo.armedShip, true).
Proof.
  split; [exact catalogue_sane|]. split; [exact armedShip_reachable|].
  split; [reflexivity|].
  destruct (changePriority Demo.armedShip (RHardpoint 1) 3) as [[s1 b1]|] eqn:H1;
    [|by vm_compute in H1].
  assert (b1 = true) as -> by (vm_compute in H1; congruence).
  destruct (changePriority s1 (RHardpoint 1) (priority Demo.secondLaser))
    as [[s2 b2]|] eqn:H2.
  2: { exfalso. revert H2. vm_compute in H1. injection H1 as <-. vm_compute. congruence. }
  assert (b2 = true) as ->.
  { revert H2. vm_compute in H1. injection H1 as <-. vm_compute. congruence. }
  exists s1. split; [reflexivity|]. rewrite H2. do 2 f_equal.
  apply (changePriority_round_trip Demo.armedShip (RHardpoint 1) Demo.secondLaser 3 s1 true s2
           catalogue_sane armedShip_reachable I); [reflexivity|exact H1|exact H2].
Defined.

Lemma emptyHardpoints_spec_witness :
  reachable Demo.armedShip
  ∧ ∃ s', emptyHardpoints Demo.armedShip = Some s'
      ∧ hardpoints s' = vacated <$> hardpoints Demo.armedShip.
Proof.
  split; [exact armedShip_reachable|].
  destruct (emptyHardpoints_spec Demo.armedShip armedShip_reachable)
    as (s' & He & _ & Hhp & _).
  exists s'. split; [exact He|exact Hhp].
Defined.

Lemma emptyInternal_spec_witness :
  reachable Demo.tuned
  ∧ ∃ s', emptyInternal Demo.tuned = Some s'
      ∧ internal s' = vacated <$> internal Demo.tuned.
Proof.
  split; [exact tuned_reachable|].
  destruct (emptyInternal_spec Demo.tuned tuned_reachable) as (s' & He & _ & Hint & _).
  exists s'. split; [exact He|exact Hint].
Defined.


Lemma useStandard_spec_witness :
  reachable Demo.armedShip
  ∧ ∃ s', useStandard Demo.armedShip "A" = Some s' ∧ reachable s'
      ∧ internal s' = internal Demo.armedShip.
Proof.
  split; [exact armedShip_reachable|].
  destruct (useStandard Demo.armedShip "A") as [s'|] eqn:Hs'; [|by vm_compute in Hs'].
  exists s'. split; [reflexivity|].
  destruct (useStandard_spec Demo.armedShip "A" s' armedShip_reachable Hs')
    as (Hr & _ & _ & _ & Hint).
  split; [exact Hr|exact Hint].
Defined.

Lemma useBulkhead_spec_witness :
  reachable Demo.armedShip
  ∧ ∃ s', useBulkhead Demo.armedShip 0 false = Some s'
      ∧ armourMultiplier s' = ArmourMultiplier 0.
Proof.
  split; [exact armedShip_reachable|].
  pose proof (useBulkhead_spec Demo.armedShip 0 armedShip_reachable) as Hspec.
  change (Components_bulkheads (shipId Demo.armedShip) 0) with (Some Demo.lightweightAlloy)
    in Hspec.
  destruct Hspec as (s' & Hs' & _ & _ & _ & _ & Hmul & _).
  exists s'. split; [exact Hs'|exact Hmul].
Defined.

Lemma useBulkhead_round_trip_witness :
  SaneCatalogue ∧ reachable Demo.armedShip
  ∧ ∃ s1, useBulkhead Demo.armedShip 0 false = Some s1
      ∧ armour s1 = 20
      ∧ useBulkhead s1 (bulkheadsId Demo.armedShip) false = Some Demo.armedShip.
Proof.
  split; [exact catalogue_sane|]. split; [exact armedShip_reachable|].
  destruct (useBulkhead Demo.armedShip 0 false) as [s1|] eqn:H1; [|by vm_compute in H1].
  destruct (useBulkhead s1 (bulkheadsId Demo.armedShip) false) as [s2|] eqn:H2.
  2: { exfalso. revert H2. vm_compute in H1. injection H1 as <-. vm_compute. congruence. }
  exists s1. split; [reflexivity|]. split.
  - vm_compute in H1. injection H1 as <-. reflexivity.
  - rewrite H2. f_equal.
    exact (useBulkhead_round_trip Demo.armedShip 0 s1 s2 catalogue_sane armedShip_reachable
             H1 H2).
Defined.

Lemma setSlotEnabled_returns_witness :
  reachable Demo.armedShip
  ∧ getSlot Demo.armedShip (RInternal 0) = Some Demo.shieldSlot
  ∧ is_Some (bandAt (priorityBands Demo.armedShip) (priority Demo.shieldSlot))
  ∧ ∃ s', setSlotEnabled Demo.armedShip (RInternal 0) false = Some s' ∧ reachable s'.
Proof.
  split; [exact armedShip_reachable|]. split; [reflexivity|].
  assert (is_Some (bandAt (priorityBands Demo.armedShip) (priority Demo.shieldSlot)))
    as Hband by (vm_compute; eexists; reflexivity).
  split; [exact Hband|].
  apply (setSlotEnabled_returns Demo.armedShip (RInternal 0) Demo.shieldSlot false
           armedShip_reachable I); [reflexivity|]. right. exact Hband.
Defined.

Lemma changePriority_out_of_range_witness :
  getSlot Demo.armedShip (RHardpoint 0) = Some Demo.firstLaser
  ∧ Z.of_nat (length (priorityBands Demo.armedShip)) ≤ 5
  ∧ changePriority Demo.armedShip (RHardpoint 0) 5 = Some (Demo.armedShip, false).
Proof.
  split; [reflexivity|]. split; [vm_compute; congruence|].
  apply (changePriority_out_of_range Demo.armedShip (RHardpoint 0) Demo.firstLaser 5);
    [reflexivity|]. right. vm_compute. congruence.
Defined.

Lemma changePriority_in_range_witness :
  0 ≤ 1 < Z.of_nat (length (priorityBands Demo.armedShip))
  ∧ ∃ s', changePriority Demo.armedShip (RHardpoint 0) 1 = Some (s', true).
Proof.
  assert (0 ≤ 1 < Z.of_nat (length (priorityBands Demo.armedShip))) as Hrange.
  { vm_compute. split; congruence. }
  split; [exact Hrange|].
  destruct (changePriority Demo.armedShip (RHardpoint 0) 1) as [[s' b]|] eqn:H1;
    [|by vm_compute in H1].
  exists s'. do 2 f_equal.
  exact (changePriority_in_range Demo.armedShip (RHardpoint 0) 1 s' b Hrange H1).
Defined.

End FurtherEvaluation.
